(** * Modern-LaTeX-Editor: the LaTeX <-> HTML converter of [src/lib/latex]

    A shallow embedding of [escapeLatex], [unescapeLatex], [latexToHtml] and
    [htmlToLatex], and the properties of the converter that the
    specification states about them; then of three functions around the
    converter, [summarizeLatexLog], the document that [handleVisualInput]
    writes back and the file name of [exportAsPDF], and further properties
    of all of them.

    Modelling conventions.
    - A JavaScript string is a sequence of UTF-16 code units: [jsstring] is
      [list N].  [lit] turns a Rocq string literal into one, [html] does the
      same and reads every apostrophe of the literal as a double quote (the
      HTML literals of the source hold double quotes and no apostrophe).
    - [s.replace(/re/g, r)] is [replaceWith m f s]: [m] is the matcher of
      [re] at one position of the subject and [f] builds the replacement
      from the captures.  A matcher is written with a few combinators that
      follow the regular expression from left to right.  None of the
      regular expressions of the source needs backtracking beyond "extend a
      lazy group to the next occurrence of what follows it", which
      [lazyUntil] implements: what follows a lazy group is a literal, and
      where a second lazy group follows, its own match only gets harder
      the further right it starts.
    - An exception is a value: [completion A] is either [Normal a] or
      [Throw e].  The exceptions the converter can meet are the [URIError]
      of [encodeURIComponent] and [decodeURIComponent] and the [TypeError]
      of reading a style property of an element that has no [style].
    - [protectedBlocks] is threaded through the protect passes as the state
      of a small monad, [M].
    - The DOM is a platform service.  [htmlToLatex] takes the parser behind
      [innerHTML] as an argument; an element carries what the code reads
      from it: tag name, attributes, the inline style as the CSS object
      model resolves it and the live [value] property.  [innerHTML]
      serialises a tree; it says which markup a tree stands for.

    The first part holds the definitions, the second part the lemmas and,
    under the number of the claim it settles, the theorems; the further
    properties are numbered X1, X2, ... *)

From Stdlib Require Import Ascii String DecimalString.
From Stdlib Require Import NArith ZArith Bool Lia List.
Import ListNotations.

Local Open Scope N_scope.

(** ** Strings *)

Abbreviation char := N (only parsing).
Abbreviation jsstring := (list N) (only parsing).

Definition lit (s : string) : jsstring :=
  map N_of_ascii (list_ascii_of_string s).

Definition html (s : string) : jsstring :=
  map (fun c => if c =? 39 then 34 else c) (lit s).

Definition nl : jsstring := [10].

Notation "x |> f" := (f x) (at level 45, left associativity, only parsing).

(** WhiteSpace and LineTerminator of ECMAScript: the class [\s] and the
    characters removed by [trim]. *)
Definition isWhiteSpace (c : char) : bool :=
  ((9 <=? c) && (c <=? 13)) || (c =? 32) || (c =? 160) || (c =? 5760)
  || ((8192 <=? c) && (c <=? 8202)) || (c =? 8232) || (c =? 8233)
  || (c =? 8239) || (c =? 8287) || (c =? 12288) || (c =? 65279).

(** The class [\d]. *)
Definition isDigit (c : char) : bool := (48 <=? c) && (c <=? 57).

(** The class [[a-zA-Z]]. *)
Definition isAlpha (c : char) : bool :=
  ((65 <=? c) && (c <=? 90)) || ((97 <=? c) && (c <=? 122)).

(** The class [[0-9a-fA-F]]. *)
Definition isHexDigit (c : char) : bool :=
  isDigit c || ((65 <=? c) && (c <=? 70)) || ((97 <=? c) && (c <=? 102)).

(** What [.] refuses: the line terminators. *)
Definition isLineTerminator (c : char) : bool :=
  (c =? 10) || (c =? 13) || (c =? 8232) || (c =? 8233).

Fixpoint eqs (a b : jsstring) : bool :=
  match a, b with
  | [], [] => true
  | x :: a', y :: b' => (x =? y) && eqs a' b'
  | _, _ => false
  end.

(** [stripPrefix p s] is what follows [p] when [s] starts with [p]. *)
Fixpoint stripPrefix (p s : jsstring) : option jsstring :=
  match p with
  | [] => Some s
  | a :: p' =>
      match s with
      | [] => None
      | b :: s' => if a =? b then stripPrefix p' s' else None
      end
  end.

Definition startsWith (p s : jsstring) : bool :=
  match stripPrefix p s with Some _ => true | None => false end.

(** [String.prototype.includes]. *)
Fixpoint includes (p s : jsstring) : bool :=
  startsWith p s ||
  match s with
  | [] => false
  | _ :: s' => includes p s'
  end.

Fixpoint dropWhile (f : char -> bool) (s : jsstring) : jsstring :=
  match s with
  | [] => []
  | c :: s' => if f c then dropWhile f s' else s
  end.

Fixpoint takeWhile (f : char -> bool) (s : jsstring) : jsstring :=
  match s with
  | [] => []
  | c :: s' => if f c then c :: takeWhile f s' else []
  end.

(** [String.prototype.trim]. *)
Definition trimStart (s : jsstring) : jsstring := dropWhile isWhiteSpace s.
Definition trimEnd (s : jsstring) : jsstring := rev (dropWhile isWhiteSpace (rev s)).
Definition trim (s : jsstring) : jsstring := trimEnd (trimStart s).

(** [Array.prototype.join]. *)
Fixpoint join (sep : jsstring) (l : list jsstring) : jsstring :=
  match l with
  | [] => []
  | [x] => x
  | x :: l' => x ++ sep ++ join sep l'
  end.

(** ** Matching *)

(** A parser consumes a prefix of its input and returns what it captured
    with the rest of the input. *)
Definition parser (A : Type) := jsstring -> option (A * jsstring).

Definition pret {A} (a : A) : parser A := fun s => Some (a, s).

Definition pbind {A B} (p : parser A) (k : A -> parser B) : parser B :=
  fun s => match p s with
           | Some (a, rest) => k a rest
           | None => None
           end.

Declare Scope parser_scope.
Delimit Scope parser_scope with parser.
Notation "x <- p ;; k" := (pbind p (fun x => k))
  (at level 61, p at next level, right associativity) : parser_scope.
Notation "p ;;; k" := (pbind p (fun _ => k))
  (at level 61, right associativity) : parser_scope.

(** A literal. *)
Definition str (p : jsstring) : parser unit :=
  fun s => match stripPrefix p s with
           | Some rest => Some (tt, rest)
           | None => None
           end.

(** [c*] and [c+] for a character class, greedy. *)
Definition many (f : char -> bool) : parser jsstring :=
  fun s => Some (takeWhile f s, dropWhile f s).

Definition many1 (f : char -> bool) : parser jsstring :=
  fun s => match takeWhile f s with
           | [] => None
           | t => Some (t, dropWhile f s)
           end.

(** [(C*?)close] for a character class [C]: the shortest capture, made of
    code units of the class, that [close] follows. *)
Fixpoint lazyUntilIn (ok : char -> bool) (close : jsstring) (s : jsstring)
  : option (jsstring * jsstring) :=
  match stripPrefix close s with
  | Some rest => Some ([], rest)
  | None =>
      match s with
      | [] => None
      | c :: s' =>
          if ok c then
            match lazyUntilIn ok close s' with
            | Some (cap, rest) => Some (c :: cap, rest)
            | None => None
            end
          else None
      end
  end.

(** [([\s\S]*?)close]. *)
Definition lazyUntil (close : jsstring) : parser jsstring :=
  lazyUntilIn (fun _ => true) close.

(** One code unit of a class. *)
Definition one (f : char -> bool) : parser char :=
  fun s => match s with
           | c :: s' => if f c then Some (c, s') else None
           | [] => None
           end.

(** [re.exec] without the [g] flag: the first position where [p] matches. *)
Fixpoint search {A} (p : parser A) (s : jsstring) : option A :=
  match p s with
  | Some (a, _) => Some a
  | None =>
      match s with
      | [] => None
      | _ :: s' => search p s'
      end
  end.

(** A matcher also sees the code unit before the position it is tried at
    (for a lookbehind). *)
Definition matcher (A : Type) := option char -> parser A.

Definition anywhere {A} (p : parser A) : matcher A := fun _ => p.

Inductive segment (A : Type) : Type :=
| Keep (c : char)
| Hit (a : A).
Arguments Keep {A} c.
Arguments Hit {A} a.

(** The code unit of [s] that comes just before its suffix [rest]. *)
Definition lastBefore (prev : option char) (s rest : jsstring) : option char :=
  match (length s - length rest)%nat with
  | O => prev
  | S k => nth_error s k
  end.

(** The matches of a global regular expression, from left to right: where
    the matcher fails one code unit is kept and the scan moves on by one;
    after a match it resumes behind the match.  The fuel is the length of
    the subject. *)
Fixpoint scan {A} (fuel : nat) (m : matcher A) (prev : option char) (s : jsstring)
  : list (segment A) :=
  match fuel with
  | O => map Keep s
  | S fuel' =>
      match s with
      | [] => []
      | c :: s' =>
          match m prev s with
          | Some (a, rest) => Hit a :: scan fuel' m (lastBefore prev s rest) rest
          | None => Keep c :: scan fuel' m (Some c) s'
          end
      end
  end.

Definition render {A} (f : A -> jsstring) (seg : segment A) : jsstring :=
  match seg with
  | Keep c => [c]
  | Hit a => f a
  end.

(** [s.replace(/re/g, f)]. *)
Definition replaceWith {A} (m : matcher A) (f : A -> jsstring) (s : jsstring) : jsstring :=
  concat (map (render f) (scan (length s) m None s)).

(** [s.replace(/literal/g, rep)]. *)
Definition replaceAll (pat rep : jsstring) (s : jsstring) : jsstring :=
  replaceWith (anywhere (str pat)) (fun _ => rep) s.

(** [s.replace(/^re/, rep)]. *)
Definition replaceAtStart {A} (p : parser A) (f : A -> jsstring) (s : jsstring) : jsstring :=
  match p s with
  | Some (a, rest) => f a ++ rest
  | None => s
  end.

(** [String.prototype.split] with a non-empty string separator. *)
Fixpoint splitAcc (cur : jsstring) (segs : list (segment unit)) : list jsstring :=
  match segs with
  | [] => [rev cur]
  | Keep c :: segs' => splitAcc (c :: cur) segs'
  | Hit _ :: segs' => rev cur :: splitAcc [] segs'
  end.

Definition split (sep : jsstring) (s : jsstring) : list jsstring :=
  splitAcc [] (scan (length s) (anywhere (str sep)) None s).

(** ** Escaper *)

Definition escapeLatex (text : jsstring) : jsstring :=
  text
  |> replaceAll (lit "\") (lit "\textbackslash{}")
  |> replaceAll (lit "{") (lit "\{")
  |> replaceAll (lit "}") (lit "\}")
  |> replaceAll (lit "$") (lit "\$")
  |> replaceAll (lit "&") (lit "\&")
  |> replaceAll (lit "#") (lit "\#")
  |> replaceAll (lit "%") (lit "\%")
  |> replaceAll (lit "_") (lit "\_")
  |> replaceAll (lit "^") (lit "\textasciicircum{}")
  |> replaceAll (lit "~") (lit "\textasciitilde{}").

Definition unescapeLatex (text : jsstring) : jsstring :=
  text
  |> replaceAll (lit "\textbackslash{}") (lit "\")
  |> replaceAll (lit "\{") (lit "{")
  |> replaceAll (lit "\}") (lit "}")
  |> replaceAll (lit "\$") (lit "$")
  |> replaceAll (lit "\&") (lit "&")
  |> replaceAll (lit "\#") (lit "#")
  |> replaceAll (lit "\%") (lit "%")
  |> replaceAll (lit "\_") (lit "_")
  |> replaceAll (lit "\textasciicircum{}") (lit "^")
  |> replaceAll (lit "\textasciitilde{}") (lit "~").


(** ** Exceptions and the protected-block store *)

Inductive exn : Type := URIError | TypeError.

Inductive completion (A : Type) : Type :=
| Normal (a : A)
| Throw (e : exn).
Arguments Normal {A} a.
Arguments Throw {A} e.

(** The scratch list [protectedBlocks] of one call of [latexToHtml]. *)
Abbreviation store := (list (list N)) (only parsing).

(** A computation that reads and extends the store and may throw. *)
Definition M (A : Type) := store -> completion (A * store).

Definition ret {A} (a : A) : M A := fun st => Normal (a, st).

Definition bind {A B} (c : M A) (k : A -> M B) : M B :=
  fun st => match c st with
            | Normal (a, st') => k a st'
            | Throw e => Throw e
            end.

Definition lift {A} (c : completion A) : M A :=
  fun st => match c with
            | Normal a => Normal (a, st)
            | Throw e => Throw e
            end.

Declare Scope store_scope.
Delimit Scope store_scope with store.
Notation "x <- c ;; k" := (bind c (fun x => k))
  (at level 61, c at next level, right associativity) : store_scope.

(** The replacement function of a [replace] is called once per match, from
    left to right. *)
Fixpoint renderM {A} (f : A -> M jsstring) (segs : list (segment A)) : M jsstring :=
  match segs with
  | [] => ret []
  | Keep c :: segs' => (out <- renderM f segs' ;; ret (c :: out))%store
  | Hit a :: segs' => (x <- f a ;; out <- renderM f segs' ;; ret (x ++ out))%store
  end.

Definition replaceM {A} (m : matcher A) (f : A -> M jsstring) (s : jsstring) : M jsstring :=
  renderM f (scan (length s) m None s).

(** Decimal notation of an index. *)
Definition decimal (n : nat) : jsstring :=
  lit (NilEmpty.string_of_uint (Nat.to_uint n)).

Definition digitValue (c : char) : N := c - 48.

Definition digitsValue (ds : jsstring) : N :=
  fold_left (fun acc c => 10 * acc + digitValue c) ds 0.

Definition token (index : nat) : jsstring :=
  lit "__PROTECTED_BLOCK_" ++ decimal index ++ lit "__".

Definition protect (str : jsstring) : M jsstring :=
  fun protectedBlocks =>
    Normal (token (length protectedBlocks), protectedBlocks ++ [str]).

(** [protectedBlocks[i]] for the digits [i] captured by the restore pass:
    an array is indexed by the canonical decimal notation of a position;
    any other key is [undefined], which [replace] turns into a string. *)
Definition block (protectedBlocks : store) (i : jsstring) : jsstring :=
  let n := digitsValue i in
  if (n <? N.of_nat (length protectedBlocks)) && eqs (decimal (N.to_nat n)) i
  then nth (N.to_nat n) protectedBlocks (lit "undefined")
  else lit "undefined".

(** ** URI components *)

Definition isHighSurrogate (c : char) : bool := (55296 <=? c) && (c <=? 56319).
Definition isLowSurrogate (c : char) : bool := (56320 <=? c) && (c <=? 57343).

(** The code units [encodeURIComponent] leaves alone. *)
Definition isUnreserved (c : char) : bool :=
  isAlpha c || isDigit c || existsb (N.eqb c) (lit "-_.!~*'()").

Definition hexUpper (d : N) : char := if d <? 10 then 48 + d else 55 + d.

Definition percent (b : N) : jsstring := [37; hexUpper (b / 16); hexUpper (b mod 16)].

(** The UTF-8 octets of a code point. *)
Definition utf8 (cp : N) : list N :=
  if cp <? 128 then [cp]
  else if cp <? 2048 then [192 + cp / 64; 128 + cp mod 64]
  else if cp <? 65536 then
    [224 + cp / 4096; 128 + (cp / 64) mod 64; 128 + cp mod 64]
  else
    [240 + cp / 262144; 128 + (cp / 4096) mod 64; 128 + (cp / 64) mod 64;
     128 + cp mod 64].

Definition percentEncode (cp : N) : jsstring := concat (map percent (utf8 cp)).

Definition pairCodePoint (hi lo : char) : N :=
  65536 + (hi - 55296) * 1024 + (lo - 56320).

Definition cmap {A B} (f : A -> B) (c : completion A) : completion B :=
  match c with
  | Normal a => Normal (f a)
  | Throw e => Throw e
  end.

(** [encodeURIComponent]: a surrogate that is not part of a pair makes it
    throw [URIError]. *)
Fixpoint encodeURIComponent (s : jsstring) : completion jsstring :=
  match s with
  | [] => Normal []
  | c :: s' =>
      if isUnreserved c then cmap (cons c) (encodeURIComponent s')
      else if isLowSurrogate c then Throw URIError
      else if isHighSurrogate c then
        match s' with
        | d :: s'' =>
            if isLowSurrogate d
            then cmap (app (percentEncode (pairCodePoint c d))) (encodeURIComponent s'')
            else Throw URIError
        | [] => Throw URIError
        end
      else cmap (app (percentEncode c)) (encodeURIComponent s')
  end.

Definition hexValue (c : char) : option N :=
  if isDigit c then Some (c - 48)
  else if (65 <=? c) && (c <=? 70) then Some (c - 55)
  else if (97 <=? c) && (c <=? 102) then Some (c - 87)
  else None.

Definition fail {A} : parser A := fun _ => None.

(** An escape [%XX]. *)
Definition hexOctet : parser N :=
  (str [37] ;;;
   h <- one isHexDigit ;;
   l <- one isHexDigit ;;
   match hexValue h, hexValue l with
   | Some a, Some b => pret (16 * a + b)
   | _, _ => fail
   end)%parser.

(** An escape holding a continuation octet [10xxxxxx]; its six bits. *)
Definition continuation : parser N :=
  (b <- hexOctet ;;
   if (128 <=? b) && (b <? 192) then pret (b - 128) else fail)%parser.

(** The UTF-16 code units of a code point decoded from [n] octets: an
    overlong form, a surrogate and a value beyond U+10FFFF are not UTF-8. *)
Definition utf16 (least cp : N) : parser jsstring :=
  if (cp <? least) || ((55296 <=? cp) && (cp <=? 57343)) || (1114111 <? cp)
  then fail
  else if cp <? 65536 then pret [cp]
  else pret [55296 + (cp - 65536) / 1024; 56320 + (cp - 65536) mod 1024].

(** What one [%] of the input stands for, with the escapes that continue it. *)
Definition decodeEscape : parser jsstring :=
  (b <- hexOctet ;;
   if b <? 128 then pret [b]
   else if b <? 192 then fail
   else if b <? 224 then
     c1 <- continuation ;;
     utf16 128 ((b - 192) * 64 + c1)
   else if b <? 240 then
     c1 <- continuation ;;
     c2 <- continuation ;;
     utf16 2048 (((b - 224) * 64 + c1) * 64 + c2)
   else if b <? 248 then
     c1 <- continuation ;;
     c2 <- continuation ;;
     c3 <- continuation ;;
     utf16 65536 ((((b - 240) * 64 + c1) * 64 + c2) * 64 + c3)
   else fail)%parser.

Fixpoint decodeLoop (fuel : nat) (s : jsstring) : completion jsstring :=
  match s with
  | [] => Normal []
  | c :: s' =>
      match fuel with
      | O => Normal s
      | S fuel' =>
          if c =? 37 then
            match decodeEscape s with
            | Some (t, rest) => cmap (app t) (decodeLoop fuel' rest)
            | None => Throw URIError
            end
          else cmap (cons c) (decodeLoop fuel' s')
      end
  end.

(** [decodeURIComponent]: a malformed escape makes it throw [URIError]. *)
Definition decodeURIComponent (s : jsstring) : completion jsstring :=
  decodeLoop (length s) s.

(** ** Markup -> tree: [latexToHtml] *)

(** The regular expressions of the protect passes. *)

(** [/\\begin\{verbatim\}([\s\S]*?)\\end\{verbatim\}/] and the other
    environments and commands of that shape. *)
Definition between (open close : jsstring) : parser jsstring :=
  (str open ;;; lazyUntil close)%parser.

(** [/\\begin\{itemize\}\s*\\item\[\$\\square\$\]([\s\S]*?)\\end\{itemize\}/] *)
Definition reCheckboxList : parser jsstring :=
  (str (lit "\begin{itemize}") ;;;
   many isWhiteSpace ;;;
   str (lit "\item[$\square$]") ;;;
   lazyUntil (lit "\end{itemize}"))%parser.

Definition notDollar (c : char) : bool := negb (c =? 36).

(** [/(?<!\\)\$([^$]+?)\$/] *)
Definition reInlineMath : matcher jsstring :=
  fun prev =>
    match prev with
    | Some 92 => fail
    | _ =>
        (str (lit "$") ;;;
         c <- one notDollar ;;
         m <- lazyUntilIn notDollar (lit "$") ;;
         pret (c :: m))%parser
    end.

(** [/\\section\s*\{([\s\S]*?)\}/] and the two other headings. *)
Definition reHeading (name : jsstring) : parser jsstring :=
  (str name ;;; many isWhiteSpace ;;; str (lit "{") ;;; lazyUntil (lit "}"))%parser.

Definition notBackslashOrNewline (c : char) : bool :=
  negb (c =? 92) && negb (c =? 10).

(** [/\\tiny\s+([\s\S]*?)(?=\\|\n|$)/] and the nine other sizes: the capture
    stops before the next backslash or newline, or at the end of input. *)
Definition reSize (name : jsstring) : parser jsstring :=
  (str name ;;; many1 isWhiteSpace ;;; many notBackslashOrNewline)%parser.

(** [([a-zA-Z]+|#[0-9a-fA-F]{6})] *)
Definition reColorArg : parser jsstring :=
  fun s =>
    match many1 isAlpha s with
    | Some r => Some r
    | None =>
        (str (lit "#") ;;;
         h1 <- one isHexDigit ;; h2 <- one isHexDigit ;; h3 <- one isHexDigit ;;
         h4 <- one isHexDigit ;; h5 <- one isHexDigit ;; h6 <- one isHexDigit ;;
         pret (lit "#" ++ [h1; h2; h3; h4; h5; h6]))%parser s
    end.

(** [/\\textcolor\{([a-zA-Z]+|#[0-9a-fA-F]{6})\}\{([\s\S]*?)\}/], and
    [\colorbox]. *)
Definition reColored (name : jsstring) : parser (jsstring * jsstring) :=
  (str name ;;; str (lit "{") ;;;
   c <- reColorArg ;;
   str (lit "}{") ;;;
   t <- lazyUntil (lit "}") ;;
   pret (c, t))%parser.

(** [/\\href\{([\s\S]*?)\}\{([\s\S]*?)\}/] *)
Definition reHref : parser (jsstring * jsstring) :=
  (str (lit "\href{") ;;;
   u <- lazyUntil (lit "}{") ;;
   t <- lazyUntil (lit "}") ;;
   pret (u, t))%parser.

(** [/\\includegraphics\[.*?\]\{([\s\S]*?)\}/] *)
Definition reGraphicsOpt : parser jsstring :=
  (str (lit "\includegraphics[") ;;;
   lazyUntilIn (fun c => negb (isLineTerminator c)) (lit "]{") ;;;
   lazyUntil (lit "}"))%parser.

(** [/__PROTECTED_BLOCK_(\d+)__/] *)
Definition reToken : parser jsstring :=
  (str (lit "__PROTECTED_BLOCK_") ;;;
   i <- many1 isDigit ;;
   str (lit "__") ;;;
   pret i)%parser.

Definition wrap (before after : jsstring) (inner : jsstring) : jsstring :=
  before ++ inner ++ after.

Definition isEmpty (s : jsstring) : bool :=
  match s with [] => true | _ => false end.

(** The callback of the two generic list rules:
    [i.split('\\item').filter(t=>t.trim()).map(t=>`<li>${t.trim()}</li>`).join('')] *)
Definition listItems (i : jsstring) : jsstring :=
  join [] (map (fun t => lit "<li>" ++ trim t ++ lit "</li>")
             (filter (fun t => negb (isEmpty (trim t))) (split (lit "\item") i))).

(** The callback of the checkbox-list rule. *)
Definition checkboxList (i : jsstring) : jsstring :=
  html "<ul style='list-style-type: none;'>"
  ++ replaceAtStart (str (lit "</li>")) (fun _ => [])
       (join (html "</li><li><input type='checkbox' disabled> ")
          (split (lit "\item[$\square$]") i))
  ++ lit "</li></ul>".

Definition mathBlockOpen : jsstring :=
  html "<div class='math-block not-prose my-4 text-center cursor-pointer hover:bg-blue-50 transition-colors rounded py-2' contenteditable='false' data-latex='".

Definition mathInlineOpen : jsstring :=
  html "<span class='math-inline not-prose px-1 cursor-pointer hover:bg-blue-50 transition-colors rounded' contenteditable='false' data-latex='".

Definition sizeRule (name pt : string) (content : jsstring) : jsstring :=
  replaceWith (anywhere (reSize (lit name)))
    (wrap (html "<span style='font-size: " ++ lit pt ++ html "'>") (lit "</span>"))
    content.

Section Forward.

(** [window.katex], when it is there: its [renderToString] returns the
    typeset markup or throws ([None]). *)
Variable katex : option (jsstring -> bool -> option jsstring).

Definition renderMath (math : jsstring) (displayMode : bool) : jsstring :=
  match katex with
  | Some renderToString =>
      match renderToString math displayMode with
      | Some typeset => typeset
      | None => html "<span class='text-red-500'>Error</span>"
      end
  | None =>
      if displayMode
      then html "<div class='math-placeholder'>\[" ++ math ++ lit "\]</div>"
      else html "<span class='math-placeholder'>$" ++ math ++ lit "$</span>"
  end.

Definition protectDisplayMath (m : jsstring) : M jsstring :=
  (e <- lift (encodeURIComponent m) ;;
   protect (mathBlockOpen ++ e ++ html "'>" ++ renderMath m true ++ lit "</div>"))%store.

Definition protectInlineMath (m : jsstring) : M jsstring :=
  (e <- lift (encodeURIComponent m) ;;
   protect (mathInlineOpen ++ e ++ html "'>" ++ renderMath m false ++ lit "</span>"))%store.

(** PROTECT BLOCKS *)
Definition protectBlocks (content : jsstring) : M jsstring :=
  (content <- replaceM (anywhere (between (lit "\begin{verbatim}") (lit "\end{verbatim}")))
     (fun c => protect (html "<pre class='bg-slate-100 p-3 rounded font-mono text-sm my-4 border border-slate-200 overflow-x-auto' contenteditable='false'>" ++ c ++ lit "</pre>"))
     content ;;
   content <- replaceM (anywhere reCheckboxList)
     (fun i => protect (checkboxList i)) content ;;
   content <- replaceM (anywhere (between (lit "\[") (lit "\]")))
     protectDisplayMath content ;;
   content <- replaceM (anywhere (between (lit "$$") (lit "$$")))
     protectDisplayMath content ;;
   content <- replaceM reInlineMath protectInlineMath content ;;
   replaceM (anywhere (between (lit "\texttt{") (lit "}")))
     (fun c => protect (html "<code class='bg-slate-100 px-1.5 py-0.5 rounded text-sm font-mono text-pink-600'>" ++ c ++ lit "</code>"))
     content)%store.

(** FORMATTING *)
Definition formatting (content : jsstring) : jsstring :=
  content
  |> replaceWith (anywhere (reHeading (lit "\section"))) (wrap (lit "<h1>") (lit "</h1>"))
  |> replaceWith (anywhere (reHeading (lit "\subsection"))) (wrap (lit "<h2>") (lit "</h2>"))
  |> replaceWith (anywhere (reHeading (lit "\subsubsection"))) (wrap (lit "<h3>") (lit "</h3>"))
  |> replaceWith (anywhere (between (lit "\textbf{") (lit "}"))) (wrap (lit "<b>") (lit "</b>"))
  |> replaceWith (anywhere (between (lit "\textit{") (lit "}"))) (wrap (lit "<i>") (lit "</i>"))
  |> replaceWith (anywhere (between (lit "\underline{") (lit "}"))) (wrap (lit "<u>") (lit "</u>"))
  |> replaceWith (anywhere (between (lit "\textsf{") (lit "}")))
       (wrap (html "<span style='font-family: sans-serif'>") (lit "</span>"))
  |> sizeRule "\tiny" "5pt"
  |> sizeRule "\scriptsize" "7pt"
  |> sizeRule "\footnotesize" "8pt"
  |> sizeRule "\small" "9pt"
  |> sizeRule "\normalsize" "10pt"
  |> sizeRule "\large" "12pt"
  |> sizeRule "\Large" "14.4pt"
  |> sizeRule "\LARGE" "17.28pt"
  |> sizeRule "\huge" "20.74pt"
  |> sizeRule "\Huge" "24.88pt"
  |> replaceWith (anywhere (reColored (lit "\textcolor")))
       (fun '(c, t) => html "<span style='color: " ++ c ++ html "'>" ++ t ++ lit "</span>")
  |> replaceWith (anywhere (reColored (lit "\colorbox")))
       (fun '(c, t) => html "<span style='background-color: " ++ c ++ html "'>" ++ t ++ lit "</span>")
  |> replaceWith (anywhere (between (lit "\begin{center}") (lit "\end{center}")))
       (wrap (html "<div style='text-align: center'>") (lit "</div>"))
  |> replaceWith (anywhere (between (lit "\begin{flushright}") (lit "\end{flushright}")))
       (wrap (html "<div style='text-align: right'>") (lit "</div>"))
  |> replaceWith (anywhere (between (lit "\begin{flushleft}") (lit "\end{flushleft}")))
       (wrap (html "<div style='text-align: left'>") (lit "</div>"))
  |> replaceWith (anywhere reHref)
       (fun '(u, t) => html "<a href='" ++ u ++ html "'>" ++ t ++ lit "</a>")
  |> replaceWith (anywhere reGraphicsOpt)
       (wrap (html "<img src='") (html "' style='max-width:100%' />"))
  |> replaceWith (anywhere (between (lit "\includegraphics{") (lit "}")))
       (wrap (html "<img src='") (html "' style='max-width:100%' />"))
  |> replaceWith (anywhere (between (lit "\begin{itemize}") (lit "\end{itemize}")))
       (fun i => lit "<ul>" ++ listItems i ++ lit "</ul>")
  |> replaceWith (anywhere (between (lit "\begin{enumerate}") (lit "\end{enumerate}")))
       (fun i => lit "<ol>" ++ listItems i ++ lit "</ol>").

(** SPACING FIX *)
Definition spacingFix (content : jsstring) : jsstring :=
  content
  |> replaceAll (lit "\\") (lit "<br/>")
  |> replaceAll nl (lit " ").

(** The last pass: every token goes back to the block of its index. *)
Definition restoreAll (content : jsstring) : M jsstring :=
  fun protectedBlocks =>
    Normal (replaceWith (anywhere reToken) (block protectedBlocks) content,
            protectedBlocks).

Definition latexToHtml (latex : jsstring) : completion jsstring :=
  if isEmpty latex then Normal []
  else
    let bodyMatch := search (between (lit "\begin{document}") (lit "\end{document}")) latex in
    let content := match bodyMatch with Some body => body | None => latex end in
    match (content <- protectBlocks content ;;
           restoreAll (unescapeLatex (spacingFix (formatting content))))%store []
    with
    | Normal (content, _) => Normal content
    | Throw e => Throw e
    end.

End Forward.

(** ** The document tree *)

(** [node.style]: the inline style as the CSS object model resolves it; a
    property that is not set reads as the empty string. *)
Record CSSStyleDeclaration : Type := mkStyle {
  color : jsstring;
  backgroundColor : jsstring;
  textAlign : jsstring;
  fontSize : jsstring;
  fontFamily : jsstring
}.

(** An element.  [style] is [None] where the platform gives the element
    no [style] property (an element that is not an HTML element, where
    the platform keeps [style] to those): [node.style] is [undefined]
    there. *)
Record element : Type := mkElement {
  tagName : jsstring;
  attributes : list (jsstring * jsstring);
  style : option CSSStyleDeclaration;
  value : jsstring
}.

(** [nodeType] is 3 for a text node and 1 for an element; the parser also
    builds comments. *)
#[warnings="-register-all"]
Inductive node : Type :=
| TextNode (data : jsstring)
| ElementNode (e : element) (childNodes : list node)
| CommentNode (data : jsstring).

Definition noStyle : CSSStyleDeclaration := mkStyle [] [] [] [] [].

(** [String.prototype.toLowerCase], on the ASCII letters: a tag name is
    only ever compared with a literal made of ASCII letters other than k,
    and no other code unit turns into one of those. *)
Definition toLowerCase (s : jsstring) : jsstring :=
  map (fun c => if (65 <=? c) && (c <=? 90) then c + 32 else c) s.

(** [node.getAttribute(name)], [None] for [null]. *)
Fixpoint getAttribute (name : jsstring) (attrs : list (jsstring * jsstring))
  : option jsstring :=
  match attrs with
  | [] => None
  | (k, v) :: attrs' => if eqs k name then Some v else getAttribute name attrs'
  end.

(** The separators of a token list: the ASCII whitespace of HTML. *)
Definition isAsciiSpace (c : char) : bool :=
  (c =? 9) || (c =? 10) || (c =? 12) || (c =? 13) || (c =? 32).

Fixpoint tokens (cur : jsstring) (s : jsstring) : list jsstring :=
  match s with
  | [] => match cur with [] => [] | _ => [rev cur] end
  | c :: s' =>
      if isAsciiSpace c
      then match cur with [] => tokens [] s' | _ => rev cur :: tokens [] s' end
      else tokens (c :: cur) s'
  end.

(** [node.classList.contains(name)] *)
Definition classListContains (e : element) (name : jsstring) : bool :=
  match getAttribute (lit "class") (attributes e) with
  | Some v => existsb (eqs name) (tokens [] v)
  | None => false
  end.

(** The first element, in document order, that [sel] accepts. *)
Fixpoint firstMatch (sel : element -> bool) (n : node) : option element :=
  match n with
  | ElementNode e kids =>
      if sel e then Some e
      else
        (fix among (l : list node) : option element :=
           match l with
           | [] => None
           | k :: l' =>
               match firstMatch sel k with
               | Some found => Some found
               | None => among l'
               end
           end) kids
  | _ => None
  end.

(** [node.querySelector(sel)]: the descendants of the node, not the node. *)
Fixpoint querySelector (sel : element -> bool) (childNodes : list node)
  : option element :=
  match childNodes with
  | [] => None
  | k :: l =>
      match firstMatch sel k with
      | Some found => Some found
      | None => querySelector sel l
      end
  end.

Definition hasTag (name : jsstring) (e : element) : bool :=
  eqs (toLowerCase (tagName e)) name.

(** [input[type="checkbox"]]: in an HTML document the selector compares
    the value of [type] without regard to the case of ASCII letters. *)
Definition isCheckboxInput (e : element) : bool :=
  hasTag (lit "input") e &&
  match getAttribute (lit "type") (attributes e) with
  | Some v => eqs (toLowerCase v) (lit "checkbox")
  | None => false
  end.

(** [node.textContent] *)
Fixpoint textContent (n : node) : jsstring :=
  match n with
  | TextNode data => data
  | ElementNode _ kids =>
      (fix all (l : list node) : jsstring :=
         match l with
         | [] => []
         | k :: l' => textContent k ++ all l'
         end) kids
  | CommentNode _ => []
  end.

(** Serialisation of a fragment, as [innerHTML] reads it back: it relates
    the markup [latexToHtml] returns to the tree [htmlToLatex] walks. *)
Definition escapeText (s : jsstring) : jsstring :=
  s |> replaceAll (lit "&") (lit "&amp;")
    |> replaceAll [160] (lit "&nbsp;")
    |> replaceAll (lit "<") (lit "&lt;")
    |> replaceAll (lit ">") (lit "&gt;").

Definition escapeAttribute (s : jsstring) : jsstring :=
  s |> replaceAll (lit "&") (lit "&amp;")
    |> replaceAll [160] (lit "&nbsp;")
    |> replaceAll [34] (lit "&quot;").

Definition isVoid (tag : jsstring) : bool :=
  existsb (eqs tag) (map lit ["br"; "img"; "input"; "hr"]%string).

Definition serializeAttributes (attrs : list (jsstring * jsstring)) : jsstring :=
  concat (map (fun '(k, v) => lit " " ++ k ++ [61; 34] ++ escapeAttribute v ++ [34]) attrs).

Fixpoint outerHTML (n : node) : jsstring :=
  match n with
  | TextNode data => escapeText data
  | ElementNode e kids =>
      let tag := toLowerCase (tagName e) in
      lit "<" ++ tag ++ serializeAttributes (attributes e) ++ lit ">"
      ++ (if isVoid tag then []
          else
            (fix all (l : list node) : jsstring :=
               match l with
               | [] => []
               | k :: l' => outerHTML k ++ all l'
               end) kids
            ++ lit "</" ++ tag ++ lit ">")
  | CommentNode data => lit "<!--" ++ data ++ lit "-->"
  end.

Definition innerHTML (childNodes : list node) : jsstring :=
  concat (map outerHTML childNodes).

(** ** Tree -> markup: [htmlToLatex] *)

(** [/^rgba?\(\s*(\d+)\s*,\s*(\d+)\s*,\s*(\d+)/i] *)
Definition strIgnoreCase (p : jsstring) : parser unit :=
  fun s =>
    if eqs (toLowerCase (firstn (length p) s)) p
    then Some (tt, skipn (length p) s)
    else None.

Definition optional (p : parser unit) : parser unit :=
  fun s => match p s with
           | Some r => Some r
           | None => Some (tt, s)
           end.

Definition reRgb : parser (jsstring * jsstring * jsstring) :=
  (strIgnoreCase (lit "rgb") ;;;
   optional (strIgnoreCase (lit "a")) ;;;
   str (lit "(") ;;;
   many isWhiteSpace ;;; r <- many1 isDigit ;;
   many isWhiteSpace ;;; str (lit ",") ;;;
   many isWhiteSpace ;;; g <- many1 isDigit ;;
   many isWhiteSpace ;;; str (lit ",") ;;;
   many isWhiteSpace ;;; b <- many1 isDigit ;;
   pret (r, g, b))%parser.

Definition hexLower (d : N) : char := if d <? 10 then 48 + d else 87 + d.

(** [Number.prototype.toString(16)] of a natural number; the fuel bounds
    the number of digits. *)
Fixpoint toString16 (fuel : nat) (n : N) : jsstring :=
  match fuel with
  | O => []
  | S fuel' =>
      if n <? 16 then [hexLower n]
      else toString16 fuel' (n / 16) ++ [hexLower (n mod 16)]
  end.

(** [String.prototype.padStart(2, '0')] *)
Definition padStart2 (s : jsstring) : jsstring :=
  match s with
  | [] => lit "00"
  | [d] => lit "0" ++ [d]
  | _ => s
  end.

(** [Math.max(0, Math.min(255, Number(n) || 0)).toString(16).padStart(2, '0')]
    for the digits [n] of a capture. *)
Definition toHex (n : jsstring) : jsstring :=
  padStart2 (toString16 2 (N.max 0 (N.min 255 (digitsValue n)))).

Definition rgbToHex (color : jsstring) : jsstring :=
  match reRgb (trim color) with
  | None => color
  | Some ((r, g, b), _) => lit "#" ++ toHex r ++ toHex g ++ toHex b
  end.

(** [parseInt(string)]: [None] is [NaN]. *)
Definition parseDigits (radix : N) (ok : char -> bool) (s : jsstring) : option Z :=
  match takeWhile ok s with
  | [] => None
  | ds =>
      Some (Z.of_N (fold_left
                      (fun acc c => match hexValue c with
                                    | Some d => radix * acc + d
                                    | None => acc
                                    end) ds 0))
  end.

Definition parseUnsigned (s : jsstring) : option Z :=
  match s with
  | 48 :: 120 :: s' | 48 :: 88 :: s' => parseDigits 16 isHexDigit s'
  | _ => parseDigits 10 isDigit s
  end.

Definition parseInt (s : jsstring) : option Z :=
  match trimStart s with
  | 45 :: s' => option_map Z.opp (parseUnsigned s')
  | 43 :: s' => parseUnsigned s'
  | s' => parseUnsigned s'
  end.

(** A comparison with [NaN] is false. *)
Definition atMost (s : option Z) (k : Z) : bool :=
  match s with Some z => (z <=? k)%Z | None => false end.
Definition atLeast (s : option Z) (k : Z) : bool :=
  match s with Some z => (k <=? z)%Z | None => false end.

(** The size command of a parsed font size. *)
Definition sizeCommand (s : option Z) : jsstring :=
  if atMost s 6 then lit "\tiny "
  else if atMost s 7 then lit "\scriptsize "
  else if atMost s 8 then lit "\footnotesize "
  else if atMost s 9 then lit "\small "
  else if atLeast s 24 then lit "\Huge "
  else if atLeast s 20 then lit "\huge "
  else if atLeast s 17 then lit "\LARGE "
  else if atLeast s 14 then lit "\Large "
  else if atLeast s 12 then lit "\large "
  else lit "\normalsize ".

Definition wrapper := (jsstring * jsstring)%type.

Definition addColor (st : CSSStyleDeclaration) (w : wrapper) : wrapper :=
  let '(prefix, suffix) := w in
  let color := color st in
  if negb (isEmpty color) && negb (eqs color (lit "inherit"))
     && negb (includes (lit "black") color)
  then (prefix ++ lit "\textcolor{" ++ rgbToHex color ++ lit "}{", lit "}" ++ suffix)
  else w.

Definition addBackground (st : CSSStyleDeclaration) (w : wrapper) : wrapper :=
  let '(prefix, suffix) := w in
  let bg := backgroundColor st in
  if negb (isEmpty bg) && negb (eqs bg (lit "inherit"))
     && negb (includes (lit "rgba(0, 0, 0, 0)") bg)
  then (prefix ++ lit "\colorbox{" ++ rgbToHex bg ++ lit "}{", lit "}" ++ suffix)
  else w.

Definition addAlign (st : CSSStyleDeclaration) (w : wrapper) : wrapper :=
  let '(prefix, suffix) := w in
  let align := textAlign st in
  if eqs align (lit "center")
  then (nl ++ lit "\begin{center}" ++ nl ++ prefix,
        suffix ++ nl ++ lit "\end{center}" ++ nl)
  else if eqs align (lit "right")
  then (nl ++ lit "\begin{flushright}" ++ nl ++ prefix,
        suffix ++ nl ++ lit "\end{flushright}" ++ nl)
  else w.

Definition addFamily (st : CSSStyleDeclaration) (w : wrapper) : wrapper :=
  let '(prefix, suffix) := w in
  let fontFamily := fontFamily st in
  if negb (isEmpty fontFamily) && includes (lit "sans") fontFamily
  then (prefix ++ lit "\textsf{", lit "}" ++ suffix)
  else w.

Definition addSize (st : CSSStyleDeclaration) (w : wrapper) : wrapper :=
  let '(prefix, suffix) := w in
  let fontSize := fontSize st in
  if negb (isEmpty fontSize)
  then (prefix ++ sizeCommand (parseInt fontSize), suffix)
  else w.

(** [prefix] and [suffix] once the five style properties are looked at. *)
Definition styleWrapper (st : CSSStyleDeclaration) : wrapper :=
  ([], []) |> addColor st |> addBackground st |> addAlign st |> addFamily st
           |> addSize st.

Definition orNull (a : option jsstring) : jsstring :=
  match a with Some v => v | None => lit "null" end.

Definition isTag (tag : jsstring) (names : list string) : bool :=
  existsb (fun n => eqs tag (lit n)) names.

(** The [switch (tagName)] of [traverse]. *)
Definition emit (tag : jsstring) (e : element) (childNodes : list node)
  (w : wrapper) (childContent : jsstring) : jsstring :=
  let '(prefix, suffix) := w in
  if isTag tag ["h1"]%string then prefix ++ nl ++ lit "\section{" ++ childContent ++ lit "}" ++ nl ++ suffix
  else if isTag tag ["h2"]%string then prefix ++ nl ++ lit "\subsection{" ++ childContent ++ lit "}" ++ nl ++ suffix
  else if isTag tag ["h3"]%string then prefix ++ nl ++ lit "\subsubsection{" ++ childContent ++ lit "}" ++ nl ++ suffix
  else if isTag tag ["h4"]%string then prefix ++ nl ++ lit "\paragraph{" ++ childContent ++ lit "}" ++ nl ++ suffix
  else if isTag tag ["b"; "strong"]%string then prefix ++ lit "\textbf{" ++ childContent ++ lit "}" ++ suffix
  else if isTag tag ["i"; "em"]%string then prefix ++ lit "\textit{" ++ childContent ++ lit "}" ++ suffix
  else if isTag tag ["u"]%string then prefix ++ lit "\underline{" ++ childContent ++ lit "}" ++ suffix
  else if isTag tag ["a"]%string then
    prefix ++ lit "\href{" ++ orNull (getAttribute (lit "href") (attributes e))
    ++ lit "}{" ++ childContent ++ lit "}" ++ suffix
  else if isTag tag ["img"]%string then
    prefix ++ lit "\includegraphics[width=\linewidth]{"
    ++ orNull (getAttribute (lit "src") (attributes e)) ++ lit "}" ++ suffix
  else if isTag tag ["ul"]%string then
    prefix ++ nl ++ lit "\begin{itemize}" ++ nl ++ childContent ++ lit "\end{itemize}" ++ nl ++ suffix
  else if isTag tag ["ol"]%string then
    prefix ++ nl ++ lit "\begin{enumerate}" ++ nl ++ childContent ++ lit "\end{enumerate}" ++ nl ++ suffix
  else if isTag tag ["li"]%string then
    let isCheck := querySelector isCheckboxInput childNodes in
    lit "  \item" ++ (match isCheck with Some _ => lit "[$\square$] " | None => lit " " end)
    ++ trimStart childContent ++ nl
  else if isTag tag ["br"]%string then []
  else if isTag tag ["div"; "p"]%string then nl ++ nl ++ childContent ++ nl ++ nl
  else prefix ++ childContent ++ suffix.

(** The canonical source of a math node: the value of the editor field
    that sits in it, or else its [data-latex] attribute, decoded. *)
Definition mathSource (field : jsstring) (e : element) (childNodes : list node)
  : completion jsstring :=
  match querySelector (hasTag field) childNodes with
  | Some input => Normal (value input)
  | None =>
      decodeURIComponent
        (match getAttribute (lit "data-latex") (attributes e) with
         | Some v => v
         | None => []
         end)
  end.

Definition cbind {A B} (c : completion A) (k : A -> completion B) : completion B :=
  match c with
  | Normal a => k a
  | Throw e => Throw e
  end.

(** The five calls of [getStyle(node, prop)], which is [node.style[prop]]:
    the first one throws [TypeError] when [node.style] is [undefined]. *)
Definition getStyles (e : element) : completion CSSStyleDeclaration :=
  match style e with
  | Some st => Normal st
  | None => Throw TypeError
  end.

Fixpoint traverse (n : node) : completion jsstring :=
  match n with
  | TextNode data =>
      Normal (escapeLatex
                (replaceWith (anywhere (many1 isWhiteSpace)) (fun _ => lit " ") data))
  | ElementNode e kids =>
      if classListContains e (lit "math-block") then
        cmap (fun latex => nl ++ lit "\[" ++ nl ++ latex ++ nl ++ lit "\]" ++ nl)
          (mathSource (lit "textarea") e kids)
      else if classListContains e (lit "math-inline") then
        cmap (fun latex => lit "$" ++ latex ++ lit "$")
          (mathSource (lit "input") e kids)
      else
        let tag := toLowerCase (tagName e) in
        if isTag tag ["pre"]%string then
          Normal (nl ++ lit "\begin{verbatim}" ++ nl ++ textContent n ++ nl
                  ++ lit "\end{verbatim}" ++ nl)
        else if isTag tag ["code"]%string then
          Normal (lit "\texttt{" ++ textContent n ++ lit "}")
        else
          cbind
            ((fix all (l : list node) : completion jsstring :=
                match l with
                | [] => Normal []
                | k :: l' =>
                    cbind (traverse k) (fun a => cmap (app a) (all l'))
                end) kids)
            (fun childContent =>
               cmap (fun st => emit tag e kids (styleWrapper st) childContent)
                 (getStyles e))
  | CommentNode _ => Normal []
  end.

(** [Array.from(nodes).map(traverse).join('')] *)
Fixpoint traverseAll (l : list node) : completion jsstring :=
  match l with
  | [] => Normal []
  | k :: l' => cbind (traverse k) (fun a => cmap (app a) (traverseAll l'))
  end.

(** [/\n{3,}/] *)
Definition isNewline (c : char) : bool := c =? 10.

Definition reNewlines3 : parser unit :=
  fun s =>
    if (3 <=? length (takeWhile isNewline s))%nat
    then Some (tt, dropWhile isNewline s)
    else None.

(** [.replace(/\n{3,}/g, '\n\n')] *)
Definition collapseBlankLines (s : jsstring) : jsstring :=
  replaceWith (anywhere reNewlines3) (fun _ => nl ++ nl) s.

(** The last step of [htmlToLatex]. *)
Definition normalize (s : jsstring) : jsstring :=
  trim (collapseBlankLines s).

(** [htmlToLatex] once [innerHTML] has built the tree. *)
Definition htmlToLatexNodes (childNodes : list node) : completion jsstring :=
  cmap normalize (traverseAll childNodes).

Section Backward.

(** The parser behind [tempDiv.innerHTML = html]. *)
Variable parseHTML : jsstring -> list node.

Definition htmlToLatex (html : jsstring) : completion jsstring :=
  if isEmpty html then Normal []
  else htmlToLatexNodes (parseHTML html).

End Backward.


(** ** Scenario data *)

Definition plainElement (tag : string) (attrs : list (jsstring * jsstring))
  (st : CSSStyleDeclaration) (childNodes : list node) : node :=
  ElementNode (mkElement (lit tag) attrs (Some st) []) childNodes.

(** The tree of [<h1>Demo</h1>]. *)
Definition headingDemo : list node :=
  [plainElement "H1" [] noStyle [TextNode (lit "Demo")]].

Definition checkboxMarkup : jsstring :=
  lit "\begin{itemize}\item[$\square$]Task1\item[$\square$]Task2\end{itemize}".

Definition checkboxHtml : jsstring :=
  html "<ul style='list-style-type: none;'>Task1</li><li><input type='checkbox' disabled> Task2</li></ul>".

(** The tree an HTML parser builds from [checkboxHtml]: the end tag that
    closes no open [li] is dropped and [Task1] stays a text child of the
    list. *)
Definition checkboxTree : list node :=
  [plainElement "UL" [(lit "style", lit "list-style-type: none;")] noStyle
     [TextNode (lit "Task1");
      plainElement "LI" [] noStyle
        [plainElement "INPUT" [(lit "type", lit "checkbox"); (lit "disabled", [])]
           noStyle [];
         TextNode (lit " Task2")]]].


Definition mathBlockElement (dataLatex : jsstring) (preview : list node) : node :=
  plainElement "DIV"
    [(lit "class", lit "math-block not-prose my-4 text-center cursor-pointer hover:bg-blue-50 transition-colors rounded py-2");
     (lit "contenteditable", lit "false");
     (lit "data-latex", dataLatex)]
    noStyle preview.

(** The preview [renderMath] falls back to without [window.katex]. *)
Definition displayPlaceholder (math : jsstring) : node :=
  plainElement "DIV" [(lit "class", lit "math-placeholder")] noStyle
    [TextNode (lit "\[" ++ math ++ lit "\]")].

Definition mathInlineElement (dataLatex : jsstring) (preview : list node) : node :=
  plainElement "SPAN"
    [(lit "class", lit "math-inline not-prose px-1 cursor-pointer hover:bg-blue-50 transition-colors rounded");
     (lit "contenteditable", lit "false");
     (lit "data-latex", dataLatex)]
    noStyle preview.

Definition inlinePlaceholder (math : jsstring) : node :=
  plainElement "SPAN" [(lit "class", lit "math-placeholder")] noStyle
    [TextNode (lit "$" ++ math ++ lit "$")].

(** A paragraph and a container with a style of their own. *)
Definition sizedParagraph : node :=
  plainElement "P" [] (mkStyle [] [] [] (lit "12px") []) [TextNode (lit "x")].

Definition redContainer : node :=
  plainElement "DIV" [] (mkStyle [] (lit "red") [] [] []) [TextNode (lit "x")].

(** A parser that knows one document. *)
Definition twoParagraphs (_ : jsstring) : list node :=
  [plainElement "DIV" [] noStyle [TextNode (lit "a")];
   plainElement "DIV" [] noStyle [TextNode (lit "b")]].

(** ** Vocabulary of the statements *)

(** The ten boundaries of the size table, as the specification lists
    them, and the nearest boundary below a size (the lowest one for a size
    under all of them). *)
Definition sizeBoundaries : list Z := [6; 7; 8; 9; 10; 12; 14; 17; 20; 24]%Z.

Definition nearestLowerBoundary (z : Z) : Z :=
  fold_left (fun best b => if (b <=? z)%Z then b else best) sizeBoundaries 6%Z.

Definition sizeCommands : list jsstring :=
  map lit ["\tiny "; "\scriptsize "; "\footnotesize "; "\small "; "\normalsize ";
           "\large "; "\Large "; "\LARGE "; "\huge "; "\Huge "]%string.

(** The elements [traverse] answers for before it looks at the style. *)
Definition isOpaque (e : element) : bool :=
  classListContains e (lit "math-block") || classListContains e (lit "math-inline")
  || isTag (toLowerCase (tagName e)) ["pre"]%string
  || isTag (toLowerCase (tagName e)) ["code"]%string.

(** The tags whose case of the [switch] puts [prefix] and [suffix] around
    what it emits: all but [li], [br], [div] and [p]. *)
Definition usesWrapper (tag : jsstring) : bool :=
  negb (isTag tag ["li"]%string || isTag tag ["br"]%string
        || isTag tag ["div"; "p"]%string).

Definition withFontSize (st : CSSStyleDeclaration) (v : jsstring) : CSSStyleDeclaration :=
  mkStyle (color st) (backgroundColor st) (textAlign st) v (fontFamily st).

Definition withBackground (st : CSSStyleDeclaration) (v : jsstring) : CSSStyleDeclaration :=
  mkStyle (color st) v (textAlign st) (fontSize st) (fontFamily st).

Definition withStyle (e : element) (st : CSSStyleDeclaration) : element :=
  mkElement (tagName e) (attributes e) (Some st) (value e).

(** A number below 256 in two lower-case hexadecimal digits, read off the
    row of the sixteen digits. *)
Definition hex2 (v : N) : jsstring :=
  [nth (N.to_nat (v / 16)) (lit "0123456789abcdef") 0;
   nth (N.to_nat (v mod 16)) (lit "0123456789abcdef") 0].

(** [x] with a wrapper around it. *)
Definition around (w : wrapper) (x : jsstring) : jsstring := fst w ++ x ++ snd w.

(** The part one style property adds to the wrapper, on its own. *)
Definition colourPart (st : CSSStyleDeclaration) : wrapper := addColor st ([], []).
Definition backgroundPart (st : CSSStyleDeclaration) : wrapper := addBackground st ([], []).
Definition alignPart (st : CSSStyleDeclaration) : wrapper := addAlign st ([], []).
Definition familyPart (st : CSSStyleDeclaration) : wrapper := addFamily st ([], []).
Definition sizePart (st : CSSStyleDeclaration) : wrapper := addSize st ([], []).

(** The notations of the colour [rgba(0,0,0,0)] in a style sheet: the
    serialised form somewhere in the value, the keyword [transparent], the
    function in another spacing or case, and the hexadecimal notations with
    an alpha of zero. *)
Definition denotesTransparent (bg : jsstring) : bool :=
  includes (lit "rgba(0, 0, 0, 0)") bg
  || eqs (toLowerCase (trim bg)) (lit "transparent")
  || eqs (filter (fun c => negb (isWhiteSpace c)) (toLowerCase bg)) (lit "rgba(0,0,0,0)")
  || eqs (toLowerCase (trim bg)) (lit "#0000")
  || eqs (toLowerCase (trim bg)) (lit "#00000000").

(** A matcher that consumes at least one code unit whenever it matches. *)
Definition productive {A} (m : matcher A) : Prop :=
  forall prev s a rest, m prev s = Some (a, rest) -> (length rest < length s)%nat.

(** A parser that never returns more input than it was given. *)
Definition shrinking {A} (p : parser A) : Prop :=
  forall s a rest, p s = Some (a, rest) -> (length rest <= length s)%nat.

(** The code units of a JavaScript string are 16 bits wide. *)
Definition codeUnits (s : jsstring) : Prop := forallb (fun c => c <? 65536) s = true.

(** A Unicode scalar value: a code point that is not a surrogate. *)
Definition scalar (cp : N) : Prop := cp < 55296 \/ (57344 <= cp /\ cp <= 1114111).

(** The UTF-16 code units of a code point. *)
Definition units (cp : N) : jsstring :=
  if cp <? 65536 then [cp]
  else [55296 + (cp - 65536) / 1024; 56320 + (cp - 65536) mod 1024].

(** A text without surrogate code units. *)
Definition notSurrogate (c : N) : bool := negb (isHighSurrogate c || isLowSurrogate c).

Definition clean (s : jsstring) : Prop := forallb notSurrogate s = true.

(** A parser that, on clean input, leaves clean input and captures
    something [good]. *)
Definition keeps {A} (good : A -> Prop) (p : parser A) : Prop :=
  forall s a rest, p s = Some (a, rest) -> clean s -> good a /\ clean rest.

Definition cleanSegment (seg : segment jsstring) : Prop :=
  match seg with
  | Keep c => notSurrogate c = true
  | Hit a => clean a
  end.

(** A replacement function that returns clean text on a clean capture. *)
Definition returnsClean (f : jsstring -> M jsstring) : Prop :=
  forall a st, clean a -> exists out st', f a st = Normal (out, st') /\ clean out.

(** [p] occurs in [s]. *)
Definition occursIn (p s : jsstring) : Prop :=
  exists a b, s = a ++ p ++ b.

(** The number of matches of a literal. *)
Definition countOccurrences (p s : jsstring) : nat :=
  length (filter (fun seg => match seg with Hit _ => true | Keep _ => false end)
            (scan (length s) (anywhere (str p)) None s)).

Definition leadingNewlines (s : jsstring) : nat := length (takeWhile isNewline s).

Definition firstIs (f : char -> bool) (s : jsstring) : bool :=
  match s with
  | c :: _ => f c
  | [] => false
  end.

Definition lastIs (f : char -> bool) (s : jsstring) : bool := firstIs f (rev s).

(** A run of decimal digits, at least one. *)
Definition digitRun (d : jsstring) : Prop := d <> [] /\ forallb isDigit d = true.

Definition blank (s : jsstring) : Prop := forallb isWhiteSpace s = true.

(** A colour in the functional notation with three components [r], [g]
    and [b] written as runs of digits: after the white space in front of
    it, the value starts with [rgb(] or [rgba(] in any case, then come the
    runs, white space allowed around each, a comma between them, and
    behind the third run anything but one more digit. *)
Definition rgbForm (color r g b : jsstring) : Prop :=
  exists name s1 s2 s3 s4 s5 rest,
    trim color = name ++ lit "(" ++ s1 ++ r ++ s2 ++ lit "," ++ s3 ++ g ++ s4
                 ++ lit "," ++ s5 ++ b ++ rest /\
    (toLowerCase name = lit "rgb" \/ toLowerCase name = lit "rgba") /\
    blank s1 /\ blank s2 /\ blank s3 /\ blank s4 /\ blank s5 /\
    digitRun r /\ digitRun g /\ digitRun b /\
    firstIs isDigit rest = false.

(** * Further functions *)

(** ** Compiler log: [summarizeLatexLog] *)

(** [/\r?\n/] *)
Definition reLineBreak : parser unit :=
  (optional (str [13]) ;;; str nl)%parser.

(** [log.split(/\r?\n/)] *)
Definition splitLines (log : jsstring) : list jsstring :=
  splitAcc [] (scan (length log) (anywhere reLineBreak) None log).

(** [Array.prototype.findIndex]; [None] is [-1]. *)
Fixpoint findIndex {A} (f : A -> bool) (l : list A) : option nat :=
  match l with
  | [] => None
  | x :: l' => if f x then Some O else option_map S (findIndex f l')
  end.

(** [/l\.(\d+)/] *)
Definition reLineNumber : parser jsstring :=
  (str (lit "l.") ;;; many1 isDigit)%parser.

(** [re.test(s)] *)
Definition test {A} (p : parser A) (s : jsstring) : bool :=
  match search p s with Some _ => true | None => false end.

(** [if (line) return line.trim()] for the line an [Array.prototype.find]
    returned: [undefined] and the empty string are falsy. *)
Definition orElse (found : option jsstring) (otherwise : jsstring) : jsstring :=
  match found with
  | Some (c :: l) => trim (c :: l)
  | _ => otherwise
  end.

Definition summarizeLatexLog (log : jsstring) : jsstring :=
  if isEmpty log then []
  else
    let lines := splitLines log in
    match findIndex (fun l => startsWith (lit "!") (trim l)) lines with
    | Some bangIdx =>
        let err := replaceAtStart (str (lit "!") ;;; many isWhiteSpace)%parser
                     (fun _ => []) (nth bangIdx lines []) in
        let ctx := nth (S bangIdx) lines [] in
        let ln := match search reLineNumber ctx with
                  | Some n => lit " at line " ++ n
                  | None => []
                  end in
        trim (err ++ ln)
    | None =>
        orElse (find (includes (lit "Overfull")) lines)
          (orElse (find (includes (lit "Underfull")) lines)
             (orElse (find (test (strIgnoreCase (lit "error"))) lines) []))
    end.

(** ** The editor: the document behind a visual edit, the name of an export *)

(** All up to the first [\begin{document}], with it: the pattern of
    [preambleMatch]. *)
Definition rePreamble : parser jsstring :=
  (p <- lazyUntil (lit "\begin{document}") ;; pret (p ++ lit "\begin{document}"))%parser.

(** [\end{document}] and all that follows it: the pattern of [endMatch]. *)
Definition reEnd : parser jsstring :=
  (str (lit "\end{document}") ;;;
   e <- many (fun _ => true) ;; pret (lit "\end{document}" ++ e))%parser.

Definition rebuildDocument (latexCode bodyContent : jsstring) : jsstring :=
  let preambleMatch := search rePreamble latexCode in
  let endMatch := search reEnd latexCode in
  let preamble := match preambleMatch with
                  | Some p => p
                  | None => lit "\documentclass{article}" ++ nl ++ lit "\begin{document}"
                  end in
  let end_ := match endMatch with
              | Some e => e
              | None => lit "\end{document}"
              end in
  preamble ++ nl ++ nl ++ bodyContent ++ nl ++ nl ++ end_.

(** The pattern of [titleMatch]: [\title{], a capture without closing
    brace, [}]. *)
Definition reTitle : parser jsstring :=
  (str (lit "\title{") ;;;
   t <- many (fun c => negb (c =? 125)) ;;
   str (lit "}") ;;; pret t)%parser.

Definition isAlnum (c : N) : bool := isAlpha c || isDigit c.

Definition filename (latexCode : jsstring) : jsstring :=
  let titleMatch := search reTitle latexCode in
  let title := match titleMatch with
               | Some (c :: t) => c :: t
               | _ => lit "document"
               end in
  let stem := firstn 60 (replaceWith (anywhere (many1 (fun c => negb (isAlnum c))))
                           (fun _ => lit "_") (trim title)) in
  (match stem with [] => lit "document" | _ => stem end) ++ lit ".pdf".


(** ** More vocabulary *)

(** The ten code units [escapeLatex] rewrites, and the five of them whose
    escape is the code unit with a backslash in front and that no other
    escape holds. *)
Definition isSyntax (c : N) : bool := existsb (N.eqb c) (lit "\{}$&#%_^~").

Definition isEscapable (c : N) : bool := existsb (N.eqb c) (lit "$&#%_").

(** Every code unit of the class [f] comes right behind a backslash;
    [prev] is the code unit before the text. *)
Fixpoint precededByBackslash (f : N -> bool) (prev : option N) (s : list N) : bool :=
  match s with
  | [] => true
  | c :: r =>
      (if f c then match prev with Some 92 => true | _ => false end else true)
      && precededByBackslash f (Some c) r
  end.

(** What follows every backslash of a text satisfies [ok]. *)
Fixpoint everyBackslash (ok : list N -> bool) (s : list N) : bool :=
  match s with
  | [] => true
  | c :: r => (if c =? 92 then ok r else true) && everyBackslash ok r
  end.

(** What follows a backslash in an escaped text without backslash: an
    escaped code unit, or the name of the circumflex or of the tilde. *)
Definition followsEscape (r : list N) : bool :=
  firstIs (fun c => existsb (N.eqb c) (lit "{}$&#%_")) r || startsWith (lit "texta") r.

(** A text in which no pattern of [latexToHtml] finds a place to start. *)
Definition quiet (s : list N) : bool :=
  everyBackslash followsEscape s && precededByBackslash (N.eqb 36) None s.

(** Plain text: no backslash, no dollar, no underscore. *)
Definition plainChar (c : N) : bool := negb ((c =? 92) || (c =? 36) || (c =? 95)).

Definition plainText (s : list N) : Prop := forallb plainChar s = true.

(** A matcher that can only match where the code unit [a] stands. *)
Definition opensWith {A} (m : matcher A) (a : N) : Prop :=
  forall prev c s, c <> a -> m prev (c :: s) = None.

(** The code unit before what follows [pre]. *)
Definition lastOr (prev : option N) (pre : list N) : option N :=
  match rev pre with
  | c :: _ => Some c
  | [] => prev
  end.

(** [s.replace(/\n/g, ' ')] *)
Definition newlinesToSpaces (s : list N) : list N := replaceAll nl (lit " ") s.

(** What can follow a backslash where a pattern of [latexToHtml] starts
    (the last one is the second backslash of a line break). *)
Definition commandNames : list string :=
  ["begin{document}"; "begin{verbatim}"; "begin{itemize}"; "["; "texttt{";
   "section"; "subsection"; "subsubsection"; "textbf{"; "textit{"; "underline{";
   "textsf{"; "tiny"; "scriptsize"; "footnotesize"; "small"; "normalsize"; "large";
   "Large"; "LARGE"; "huge"; "Huge"; "textcolor"; "colorbox"; "begin{center}";
   "begin{flushright}"; "begin{flushleft}"; "href{"; "includegraphics[";
   "includegraphics{"; "begin{enumerate}"; "\"]%string.

(** [ok] accepts nothing that starts with one of the names. *)
Definition rejects (ok : list N -> bool) (names : list string) : Prop :=
  Forall (fun o => forall r, ok (lit o ++ r) = false) names.

(** The commands other than [name]. *)
Definition commandsBut (name : string) : list string :=
  filter (fun o => negb (String.eqb o name)) commandNames.

Section Editor.

Variable parseHTML : list N -> list node.

(** [handleVisualInput], "Sync: Visual -> LaTeX": the new value of
    [latexCode] for the markup [maybeClean] of the visual editor (what the
    sanitizer made of its [innerHTML]).  An exception of [htmlToLatex]
    leaves the handler before [setLatexCode]. *)
Definition handleVisualInput (maybeClean latexCode : list N) : completion (list N) :=
  cmap (rebuildDocument latexCode) (htmlToLatex parseHTML maybeClean).

End Editor.

(** A text without line feed and carriage return: one line of a log. *)
Definition lineText (l : list N) : Prop :=
  existsb (fun c => (c =? 10) || (c =? 13)) l = false.

(** The code units that the serialisation of an attribute value or of a
    text rewrites. *)
Definition isMarkup (c : N) : bool :=
  (c =? 38) || (c =? 34) || (c =? 60) || (c =? 62) || (c =? 160).

(** The commands of the protect passes. *)
Definition protectNames : list string :=
  ["begin{verbatim}"; "begin{itemize}"; "["; "texttt{"]%string.

(** The style of [<span style="font-family: sans-serif">]. *)
Definition sansSerif : CSSStyleDeclaration := mkStyle [] [] [] [] (lit "sans-serif").

(** The seven rules that put their argument into one element: the
    command, the two tags of the markup, and the element of the tree. *)
Definition simpleCommands : list (list N * list N * list N * (list node -> node)) :=
  [(lit "\section", lit "<h1>", lit "</h1>", plainElement "H1" [] noStyle);
   (lit "\subsection", lit "<h2>", lit "</h2>", plainElement "H2" [] noStyle);
   (lit "\subsubsection", lit "<h3>", lit "</h3>", plainElement "H3" [] noStyle);
   (lit "\textbf", lit "<b>", lit "</b>", plainElement "B" [] noStyle);
   (lit "\textit", lit "<i>", lit "</i>", plainElement "I" [] noStyle);
   (lit "\underline", lit "<u>", lit "</u>", plainElement "U" [] noStyle);
   (lit "\textsf", html "<span style='font-family: sans-serif'>", lit "</span>",
    plainElement "SPAN" [(lit "style", lit "font-family: sans-serif")] sansSerif)].

(** Words: no code unit that [escapeLatex] or the serialisation of a
    text rewrites, and no whitespace but single spaces. *)
Definition isWordChar (c : N) : bool :=
  negb (isSyntax c) && negb (isMarkup c) && (negb (isWhiteSpace c) || (c =? 32)).

Definition words (t : list N) : Prop :=
  forallb isWordChar t = true /\ includes (lit "  ") t = false.





(** The ten size rules of [formatting]: the command and the font size of
    the element. *)
Definition sizeRules : list (string * string) :=
  [("\tiny", "5pt"); ("\scriptsize", "7pt"); ("\footnotesize", "8pt"); ("\small", "9pt");
   ("\normalsize", "10pt"); ("\large", "12pt"); ("\Large", "14.4pt");
   ("\LARGE", "17.28pt"); ("\huge", "20.74pt"); ("\Huge", "24.88pt")]%string.

(** The tree of [<span style="font-size: pt">t</span>]. *)
Definition sizedSpan (pt : string) (t : list N) : list node :=
  [plainElement "SPAN" [(lit "style", lit "font-size: " ++ lit pt)]
     (withFontSize noStyle (lit pt)) [TextNode t]].

(** A text that [trim] leaves alone and that is not empty. *)
Definition trimmed (t : list N) : Prop :=
  t <> [] /\ firstIs isWhiteSpace t = false /\ lastIs isWhiteSpace t = false.

(** The two generic list rules: the environment, and the tag of the list
    as the markup and as the tree spell it. *)
Definition listRules : list (string * string * string) :=
  [("itemize", "ul", "UL"); ("enumerate", "ol", "OL")]%string.

(** The lines that [traverse] writes for the items of a list. *)
Definition itemLines (items : list (list N)) : list N :=
  concat (map (fun t => lit "  \item " ++ t ++ nl) items).

(** A list as [htmlToLatex] writes it: one line per item. *)
Definition listSource (env : string) (items : list (list N)) : list N :=
  lit "\begin{" ++ lit env ++ lit "}" ++ nl ++ itemLines items
  ++ lit "\end{" ++ lit env ++ lit "}".

(** The markup of the items of a list. *)
Definition itemsMarkup (items : list (list N)) : list N :=
  concat (map (fun t => lit "<li>" ++ t ++ lit "</li>") items).

(** The tree of a list whose items are texts. *)
Definition listTree (TAG : string) (items : list (list N)) : list node :=
  [plainElement TAG [] noStyle
     (map (fun t => plainElement "LI" [] noStyle [TextNode t]) items)].
(** No empty line: no run of three newlines, and not two newlines in
    front. *)
Definition noEmptyLine (s : list N) : Prop :=
  includes (nl ++ nl ++ nl) s = false /\ startsWith (nl ++ nl) s = false.


(** The tree of [<a href="u">t</a>]. *)
Definition hrefTree (u t : list N) : list node :=
  [plainElement "A" [(lit "href", u)] noStyle [TextNode t]].

(** The colour keywords of CSS 2.1 in lower case, but [black]: a style
    object hands such a keyword back as it is written in the attribute.
    Any other word in the attribute either is no colour, and the style
    object drops it, or comes back in another notation. *)
Definition colourKeywords : list (list N) :=
  map lit ["aqua"; "blue"; "fuchsia"; "gray"; "green"; "lime"; "maroon"; "navy";
           "olive"; "orange"; "purple"; "red"; "silver"; "teal"; "white";
           "yellow"]%string.

(** The two colour rules: the command, the style property of the
    element and the style of the element for a colour keyword. *)
Definition colourRules : list (list N * list N * (list N -> CSSStyleDeclaration)) :=
  [(lit "\textcolor", lit "color", fun c => mkStyle c [] [] [] []);
   (lit "\colorbox", lit "background-color", fun c => mkStyle [] c [] [] [])].

(** The tree of [<span style="prop: c">t</span>]. *)
Definition colouredSpan (prop : list N) (st : CSSStyleDeclaration) (c t : list N)
  : list node :=
  [plainElement "SPAN" [(lit "style", prop ++ lit ": " ++ c)] st [TextNode t]].

Definition colourName (c : list N) : Prop := In c colourKeywords.

(** The markup of an image, and its tree. *)
Definition imgMarkup (src : list N) : list N :=
  html "<img src='" ++ src ++ html "' style='max-width:100%' />".

Definition imgTree (src : list N) : list node :=
  [plainElement "IMG" [(lit "src", src); (lit "style", lit "max-width:100%")] noStyle []].

(** The tree of two texts with a [br] between them. *)
Definition lineBreakTree (a b : list N) : list node :=
  [TextNode a; plainElement "BR" [] noStyle []; TextNode b].

(** * Properties *)

#[local] Arguments N.eqb : simpl nomatch.
#[local] Arguments N.leb : simpl nomatch.
#[local] Arguments N.ltb : simpl nomatch.

(** ** Scanning *)

Lemma scan_fuel {A} (m : matcher A) :
  productive m ->
  forall n s f1 f2 prev,
    (length s <= n)%nat -> (length s <= f1)%nat -> (length s <= f2)%nat ->
    scan f1 m prev s = scan f2 m prev s.
Proof.
  intros Hm n. induction n as [|n IH]; intros s f1 f2 prev Hn H1 H2.
  - destruct s; [|simpl in Hn; lia]. destruct f1, f2; reflexivity.
  - destruct s as [|c s'].
    + destruct f1, f2; reflexivity.
    + destruct f1 as [|f1]; [simpl in H1; lia|].
      destruct f2 as [|f2]; [simpl in H2; lia|].
      simpl. destruct (m prev (c :: s')) as [[a rest]|] eqn:E.
      * apply Hm in E. simpl in *. f_equal. apply IH; lia.
      * simpl in *. f_equal. apply IH; lia.
Qed.

Lemma scan_anywhere_prev {A} (p : parser A) :
  forall f s prev prev', scan f (anywhere p) prev s = scan f (anywhere p) prev' s.
Proof.
  induction f as [|f IH]; intros s prev prev'; [reflexivity|].
  destruct s as [|c s']; [reflexivity|]. simpl.
  change (anywhere p prev (c :: s')) with (p (c :: s')).
  change (anywhere p prev' (c :: s')) with (p (c :: s')).
  destruct (p (c :: s')) as [[a rest]|]; f_equal; apply IH.
Qed.

(** One step of a global replacement. *)
Lemma replaceWith_cons {A} (p : parser A) (f : A -> jsstring) c s :
  productive (anywhere p) ->
  replaceWith (anywhere p) f (c :: s) =
  match p (c :: s) with
  | Some (a, rest) => f a ++ replaceWith (anywhere p) f rest
  | None => c :: replaceWith (anywhere p) f s
  end.
Proof.
  intros Hp. unfold replaceWith. simpl length. simpl scan.
  change (anywhere p None (c :: s)) with (p (c :: s)).
  destruct (p (c :: s)) as [[a rest]|] eqn:E.
  - assert (L : (length rest < length (c :: s))%nat) by (apply (Hp None _ _ _ E)).
    simpl in L. simpl. f_equal. f_equal.
    rewrite (scan_anywhere_prev p _ _ _ None). f_equal.
    apply (scan_fuel (anywhere p) Hp (length s)); lia.
  - simpl. f_equal. f_equal. f_equal. apply scan_anywhere_prev.
Qed.

Lemma replaceWith_nil {A} (m : matcher A) (f : A -> jsstring) :
  replaceWith m f [] = [].
Proof. reflexivity. Qed.

Lemma stripPrefix_length p : forall s rest,
  stripPrefix p s = Some rest -> (length s = length p + length rest)%nat.
Proof.
  induction p as [|a p IH]; intros s rest H; simpl in *.
  - inversion H. reflexivity.
  - destruct s as [|b s]; [discriminate|].
    destruct (a =? b); [|discriminate]. simpl. f_equal. apply IH, H.
Qed.

Lemma productive_str a p : productive (anywhere (str (a :: p))).
Proof.
  intros prev s u rest H. unfold anywhere, str in H.
  destruct (stripPrefix (a :: p) s) as [r|] eqn:E; [|discriminate].
  inversion H; subst. apply stripPrefix_length in E. simpl in E. lia.
Qed.

Lemma takeWhile_dropWhile f s : takeWhile f s ++ dropWhile f s = s.
Proof.
  induction s as [|c s IH]; simpl; [reflexivity|].
  destruct (f c); simpl; [f_equal; exact IH | reflexivity].
Qed.

Lemma productive_reNewlines3 : productive (anywhere reNewlines3).
Proof.
  intros prev s u rest H. unfold anywhere, reNewlines3 in H.
  destruct (3 <=? length (takeWhile isNewline s))%nat eqn:E; [|discriminate].
  inversion H; subst. apply Nat.leb_le in E.
  rewrite <- (takeWhile_dropWhile isNewline s) at 2. rewrite length_app. lia.
Qed.

(** ** The final normalisation of [htmlToLatex] *)

Lemma collapseBlankLines_cons c s :
  collapseBlankLines (c :: s) =
  if (3 <=? leadingNewlines (c :: s))%nat
  then nl ++ nl ++ collapseBlankLines (dropWhile isNewline (c :: s))
  else c :: collapseBlankLines s.
Proof.
  unfold collapseBlankLines. rewrite replaceWith_cons by apply productive_reNewlines3.
  unfold reNewlines3 at 1. fold (leadingNewlines (c :: s)).
  destruct (3 <=? leadingNewlines (c :: s))%nat; [|reflexivity].
  rewrite <- app_assoc. reflexivity.
Qed.

Lemma leadingNewlines_dropWhile s : leadingNewlines (dropWhile isNewline s) = 0%nat.
Proof.
  unfold leadingNewlines. induction s as [|c s IH]; simpl; [reflexivity|].
  destruct (isNewline c) eqn:E; [exact IH|]. simpl. rewrite E. reflexivity.
Qed.

Lemma length_dropWhile f s : (length (dropWhile f s) <= length s)%nat.
Proof.
  induction s as [|c s IH]; simpl; [lia|]. destruct (f c); simpl; lia.
Qed.

Lemma includes_cons p c s : includes p (c :: s) = startsWith p (c :: s) || includes p s.
Proof. reflexivity. Qed.

Lemma startsWith_newlines3 s :
  startsWith (nl ++ nl ++ nl) s = (3 <=? leadingNewlines s)%nat.
Proof.
  unfold leadingNewlines, startsWith, nl, isNewline. simpl.
  destruct s as [|a [|b [|c s]]]; simpl; try reflexivity;
    rewrite ?(N.eqb_sym 10);
    repeat match goal with |- context [?x =? 10] => destruct (x =? 10); simpl end;
    reflexivity.
Qed.

Lemma leadingNewlines_cons c s :
  leadingNewlines (c :: s) = if isNewline c then S (leadingNewlines s) else 0%nat.
Proof. unfold leadingNewlines. simpl. destruct (isNewline c); reflexivity. Qed.

Lemma includes_newlines3_cons c s :
  includes (nl ++ nl ++ nl) (c :: s) =
  (3 <=? leadingNewlines (c :: s))%nat || includes (nl ++ nl ++ nl) s.
Proof. rewrite includes_cons, startsWith_newlines3. reflexivity. Qed.

(** After the collapse a run of newlines has at most two of them. *)
Lemma collapseBlankLines_runs : forall n s,
  (length s <= n)%nat ->
  leadingNewlines (collapseBlankLines s) = Nat.min (leadingNewlines s) 2 /\
  includes (nl ++ nl ++ nl) (collapseBlankLines s) = false.
Proof.
  induction n as [|n IH]; intros s Hn.
  - destruct s; [|simpl in Hn; lia]. split; reflexivity.
  - destruct s as [|c s]; [split; reflexivity|].
    rewrite collapseBlankLines_cons.
    destruct (3 <=? leadingNewlines (c :: s))%nat eqn:E.
    + apply Nat.leb_le in E.
      destruct (IH (dropWhile isNewline (c :: s))) as [L I].
      { assert (Hlt : (length (dropWhile isNewline (c :: s)) < length (c :: s))%nat).
        { rewrite <- (takeWhile_dropWhile isNewline (c :: s)) at 2.
          rewrite length_app. unfold leadingNewlines in E. lia. }
        change (length (c :: s)) with (S (length s)) in *. lia. }
      rewrite leadingNewlines_dropWhile in L. change (Nat.min 0 2) with 0%nat in L.
      set (t := collapseBlankLines (dropWhile isNewline (c :: s))) in *.
      change (nl ++ nl ++ t) with (10 :: 10 :: t).
      split.
      * rewrite (leadingNewlines_cons 10 (10 :: t)), (leadingNewlines_cons 10 t), L.
        simpl. lia.
      * rewrite !includes_newlines3_cons, I.
        rewrite (leadingNewlines_cons 10 (10 :: t)), (leadingNewlines_cons 10 t), L.
        reflexivity.
    + apply Nat.leb_gt in E.
      destruct (IH s) as [L I]; [simpl in Hn; lia|].
      set (t := collapseBlankLines s) in *.
      rewrite includes_newlines3_cons, I, orb_false_r.
      rewrite (leadingNewlines_cons c t).
      rewrite (leadingNewlines_cons c s) in *.
      destruct (isNewline c); [|split; reflexivity].
      rewrite L. split; [lia|]. apply Nat.leb_gt. lia.
Qed.

Lemma collapseBlankLines_no_run s :
  includes (nl ++ nl ++ nl) (collapseBlankLines s) = false.
Proof. apply (collapseBlankLines_runs (length s)). lia. Qed.

Lemma stripPrefix_Some p : forall s rest,
  stripPrefix p s = Some rest <-> s = p ++ rest.
Proof.
  induction p as [|a p IH]; intros s rest; simpl.
  - split; intros H; [inversion H; reflexivity | subst; reflexivity].
  - destruct s as [|b s].
    + split; intros H; discriminate.
    + destruct (N.eqb_spec a b) as [->|Hab].
      * rewrite IH. split; intros H; [subst; reflexivity | inversion H; reflexivity].
      * split; intros H; [discriminate | inversion H; subst; contradiction].
Qed.

Lemma includes_occursIn p : forall s, includes p s = true <-> occursIn p s.
Proof.
  induction s as [|c s IH].
  - simpl. rewrite orb_false_r. unfold startsWith.
    destruct (stripPrefix p []) as [r|] eqn:E.
    + apply stripPrefix_Some in E. split; [intros _; exists [], r; exact E | reflexivity].
    + split; [discriminate|]. intros (a & b & H).
      destruct a; [|discriminate]. simpl in H.
      assert (E' : stripPrefix p [] = Some b) by (apply stripPrefix_Some; exact H).
      congruence.
  - rewrite includes_cons, orb_true_iff, IH. unfold startsWith.
    destruct (stripPrefix p (c :: s)) as [r|] eqn:E.
    + apply stripPrefix_Some in E.
      split; [intros _; exists [], r; exact E | left; reflexivity].
    + split.
      * intros [H|(a & b & H)]; [discriminate|]. exists (c :: a), b. rewrite H. reflexivity.
      * intros (a & b & H). right. destruct a as [|x a].
        -- simpl in H. assert (E' : stripPrefix p (c :: s) = Some b)
             by (apply stripPrefix_Some; exact H). congruence.
        -- inversion H; subst. exists a, b. reflexivity.
Qed.

Lemma includes_substring p s a t b :
  includes p s = false -> s = a ++ t ++ b -> includes p t = false.
Proof.
  intros H ->. destruct (includes p t) eqn:E; [|reflexivity].
  apply includes_occursIn in E. destruct E as (x & y & ->).
  assert (H' : includes p (a ++ (x ++ p ++ y) ++ b) = true).
  { apply includes_occursIn. exists (a ++ x), (y ++ b).
    rewrite <- !app_assoc. reflexivity. }
  congruence.
Qed.

Lemma trim_substring s : exists a b, s = a ++ trim s ++ b.
Proof.
  unfold trim, trimEnd, trimStart.
  set (t := dropWhile isWhiteSpace s).
  exists (takeWhile isWhiteSpace s), (rev (takeWhile isWhiteSpace (rev t))).
  rewrite <- rev_app_distr, takeWhile_dropWhile, rev_involutive.
  symmetry. apply takeWhile_dropWhile.
Qed.

Lemma firstIs_dropWhile f s : firstIs f (dropWhile f s) = false.
Proof.
  induction s as [|c s IH]; simpl; [reflexivity|].
  destruct (f c) eqn:E; [exact IH | simpl; exact E].
Qed.

Lemma firstIs_app f a b : a <> [] -> firstIs f (a ++ b) = firstIs f a.
Proof. destruct a; [contradiction | reflexivity]. Qed.

Lemma trim_first s : firstIs isWhiteSpace (trim s) = false.
Proof.
  unfold trim, trimStart. set (t := dropWhile isWhiteSpace s).
  assert (Ht : firstIs isWhiteSpace t = false) by apply firstIs_dropWhile.
  unfold trimEnd. destruct (rev (dropWhile isWhiteSpace (rev t))) as [|c u] eqn:E;
    [reflexivity|].
  assert (D : t = (c :: u) ++ rev (takeWhile isWhiteSpace (rev t))).
  { rewrite <- E, <- rev_app_distr, takeWhile_dropWhile, rev_involutive. reflexivity. }
  rewrite D in Ht. exact Ht.
Qed.

Lemma trim_last s : lastIs isWhiteSpace (trim s) = false.
Proof.
  unfold lastIs, trim, trimEnd. rewrite rev_involutive. apply firstIs_dropWhile.
Qed.

Lemma lastIs_suffix f a b : lastIs f (a ++ b) = false -> lastIs f b = false.
Proof.
  unfold lastIs. rewrite rev_app_distr. destruct (rev b) eqn:E; [reflexivity|].
  simpl. auto.
Qed.

Lemma dropWhile_nil_last f : forall s,
  s <> [] -> dropWhile f s = [] -> lastIs f s = true.
Proof.
  intros s. unfold lastIs. induction s as [|c s IH]; intros Hs H; [contradiction|].
  simpl in H. destruct (f c) eqn:E; [|discriminate].
  destruct s as [|d s]; [simpl; exact E|].
  simpl rev. assert (R : rev (d :: s) <> []).
  { simpl. destruct (rev s); discriminate. }
  rewrite firstIs_app by exact R. apply IH; [discriminate | exact H].
Qed.

Lemma takeWhile_app_stop f : forall a b,
  dropWhile f a <> [] ->
  takeWhile f (a ++ b) = takeWhile f a /\ dropWhile f (a ++ b) = dropWhile f a ++ b.
Proof.
  induction a as [|c a IH]; intros b H; simpl in *; [contradiction|].
  destruct (f c); [|split; reflexivity].
  destruct (IH b H) as [-> ->]. split; reflexivity.
Qed.

Lemma collapseBlankLines_app : forall n a s,
  (length a <= n)%nat -> lastIs isNewline a = false ->
  collapseBlankLines (a ++ s) = collapseBlankLines a ++ collapseBlankLines s.
Proof.
  induction n as [|n IH]; intros a s Hn Ha.
  - destruct a; [reflexivity | simpl in Hn; lia].
  - destruct a as [|c a]; [reflexivity|].
    assert (Hd : dropWhile isNewline (c :: a) <> []).
    { intros D. apply dropWhile_nil_last in D; [congruence | discriminate]. }
    destruct (takeWhile_app_stop isNewline (c :: a) s Hd) as [T D].
    change ((c :: a) ++ s) with (c :: a ++ s) in *.
    rewrite !collapseBlankLines_cons. unfold leadingNewlines. rewrite T, D.
    destruct (3 <=? length (takeWhile isNewline (c :: a)))%nat eqn:E.
    + rewrite IH.
      * rewrite <- !app_assoc. reflexivity.
      * apply Nat.leb_le in E.
        assert (L : (length (c :: a) =
                     length (takeWhile isNewline (c :: a)) +
                     length (dropWhile isNewline (c :: a)))%nat).
        { rewrite <- length_app, takeWhile_dropWhile. reflexivity. }
        change (length (c :: a)) with (S (length a)) in *. lia.
      * apply lastIs_suffix with (a := takeWhile isNewline (c :: a)).
        rewrite takeWhile_dropWhile. exact Ha.
    + simpl. f_equal. apply IH; [simpl in Hn; lia|].
      apply lastIs_suffix with (a := [c]). exact Ha.
Qed.

Lemma takeWhile_repeat_newline n b :
  firstIs isNewline b = false ->
  takeWhile isNewline (repeat 10 n ++ b) = repeat 10 n /\
  dropWhile isNewline (repeat 10 n ++ b) = b.
Proof.
  intros Hb. induction n as [|n [IH1 IH2]]; simpl.
  - destruct b as [|c b]; [split; reflexivity|]. simpl in *. rewrite Hb. split; reflexivity.
  - rewrite IH1, IH2. split; reflexivity.
Qed.

(** A run of three or more newlines, i.e. of two or more empty lines,
    becomes two newlines: one empty line. *)
Lemma collapseBlankLines_run a n b :
  (3 <= n)%nat -> lastIs isNewline a = false -> firstIs isNewline b = false ->
  collapseBlankLines (a ++ repeat 10 n ++ b) =
  collapseBlankLines a ++ nl ++ nl ++ collapseBlankLines b.
Proof.
  intros Hn Ha Hb. rewrite (collapseBlankLines_app (length a)) by auto.
  f_equal. destruct n as [|n]; [lia|]. simpl repeat.
  change ((10 :: repeat 10 n) ++ b) with (10 :: repeat 10 n ++ b).
  rewrite collapseBlankLines_cons. unfold leadingNewlines.
  change (10 :: repeat 10 n ++ b) with (repeat 10 (S n) ++ b).
  destruct (takeWhile_repeat_newline (S n) b Hb) as [-> ->].
  rewrite repeat_length. destruct (Nat.leb_spec 3 (S n)); [reflexivity | lia].
Qed.

(** C8. The string [htmlToLatex] returns is the emission of the tree after
    the final step: every run of three or more newlines (two or more empty
    lines, so also three or more) has become two newlines (one empty
    line), hence no three newlines follow one another in the result, and
    the result neither starts nor ends with whitespace. *)
Theorem htmlToLatex_final_normalization :
  forall (parseHTML : list N -> list node) (html out : list N),
    htmlToLatex parseHTML html = Normal out ->
    ((html = [] /\ out = []) \/
     exists raw, traverseAll (parseHTML html) = Normal raw /\
                 out = trim (collapseBlankLines raw)) /\
    (forall a n b,
        (3 <= n)%nat -> lastIs isNewline a = false -> firstIs isNewline b = false ->
        collapseBlankLines (a ++ repeat 10 n ++ b) =
        collapseBlankLines a ++ nl ++ nl ++ collapseBlankLines b) /\
    includes (nl ++ nl ++ nl) out = false /\
    firstIs isWhiteSpace out = false /\
    lastIs isWhiteSpace out = false.
Proof.
  intros parseHTML html out H. unfold htmlToLatex in H.
  split; [|split; [intros a n b; apply collapseBlankLines_run|]].
  - destruct html as [|c html]; simpl in H.
    + left. inversion H. split; reflexivity.
    + right. unfold htmlToLatexNodes in H.
      destruct (traverseAll (parseHTML (c :: html))) as [raw|e]; [|discriminate].
      exists raw. inversion H. split; reflexivity.
  - destruct html as [|c html]; simpl in H.
    + inversion H. repeat split; reflexivity.
    + unfold htmlToLatexNodes in H.
      destruct (traverseAll (parseHTML (c :: html))) as [raw|e]; [|discriminate].
      inversion H as [E]. unfold normalize. repeat split.
      * destruct (trim_substring (collapseBlankLines raw)) as (a & b & D).
        eapply includes_substring; [apply collapseBlankLines_no_run | exact D].
      * apply trim_first.
      * apply trim_last.
Qed.

Lemma htmlToLatex_final_normalization_witness :
  htmlToLatex twoParagraphs (lit "<div>a</div><div>b</div>")
  = Normal (lit "a" ++ nl ++ nl ++ lit "b") /\
  includes (nl ++ nl ++ nl) (lit "a" ++ nl ++ nl ++ lit "b") = false.
Proof.
  assert (H : htmlToLatex twoParagraphs (lit "<div>a</div><div>b</div>")
              = Normal (lit "a" ++ nl ++ nl ++ lit "b")) by (vm_compute; reflexivity).
  split; [exact H|].
  exact (proj1 (proj2 (proj2 (htmlToLatex_final_normalization twoParagraphs _ _ H)))).
Defined.

(** ** Scenarios *)

(** C9. [\section{Demo}] compiles to [<h1>Demo</h1>], the markup of one
    [h1] element whose only child is the text [Demo]; with a parser that
    reads that markup as that tree, [htmlToLatex] compiles the result back
    to [\section{Demo}]. *)
Theorem section_demo_round_trip :
  forall katex (parseHTML : list N -> list node),
    parseHTML (lit "<h1>Demo</h1>") = headingDemo ->
    latexToHtml katex (lit "\section{Demo}") = Normal (lit "<h1>Demo</h1>") /\
    innerHTML headingDemo = lit "<h1>Demo</h1>" /\
    htmlToLatexNodes headingDemo = Normal (lit "\section{Demo}") /\
    cbind (latexToHtml katex (lit "\section{Demo}")) (htmlToLatex parseHTML)
    = Normal (lit "\section{Demo}").
Proof.
  intros katex parseHTML H.
  assert (F : latexToHtml katex (lit "\section{Demo}") = Normal (lit "<h1>Demo</h1>"))
    by (vm_compute; reflexivity).
  assert (B : htmlToLatexNodes headingDemo = Normal (lit "\section{Demo}"))
    by (vm_compute; reflexivity).
  split; [exact F|]. split; [vm_compute; reflexivity|]. split; [exact B|].
  rewrite F. cbn [cbind]. unfold htmlToLatex.
  change (isEmpty (lit "<h1>Demo</h1>")) with false. cbv iota. rewrite H. exact B.
Qed.

Lemma section_demo_round_trip_witness :
  cbind (latexToHtml None (lit "\section{Demo}")) (htmlToLatex (fun _ => headingDemo))
  = Normal (lit "\section{Demo}").
Proof.
  exact (proj2 (proj2 (proj2
           (section_demo_round_trip None (fun _ => headingDemo) eq_refl)))).
Defined.

(** C4. The checkbox list of the scenario compiles to a list in which only
    [Task2] is a list item with a checkbox: the first marker is consumed
    by the pattern, so [Task1] gets neither [<li>] nor [<input>].  The tree
    of that markup compiles back to a single [\item]. *)
Theorem checkbox_list_loses_first_item :
  forall katex,
    latexToHtml katex checkboxMarkup = Normal checkboxHtml /\
    countOccurrences (html "<input type='checkbox' disabled>") checkboxHtml = 1%nat /\
    countOccurrences (lit "<li>") checkboxHtml = 1%nat /\
    htmlToLatexNodes checkboxTree
    = Normal (lit "\begin{itemize}" ++ nl ++ lit "Task1  \item[$\square$] Task2" ++ nl
              ++ lit "\end{itemize}") /\
    countOccurrences (lit "\item")
      (lit "\begin{itemize}" ++ nl ++ lit "Task1  \item[$\square$] Task2" ++ nl
       ++ lit "\end{itemize}") = 1%nat.
Proof. intros katex. repeat split; vm_compute; reflexivity. Qed.

(** ** Style inference *)

Lemma traverse_children : forall kids,
  (fix all (l : list node) : completion (list N) :=
     match l with
     | [] => Normal []
     | k :: l' => cbind (traverse k) (fun a => cmap (app a) (all l'))
     end) kids = traverseAll kids.
Proof. induction kids as [|k kids IH]; simpl; [reflexivity | rewrite IH; reflexivity]. Qed.

(** An element that is neither math nor code: its children, then its
    style, then the [switch] with the wrapper of the style. *)
Lemma traverse_styled e kids st :
  isOpaque e = false -> style e = Some st ->
  traverse (ElementNode e kids) =
  cmap (emit (toLowerCase (tagName e)) e kids (styleWrapper st)) (traverseAll kids).
Proof.
  unfold isOpaque. intros H Hst.
  apply orb_false_iff in H as [H Hcode]. apply orb_false_iff in H as [H Hpre].
  apply orb_false_iff in H as [Hblock Hinline].
  cbn [traverse]. rewrite Hblock, Hinline, Hpre, Hcode, traverse_children.
  unfold getStyles. rewrite Hst. destruct (traverseAll kids); reflexivity.
Qed.

Lemma traverse_element tg attrs st v kids :
  isOpaque (mkElement tg attrs (Some st) v) = false ->
  traverse (ElementNode (mkElement tg attrs (Some st) v) kids) =
  cmap (emit (toLowerCase tg) (mkElement tg attrs (Some st) v) kids (styleWrapper st))
    (traverseAll kids).
Proof. intros H. exact (traverse_styled _ kids st H eq_refl). Qed.


(** The cases of the [switch] that use the wrapper put it around what
    they emit without it. *)
Lemma emit_around tag e kids w content :
  usesWrapper tag = true ->
  emit tag e kids w content = around w (emit tag e kids ([], []) content).
Proof.
  unfold usesWrapper. intros H. apply negb_true_iff in H.
  apply orb_false_iff in H as [H Hdiv]. apply orb_false_iff in H as [Hli Hbr].
  destruct w as [prefix suffix]. unfold emit, around. rewrite Hli, Hbr, Hdiv.
  cbn [fst snd].
  repeat match goal with
  | |- context [if isTag tag ?l then _ else _] => destruct (isTag tag l)
  end;
  cbn [app]; rewrite <- ?app_assoc, ?app_nil_r; reflexivity.
Qed.

(** The wrapper of a style, part by part: the alignment outermost, then
    the colour, the background, the font family, and the size innermost. *)
Lemma styleWrapper_around st x :
  around (styleWrapper st) x =
  around (alignPart st)
    (around (colourPart st)
       (around (backgroundPart st)
          (around (familyPart st) (around (sizePart st) x)))).
Proof.
  unfold styleWrapper, alignPart, colourPart, backgroundPart, familyPart, sizePart,
    around.
  unfold addSize, addFamily, addAlign, addBackground, addColor.
  repeat match goal with
  | |- context [if ?b then _ else _] => destruct b
  end;
  cbn [fst snd app]; rewrite <- ?app_assoc, ?app_nil_r; reflexivity.
Qed.

Lemma traverse_around e kids st content :
  isOpaque e = false ->
  usesWrapper (toLowerCase (tagName e)) = true ->
  style e = Some st ->
  traverseAll kids = Normal content ->
  traverse (ElementNode e kids) =
  Normal (around (alignPart st)
            (around (colourPart st)
               (around (backgroundPart st)
                  (around (familyPart st)
                     (around (sizePart st)
                        (emit (toLowerCase (tagName e)) e kids ([], []) content)))))).
Proof.
  intros Ho Hw Hst Hk. rewrite (traverse_styled e kids st Ho Hst), Hk. cbn [cmap].
  rewrite (emit_around _ _ _ _ _ Hw), styleWrapper_around. reflexivity.
Qed.

Ltac split_on z :=
  repeat match goal with
  | |- context [(?a <=? z)%Z] => destruct (Z.leb_spec a z); try lia; cbn iota
  | |- context [(z <=? ?a)%Z] => destruct (Z.leb_spec z a); try lia; cbn iota
  end.

Lemma sizeCommand_nearestLowerBoundary z :
  sizeCommand (Some z) = sizeCommand (Some (nearestLowerBoundary z)).
Proof.
  unfold nearestLowerBoundary, sizeBoundaries. cbn [fold_left].
  unfold sizeCommand at 1. unfold atMost, atLeast.
  split_on z; reflexivity.
Qed.

Lemma sizeCommand_total s : In (sizeCommand s) sizeCommands.
Proof.
  unfold sizeCommand, sizeCommands.
  repeat match goal with
  | |- context [if ?b then _ else _] => destruct b
  end; cbn [map In]; tauto.
Qed.

Lemma addSize_appends st prefix suffix :
  fontSize st <> [] ->
  addSize st (prefix, suffix) = (prefix ++ sizeCommand (parseInt (fontSize st)), suffix).
Proof.
  intros H. unfold addSize. destruct (fontSize st); [contradiction | reflexivity].
Qed.

(** C5 (amended). The size table is exact at its ten boundaries; a size
    gets the command of the nearest boundary below it (of the lowest
    boundary when it is under all of them); a size that does not parse gets
    [\normalsize]; so every size gets one of the ten commands.  A font size
    that is set appends that command to the prefix of the wrapper and
    leaves the suffix alone.  An element that has a style with a font size,
    that is neither math nor code and whose tag is not [li], [br], [div] or
    [p] emits the command once, with no closing counterpart, right in front
    of what its case of the [switch] emits, inside the wrappers of its
    alignment, colour, background and font family. *)
Theorem font_size_bucketing :
  map (fun z => sizeCommand (Some z)) sizeBoundaries = sizeCommands /\
  (forall z, sizeCommand (Some z) = sizeCommand (Some (nearestLowerBoundary z))) /\
  sizeCommand None = lit "\normalsize " /\
  (forall s, In (sizeCommand s) sizeCommands) /\
  (forall st prefix suffix,
      fontSize st <> [] ->
      addSize st (prefix, suffix) =
      (prefix ++ sizeCommand (parseInt (fontSize st)), suffix)) /\
  (forall e kids st content,
      isOpaque e = false ->
      usesWrapper (toLowerCase (tagName e)) = true ->
      style e = Some st ->
      fontSize st <> [] ->
      traverseAll kids = Normal content ->
      traverse (ElementNode e kids) =
      Normal (around (alignPart st)
                (around (colourPart st)
                   (around (backgroundPart st)
                      (around (familyPart st)
                         (sizeCommand (parseInt (fontSize st))
                          ++ emit (toLowerCase (tagName e)) e kids ([], []) content)))))).
Proof.
  split; [reflexivity|].
  split; [exact sizeCommand_nearestLowerBoundary|].
  split; [reflexivity|].
  split; [exact sizeCommand_total|].
  split; [exact addSize_appends|].
  intros e kids st content Ho Hw Hst Hs Hk.
  rewrite (traverse_around e kids st content Ho Hw Hst Hk).
  unfold sizePart. rewrite (addSize_appends st [] [] Hs).
  unfold around at 5. cbn [fst snd app]. rewrite app_nil_r. reflexivity.
Qed.

Lemma font_size_bucketing_witness :
  traverse (plainElement "SPAN" [] (mkStyle [] [] [] (lit "14.4pt") [])
              [TextNode (lit "x")]) =
  Normal (lit "\Large x").
Proof.
  exact (proj2 (proj2 (proj2 (proj2 (proj2 font_size_bucketing))))
           (mkElement (lit "SPAN") [] (Some (mkStyle [] [] [] (lit "14.4pt") [])) [])
           [TextNode (lit "x")] (mkStyle [] [] [] (lit "14.4pt") []) (lit "x")
           eq_refl eq_refl eq_refl (fun H => nil_cons (eq_sym H)) eq_refl).
Defined.

(** C5 (as stated). A paragraph with a font size: its case of the [switch]
    emits the content between blank lines and drops the wrapper, so no
    size command, and no command at all, comes out. *)
Lemma sized_paragraph_emits_no_size_command :
  sizedParagraph =
  plainElement "P" [] (mkStyle [] [] [] (lit "12px") []) [TextNode (lit "x")] /\
  traverse sizedParagraph = Normal (nl ++ nl ++ lit "x" ++ nl ++ nl) /\
  includes (lit "\") (nl ++ nl ++ lit "x" ++ nl ++ nl) = false.
Proof. repeat split; vm_compute; reflexivity. Qed.

(** [traverse] reads the style of an element through its wrapper only. *)
Lemma traverse_withStyle e kids st1 st2 :
  styleWrapper st1 = styleWrapper st2 ->
  traverse (ElementNode (withStyle e st1) kids) =
  traverse (ElementNode (withStyle e st2) kids).
Proof.
  intros H. cbn [traverse]. unfold classListContains, getStyles, withStyle.
  cbn [attributes tagName style cmap]. rewrite H. reflexivity.
Qed.

Lemma styleWrapper_withBackground st bg :
  styleWrapper (withBackground st bg) =
  addSize st (addFamily st (addAlign st
    (addBackground (withBackground st bg) (addColor st ([], []))))).
Proof. reflexivity. Qed.

Lemma addBackground_serialised st w :
  includes (lit "rgba(0, 0, 0, 0)") (backgroundColor st) = true ->
  addBackground st w = w.
Proof.
  intros H. unfold addBackground. destruct w as [prefix suffix].
  rewrite H, andb_false_r. reflexivity.
Qed.

Lemma addBackground_unset st w : backgroundColor st = [] -> addBackground st w = w.
Proof.
  intros H. unfold addBackground. destruct w as [prefix suffix].
  rewrite H. reflexivity.
Qed.

Lemma addBackground_wraps st prefix suffix :
  backgroundColor st <> [] ->
  eqs (backgroundColor st) (lit "inherit") = false ->
  includes (lit "rgba(0, 0, 0, 0)") (backgroundColor st) = false ->
  addBackground st (prefix, suffix) =
  (prefix ++ lit "\colorbox{" ++ rgbToHex (backgroundColor st) ++ lit "}{",
   lit "}" ++ suffix).
Proof.
  intros Hp Hi Ht. unfold addBackground. rewrite Hi, Ht.
  destruct (backgroundColor st); [contradiction | reflexivity].
Qed.

Lemma denotesTransparent_serialised bg :
  denotesTransparent bg = false -> includes (lit "rgba(0, 0, 0, 0)") bg = false.
Proof.
  unfold denotesTransparent. intros H.
  repeat (apply orb_false_iff in H as [H _]). exact H.
Qed.

(** A background that is set, is not [inherit] and is no notation of the
    transparent colour, around [x]. *)
Lemma around_backgroundPart st x :
  backgroundColor st <> [] ->
  eqs (backgroundColor st) (lit "inherit") = false ->
  denotesTransparent (backgroundColor st) = false ->
  around (backgroundPart st) x =
  lit "\colorbox{" ++ rgbToHex (backgroundColor st) ++ lit "}{" ++ x ++ lit "}".
Proof.
  intros Hp Hi Ht. unfold backgroundPart.
  rewrite (addBackground_wraps st [] [] Hp Hi (denotesTransparent_serialised _ Ht)).
  unfold around. cbn [fst snd app]. rewrite <- !app_assoc. reflexivity.
Qed.

(** C6 (amended). A background whose value holds the serialised
    transparent colour [rgba(0, 0, 0, 0)] adds nothing to the wrapper, and
    the node is compiled as if no background were set.  An element that
    is neither math nor code, whose tag is not [li], [br], [div] or [p],
    and whose style has a background that is set, is not [inherit] and is
    no notation of the transparent colour, emits
    [\colorbox{v}{] ... [}] around what its case of the [switch] emits with
    the font family and the size, [v] being the converted value; the
    wrappers of the colour and of the alignment go around the box.  Nothing
    is said of the other notations of the transparent colour. *)
Theorem background_wrapper :
  (forall st w,
      includes (lit "rgba(0, 0, 0, 0)") (backgroundColor st) = true ->
      addBackground st w = w) /\
  (forall e kids st bg,
      includes (lit "rgba(0, 0, 0, 0)") bg = true ->
      traverse (ElementNode (withStyle e (withBackground st bg)) kids) =
      traverse (ElementNode (withStyle e (withBackground st [])) kids)) /\
  (forall e kids st content,
      isOpaque e = false ->
      usesWrapper (toLowerCase (tagName e)) = true ->
      style e = Some st ->
      backgroundColor st <> [] ->
      eqs (backgroundColor st) (lit "inherit") = false ->
      denotesTransparent (backgroundColor st) = false ->
      traverseAll kids = Normal content ->
      traverse (ElementNode e kids) =
      Normal (around (alignPart st)
                (around (colourPart st)
                   (lit "\colorbox{" ++ rgbToHex (backgroundColor st) ++ lit "}{"
                    ++ around (familyPart st)
                         (around (sizePart st)
                            (emit (toLowerCase (tagName e)) e kids ([], []) content))
                    ++ lit "}")))).
Proof.
  split; [exact addBackground_serialised|]. split.
  - intros e kids st bg H. apply traverse_withStyle.
    rewrite !styleWrapper_withBackground.
    rewrite (addBackground_serialised (withBackground st bg) _ H).
    rewrite (addBackground_unset (withBackground st []) _ eq_refl). reflexivity.
  - intros e kids st content Ho Hw Hst Hp Hi Ht Hk.
    rewrite (traverse_around e kids st content Ho Hw Hst Hk).
    rewrite (around_backgroundPart st _ Hp Hi Ht). reflexivity.
Qed.

Lemma background_wrapper_witness :
  traverse (plainElement "SPAN" [] (mkStyle [] (lit "rgba(0, 0, 0, 0)") [] [] [])
              [TextNode (lit "x")])
  = traverse (plainElement "SPAN" [] noStyle [TextNode (lit "x")]) /\
  traverse (plainElement "SPAN" [] (mkStyle [] (lit "rgb(1, 2, 3)") [] [] [])
              [TextNode (lit "x")])
  = Normal (lit "\colorbox{#010203}{x}").
Proof.
  split.
  - exact (proj1 (proj2 background_wrapper) (mkElement (lit "SPAN") [] None [])
             [TextNode (lit "x")] noStyle (lit "rgba(0, 0, 0, 0)") eq_refl).
  - exact (proj2 (proj2 background_wrapper)
             (mkElement (lit "SPAN") []
                (Some (mkStyle [] (lit "rgb(1, 2, 3)") [] [] [])) [])
             [TextNode (lit "x")] (mkStyle [] (lit "rgb(1, 2, 3)") [] [] [])
             (lit "x") eq_refl eq_refl eq_refl (fun H => nil_cons (eq_sym H))
             eq_refl eq_refl eq_refl).
Defined.

(** C6 (as stated). A container with a red background: the case of [div]
    emits the content between blank lines, without the wrapper, so no
    [\colorbox] comes out. *)
Lemma red_container_emits_no_colorbox :
  redContainer =
  plainElement "DIV" [] (mkStyle [] (lit "red") [] [] []) [TextNode (lit "x")] /\
  denotesTransparent (lit "red") = false /\
  traverse redContainer = Normal (nl ++ nl ++ lit "x" ++ nl ++ nl) /\
  includes (lit "\colorbox") (nl ++ nl ++ lit "x" ++ nl ++ nl) = false.
Proof. repeat split; vm_compute; reflexivity. Qed.

(** The keyword [transparent] is not the serialised colour the code looks
    for: it goes into a [\colorbox] like any other name.  The amended
    statement leaves this case out. *)
Lemma transparent_keyword_is_wrapped :
  denotesTransparent (lit "transparent") = true /\
  traverse (plainElement "SPAN" [] (mkStyle [] (lit "transparent") [] [] [])
              [TextNode (lit "x")])
  = Normal (lit "\colorbox{transparent}{x}").
Proof. split; vm_compute; reflexivity. Qed.

(** ** Colours *)

Ltac to_prop H :=
  repeat rewrite ?andb_true_iff, ?orb_true_iff, ?N.leb_le, ?N.ltb_lt, ?N.eqb_eq in H.

(** Two character classes that share no code unit. *)
Ltac disjoint_classes H :=
  match goal with
  | |- ?g = false =>
      let E := fresh "E" in
      destruct g eqn:E; [exfalso; to_prop H; to_prop E; lia | reflexivity]
  end.

Lemma digit_not_space c : isDigit c = true -> isWhiteSpace c = false.
Proof. unfold isDigit, isWhiteSpace. intros H. disjoint_classes H. Qed.

Lemma space_not_digit c : isWhiteSpace c = true -> isDigit c = false.
Proof. unfold isDigit, isWhiteSpace. intros H. disjoint_classes H. Qed.

Lemma alpha_not_space c : isAlpha c = true -> isWhiteSpace c = false.
Proof. unfold isAlpha, isWhiteSpace. intros H. disjoint_classes H. Qed.

Lemma eqs_eq : forall a b, eqs a b = true <-> a = b.
Proof.
  induction a as [|x a IH]; intros [|y b]; simpl; split; intros H;
    try reflexivity; try discriminate.
  - apply andb_true_iff in H as [H1 H2]. apply N.eqb_eq in H1. apply IH in H2.
    subst. reflexivity.
  - inversion H; subst. rewrite N.eqb_refl. apply IH. reflexivity.
Qed.

Lemma dropWhile_id f s : firstIs f s = false -> dropWhile f s = s.
Proof. destruct s as [|c s]; simpl; [reflexivity|]. intros ->. reflexivity. Qed.

Lemma trim_id s :
  firstIs isWhiteSpace s = false -> lastIs isWhiteSpace s = false -> trim s = s.
Proof.
  intros Hf Hl. unfold trim, trimStart, trimEnd. rewrite (dropWhile_id _ _ Hf).
  unfold lastIs in Hl. rewrite (dropWhile_id _ _ Hl). apply rev_involutive.
Qed.

Lemma lastIs_snoc f a c : lastIs f (a ++ [c]) = f c.
Proof. unfold lastIs. rewrite rev_app_distr. reflexivity. Qed.

Lemma firstIs_app_cases f a b :
  firstIs f (a ++ b) = if isEmpty a then firstIs f b else firstIs f a.
Proof. destruct a; reflexivity. Qed.

Lemma takeWhile_app_all f : forall a rest,
  forallb f a = true -> firstIs f rest = false ->
  takeWhile f (a ++ rest) = a /\ dropWhile f (a ++ rest) = rest.
Proof.
  induction a as [|c a IH]; intros rest Ha Hr; simpl in *.
  - destruct rest as [|d rest]; [split; reflexivity|]. cbn [firstIs] in Hr.
    cbn [takeWhile dropWhile]. rewrite Hr. split; reflexivity.
  - apply andb_true_iff in Ha as [Hc Ha]. rewrite Hc.
    destruct (IH rest Ha Hr) as [-> ->]. split; reflexivity.
Qed.

Lemma many_app f a rest :
  forallb f a = true -> firstIs f rest = false ->
  many f (a ++ rest) = Some (a, rest).
Proof.
  intros Ha Hr. unfold many. destruct (takeWhile_app_all f a rest Ha Hr) as [-> ->].
  reflexivity.
Qed.

Lemma many1_app f a rest :
  a <> [] -> forallb f a = true -> firstIs f rest = false ->
  many1 f (a ++ rest) = Some (a, rest).
Proof.
  intros Hn Ha Hr. unfold many1. destruct (takeWhile_app_all f a rest Ha Hr) as [-> ->].
  destruct a; [contradiction | reflexivity].
Qed.

Lemma str_app p rest : str p (p ++ rest) = Some (tt, rest).
Proof.
  unfold str. replace (stripPrefix p (p ++ rest)) with (Some rest); [reflexivity|].
  symmetry. apply stripPrefix_Some. reflexivity.
Qed.

Lemma pbind_Some {A B} (p : parser A) (k : A -> parser B) s a rest :
  p s = Some (a, rest) -> pbind p k s = k a rest.
Proof. intros H. unfold pbind. rewrite H. reflexivity. Qed.

Lemma toLowerCase_length s : length (toLowerCase s) = length s.
Proof. apply length_map. Qed.

Lemma strIgnoreCase_app p name rest :
  toLowerCase name = p -> strIgnoreCase p (name ++ rest) = Some (tt, rest).
Proof.
  intros H. unfold strIgnoreCase.
  assert (L : length p = length name) by (rewrite <- H; apply toLowerCase_length).
  rewrite L, firstn_app, Nat.sub_diag, firstn_all, app_nil_r.
  rewrite skipn_app, Nat.sub_diag, skipn_all, H. simpl.
  replace (eqs p p) with true; [reflexivity|]. symmetry. apply eqs_eq. reflexivity.
Qed.

(** The head of the pattern, on the two names a colour function has. *)
Lemma rgb_name {B} (k : parser B) name rest :
  toLowerCase name = lit "rgb" \/ toLowerCase name = lit "rgba" ->
  (strIgnoreCase (lit "rgb") ;;; optional (strIgnoreCase (lit "a")) ;;;
   str (lit "(") ;;; k)%parser (name ++ lit "(" ++ rest) = k rest.
Proof.
  intros [H|H].
  - rewrite (pbind_Some _ _ _ _ _ (strIgnoreCase_app _ name _ H)).
    unfold pbind at 1. unfold optional. change (lit "(" ++ rest) with (40 :: rest).
    change (strIgnoreCase (lit "a") (40 :: rest)) with (@None (unit * list N)).
    cbv iota beta. change (40 :: rest) with (lit "(" ++ rest).
    rewrite (pbind_Some _ _ _ _ _ (str_app _ _)). reflexivity.
  - destruct name as [|c1 [|c2 [|c3 [|c4 [|c5 t]]]]]; try discriminate.
    change ([c1; c2; c3; c4] ++ lit "(" ++ rest)
      with ([c1; c2; c3] ++ [c4] ++ lit "(" ++ rest).
    assert (H3 : toLowerCase [c1; c2; c3] = lit "rgb")
      by (injection H as E1 E2 E3 E4; cbn [toLowerCase map]; rewrite E1, E2, E3;
          reflexivity).
    assert (H4 : toLowerCase [c4] = lit "a")
      by (injection H as E1 E2 E3 E4; cbn [toLowerCase map]; rewrite E4; reflexivity).
    rewrite (pbind_Some _ _ _ _ _ (strIgnoreCase_app _ [c1; c2; c3] _ H3)).
    unfold pbind at 1. unfold optional. rewrite (strIgnoreCase_app _ [c4] _ H4).
    rewrite (pbind_Some _ _ _ _ _ (str_app _ _)). reflexivity.
Qed.

Lemma firstIs_digits_not_space r rest :
  r <> [] -> forallb isDigit r = true -> firstIs isWhiteSpace (r ++ rest) = false.
Proof.
  intros Hn Hr. destruct r as [|d r]; [contradiction|]. simpl in *.
  apply andb_true_iff in Hr as [Hd _]. apply digit_not_space, Hd.
Qed.

Lemma firstIs_spaces_not_digit s c rest :
  forallb isWhiteSpace s = true -> isDigit c = false ->
  firstIs isDigit (s ++ c :: rest) = false.
Proof.
  intros Hs Hc. destruct s as [|d s]; simpl in *; [exact Hc|].
  apply andb_true_iff in Hs as [Hd _]. apply space_not_digit, Hd.
Qed.

(** One component of the pattern and the separator behind it:
    [\s*(\d+)\s*,]. *)
Lemma rgb_component {B} (k : list N -> parser B) s1 r s2 rest :
  forallb isWhiteSpace s1 = true -> r <> [] -> forallb isDigit r = true ->
  forallb isWhiteSpace s2 = true ->
  (many isWhiteSpace ;;; v <- many1 isDigit ;; many isWhiteSpace ;;;
   str (lit ",") ;;; k v)%parser (s1 ++ r ++ s2 ++ lit "," ++ rest) = k r rest.
Proof.
  intros H1 Hn Hr H2.
  rewrite (pbind_Some _ _ _ _ _
             (many_app _ s1 _ H1 (firstIs_digits_not_space r _ Hn Hr))).
  rewrite (pbind_Some _ _ _ _ _
             (many1_app _ r _ Hn Hr
                (firstIs_spaces_not_digit s2 44 rest H2 eq_refl))).
  rewrite (pbind_Some _ _ _ _ _ (many_app _ s2 (lit "," ++ rest) H2 eq_refl)).
  rewrite (pbind_Some _ _ _ _ _ (str_app _ _)). reflexivity.
Qed.

Lemma reRgb_form name s1 r s2 s3 g s4 s5 b rest :
  toLowerCase name = lit "rgb" \/ toLowerCase name = lit "rgba" ->
  blank s1 -> blank s2 -> blank s3 -> blank s4 -> blank s5 ->
  digitRun r -> digitRun g -> digitRun b ->
  firstIs isDigit rest = false ->
  reRgb (name ++ lit "(" ++ s1 ++ r ++ s2 ++ lit "," ++ s3 ++ g ++ s4 ++ lit ","
         ++ s5 ++ b ++ rest)
  = Some ((r, g, b), rest).
Proof.
  intros Hname H1 H2 H3 H4 H5 [Hr Hr'] [Hg Hg'] [Hb Hb'] Hrest.
  unfold reRgb. rewrite (rgb_name _ name _ Hname).
  rewrite (rgb_component _ s1 r s2 _ H1 Hr Hr' H2).
  rewrite (rgb_component _ s3 g s4 _ H3 Hg Hg' H4).
  rewrite (pbind_Some _ _ _ _ _
             (many_app _ s5 _ H5 (firstIs_digits_not_space b _ Hb Hb'))).
  rewrite (pbind_Some _ _ _ _ _ (many1_app _ b _ Hb Hb' Hrest)).
  reflexivity.
Qed.

Lemma below_256 (P : N -> bool) :
  forallb P (map N.of_nat (seq 0 256)) = true -> forall v, v <= 255 -> P v = true.
Proof.
  intros H v Hv. rewrite forallb_forall in H. apply H. apply in_map_iff.
  exists (N.to_nat v). split; [apply N2Nat.id | apply in_seq; lia].
Qed.

Lemma toHex_hex2 ds : toHex ds = hex2 (N.min 255 (digitsValue ds)).
Proof.
  unfold toHex. rewrite N.max_r by lia.
  apply eqs_eq.
  apply (below_256 (fun v => eqs (padStart2 (toString16 2 v)) (hex2 v)));
    [vm_compute; reflexivity | lia].
Qed.

Lemma rgbToHex_rgbForm color r g b :
  rgbForm color r g b ->
  rgbToHex color =
  lit "#" ++ hex2 (N.min 255 (digitsValue r))
  ++ hex2 (N.min 255 (digitsValue g)) ++ hex2 (N.min 255 (digitsValue b)).
Proof.
  intros (name & s1 & s2 & s3 & s4 & s5 & rest & E & Hname & H1 & H2 & H3 & H4 & H5
          & Hr & Hg & Hb & Hrest).
  unfold rgbToHex. rewrite E.
  rewrite (reRgb_form name s1 r s2 s3 g s4 s5 b rest) by assumption.
  rewrite !toHex_hex2. reflexivity.
Qed.

Lemma takeWhile_forallb f s : forallb f (takeWhile f s) = true.
Proof.
  induction s as [|c s IH]; [reflexivity|]. cbn [takeWhile].
  destruct (f c) eqn:E; [|reflexivity]. cbn [forallb]. rewrite E, IH. reflexivity.
Qed.

(** What a match of each piece of the pattern says about the text. *)
Lemma strIgnoreCase_inv p s u rest :
  strIgnoreCase p s = Some (u, rest) ->
  exists name, s = name ++ rest /\ toLowerCase name = p.
Proof.
  unfold strIgnoreCase. destruct (eqs _ p) eqn:E; [|discriminate].
  intros H. inversion H; subst. exists (firstn (length p) s).
  split; [symmetry; apply firstn_skipn | apply eqs_eq, E].
Qed.

Lemma str_inv p s u rest : str p s = Some (u, rest) -> s = p ++ rest.
Proof.
  unfold str. destruct (stripPrefix p s) as [r|] eqn:E; [|discriminate].
  intros H. inversion H; subst. apply stripPrefix_Some, E.
Qed.

Lemma many_inv f s a rest :
  many f s = Some (a, rest) ->
  s = a ++ rest /\ forallb f a = true /\ firstIs f rest = false.
Proof.
  unfold many. intros H. inversion H; subst.
  split; [symmetry; apply takeWhile_dropWhile|].
  split; [apply takeWhile_forallb | apply firstIs_dropWhile].
Qed.

Lemma many1_inv f s a rest :
  many1 f s = Some (a, rest) ->
  s = a ++ rest /\ (a <> [] /\ forallb f a = true) /\ firstIs f rest = false.
Proof.
  unfold many1. destruct (takeWhile f s) as [|c t] eqn:E; [discriminate|].
  intros H. inversion H; subst. rewrite <- E.
  split; [symmetry; apply takeWhile_dropWhile|].
  split; [|apply firstIs_dropWhile].
  split; [rewrite E; discriminate | apply takeWhile_forallb].
Qed.

Lemma rgb_name_inv s u1 r1 u2 rest :
  strIgnoreCase (lit "rgb") s = Some (u1, r1) ->
  optional (strIgnoreCase (lit "a")) r1 = Some (u2, rest) ->
  exists name,
    s = name ++ rest /\ (toLowerCase name = lit "rgb" \/ toLowerCase name = lit "rgba").
Proof.
  intros E1. apply strIgnoreCase_inv in E1 as (n1 & -> & L1).
  unfold optional.
  destruct (strIgnoreCase (lit "a") r1) as [[u3 r2]|] eqn:E2; intros H; inversion H; subst.
  - apply strIgnoreCase_inv in E2 as (n2 & -> & L2).
    exists (n1 ++ n2). split; [apply app_assoc|]. right.
    unfold toLowerCase in *. rewrite map_app, L1, L2. reflexivity.
  - exists n1. split; [reflexivity | left; exact L1].
Qed.

(** A match of the pattern, read back: the text has the functional
    notation, and the captures are its three components. *)
Lemma reRgb_inv s r g b rest :
  reRgb s = Some ((r, g, b), rest) ->
  exists name s1 s2 s3 s4 s5,
    s = name ++ lit "(" ++ s1 ++ r ++ s2 ++ lit "," ++ s3 ++ g ++ s4
        ++ lit "," ++ s5 ++ b ++ rest /\
    (toLowerCase name = lit "rgb" \/ toLowerCase name = lit "rgba") /\
    blank s1 /\ blank s2 /\ blank s3 /\ blank s4 /\ blank s5 /\
    digitRun r /\ digitRun g /\ digitRun b /\
    firstIs isDigit rest = false.
Proof.
  unfold reRgb, pbind.
  destruct (strIgnoreCase (lit "rgb") s) as [[v1 q1]|] eqn:N1; [|discriminate].
  destruct (optional (strIgnoreCase (lit "a")) q1) as [[v2 t0]|] eqn:N2; [|discriminate].
  destruct (rgb_name_inv s v1 q1 v2 t0 N1 N2) as (name & -> & Hname). clear N1 N2.
  destruct (str (lit "(") t0) as [[u1 t1]|] eqn:E1; [|discriminate].
  destruct (many isWhiteSpace t1) as [[s1 t2]|] eqn:E2; [|discriminate].
  destruct (many1 isDigit t2) as [[r' t3]|] eqn:E3; [|discriminate].
  destruct (many isWhiteSpace t3) as [[s2 t4]|] eqn:E4; [|discriminate].
  destruct (str (lit ",") t4) as [[u2 t5]|] eqn:E5; [|discriminate].
  destruct (many isWhiteSpace t5) as [[s3 t6]|] eqn:E6; [|discriminate].
  destruct (many1 isDigit t6) as [[g' t7]|] eqn:E7; [|discriminate].
  destruct (many isWhiteSpace t7) as [[s4 t8]|] eqn:E8; [|discriminate].
  destruct (str (lit ",") t8) as [[u3 t9]|] eqn:E9; [|discriminate].
  destruct (many isWhiteSpace t9) as [[s5 t10]|] eqn:E10; [|discriminate].
  destruct (many1 isDigit t10) as [[b' t11]|] eqn:E11; [|discriminate].
  unfold pret. intros H. inversion H; subst.
  apply str_inv in E1, E5, E9.
  apply many_inv in E2 as (-> & H1 & _), E4 as (-> & H2 & _), E6 as (-> & H3 & _),
    E8 as (-> & H4 & _), E10 as (-> & H5 & _).
  apply many1_inv in E3 as (-> & Hr & _), E7 as (-> & Hg & _), E11 as (-> & Hb & Hrest).
  exists name, s1, s2, s3, s4, s5.
  split.
  { subst. rewrite <- ?app_assoc. reflexivity. }
  split; [exact Hname|]. repeat (split; [assumption|]). assumption.
Qed.

Lemma rgbToHex_other color :
  (forall r g b, ~ rgbForm color r g b) -> rgbToHex color = color.
Proof.
  intros H. unfold rgbToHex.
  destruct (reRgb (trim color)) as [[[[r g] b] rest]|] eqn:E; [exfalso | reflexivity].
  apply reRgb_inv in E as (name & s1 & s2 & s3 & s4 & s5 & E & F).
  apply (H r g b). exists name, s1, s2, s3, s4, s5, rest. split; assumption.
Qed.

Lemma strIgnoreCase_suffix p s u rest :
  strIgnoreCase p s = Some (u, rest) -> exists a, s = a ++ rest.
Proof.
  unfold strIgnoreCase. destruct (eqs _ p); [|discriminate].
  intros H. inversion H. exists (firstn (length p) s). symmetry. apply firstn_skipn.
Qed.

Lemma optional_suffix p s u rest :
  (forall s u rest, p s = Some (u, rest) -> exists a, s = a ++ rest) ->
  optional p s = Some (u, rest) -> exists a, s = a ++ rest.
Proof.
  intros Hp. unfold optional. destruct (p s) as [[u' r]|] eqn:E; intros H; inversion H; subst.
  - apply (Hp _ _ _ E).
  - exists []. reflexivity.
Qed.

(** A match of the pattern needs an opening parenthesis. *)
Lemma reRgb_parenthesis s x : reRgb s = Some x -> occursIn (lit "(") s.
Proof.
  unfold reRgb, pbind.
  destruct (strIgnoreCase (lit "rgb") s) as [[u1 r1]|] eqn:E1; [|discriminate].
  destruct (optional (strIgnoreCase (lit "a")) r1) as [[u2 r2]|] eqn:E2; [|discriminate].
  destruct (str (lit "(") r2) as [[u3 r3]|] eqn:E3; [|discriminate].
  intros _. apply strIgnoreCase_suffix in E1 as [a1 ->].
  apply (optional_suffix _ _ _ _ (strIgnoreCase_suffix (lit "a"))) in E2 as [a2 ->].
  unfold str in E3. destruct (stripPrefix (lit "(") r2) as [r|] eqn:E; [|discriminate].
  apply stripPrefix_Some in E. subst. exists (a1 ++ a2), r.
  rewrite <- app_assoc. reflexivity.
Qed.

Lemma rgbToHex_unchanged color :
  includes (lit "(") color = false -> rgbToHex color = color.
Proof.
  intros H. unfold rgbToHex.
  destruct (reRgb (trim color)) as [x|] eqn:E; [exfalso | reflexivity].
  apply reRgb_parenthesis, includes_occursIn in E.
  destruct (trim_substring color) as (a & b & D).
  rewrite (includes_substring _ _ _ _ _ H D) in E. discriminate.
Qed.

Lemma no_parenthesis s :
  forallb (fun c => negb (c =? 40)) s = true -> includes (lit "(") s = false.
Proof.
  induction s as [|c s IH]; intros H; [reflexivity|].
  cbn [forallb] in H. apply andb_true_iff in H as [Hc Hs].
  rewrite includes_cons, (IH Hs), orb_false_r.
  unfold startsWith. change (lit "(") with [40]. cbn [stripPrefix].
  rewrite N.eqb_sym. apply negb_true_iff in Hc. rewrite Hc. reflexivity.
Qed.

Lemma forallb_impl (f g : N -> bool) s :
  (forall c, f c = true -> g c = true) -> forallb f s = true -> forallb g s = true.
Proof.
  intros Hfg. induction s as [|c s IH]; [reflexivity|]. cbn [forallb].
  intros H. apply andb_true_iff in H as [Hc Hs]. rewrite (Hfg c Hc), (IH Hs). reflexivity.
Qed.

Lemma alpha_not_parenthesis c : isAlpha c = true -> negb (c =? 40) = true.
Proof.
  unfold isAlpha. intros H. apply negb_true_iff.
  destruct (c =? 40) eqn:E; [exfalso; to_prop H; to_prop E; lia | reflexivity].
Qed.

Lemma hexDigit_not_parenthesis c : isHexDigit c = true -> negb (c =? 40) = true.
Proof.
  unfold isHexDigit, isDigit. intros H. apply negb_true_iff.
  destruct (c =? 40) eqn:E; [exfalso; to_prop H; to_prop E; lia | reflexivity].
Qed.

(** The decimal notation of a number up to 255 is a run of digits with
    that value. *)
Lemma decimal_component n :
  (n <= 255)%nat -> digitRun (decimal n) /\ digitsValue (decimal n) = N.of_nat n.
Proof.
  intros Hn.
  assert (K : forallb (fun k => negb (isEmpty (decimal k)) && forallb isDigit (decimal k)
                                && (digitsValue (decimal k) =? N.of_nat k))
                (seq 0 256) = true) by (vm_compute; reflexivity).
  rewrite forallb_forall in K. specialize (K n).
  assert (I : In n (seq 0 256)) by (apply in_seq; lia).
  apply K in I. apply andb_true_iff in I as [I V]. apply andb_true_iff in I as [E D].
  apply N.eqb_eq in V. unfold digitRun. repeat split; try assumption.
  intros Z. rewrite Z in E. discriminate.
Qed.

(** The form in which a style object serialises a colour. *)
Lemma rgbToHex_serialised R G B :
  (R <= 255)%nat -> (G <= 255)%nat -> (B <= 255)%nat ->
  rgbToHex (lit "rgb(" ++ decimal R ++ lit ", " ++ decimal G ++ lit ", " ++ decimal B
            ++ lit ")")
  = lit "#" ++ hex2 (N.of_nat R) ++ hex2 (N.of_nat G) ++ hex2 (N.of_nat B).
Proof.
  intros HR HG HB.
  destruct (decimal_component R HR) as [DR VR].
  destruct (decimal_component G HG) as [DG VG].
  destruct (decimal_component B HB) as [DB VB].
  rewrite (rgbToHex_rgbForm _ (decimal R) (decimal G) (decimal B)).
  - rewrite VR, VG, VB, !N.min_r by lia. reflexivity.
  - exists (lit "rgb"), [], [], (lit " "), [], (lit " "), (lit ")").
    split.
    { rewrite trim_id; [reflexivity | reflexivity |].
      rewrite !app_assoc. apply lastIs_snoc. }
    repeat split; try reflexivity; try tauto; try apply DR; try apply DG; try apply DB.
Qed.

Lemma around_colourPart st x :
  color st <> [] ->
  eqs (color st) (lit "inherit") = false ->
  includes (lit "black") (color st) = false ->
  around (colourPart st) x =
  lit "\textcolor{" ++ rgbToHex (color st) ++ lit "}{" ++ x ++ lit "}".
Proof.
  intros Hp Hi Hb. unfold colourPart, addColor. rewrite Hi, Hb.
  destruct (color st); [contradiction|].
  unfold around. cbn [isEmpty negb andb fst snd app]. rewrite <- !app_assoc. reflexivity.
Qed.

(** C10 (amended). A style value that has the functional notation, with
    three runs of digits as its components, becomes [#] and two lower-case
    hexadecimal digits per component, the component being cut at 255; so
    does the form [rgb(R, G, B)] in which a style object serialises a
    colour; every other value, a colour name (letters only) and a
    hexadecimal colour among them, comes out as it is.  An element that has
    a style, is neither math nor code and whose tag is not [li], [br],
    [div] or [p] emits [\textcolor{v}{] ... [}] for a colour that is set,
    is not [inherit] and does not hold [black], and [\colorbox{v}{] ... [}]
    for a background that is set, is not [inherit] and is no notation of
    the transparent colour, [v] being the converted value. *)
Theorem rgb_colours_become_hex :
  (forall color r g b,
      rgbForm color r g b ->
      rgbToHex color =
      lit "#" ++ hex2 (N.min 255 (digitsValue r))
      ++ hex2 (N.min 255 (digitsValue g)) ++ hex2 (N.min 255 (digitsValue b))) /\
  (forall R G B,
      (R <= 255)%nat -> (G <= 255)%nat -> (B <= 255)%nat ->
      rgbToHex (lit "rgb(" ++ decimal R ++ lit ", " ++ decimal G ++ lit ", "
                ++ decimal B ++ lit ")")
      = lit "#" ++ hex2 (N.of_nat R) ++ hex2 (N.of_nat G) ++ hex2 (N.of_nat B)) /\
  (forall color, (forall r g b, ~ rgbForm color r g b) -> rgbToHex color = color) /\
  (forall color, forallb isAlpha color = true -> rgbToHex color = color) /\
  (forall digits,
      forallb isHexDigit digits = true ->
      rgbToHex (lit "#" ++ digits) = lit "#" ++ digits) /\
  (forall e kids st content,
      isOpaque e = false ->
      usesWrapper (toLowerCase (tagName e)) = true ->
      style e = Some st ->
      color st <> [] ->
      eqs (color st) (lit "inherit") = false ->
      includes (lit "black") (color st) = false ->
      traverseAll kids = Normal content ->
      traverse (ElementNode e kids) =
      Normal (around (alignPart st)
                (lit "\textcolor{" ++ rgbToHex (color st) ++ lit "}{"
                 ++ around (backgroundPart st)
                      (around (familyPart st)
                         (around (sizePart st)
                            (emit (toLowerCase (tagName e)) e kids ([], []) content)))
                 ++ lit "}"))) /\
  (forall e kids st content,
      isOpaque e = false ->
      usesWrapper (toLowerCase (tagName e)) = true ->
      style e = Some st ->
      backgroundColor st <> [] ->
      eqs (backgroundColor st) (lit "inherit") = false ->
      denotesTransparent (backgroundColor st) = false ->
      traverseAll kids = Normal content ->
      traverse (ElementNode e kids) =
      Normal (around (alignPart st)
                (around (colourPart st)
                   (lit "\colorbox{" ++ rgbToHex (backgroundColor st) ++ lit "}{"
                    ++ around (familyPart st)
                         (around (sizePart st)
                            (emit (toLowerCase (tagName e)) e kids ([], []) content))
                    ++ lit "}")))).
Proof.
  split; [exact rgbToHex_rgbForm|].
  split; [exact rgbToHex_serialised|].
  split; [exact rgbToHex_other|].
  split.
  { intros color H. apply rgbToHex_unchanged, no_parenthesis.
    apply (forallb_impl isAlpha _ _ alpha_not_parenthesis H). }
  split.
  { intros digits H. apply rgbToHex_unchanged, no_parenthesis.
    change (lit "#" ++ digits) with (35 :: digits). cbn [forallb].
    rewrite (forallb_impl isHexDigit _ _ hexDigit_not_parenthesis H). reflexivity. }
  split.
  - intros e kids st content Ho Hw Hst Hp Hi Hb Hk.
    rewrite (traverse_around e kids st content Ho Hw Hst Hk).
    rewrite (around_colourPart st _ Hp Hi Hb). reflexivity.
  - intros e kids st content Ho Hw Hst Hp Hi Ht Hk.
    rewrite (traverse_around e kids st content Ho Hw Hst Hk).
    rewrite (around_backgroundPart st _ Hp Hi Ht). reflexivity.
Qed.

Lemma rgb_colours_become_hex_witness :
  rgbToHex (lit "rgba(300, 5 ,17, 0.5)") = lit "#ff0511" /\
  rgbToHex (lit "rgb(255, 128, 0)") = lit "#ff8000" /\
  rgbToHex (lit "rgb(1.5, 2, 3)") = lit "rgb(1.5, 2, 3)" /\
  traverse (plainElement "SPAN" [] (mkStyle (lit "rgb(255, 0, 0)") [] [] [] [])
              [TextNode (lit "x")])
  = Normal (lit "\textcolor{#ff0000}{x}") /\
  traverse (plainElement "SPAN" [] (mkStyle [] (lit "rgb(1, 2, 3)") [] [] [])
              [TextNode (lit "x")])
  = Normal (lit "\colorbox{#010203}{x}").
Proof.
  split; [|split; [|split; [|split]]].
  - apply (proj1 rgb_colours_become_hex (lit "rgba(300, 5 ,17, 0.5)")
             (lit "300") (lit "5") (lit "17")).
    exists (lit "rgba"), [], [], (lit " "), (lit " "), [], (lit ", 0.5)").
    repeat split; try reflexivity; try discriminate. right. reflexivity.
  - apply (proj1 (proj2 rgb_colours_become_hex) 255 128 0)%nat; lia.
  - apply (proj1 (proj2 (proj2 rgb_colours_become_hex)) (lit "rgb(1.5, 2, 3)")).
    intros r g b (name & s1 & s2 & s3 & s4 & s5 & rest & E & Hname & H1 & H2 & H3
                  & H4 & H5 & Hr & Hg & Hb & Hrest).
    assert (R : reRgb (trim (lit "rgb(1.5, 2, 3)")) = None) by (vm_compute; reflexivity).
    rewrite E, (reRgb_form name s1 r s2 s3 g s4 s5 b rest) in R by assumption.
    discriminate.
  - exact (proj1 (proj2 (proj2 (proj2 (proj2 (proj2 rgb_colours_become_hex)))))
             (mkElement (lit "SPAN") []
                (Some (mkStyle (lit "rgb(255, 0, 0)") [] [] [] [])) [])
             [TextNode (lit "x")] (mkStyle (lit "rgb(255, 0, 0)") [] [] [] [])
             (lit "x") eq_refl eq_refl eq_refl (fun H => nil_cons (eq_sym H))
             eq_refl eq_refl eq_refl).
  - exact (proj2 (proj2 (proj2 (proj2 (proj2 (proj2 rgb_colours_become_hex)))))
             (mkElement (lit "SPAN") []
                (Some (mkStyle [] (lit "rgb(1, 2, 3)") [] [] [])) [])
             [TextNode (lit "x")] (mkStyle [] (lit "rgb(1, 2, 3)") [] [] [])
             (lit "x") eq_refl eq_refl eq_refl (fun H => nil_cons (eq_sym H))
             eq_refl eq_refl eq_refl).
Defined.

(** C10 (as stated).  A first component with a sign or a fraction is not
    a run of digits: the value is no match of the pattern and comes out as
    it is, with no hexadecimal colour in the command.  The colour [black]
    gets no [\textcolor] at all, a container drops the wrapper of its
    colour, and the serialised transparent background gets no
    [\colorbox]. *)
Lemma signed_component_is_not_converted :
  traverse (plainElement "SPAN" [] (mkStyle (lit "rgb(-5, 0, 300)") [] [] [] [])
              [TextNode (lit "x")])
  = Normal (lit "\textcolor{rgb(-5, 0, 300)}{x}") /\
  includes (lit "#") (lit "\textcolor{rgb(-5, 0, 300)}{x}") = false /\
  traverse (plainElement "SPAN" [] (mkStyle (lit "rgb(1.5, 2, 3)") [] [] [] [])
              [TextNode (lit "x")])
  = Normal (lit "\textcolor{rgb(1.5, 2, 3)}{x}") /\
  includes (lit "#") (lit "\textcolor{rgb(1.5, 2, 3)}{x}") = false /\
  traverse (plainElement "SPAN" [] (mkStyle (lit "black") [] [] [] [])
              [TextNode (lit "x")])
  = Normal (lit "x") /\
  traverse (plainElement "DIV" [] (mkStyle (lit "rgb(1, 2, 3)") [] [] [] [])
              [TextNode (lit "x")])
  = Normal (nl ++ nl ++ lit "x" ++ nl ++ nl) /\
  traverse (plainElement "SPAN" [] (mkStyle [] (lit "rgba(0, 0, 0, 0)") [] [] [])
              [TextNode (lit "x")])
  = Normal (lit "x").
Proof. repeat split; vm_compute; reflexivity. Qed.

(** ** The fuel of [scan] is enough *)

Lemma shrinking_pret {A} (a : A) : shrinking (pret a).
Proof. intros s x rest H. inversion H. lia. Qed.

Lemma shrinking_fail {A} : shrinking (@fail A).
Proof. intros s x rest H. discriminate. Qed.

Lemma shrinking_pbind {A B} (p : parser A) (k : A -> parser B) :
  shrinking p -> (forall a, shrinking (k a)) -> shrinking (pbind p k).
Proof.
  intros Hp Hk s b rest H. unfold pbind in H.
  destruct (p s) as [[a r]|] eqn:E; [|discriminate].
  apply Hp in E. apply Hk in H. lia.
Qed.

Lemma shrinking_str p : shrinking (str p).
Proof.
  intros s u rest H. unfold str in H.
  destruct (stripPrefix p s) as [r|] eqn:E; [|discriminate].
  inversion H; subst. apply stripPrefix_length in E. lia.
Qed.

Lemma shrinking_many f : shrinking (many f).
Proof. intros s t rest H. inversion H. apply length_dropWhile. Qed.

Lemma shrinking_many1 f : shrinking (many1 f).
Proof.
  intros s t rest H. unfold many1 in H. destruct (takeWhile f s); [discriminate|].
  inversion H. apply length_dropWhile.
Qed.

Lemma shrinking_one f : shrinking (one f).
Proof.
  intros [|c s] x rest H; [discriminate|]. simpl in H.
  destruct (f c); [|discriminate]. inversion H. simpl. lia.
Qed.

Lemma shrinking_lazyUntilIn ok close : shrinking (lazyUntilIn ok close).
Proof.
  intros s. induction s as [|c s IH]; intros t rest H; simpl in H.
  - destruct (stripPrefix close []) as [r|] eqn:E; [|discriminate].
    inversion H; subst. apply stripPrefix_length in E. lia.
  - destruct (stripPrefix close (c :: s)) as [r|] eqn:E.
    + inversion H; subst. apply stripPrefix_length in E. lia.
    + destruct (ok c); [|discriminate].
      destruct (lazyUntilIn ok close s) as [[cap r]|] eqn:E'; [|discriminate].
      inversion H; subst. specialize (IH _ _ eq_refl). simpl. lia.
Qed.

Lemma shrinking_lazyUntil close : shrinking (lazyUntil close).
Proof. apply shrinking_lazyUntilIn. Qed.

Create HintDb shrink.

#[local] Hint Resolve shrinking_pret shrinking_fail shrinking_str shrinking_many
  shrinking_many1 shrinking_one shrinking_lazyUntilIn shrinking_lazyUntil : shrink.

Ltac shrink :=
  repeat first
    [ apply shrinking_pbind; [|intros ?]
    | match goal with |- shrinking (if ?b then _ else _) => destruct b end
    | match goal with |- shrinking (match ?x with _ => _ end) => destruct x end
    | solve [auto with shrink] ].

(** A pattern that starts with a literal consumes at least the literal. *)
Lemma productive_literal {A} (p : jsstring) (k : parser A) :
  p <> [] -> shrinking k -> forall s a rest,
  (str p ;;; k)%parser s = Some (a, rest) -> (length rest < length s)%nat.
Proof.
  intros Hp Hk s a rest H. unfold pbind, str in H.
  destruct (stripPrefix p s) as [r|] eqn:E; [|discriminate].
  apply stripPrefix_length in E. apply Hk in H.
  destruct p; [contradiction|]. simpl in E. lia.
Qed.

Lemma productive_between open close :
  open <> [] -> productive (anywhere (between open close)).
Proof.
  intros H prev. apply productive_literal; [exact H | shrink].
Qed.

Lemma productive_reCheckboxList : productive (anywhere reCheckboxList).
Proof. intros prev. apply productive_literal; [discriminate | shrink]. Qed.

Lemma productive_reInlineMath : productive reInlineMath.
Proof.
  intros prev s a rest H. unfold reInlineMath in H.
  assert (P : forall s a rest,
             (str (lit "$") ;;; c <- one notDollar ;;
              m <- lazyUntilIn notDollar (lit "$") ;; pret (c :: m))%parser s
             = Some (a, rest) -> (length rest < length s)%nat).
  { apply productive_literal; [discriminate | shrink]. }
  destruct prev as [c|]; [|exact (P _ _ _ H)].
  destruct (N.eq_dec c 92) as [->|Hc]; [discriminate|].
  apply (P s a rest). rewrite <- H.
  destruct c as [|q]; [reflexivity|].
  do 7 (destruct q as [q|q|]; try reflexivity). contradiction.
Qed.

Lemma productive_reHeading name : name <> [] -> productive (anywhere (reHeading name)).
Proof. intros H prev. apply productive_literal; [exact H | shrink]. Qed.

Lemma productive_reSize name : name <> [] -> productive (anywhere (reSize name)).
Proof. intros H prev. apply productive_literal; [exact H | shrink]. Qed.

Lemma shrinking_reColorArg : shrinking reColorArg.
Proof.
  intros s a rest H. unfold reColorArg in H.
  destruct (many1 isAlpha s) as [r|] eqn:E.
  - inversion H; subst. apply (shrinking_many1 isAlpha _ _ _ E).
  - revert H. generalize s a rest. shrink.
Qed.

Lemma productive_reColored name : name <> [] -> productive (anywhere (reColored name)).
Proof.
  intros H prev. apply productive_literal; [exact H|].
  shrink. apply shrinking_reColorArg.
Qed.

Lemma productive_reHref : productive (anywhere reHref).
Proof. intros prev. apply productive_literal; [discriminate | shrink]. Qed.

Lemma productive_reGraphicsOpt : productive (anywhere reGraphicsOpt).
Proof. intros prev. apply productive_literal; [discriminate | shrink]. Qed.

Lemma productive_reToken : productive (anywhere reToken).
Proof. intros prev. apply productive_literal; [discriminate | shrink]. Qed.

Lemma productive_whitespace : productive (anywhere (many1 isWhiteSpace)).
Proof.
  intros prev s t rest H. unfold anywhere, many1 in H.
  destruct (takeWhile isWhiteSpace s) as [|c u] eqn:E; [discriminate|].
  inversion H; subst. rewrite <- (takeWhile_dropWhile isWhiteSpace s) at 2.
  rewrite E, length_app. simpl. lia.
Qed.

(** Where a matcher consumes input at each match the scan needs no more
    fuel than the length of the subject: with any larger amount it finds
    the same matches. *)
Lemma scan_enough_fuel {A} (m : matcher A) s extra :
  productive m -> scan (length s + extra) m None s = scan (length s) m None s.
Proof. intros H. apply (scan_fuel m H (length s)); lia. Qed.

(** ** The canonical source of a math node *)

Ltac Zify.zify_post_hook ::= Z.to_euclidean_division_equations.

Lemma below_16 (P : N -> bool) :
  forallb P (map N.of_nat (seq 0 16)) = true -> forall v, v < 16 -> P v = true.
Proof.
  intros H v Hv. rewrite forallb_forall in H. apply H. apply in_map_iff.
  exists (N.to_nat v). split; [apply N2Nat.id | apply in_seq; lia].
Qed.

Lemma hexUpper_digit d : d < 16 -> isHexDigit (hexUpper d) = true.
Proof. apply (below_16 (fun d => isHexDigit (hexUpper d))). vm_compute. reflexivity. Qed.

Lemma hexUpper_value d : d < 16 -> hexValue (hexUpper d) = Some d.
Proof.
  intros H.
  assert (E : match hexValue (hexUpper d) with Some x => x =? d | None => false end = true).
  { revert H. apply (below_16 (fun d => match hexValue (hexUpper d) with
                                         | Some x => x =? d
                                         | None => false
                                         end)).
    vm_compute. reflexivity. }
  destruct (hexValue (hexUpper d)); [|discriminate]. apply N.eqb_eq in E. congruence.
Qed.

Lemma hexOctet_percent b rest :
  b < 256 -> hexOctet (percent b ++ rest) = Some (b, rest).
Proof.
  intros Hb. unfold hexOctet, percent.
  change ([37; hexUpper (b / 16); hexUpper (b mod 16)] ++ rest)
    with ([37] ++ hexUpper (b / 16) :: hexUpper (b mod 16) :: rest).
  rewrite (pbind_Some _ _ _ _ _ (str_app _ _)).
  unfold pbind, one. rewrite !hexUpper_digit, !hexUpper_value by lia.
  unfold pret. f_equal. f_equal. lia.
Qed.

Lemma continuation_percent b rest :
  128 <= b -> b < 192 -> continuation (percent b ++ rest) = Some (b - 128, rest).
Proof.
  intros H1 H2. unfold continuation.
  rewrite (pbind_Some _ _ _ _ _ (hexOctet_percent b rest ltac:(lia))).
  destruct (N.leb_spec 128 b); [|lia]. destruct (N.ltb_spec b 192); [|lia].
  reflexivity.
Qed.

Ltac decide_ltb :=
  repeat match goal with
  | |- context [?a <? ?b] => destruct (N.ltb_spec a b); try lia
  | |- context [?a <=? ?b] => destruct (N.leb_spec a b); try lia
  end; cbn [orb andb].

Lemma utf16_scalar least cp rest :
  least <= cp -> scalar cp -> utf16 least cp rest = Some (units cp, rest).
Proof.
  intros Hl Hs. unfold utf16, units, scalar in *.
  destruct (N.ltb_spec cp least); [lia|].
  destruct (N.ltb_spec 1114111 cp); [lia|].
  destruct (N.leb_spec 55296 cp); destruct (N.leb_spec cp 57343); try lia;
    cbn [orb andb]; destruct (N.ltb_spec cp 65536); reflexivity.
Qed.

(** The escapes of a scalar value decode to its code units. *)
Lemma decodeEscape_percentEncode cp rest :
  scalar cp -> decodeEscape (percentEncode cp ++ rest) = Some (units cp, rest).
Proof.
  intros Hs. assert (Hs' := Hs). unfold scalar in Hs'.
  unfold percentEncode, utf8, decodeEscape.
  destruct (N.ltb_spec cp 128).
  { cbn [map concat]. rewrite app_nil_r.
    rewrite (pbind_Some _ _ _ _ _ (hexOctet_percent cp rest ltac:(lia))).
    destruct (N.ltb_spec cp 128); [|lia]. unfold pret, units.
    destruct (N.ltb_spec cp 65536); [reflexivity | lia]. }
  destruct (N.ltb_spec cp 2048).
  { cbn [map concat]. rewrite app_nil_r, <- app_assoc.
    rewrite (pbind_Some _ _ _ _ _ (hexOctet_percent (192 + cp / 64) _ ltac:(lia))).
    decide_ltb.
    rewrite (pbind_Some _ _ _ _ _
               (continuation_percent (128 + cp mod 64) rest ltac:(lia) ltac:(lia))).
    replace ((192 + cp / 64 - 192) * 64 + (128 + cp mod 64 - 128)) with cp by lia.
    apply utf16_scalar; [lia | exact Hs]. }
  destruct (N.ltb_spec cp 65536).
  { cbn [map concat]. rewrite app_nil_r, <- !app_assoc.
    rewrite (pbind_Some _ _ _ _ _ (hexOctet_percent (224 + cp / 4096) _ ltac:(lia))).
    decide_ltb.
    rewrite (pbind_Some _ _ _ _ _
               (continuation_percent (128 + (cp / 64) mod 64) _ ltac:(lia) ltac:(lia))).
    rewrite (pbind_Some _ _ _ _ _
               (continuation_percent (128 + cp mod 64) rest ltac:(lia) ltac:(lia))).
    replace (((224 + cp / 4096 - 224) * 64 + (128 + (cp / 64) mod 64 - 128)) * 64
             + (128 + cp mod 64 - 128)) with cp by lia.
    apply utf16_scalar; [lia | exact Hs]. }
  cbn [map concat]. rewrite app_nil_r, <- !app_assoc.
  rewrite (pbind_Some _ _ _ _ _ (hexOctet_percent (240 + cp / 262144) _ ltac:(lia))).
  decide_ltb.
  rewrite (pbind_Some _ _ _ _ _
             (continuation_percent (128 + (cp / 4096) mod 64) _ ltac:(lia) ltac:(lia))).
  rewrite (pbind_Some _ _ _ _ _
             (continuation_percent (128 + (cp / 64) mod 64) _ ltac:(lia) ltac:(lia))).
  rewrite (pbind_Some _ _ _ _ _
             (continuation_percent (128 + cp mod 64) rest ltac:(lia) ltac:(lia))).
  replace ((((240 + cp / 262144 - 240) * 64 + (128 + (cp / 4096) mod 64 - 128)) * 64
            + (128 + (cp / 64) mod 64 - 128)) * 64 + (128 + cp mod 64 - 128))
    with cp by lia.
  apply utf16_scalar; [lia | exact Hs].
Qed.

Lemma productive_hexOctet s b rest :
  hexOctet s = Some (b, rest) -> (length rest < length s)%nat.
Proof. apply productive_literal; [discriminate | shrink]. Qed.

Lemma shrinking_hexOctet : shrinking hexOctet.
Proof. intros s b rest H. apply productive_hexOctet in H. lia. Qed.

Lemma shrinking_continuation : shrinking continuation.
Proof. unfold continuation. shrink. Qed.

Lemma shrinking_utf16 least cp : shrinking (utf16 least cp).
Proof. unfold utf16. shrink. Qed.

Lemma productive_decodeEscape s t rest :
  decodeEscape s = Some (t, rest) -> (length rest < length s)%nat.
Proof.
  unfold decodeEscape, pbind at 1.
  destruct (hexOctet s) as [[b r]|] eqn:E; [|discriminate].
  apply productive_hexOctet in E. intros H.
  assert (Hs : shrinking
                 (if b <? 128 then pret [b]
                  else if b <? 192 then fail
                  else if b <? 224 then
                    (c1 <- continuation ;; utf16 128 ((b - 192) * 64 + c1))%parser
                  else if b <? 240 then
                    (c1 <- continuation ;; c2 <- continuation ;;
                     utf16 2048 (((b - 224) * 64 + c1) * 64 + c2))%parser
                  else if b <? 248 then
                    (c1 <- continuation ;; c2 <- continuation ;; c3 <- continuation ;;
                     utf16 65536 ((((b - 240) * 64 + c1) * 64 + c2) * 64 + c3))%parser
                  else fail)).
  { shrink; auto using shrinking_continuation, shrinking_utf16. }
  apply Hs in H. lia.
Qed.

Lemma decodeLoop_fuel : forall n s f1 f2,
  (length s <= n)%nat -> (length s <= f1)%nat -> (length s <= f2)%nat ->
  decodeLoop f1 s = decodeLoop f2 s.
Proof.
  induction n as [|n IH]; intros s f1 f2 Hn H1 H2.
  - destruct s; [|simpl in Hn; lia]. destruct f1, f2; reflexivity.
  - destruct s as [|c s]; [destruct f1, f2; reflexivity|].
    destruct f1 as [|f1]; [simpl in H1; lia|].
    destruct f2 as [|f2]; [simpl in H2; lia|].
    cbn [decodeLoop]. destruct (c =? 37).
    + destruct (decodeEscape (c :: s)) as [[t rest]|] eqn:E; [|reflexivity].
      apply productive_decodeEscape in E. simpl in *. f_equal. apply IH; lia.
    + simpl in *. f_equal. apply IH; lia.
Qed.

Lemma percentEncode_head cp : exists t, percentEncode cp = 37 :: t.
Proof.
  unfold percentEncode, utf8.
  destruct (cp <? 128); [|destruct (cp <? 2048); [|destruct (cp <? 65536)]];
    cbn [map concat percent app]; eexists; reflexivity.
Qed.

Lemma unreserved_not_percent c : isUnreserved c = true -> (c =? 37) = false.
Proof.
  intros H. destruct (N.eqb_spec c 37) as [->|]; [discriminate | reflexivity].
Qed.

Lemma units_pair hi lo :
  isHighSurrogate hi = true -> isLowSurrogate lo = true ->
  scalar (pairCodePoint hi lo) /\ units (pairCodePoint hi lo) = [hi; lo].
Proof.
  unfold isHighSurrogate, isLowSurrogate, scalar, units, pairCodePoint.
  intros Hh Hl. to_prop Hh. to_prop Hl. split; [lia|].
  destruct (N.ltb_spec (65536 + (hi - 55296) * 1024 + (lo - 56320)) 65536); [lia|].
  f_equal; [lia|]. f_equal. lia.
Qed.

Lemma decodeLoop_escape cp e :
  scalar cp ->
  decodeLoop (length (percentEncode cp ++ e)) (percentEncode cp ++ e) =
  cmap (app (units cp)) (decodeLoop (length e) e).
Proof.
  intros Hs. pose proof (decodeEscape_percentEncode cp e Hs) as D.
  destruct (percentEncode_head cp) as [t Ht]. rewrite Ht in *.
  cbn [app length decodeLoop]. change (37 =? 37) with true. cbv iota.
  change (37 :: t ++ e) with ((37 :: t) ++ e). rewrite D. f_equal.
  apply (decodeLoop_fuel (length e)); rewrite ?length_app; lia.
Qed.

(** Decoding undoes encoding, code unit for code unit. *)
Lemma decode_encode : forall n s e,
  (length s <= n)%nat -> codeUnits s ->
  encodeURIComponent s = Normal e -> decodeURIComponent e = Normal s.
Proof.
  unfold decodeURIComponent, codeUnits.
  induction n as [|n IH]; intros s e Hn Hu H.
  - destruct s; [|simpl in Hn; lia]. inversion H. reflexivity.
  - destruct s as [|c s]; [inversion H; reflexivity|].
    cbn [forallb] in Hu. apply andb_true_iff in Hu as [Hc Hu]. apply N.ltb_lt in Hc.
    cbn [encodeURIComponent] in H. simpl in Hn.
    destruct (isUnreserved c) eqn:U.
    { destruct (encodeURIComponent s) as [e'|] eqn:E; [|discriminate].
      inversion H; subst. cbn [length decodeLoop].
      rewrite (unreserved_not_percent c U), (IH s e' ltac:(lia) Hu E). reflexivity. }
    destruct (isLowSurrogate c) eqn:L; [discriminate|].
    destruct (isHighSurrogate c) eqn:Hi.
    { destruct s as [|d s]; [discriminate|].
      destruct (isLowSurrogate d) eqn:Ld; [|discriminate].
      cbn [forallb] in Hu. apply andb_true_iff in Hu as [_ Hu]. simpl in Hn.
      destruct (encodeURIComponent s) as [e'|] eqn:E; [|discriminate].
      inversion H; subst. destruct (units_pair c d Hi Ld) as [Sc Un].
      rewrite (decodeLoop_escape _ e' Sc), (IH s e' ltac:(lia) Hu E), Un. reflexivity. }
    destruct (encodeURIComponent s) as [e'|] eqn:E; [|discriminate].
    inversion H; subst.
    assert (Sc : scalar c).
    { unfold scalar, isLowSurrogate, isHighSurrogate in *.
      destruct (N.leb_spec 56320 c); destruct (N.leb_spec c 57343);
        destruct (N.leb_spec 55296 c); destruct (N.leb_spec c 56319);
        try discriminate; lia. }
    rewrite (decodeLoop_escape _ e' Sc), (IH s e' ltac:(lia) Hu E).
    unfold units. destruct (N.ltb_spec c 65536); [reflexivity | lia].
Qed.

Lemma decodeURIComponent_encodeURIComponent s e :
  codeUnits s -> encodeURIComponent s = Normal e -> decodeURIComponent e = Normal s.
Proof. apply (decode_encode (length s)). lia. Qed.

(** A math block without an editor field in it compiles to the decoded
    attribute between the display delimiters, whatever its preview is. *)
Lemma traverse_math_block m enc preview :
  codeUnits m -> encodeURIComponent m = Normal enc ->
  querySelector (hasTag (lit "textarea")) preview = None ->
  traverse (mathBlockElement enc preview)
  = Normal (nl ++ lit "\[" ++ nl ++ m ++ nl ++ lit "\]" ++ nl).
Proof.
  intros Hu He Hq. unfold mathBlockElement, plainElement. cbn [traverse].
  change (classListContains _ (lit "math-block")) with true. cbv iota.
  unfold mathSource. rewrite Hq. cbn [attributes getAttribute].
  change (eqs (lit "class") (lit "data-latex")) with false.
  change (eqs (lit "contenteditable") (lit "data-latex")) with false.
  change (eqs (lit "data-latex") (lit "data-latex")) with true. cbv iota.
  rewrite (decodeURIComponent_encodeURIComponent m enc Hu He). reflexivity.
Qed.

(** ** The escaper on text without a backslash *)

#[local] Arguments replaceAll : simpl never.

Lemma replaceAll_cons pat rep c s :
  pat <> [] ->
  replaceAll pat rep (c :: s) =
  match stripPrefix pat (c :: s) with
  | Some rest => rep ++ replaceAll pat rep rest
  | None => c :: replaceAll pat rep s
  end.
Proof.
  intros H. destruct pat as [|a pat]; [contradiction|]. unfold replaceAll.
  rewrite replaceWith_cons by apply productive_str. unfold str.
  destruct (stripPrefix (a :: pat) (c :: s)); reflexivity.
Qed.

Lemma replaceAll_nil pat rep : replaceAll pat rep [] = [].
Proof. reflexivity. Qed.

(** A pattern that starts with another code unit does not match here. *)
Lemma replaceAll_skip k pat rep c s :
  c <> k -> replaceAll (k :: pat) rep (c :: s) = c :: replaceAll (k :: pat) rep s.
Proof.
  intros H. rewrite replaceAll_cons by discriminate. cbn [stripPrefix].
  destruct (N.eqb_spec k c); [congruence | reflexivity].
Qed.

(** Replacing one code unit works on each part of a text by itself. *)
Lemma replaceAll_char_app k rep a b :
  replaceAll [k] rep (a ++ b) = replaceAll [k] rep a ++ replaceAll [k] rep b.
Proof.
  induction a as [|c a IH]; [reflexivity|].
  change ((c :: a) ++ b) with (c :: a ++ b).
  rewrite !replaceAll_cons by discriminate. cbn [stripPrefix].
  destruct (k =? c); rewrite IH; [rewrite app_assoc|]; reflexivity.
Qed.

Ltac eval_lits :=
  repeat match goal with
  | |- context [lit ?s] =>
      let v := eval vm_compute in (lit s) in change (lit s) with v
  end.

Lemma escapeLatex_app a b : escapeLatex (a ++ b) = escapeLatex a ++ escapeLatex b.
Proof. unfold escapeLatex. eval_lits. rewrite !replaceAll_char_app. reflexivity. Qed.

Ltac step_replaceAll :=
  cbn [app]; repeat (rewrite replaceAll_cons by discriminate; cbn).

(** Behind the escape of a code unit other than the backslash, unescaping
    gives the code unit back and goes on with what follows. *)
Lemma unescapeLatex_escaped c y :
  c <> 92 -> unescapeLatex (escapeLatex [c] ++ y) = c :: unescapeLatex y.
Proof.
  intros Hc.
  destruct (N.eq_dec c 123) as [->|H1]; [unfold unescapeLatex; eval_lits;
    change (escapeLatex [123]) with [92; 123]; step_replaceAll; reflexivity|].
  destruct (N.eq_dec c 125) as [->|H2]; [unfold unescapeLatex; eval_lits;
    change (escapeLatex [125]) with [92; 125]; step_replaceAll; reflexivity|].
  destruct (N.eq_dec c 36) as [->|H3]; [unfold unescapeLatex; eval_lits;
    change (escapeLatex [36]) with [92; 36]; step_replaceAll; reflexivity|].
  destruct (N.eq_dec c 38) as [->|H4]; [unfold unescapeLatex; eval_lits;
    change (escapeLatex [38]) with [92; 38]; step_replaceAll; reflexivity|].
  destruct (N.eq_dec c 35) as [->|H5]; [unfold unescapeLatex; eval_lits;
    change (escapeLatex [35]) with [92; 35]; step_replaceAll; reflexivity|].
  destruct (N.eq_dec c 37) as [->|H6]; [unfold unescapeLatex; eval_lits;
    change (escapeLatex [37]) with [92; 37]; step_replaceAll; reflexivity|].
  destruct (N.eq_dec c 95) as [->|H7]; [unfold unescapeLatex; eval_lits;
    change (escapeLatex [95]) with [92; 95]; step_replaceAll; reflexivity|].
  destruct (N.eq_dec c 94) as [->|H8].
  { unfold unescapeLatex.
    let v := eval vm_compute in (escapeLatex [94]) in change (escapeLatex [94]) with v.
    eval_lits. step_replaceAll. reflexivity. }
  destruct (N.eq_dec c 126) as [->|H9].
  { unfold unescapeLatex.
    let v := eval vm_compute in (escapeLatex [126]) in change (escapeLatex [126]) with v.
    eval_lits. step_replaceAll. reflexivity. }
  assert (E : escapeLatex [c] = [c]).
  { unfold escapeLatex. eval_lits.
    repeat (rewrite replaceAll_skip by assumption; rewrite replaceAll_nil).
    reflexivity. }
  rewrite E. unfold unescapeLatex. eval_lits. cbn [app].
  rewrite !replaceAll_skip by assumption. reflexivity.
Qed.

(** On text without a backslash [unescapeLatex] undoes [escapeLatex]. *)
Lemma escape_round_trip_without_backslash x :
  existsb (N.eqb 92) x = false -> unescapeLatex (escapeLatex x) = x.
Proof.
  induction x as [|c x IH]; intros H; [reflexivity|].
  cbn [existsb] in H. apply orb_false_iff in H as [Hc Hx].
  change (c :: x) with ([c] ++ x) at 1.
  rewrite escapeLatex_app, unescapeLatex_escaped, (IH Hx); [reflexivity|].
  intros ->. discriminate.
Qed.

(** C1. A single backslash holds none of the escaped forms, its escape is
    [\textbackslash\{\}] because the two brace passes run after the
    backslash pass, and unescaping that gives [\textbackslash{}]. *)
Theorem backslash_round_trip_fails :
  forallb (fun form => negb (includes (lit form) (lit "\")))
    ["\textbackslash{}"; "\{"; "\}"; "\$"; "\&"; "\#"; "\%"; "\_";
     "\textasciicircum{}"; "\textasciitilde{}"]%string = true /\
  escapeLatex (lit "\") = lit "\textbackslash\{\}" /\
  unescapeLatex (escapeLatex (lit "\")) = lit "\textbackslash{}".
Proof. repeat split; vm_compute; reflexivity. Qed.

(** ** [latexToHtml] returns on text without surrogates *)

Lemma clean_app a b : clean (a ++ b) <-> clean a /\ clean b.
Proof. unfold clean. rewrite forallb_app. apply andb_true_iff. Qed.

Lemma clean_cons c s : clean (c :: s) <-> notSurrogate c = true /\ clean s.
Proof. unfold clean. cbn [forallb]. apply andb_true_iff. Qed.

Lemma clean_lit s : clean (lit s).
Proof.
  unfold clean, lit. apply forallb_forall. intros c Hc.
  apply in_map_iff in Hc as (a & <- & _). pose proof (N_ascii_bounded a) as B.
  unfold notSurrogate, isHighSurrogate, isLowSurrogate.
  destruct (N.leb_spec 55296 (N_of_ascii a)); [lia|].
  destruct (N.leb_spec 56320 (N_of_ascii a)); [lia|]. reflexivity.
Qed.

Lemma clean_token n : clean (token n).
Proof. unfold token, decimal. rewrite !clean_app. repeat split; apply clean_lit. Qed.

Lemma encodeURIComponent_clean s : clean s -> exists e, encodeURIComponent s = Normal e.
Proof.
  induction s as [|c s IH]; intros H; [exists []; reflexivity|].
  apply clean_cons in H as [Hc Hs]. destruct (IH Hs) as [e He].
  unfold notSurrogate in Hc. apply negb_true_iff, orb_false_iff in Hc as [Hh Hl].
  cbn [encodeURIComponent]. rewrite He, Hh, Hl.
  destruct (isUnreserved c); eexists; reflexivity.
Qed.

Lemma keeps_pret {A} (good : A -> Prop) a : good a -> keeps good (pret a).
Proof. intros H s x rest E Hs. inversion E; subst. split; assumption. Qed.

Lemma keeps_pbind {A B} (g1 : A -> Prop) (g2 : B -> Prop) p k :
  keeps g1 p -> (forall a, g1 a -> keeps g2 (k a)) -> keeps g2 (pbind p k).
Proof.
  intros Hp Hk s b rest E Hs. unfold pbind in E.
  destruct (p s) as [[a r]|] eqn:Ep; [|discriminate].
  destruct (Hp _ _ _ Ep Hs) as [Ha Hr]. apply (Hk a Ha _ _ _ E Hr).
Qed.

Lemma keeps_str p : keeps (fun _ => True) (str p).
Proof.
  intros s u rest E Hs. unfold str in E.
  destruct (stripPrefix p s) as [r|] eqn:Ep; [|discriminate].
  inversion E; subst. apply stripPrefix_Some in Ep. subst.
  apply clean_app in Hs. tauto.
Qed.

Lemma keeps_many f : keeps clean (many f).
Proof.
  intros s t rest E Hs. inversion E; subst.
  rewrite <- (takeWhile_dropWhile f s) in Hs. apply clean_app in Hs. exact Hs.
Qed.

Lemma keeps_many1 f : keeps clean (many1 f).
Proof.
  intros s t rest E Hs. unfold many1 in E.
  destruct (takeWhile f s) as [|c u] eqn:Et; [discriminate|].
  inversion E; subst. rewrite <- Et.
  rewrite <- (takeWhile_dropWhile f s) in Hs. apply clean_app in Hs. exact Hs.
Qed.

Lemma keeps_one f : keeps (fun c => notSurrogate c = true) (one f).
Proof.
  intros [|c s] x rest E Hs; [discriminate|]. simpl in E.
  destruct (f c); [|discriminate]. inversion E; subst. apply clean_cons, Hs.
Qed.

Lemma keeps_lazyUntilIn ok close : keeps clean (lazyUntilIn ok close).
Proof.
  intros s. induction s as [|c s IH]; intros t rest E Hs; simpl in E.
  - destruct (stripPrefix close []) as [r|] eqn:Ep; [|discriminate].
    inversion E; subst. apply stripPrefix_Some in Ep.
    destruct close; [|discriminate]. simpl in Ep. subst. split; reflexivity.
  - destruct (stripPrefix close (c :: s)) as [r|] eqn:Ep.
    + inversion E; subst. apply stripPrefix_Some in Ep. rewrite Ep in Hs.
      apply clean_app in Hs. split; [reflexivity | tauto].
    + destruct (ok c); [|discriminate].
      destruct (lazyUntilIn ok close s) as [[cap r]|] eqn:El; [|discriminate].
      inversion E; subst. apply clean_cons in Hs as [Hc Hs].
      destruct (IH _ _ eq_refl Hs) as [H1 H2]. split; [|exact H2].
      apply clean_cons. split; assumption.
Qed.

Lemma keeps_between open close : keeps clean (between open close).
Proof.
  unfold between. apply (keeps_pbind (fun _ => True)); [apply keeps_str|].
  intros _ _. apply keeps_lazyUntilIn.
Qed.

Lemma keeps_reCheckboxList : keeps clean reCheckboxList.
Proof.
  unfold reCheckboxList.
  apply (keeps_pbind (fun _ => True)); [apply keeps_str | intros _ _].
  apply (keeps_pbind clean); [apply keeps_many | intros _ _].
  apply (keeps_pbind (fun _ => True)); [apply keeps_str | intros _ _].
  apply keeps_lazyUntilIn.
Qed.

Lemma keeps_reInlineMath prev : keeps clean (reInlineMath prev).
Proof.
  assert (K : keeps clean
                (str (lit "$") ;;; c <- one notDollar ;;
                 m <- lazyUntilIn notDollar (lit "$") ;; pret (c :: m))%parser).
  { apply (keeps_pbind (fun _ => True)); [apply keeps_str | intros _ _].
    apply (keeps_pbind (fun c => notSurrogate c = true)); [apply keeps_one | intros c Hc].
    apply (keeps_pbind clean); [apply keeps_lazyUntilIn | intros m Hm].
    apply keeps_pret. apply clean_cons. split; assumption. }
  unfold reInlineMath. destruct prev as [c|]; [|exact K].
  destruct c as [|q]; [exact K|].
  do 7 (destruct q as [q|q|]; try exact K).
  intros s a rest E. discriminate.
Qed.

Lemma search_clean p : keeps clean p ->
  forall s a, search p s = Some a -> clean s -> clean a.
Proof.
  intros Hp s. induction s as [|c s IH]; intros a E Hs; simpl in E.
  - destruct (p []) as [[x r]|] eqn:Ep; [|discriminate]. inversion E; subst.
    apply (Hp _ _ _ Ep Hs).
  - destruct (p (c :: s)) as [[x r]|] eqn:Ep.
    + inversion E; subst. apply (Hp _ _ _ Ep Hs).
    + apply clean_cons in Hs. apply (IH a E). tauto.
Qed.

Lemma scan_clean (m : matcher (list N)) :
  (forall prev, keeps clean (m prev)) ->
  forall fuel prev s, clean s -> Forall cleanSegment (scan fuel m prev s).
Proof.
  intros Hm. induction fuel as [|fuel IH]; intros prev s Hs.
  - simpl. apply Forall_forall. intros seg Hin.
    apply in_map_iff in Hin as (c & <- & Hc). unfold clean in Hs.
    rewrite forallb_forall in Hs. apply Hs, Hc.
  - destruct s as [|c s]; [constructor|]. simpl.
    destruct (m prev (c :: s)) as [[a rest]|] eqn:E.
    + destruct (Hm prev _ _ _ E Hs) as [Ha Hr]. constructor; [exact Ha | apply IH, Hr].
    + apply clean_cons in Hs as [Hc Hs']. constructor; [exact Hc | apply IH, Hs'].
Qed.

Lemma renderM_clean f segs :
  returnsClean f -> Forall cleanSegment segs ->
  forall st, exists out st', renderM f segs st = Normal (out, st') /\ clean out.
Proof.
  intros Hf H. induction H as [|seg segs Hseg _ IH]; intros st.
  - exists [], st. split; reflexivity.
  - destruct seg as [c|a]; cbn [renderM]; unfold bind.
    + destruct (IH st) as (out & st' & -> & Ho). exists (c :: out), st'.
      split; [reflexivity | apply clean_cons; split; assumption].
    + destruct (Hf a st Hseg) as (x & st1 & -> & Hx).
      destruct (IH st1) as (out & st' & -> & Ho). exists (x ++ out), st'.
      split; [reflexivity | apply clean_app; split; assumption].
Qed.

Lemma replaceM_clean m f content :
  (forall prev, keeps clean (m prev)) -> returnsClean f -> clean content ->
  forall st, exists out st', replaceM m f content st = Normal (out, st') /\ clean out.
Proof.
  intros Hm Hf Hc. apply renderM_clean; [exact Hf | apply scan_clean; assumption].
Qed.

Lemma returnsClean_protect (build : list N -> list N) :
  returnsClean (fun c => protect (build c)).
Proof.
  intros a st _. unfold protect. eexists _, _. split; [reflexivity | apply clean_token].
Qed.

Lemma returnsClean_math katex (opening closing : list N) (displayMode : bool) :
  returnsClean (fun m =>
    (e <- lift (encodeURIComponent m) ;;
     protect (opening ++ e ++ html "'>" ++ renderMath katex m displayMode ++ closing))%store).
Proof.
  intros m st Hm. destruct (encodeURIComponent_clean m Hm) as [e He].
  unfold bind, lift. rewrite He. unfold protect. eexists _, _.
  split; [reflexivity | apply clean_token].
Qed.

(** One protect pass on clean content: it returns, and clean content. *)
Ltac protect_pass Hclean Hkeeps Hf :=
  match goal with
  | |- context [replaceM ?m ?f ?c ?st] =>
      let c' := fresh "c" in
      let st' := fresh "st" in
      let E := fresh "E" in
      let H := fresh "H" in
      destruct (replaceM_clean m f c Hkeeps Hf Hclean st) as (c' & st' & E & H);
      rewrite E; cbv beta iota
  end.

Lemma protectBlocks_clean katex content :
  clean content ->
  exists out st, protectBlocks katex content [] = Normal (out, st).
Proof.
  intros H0. unfold protectBlocks, protectDisplayMath, protectInlineMath.
  unfold bind at 1.
  protect_pass H0 (fun _ : option N => keeps_between (lit "\begin{verbatim}")
                                          (lit "\end{verbatim}"))
    (returnsClean_protect
       (fun c => html "<pre class='bg-slate-100 p-3 rounded font-mono text-sm my-4 border border-slate-200 overflow-x-auto' contenteditable='false'>" ++ c ++ lit "</pre>")).
  unfold bind at 1.
  protect_pass H (fun _ : option N => keeps_reCheckboxList)
    (returnsClean_protect checkboxList).
  unfold bind at 1.
  protect_pass H1 (fun _ : option N => keeps_between (lit "\[") (lit "\]"))
    (returnsClean_math katex mathBlockOpen (lit "</div>") true).
  unfold bind at 1.
  protect_pass H2 (fun _ : option N => keeps_between (lit "$$") (lit "$$"))
    (returnsClean_math katex mathBlockOpen (lit "</div>") true).
  unfold bind at 1.
  protect_pass H3 keeps_reInlineMath
    (returnsClean_math katex mathInlineOpen (lit "</span>") false).
  protect_pass H4 (fun _ : option N => keeps_between (lit "\texttt{") (lit "}"))
    (returnsClean_protect
       (fun c => html "<code class='bg-slate-100 px-1.5 py-0.5 rounded text-sm font-mono text-pink-600'>" ++ c ++ lit "</code>")).
  eexists _, _. reflexivity.
Qed.

(** X17. Only a surrogate code unit can make [latexToHtml] throw: on a text
    without one it returns, whatever the markup is and whether or not
    [window.katex] is there. *)
Lemma latexToHtml_returns katex latex :
  clean latex -> exists out, latexToHtml katex latex = Normal out.
Proof.
  intros H. unfold latexToHtml. destruct (isEmpty latex); [exists []; reflexivity|].
  set (content := match search _ latex with Some body => body | None => latex end).
  assert (Hc : clean content).
  { unfold content.
    destruct (search (between (lit "\begin{document}") (lit "\end{document}")) latex)
      as [body|] eqn:E; [|exact H].
    apply (search_clean _ (keeps_between _ _) _ _ E H). }
  destruct (protectBlocks_clean katex content Hc) as (out & st & E).
  unfold bind. rewrite E. unfold restoreAll. eexists. reflexivity.
Qed.

(** C7. A math region that holds a high surrogate without its low
    surrogate: [encodeURIComponent] throws and nothing catches it. *)
Theorem lone_surrogate_in_math_throws :
  forall katex, latexToHtml katex (lit "$" ++ [55296] ++ lit "$") = Throw URIError.
Proof. intros katex. vm_compute. reflexivity. Qed.

(** ** Nested protected blocks *)

(** C3. Inline math inside [\texttt]: the input holds no token, the block
    of the math is stored first and its token is captured into the block
    of the code span; the single restore pass puts the code span back and
    leaves the token of the math in the result. *)
Theorem nested_protected_block_leaks :
  forall katex,
    search reToken (lit "\texttt{$x$}") = None /\
    latexToHtml katex (lit "\texttt{$x$}")
    = Normal (html "<code class='bg-slate-100 px-1.5 py-0.5 rounded text-sm font-mono text-pink-600'>__PROTECTED_BLOCK_0__</code>") /\
    includes (token 0)
      (html "<code class='bg-slate-100 px-1.5 py-0.5 rounded text-sm font-mono text-pink-600'>__PROTECTED_BLOCK_0__</code>")
    = true.
Proof. intros katex. repeat split; vm_compute; reflexivity. Qed.

(** ** Display math, forward and backward *)

Lemma includes_cons_false p c s :
  includes p (c :: s) = false -> stripPrefix p (c :: s) = None /\ includes p s = false.
Proof.
  rewrite includes_cons. intros H. apply orb_false_iff in H as [H1 H2].
  unfold startsWith in H1. destruct (stripPrefix p (c :: s)); [discriminate|].
  split; [reflexivity | exact H2].
Qed.

(** Where the literal a pattern starts with does not occur, nothing
    matches. *)
Lemma scan_absent {A} (open : list N) (k : parser A) : forall fuel prev s,
  includes open s = false ->
  scan fuel (anywhere (str open ;;; k)%parser) prev s = map Keep s.
Proof.
  induction fuel as [|fuel IH]; intros prev s H; [reflexivity|].
  destruct s as [|c s]; [reflexivity|].
  apply includes_cons_false in H as [H1 H2]. cbn [scan map].
  unfold anywhere at 1. unfold pbind at 1. unfold str at 1. rewrite H1.
  f_equal. apply IH, H2.
Qed.

Lemma search_absent {A} (open : list N) (k : parser A) : forall s,
  includes open s = false -> search (str open ;;; k)%parser s = None.
Proof.
  induction s as [|c s IH]; intros H.
  - cbn [search]. unfold pbind, str. cbn [includes] in H.
    apply orb_false_iff in H as [H _]. unfold startsWith in H.
    destruct (stripPrefix open []); [discriminate | reflexivity].
  - apply includes_cons_false in H as [H1 H2]. cbn [search].
    unfold pbind at 1. unfold str at 1. rewrite H1. apply IH, H2.
Qed.

Lemma renderM_keep {A} (f : A -> M (list N)) s st :
  renderM f (map Keep s) st = Normal (s, st).
Proof.
  induction s as [|c s IH]; [reflexivity|]. cbn [map renderM]. unfold bind.
  rewrite IH. reflexivity.
Qed.

Lemma replaceM_absent {A} (p : parser A) (open : list N) (k : parser A) f s st :
  p = (str open ;;; k)%parser ->
  includes open s = false ->
  replaceM (anywhere p) f s st = Normal (s, st).
Proof.
  intros -> H. unfold replaceM. rewrite (scan_absent open k _ _ _ H). apply renderM_keep.
Qed.

(** The lazy capture in front of [\]] is the whole of a source that does
    not hold [\]]. *)
Lemma lazyUntil_display m :
  includes (lit "\]") m = false ->
  lazyUntil (lit "\]") (m ++ lit "\]") = Some (m, []).
Proof.
  change (lit "\]") with [92; 93]. unfold lazyUntil.
  induction m as [|c m IH]; intros H; [reflexivity|].
  apply includes_cons_false in H as [H1 H2].
  change ((c :: m) ++ [92; 93]) with (c :: m ++ [92; 93]). cbn [lazyUntilIn].
  rewrite (IH H2).
  replace (stripPrefix [92; 93] (c :: m ++ [92; 93])) with (@None (list N));
    [reflexivity|].
  cbn [stripPrefix] in *. destruct (92 =? c); [|reflexivity].
  destruct m as [|d m]; [reflexivity|]. cbn [app] in *.
  destruct (93 =? d); [discriminate | reflexivity].
Qed.

(** A body that is one display-math region and holds no verbatim, list or
    document environment compiles to one math block: the attribute is the
    encoded source and the preview is what [renderMath] gives. *)
Lemma bind_Normal {A B} (c : M A) (k : A -> M B) st a st' :
  c st = Normal (a, st') -> bind c k st = k a st'.
Proof. intros H. unfold bind. rewrite H. reflexivity. Qed.

Lemma scan_display m :
  includes (lit "\]") m = false ->
  scan (length (lit "\[" ++ m ++ lit "\]"))
    (anywhere (between (lit "\[") (lit "\]"))) None (lit "\[" ++ m ++ lit "\]")
  = [Hit m].
Proof.
  intros Hm.
  assert (P : between (lit "\[") (lit "\]") (lit "\[" ++ m ++ lit "\]") = Some (m, [])).
  { unfold between. rewrite (pbind_Some _ _ _ _ _ (str_app _ _)).
    apply lazyUntil_display, Hm. }
  set (t := 91 :: m ++ lit "\]").
  change (lit "\[" ++ m ++ lit "\]") with (92 :: t) in *.
  cbn [length scan]. unfold anywhere at 1. rewrite P.
  destruct (length t); reflexivity.
Qed.

Lemma latexToHtml_display_math katex m enc :
  includes (lit "\begin{document}") (lit "\[" ++ m ++ lit "\]") = false ->
  includes (lit "\begin{verbatim}") (lit "\[" ++ m ++ lit "\]") = false ->
  includes (lit "\begin{itemize}") (lit "\[" ++ m ++ lit "\]") = false ->
  includes (lit "\]") m = false ->
  encodeURIComponent m = Normal enc ->
  latexToHtml katex (lit "\[" ++ m ++ lit "\]")
  = Normal (mathBlockOpen ++ enc ++ html "'>" ++ renderMath katex m true ++ lit "</div>").
Proof.
  intros Hdoc Hverb Hitem Hm Henc. unfold latexToHtml.
  change (isEmpty (lit "\[" ++ m ++ lit "\]")) with false. cbv iota.
  unfold between at 1. rewrite (search_absent _ _ _ Hdoc).
  set (blk := mathBlockOpen ++ enc ++ html "'>" ++ renderMath katex m true ++ lit "</div>").
  assert (P : protectBlocks katex (lit "\[" ++ m ++ lit "\]") []
              = Normal (token 0, [blk])).
  { unfold protectBlocks.
    rewrite (bind_Normal _ _ _ _ _
               (replaceM_absent (between (lit "\begin{verbatim}") (lit "\end{verbatim}"))
                  _ _ _ _ _ eq_refl Hverb)).
    rewrite (bind_Normal _ _ _ _ _
               (replaceM_absent reCheckboxList _ _ _ _ _ eq_refl Hitem)).
    assert (P3 : replaceM (anywhere (between (lit "\[") (lit "\]")))
                   (protectDisplayMath katex) (lit "\[" ++ m ++ lit "\]") []
                 = Normal (token 0, [blk])).
    { unfold replaceM. rewrite (scan_display m Hm). cbn [renderM].
      unfold protectDisplayMath.
      assert (L : lift (encodeURIComponent m) [] = Normal (enc, []))
        by (unfold lift; rewrite Henc; reflexivity).
      rewrite (bind_Normal _ _ _ _ _ (bind_Normal _ _ _ _ _ L)).
      reflexivity. }
    rewrite (bind_Normal _ _ _ _ _ P3).
    rewrite (bind_Normal _ _ _ _ _
               (replaceM_absent (between (lit "$$") (lit "$$")) _ _ _ (token 0) _
                  eq_refl eq_refl)).
    assert (P5 : replaceM reInlineMath (protectInlineMath katex) (token 0) [blk]
                 = Normal (token 0, [blk])).
    { unfold replaceM.
      replace (scan (length (token 0)) reInlineMath None (token 0)) with
        (map (@Keep (list N)) (token 0)) by (vm_compute; reflexivity).
      apply renderM_keep. }
    rewrite (bind_Normal _ _ _ _ _ P5).
    apply (replaceM_absent (between (lit "\texttt{") (lit "}")) _ _ _ (token 0) _
             eq_refl eq_refl). }
  rewrite (bind_Normal _ _ _ _ _ P).
  replace (unescapeLatex (spacingFix (formatting (token 0)))) with (token 0)
    by (vm_compute; reflexivity).
  unfold restoreAll, replaceWith.
  replace (scan (length (token 0)) (anywhere reToken) None (token 0))
    with [@Hit (list N) (lit "0")] by (vm_compute; reflexivity).
  cbn [map render concat]. rewrite app_nil_r. reflexivity.
Qed.

Lemma takeWhile_app_first f : forall a s,
  firstIs f s = false ->
  takeWhile f (a ++ s) = takeWhile f a /\ dropWhile f (a ++ s) = dropWhile f a ++ s.
Proof.
  induction a as [|c a IH]; intros s H; cbn [app takeWhile dropWhile].
  - destruct s as [|d s]; [split; reflexivity|]. cbn [firstIs] in H.
    cbn [takeWhile dropWhile]. rewrite H. split; reflexivity.
  - destruct (f c); [|split; reflexivity].
    destruct (IH s H) as [-> ->]. split; reflexivity.
Qed.

Lemma collapseBlankLines_before : forall n a s,
  (length a <= n)%nat -> firstIs isNewline s = false ->
  collapseBlankLines (a ++ s) = collapseBlankLines a ++ collapseBlankLines s.
Proof.
  induction n as [|n IH]; intros a s Hn Hs.
  - destruct a; [reflexivity | simpl in Hn; lia].
  - destruct a as [|c a]; [reflexivity|].
    destruct (takeWhile_app_first isNewline (c :: a) s Hs) as [T D].
    change ((c :: a) ++ s) with (c :: a ++ s) in *.
    rewrite !collapseBlankLines_cons. unfold leadingNewlines. rewrite T, D.
    destruct (3 <=? length (takeWhile isNewline (c :: a)))%nat eqn:E.
    + rewrite IH; [rewrite <- !app_assoc; reflexivity | | exact Hs].
      apply Nat.leb_le in E.
      assert (L : (length (c :: a) =
                   length (takeWhile isNewline (c :: a)) +
                   length (dropWhile isNewline (c :: a)))%nat).
      { rewrite <- length_app, takeWhile_dropWhile. reflexivity. }
      change (length (c :: a)) with (S (length a)) in *. lia.
    + cbn [app]. f_equal. apply IH; [simpl in Hn; lia | exact Hs].
Qed.

Lemma trim_between_newlines x :
  firstIs isWhiteSpace x = false -> lastIs isWhiteSpace x = false -> x <> [] ->
  trim (nl ++ x ++ nl) = x.
Proof.
  intros Hf Hl Hx. unfold trim, trimStart, trimEnd.
  change (nl ++ x ++ nl) with (10 :: x ++ [10]). cbn [dropWhile].
  change (isWhiteSpace 10) with true. cbv iota.
  rewrite (dropWhile_id isWhiteSpace (x ++ [10]))
    by (rewrite firstIs_app by exact Hx; exact Hf).
  rewrite rev_app_distr. cbn [rev app dropWhile].
  change (isWhiteSpace 10) with true. cbv iota.
  rewrite (dropWhile_id isWhiteSpace (rev x)) by exact Hl. apply rev_involutive.
Qed.

(** The tree of a math block compiles to its source between the display
    delimiters, provided the final step finds no run of three newlines in
    the source and the two newlines put around it. *)
Lemma htmlToLatexNodes_math_block m enc preview :
  codeUnits m -> encodeURIComponent m = Normal enc ->
  querySelector (hasTag (lit "textarea")) preview = None ->
  collapseBlankLines (nl ++ m ++ nl) = nl ++ m ++ nl ->
  htmlToLatexNodes [mathBlockElement enc preview]
  = Normal (lit "\[" ++ nl ++ m ++ nl ++ lit "\]").
Proof.
  intros Hu He Hq Hc. unfold htmlToLatexNodes. cbn [traverseAll].
  rewrite (traverse_math_block m enc preview Hu He Hq). cbn [cbind cmap].
  rewrite app_nil_r. f_equal. unfold normalize.
  replace (nl ++ lit "\[" ++ nl ++ m ++ nl ++ lit "\]" ++ nl)
    with ((nl ++ lit "\[") ++ (nl ++ m ++ nl) ++ lit "\]" ++ nl)
    by (rewrite <- !app_assoc; reflexivity).
  rewrite (collapseBlankLines_app (length (nl ++ lit "\[")) (nl ++ lit "\[") _
             (le_n _) eq_refl).
  rewrite (collapseBlankLines_before (length (nl ++ m ++ nl)) (nl ++ m ++ nl)
             (lit "\]" ++ nl) (le_n _) eq_refl).
  rewrite Hc.
  change (collapseBlankLines (nl ++ lit "\[")) with (nl ++ lit "\[").
  change (collapseBlankLines (lit "\]" ++ nl)) with (lit "\]" ++ nl).
  replace ((nl ++ lit "\[") ++ (nl ++ m ++ nl) ++ lit "\]" ++ nl)
    with (nl ++ (lit "\[" ++ nl ++ m ++ nl ++ lit "\]") ++ nl)
    by (rewrite <- !app_assoc; reflexivity).
  apply trim_between_newlines.
  - reflexivity.
  - change (lit "\]") with ([92] ++ [93]). rewrite !app_assoc. apply lastIs_snoc.
  - discriminate.
Qed.

Lemma collapseBlankLines_id s :
  includes (nl ++ nl ++ nl) s = false -> collapseBlankLines s = s.
Proof.
  induction s as [|c s IH]; intros H; [reflexivity|].
  rewrite includes_newlines3_cons in H. apply orb_false_iff in H as [H1 H2].
  rewrite collapseBlankLines_cons, H1, (IH H2). reflexivity.
Qed.


(** ** Malformed markup *)

(** An environment that is not closed, an unknown environment and an
    unknown command stay in the result as they are. *)
Lemma malformed_markup_passes_through katex :
  latexToHtml katex (lit "\begin{center}abc") = Normal (lit "\begin{center}abc") /\
  latexToHtml katex (lit "\begin{itemize}\item a") = Normal (lit "\begin{itemize}\item a") /\
  latexToHtml katex (lit "\begin{verbatim}x") = Normal (lit "\begin{verbatim}x") /\
  latexToHtml katex (lit "\begin{foo}x\end{foo}") = Normal (lit "\begin{foo}x\end{foo}") /\
  latexToHtml katex (lit "\foo{bar} \baz") = Normal (lit "\foo{bar} \baz") /\
  latexToHtml katex (lit "\begin{document}abc") = Normal (lit "\begin{document}abc").
Proof. repeat split; vm_compute; reflexivity. Qed.

(** * Further properties *)

(** ** The escaper, code unit by code unit *)

Lemma escapeLatex_cons c s : escapeLatex (c :: s) = escapeLatex [c] ++ escapeLatex s.
Proof. apply (escapeLatex_app [c] s). Qed.

Lemma char_cases c :
  c = 92 \/ c = 123 \/ c = 125 \/ c = 36 \/ c = 38 \/ c = 35 \/ c = 37 \/ c = 95
  \/ c = 94 \/ c = 126 \/ isSyntax c = false.
Proof.
  unfold isSyntax. change (lit "\{}$&#%_^~") with [92; 123; 125; 36; 38; 35; 37; 95; 94; 126].
  cbn [existsb].
  repeat match goal with
  | |- context [?c =? ?k] => destruct (N.eqb_spec c k); [subst; tauto|]
  end.
  repeat right. reflexivity.
Qed.

Lemma isSyntax_false c :
  isSyntax c = false ->
  c <> 92 /\ c <> 123 /\ c <> 125 /\ c <> 36 /\ c <> 38 /\ c <> 35 /\ c <> 37
  /\ c <> 95 /\ c <> 94 /\ c <> 126.
Proof.
  intros H. repeat split; intros ->; discriminate.
Qed.

(** A code unit that is not one of the ten is left alone. *)
Lemma escapeLatex_other c : isSyntax c = false -> escapeLatex [c] = [c].
Proof.
  intros H. apply isSyntax_false in H. unfold escapeLatex. eval_lits.
  repeat (rewrite replaceAll_skip by tauto; rewrite replaceAll_nil).
  reflexivity.
Qed.

Ltac image k :=
  let v := eval vm_compute in (escapeLatex [k]) in change (escapeLatex [k]) with v in *.

Ltac images :=
  image 92; image 123; image 125; image 36; image 38; image 35; image 37; image 95;
  image 94; image 126.

Ltac by_char c :=
  let H := fresh "H" in
  destruct (char_cases c) as [->|[->|[->|[->|[->|[->|[->|[->|[->|[->|H]]]]]]]]]];
  [..|rewrite ?(escapeLatex_other c H) in *].

Lemma escapeLatex_nonempty c s : escapeLatex (c :: s) <> [].
Proof.
  rewrite escapeLatex_cons. by_char c; images; discriminate.
Qed.

(** The ten escapes and the code units left alone form a prefix code. *)
Lemma escapeLatex_head c d u v :
  escapeLatex [c] ++ u = escapeLatex [d] ++ v -> c = d /\ u = v.
Proof.
  by_char c; by_char d; images; cbn [app]; intros E;
    try (split; [reflexivity | congruence]);
    try discriminate;
    try (injection E; intros; subst; discriminate);
    try (injection E; intros; subst; split; reflexivity).
Qed.

(** X1. [escapeLatex] loses nothing: two texts with the same escape are
    the same text. *)
Theorem escapeLatex_injective a b : escapeLatex a = escapeLatex b -> a = b.
Proof.
  revert b. induction a as [|c a IH]; intros [|d b] E.
  - reflexivity.
  - symmetry in E. apply escapeLatex_nonempty in E. contradiction.
  - apply escapeLatex_nonempty in E. contradiction.
  - rewrite (escapeLatex_cons c a), (escapeLatex_cons d b) in E.
    apply escapeLatex_head in E as [-> E]. f_equal. apply IH, E.
Qed.

Lemma escapeLatex_injective_witness :
  lit "50% of $x_1" = lit "50% of $x_1".
Proof.
  apply (escapeLatex_injective (lit "50% of $x_1") (lit "50% of $x_1")). reflexivity.
Defined.

(** Behind the escape of a backslash, unescaping leaves
    [\textbackslash{}]: the first pass finds no [\textbackslash{}] in
    [\textbackslash\{\}] and the brace passes then make one. *)
Lemma unescapeLatex_escaped_backslash y :
  unescapeLatex (escapeLatex [92] ++ y) = lit "\textbackslash{}" ++ unescapeLatex y.
Proof.
  unfold unescapeLatex. image 92. eval_lits. step_replaceAll. reflexivity.
Qed.

(** X2. What [unescapeLatex] makes of an escaped text: the text with every
    backslash spelled [\textbackslash{}], which is what the first pass of
    [escapeLatex] alone makes of it.  Nothing else is changed. *)
Theorem unescapeLatex_escapeLatex x :
  unescapeLatex (escapeLatex x) = replaceAll (lit "\") (lit "\textbackslash{}") x.
Proof.
  induction x as [|c x IH]; [reflexivity|].
  rewrite escapeLatex_cons. change (lit "\") with [92].
  rewrite replaceAll_cons by discriminate. cbn [stripPrefix].
  destruct (N.eqb_spec 92 c) as [<-|Hc].
  - rewrite unescapeLatex_escaped_backslash, IH. reflexivity.
  - rewrite unescapeLatex_escaped by congruence. rewrite IH. reflexivity.
Qed.

(** ** What an escaped text holds *)

Lemma precededByBackslash_app f : forall a prev b,
  precededByBackslash f prev (a ++ b)
  = precededByBackslash f prev a
    && precededByBackslash f (match rev a with c :: _ => Some c | [] => prev end) b.
Proof.
  induction a as [|c a IH]; intros prev b; [reflexivity|].
  cbn [app precededByBackslash]. rewrite IH, <- andb_assoc. do 2 f_equal.
  cbn [rev]. destruct (rev a) as [|d r]; reflexivity.
Qed.

(** What stands first in an escape is not escapable, so the code unit
    before an escaped text does not matter. *)
Lemma precededByBackslash_escape_prev f c s p q :
  (forall k, f k = true -> isEscapable k = true) ->
  precededByBackslash f p (escapeLatex (c :: s))
  = precededByBackslash f q (escapeLatex (c :: s)).
Proof.
  intros Hf. rewrite escapeLatex_cons.
  assert (N : forall k, isEscapable k = false -> f k = false).
  { intros k Hk. destruct (f k) eqn:E; [|reflexivity].
    apply Hf in E. congruence. }
  by_char c; images; cbn [app precededByBackslash];
    try (rewrite N by reflexivity; reflexivity).
  rewrite N; [reflexivity|].
  apply isSyntax_false in H. unfold isEscapable.
  change (lit "$&#%_") with [36; 38; 35; 37; 95]. cbn [existsb].
  repeat match goal with
  | |- context [?c =? ?k] => destruct (N.eqb_spec c k); [subst; tauto|]
  end.
  reflexivity.
Qed.

Lemma escapeLatex_precededByBackslash x : forall prev,
  precededByBackslash isEscapable prev (escapeLatex x) = true.
Proof.
  induction x as [|c x IH]; intros prev; [reflexivity|].
  rewrite escapeLatex_cons, precededByBackslash_app.
  rewrite IH, andb_true_r.
  by_char c; images; try reflexivity.
  cbn [precededByBackslash].
  replace (isEscapable c) with false; [reflexivity|].
  apply isSyntax_false in H. unfold isEscapable.
  change (lit "$&#%_") with [36; 38; 35; 37; 95]. cbn [existsb].
  repeat match goal with
  | |- context [?c =? ?k] => destruct (N.eqb_spec c k); [subst; tauto|]
  end.
  reflexivity.
Qed.

Lemma precededByBackslash_at f : forall a prev c b,
  precededByBackslash f prev (a ++ c :: b) = true -> f c = true ->
  match rev a with d :: _ => Some d | [] => prev end = Some 92.
Proof.
  intros a prev c b H Hc. rewrite precededByBackslash_app in H.
  apply andb_true_iff in H as [_ H]. cbn [precededByBackslash] in H.
  rewrite Hc in H. apply andb_true_iff in H as [H _].
  destruct (match rev a with d :: _ => Some d | [] => prev end) as [k|]; [|discriminate].
  destruct (N.eq_dec k 92) as [->|Hk]; [reflexivity|].
  destruct k as [|k]; [discriminate|].
  do 7 (destruct k as [k|k|]; try discriminate). contradiction.
Qed.

Lemma escapeLatex_no_circumflex_tilde x :
  existsb (fun c => (c =? 94) || (c =? 126)) (escapeLatex x) = false.
Proof.
  induction x as [|c x IH]; [reflexivity|].
  rewrite escapeLatex_cons, existsb_app, IH, orb_false_r.
  by_char c; images; try reflexivity.
  apply isSyntax_false in H. cbn [existsb].
  destruct (N.eqb_spec c 94); [tauto|]. destruct (N.eqb_spec c 126); [tauto|].
  reflexivity.
Qed.

(** X3. An escaped text holds no circumflex and no tilde, and each of
    [$ & # % _] in it stands right behind a backslash.  (A brace may
    stand free: the escapes of the circumflex and of the tilde end in
    [{}], which no later pass escapes.) *)
Theorem escapeLatex_leaves_no_syntax x :
  existsb (fun c => (c =? 94) || (c =? 126)) (escapeLatex x) = false /\
  forall a c b,
    escapeLatex x = a ++ c :: b -> isEscapable c = true -> lastIs (N.eqb 92) a = true.
Proof.
  split; [apply escapeLatex_no_circumflex_tilde|].
  intros a c b E Hc.
  pose proof (escapeLatex_precededByBackslash x None) as P. rewrite E in P.
  apply (precededByBackslash_at _ _ _ _ _ P) in Hc.
  unfold lastIs, firstIs. destruct (rev a) as [|d r]; [discriminate|].
  injection Hc as ->. reflexivity.
Qed.

(** ** Text in which a pattern finds no place to start *)

Lemma concat_render_keep {A} (f : A -> list N) s :
  concat (map (render f) (map Keep s)) = s.
Proof. induction s as [|c s IH]; [reflexivity|]. cbn. rewrite IH. reflexivity. Qed.

Lemma scan_opensWith {A} (m : matcher A) a :
  opensWith m a ->
  forall fuel prev s,
    forallb (fun c => negb (c =? a)) s = true -> scan fuel m prev s = map Keep s.
Proof.
  intros Hm. induction fuel as [|fuel IH]; intros prev s H; [reflexivity|].
  destruct s as [|c s]; [reflexivity|]. cbn [forallb] in H.
  apply andb_true_iff in H as [Hc Hs]. cbn [scan map].
  rewrite (Hm prev c s).
  - f_equal. apply IH, Hs.
  - intros ->. rewrite N.eqb_refl in Hc. discriminate.
Qed.

Lemma opensWith_literal {A} (p : parser A) a o k :
  p = (str (a :: o) ;;; k)%parser -> opensWith (anywhere p) a.
Proof.
  intros -> prev c s Hc. unfold anywhere, pbind, str. cbn [stripPrefix].
  destruct (N.eqb_spec a c); [congruence | reflexivity].
Qed.

Lemma opensWith_str a o : opensWith (anywhere (str (a :: o))) a.
Proof.
  intros prev c s Hc. unfold anywhere, str. cbn [stripPrefix].
  destruct (N.eqb_spec a c); [congruence | reflexivity].
Qed.

Lemma reInlineMath_after_backslash s : reInlineMath (Some 92) s = None.
Proof. reflexivity. Qed.

Lemma opensWith_reInlineMath : opensWith reInlineMath 36.
Proof.
  intros prev c s Hc.
  assert (K : (str (lit "$") ;;; x <- one notDollar ;;
               m <- lazyUntilIn notDollar (lit "$") ;; pret (x :: m))%parser (c :: s) = None).
  { unfold pbind at 1. unfold str. change (lit "$") with [36]. cbn [stripPrefix].
    destruct (N.eqb_spec 36 c); [congruence | reflexivity]. }
  unfold reInlineMath. destruct prev as [q|]; [|exact K].
  destruct q as [|q]; [exact K|].
  do 7 (destruct q as [q|q|]; try exact K). reflexivity.
Qed.

Lemma replaceWith_untouched {A} (m : matcher A) (f : A -> list N) s :
  scan (length s) m None s = map Keep s -> replaceWith m f s = s.
Proof. intros H. unfold replaceWith. rewrite H. apply concat_render_keep. Qed.

Lemma replaceM_untouched {A} (m : matcher A) (f : A -> M (list N)) s st :
  scan (length s) m None s = map Keep s -> replaceM m f s st = Normal (s, st).
Proof. intros H. unfold replaceM. rewrite H. apply renderM_keep. Qed.

Lemma replaceWith_absent {A} (p : parser A) (open : list N) (k : parser A) f s :
  p = (str open ;;; k)%parser ->
  includes open s = false ->
  replaceWith (anywhere p) f s = s.
Proof.
  intros -> H. apply replaceWith_untouched, scan_absent, H.
Qed.

Lemma scan_str_absent pat : forall fuel prev s,
  includes pat s = false -> scan fuel (anywhere (str pat)) prev s = map Keep s.
Proof.
  induction fuel as [|fuel IH]; intros prev s H; [reflexivity|].
  destruct s as [|c s]; [reflexivity|].
  apply includes_cons_false in H as [H1 H2]. cbn [scan map].
  unfold anywhere at 1, str at 1. rewrite H1. f_equal. apply IH, H2.
Qed.

Lemma replaceAll_absent pat rep s : includes pat s = false -> replaceAll pat rep s = s.
Proof.
  intros H. unfold replaceAll. apply replaceWith_untouched, scan_str_absent, H.
Qed.

(** A literal does not occur where its first code unit does not. *)
Lemma includes_without_first a o s :
  forallb (fun c => negb (c =? a)) s = true -> includes (a :: o) s = false.
Proof.
  induction s as [|c s IH]; intros H; [reflexivity|].
  cbn [forallb] in H. apply andb_true_iff in H as [Hc Hs].
  rewrite includes_cons, (IH Hs), orb_false_r. unfold startsWith. cbn [stripPrefix].
  destruct (N.eqb_spec a c) as [->|]; [|reflexivity].
  rewrite N.eqb_refl in Hc. discriminate.
Qed.

(** A command does not occur where no backslash is followed by its name. *)
Lemma everyBackslash_absent ok s o :
  everyBackslash ok s = true -> (forall r, ok (o ++ r) = false) ->
  includes (92 :: o) s = false.
Proof.
  intros H Ho. induction s as [|c s IH]; [reflexivity|].
  cbn [everyBackslash] in H. apply andb_true_iff in H as [Hc Hs].
  rewrite includes_cons, (IH Hs), orb_false_r. unfold startsWith.
  destruct (stripPrefix (92 :: o) (c :: s)) as [rest|] eqn:E; [|reflexivity].
  apply stripPrefix_Some in E. injection E as -> ->.
  change (92 =? 92) with true in Hc. cbv iota in Hc. rewrite Ho in Hc. discriminate.
Qed.

Lemma everyBackslash_without ok s :
  forallb (fun c => negb (c =? 92)) s = true -> everyBackslash ok s = true.
Proof.
  induction s as [|c s IH]; intros H; [reflexivity|].
  cbn [forallb] in H. apply andb_true_iff in H as [Hc Hs].
  cbn [everyBackslash]. rewrite (IH Hs). apply negb_true_iff in Hc. rewrite Hc.
  reflexivity.
Qed.

Lemma precededByBackslash_without f s prev :
  forallb (fun c => negb (f c)) s = true -> precededByBackslash f prev s = true.
Proof.
  revert prev. induction s as [|c s IH]; intros prev H; [reflexivity|].
  cbn [forallb] in H. apply andb_true_iff in H as [Hc Hs].
  cbn [precededByBackslash]. rewrite (IH _ Hs). apply negb_true_iff in Hc. rewrite Hc.
  reflexivity.
Qed.

Lemma precededByBackslash_mono (f g : N -> bool) :
  (forall c, f c = true -> g c = true) ->
  forall s prev, precededByBackslash g prev s = true -> precededByBackslash f prev s = true.
Proof.
  intros Hfg. induction s as [|c s IH]; intros prev H; [reflexivity|].
  cbn [precededByBackslash] in *. apply andb_true_iff in H as [Hc Hs].
  rewrite (IH _ Hs), andb_true_r. destruct (f c) eqn:E; [|reflexivity].
  rewrite (Hfg c E) in Hc. exact Hc.
Qed.

Lemma is_backslash (prev : option N) :
  match prev with Some 92 => true | _ => false end = true -> prev = Some 92.
Proof.
  destruct prev as [k|]; [|discriminate].
  destruct k as [|k]; [discriminate|].
  do 7 (destruct k as [k|k|]; try discriminate). reflexivity.
Qed.

(** Where every dollar is escaped there is no [$$] and no inline math. *)
Lemma escaped_dollars_no_display s : forall prev,
  precededByBackslash (N.eqb 36) prev s = true -> includes (lit "$$") s = false.
Proof.
  change (lit "$$") with [36; 36].
  induction s as [|c s IH]; intros prev H; [reflexivity|].
  cbn [precededByBackslash] in H. apply andb_true_iff in H as [Hc Hs].
  rewrite includes_cons, (IH _ Hs), orb_false_r. unfold startsWith. cbn [stripPrefix].
  destruct (N.eqb_spec 36 c) as [<-|]; [|reflexivity].
  destruct s as [|d s]; [reflexivity|].
  destruct (N.eqb_spec 36 d) as [<-|]; [|reflexivity].
  cbn [precededByBackslash] in Hs. change (36 =? 36) with true in Hs. discriminate.
Qed.

Lemma escaped_dollars_no_inline : forall fuel prev s,
  precededByBackslash (N.eqb 36) prev s = true ->
  scan fuel reInlineMath prev s = map Keep s.
Proof.
  induction fuel as [|fuel IH]; intros prev s H; [reflexivity|].
  destruct s as [|c s]; [reflexivity|].
  cbn [precededByBackslash] in H. apply andb_true_iff in H as [Hc Hs].
  cbn [scan map].
  assert (E : reInlineMath prev (c :: s) = None).
  { destruct (N.eqb_spec 36 c) as [<-|Hn].
    - apply is_backslash in Hc. subst. reflexivity.
    - apply opensWith_reInlineMath. congruence. }
  rewrite E. f_equal. apply IH, Hs.
Qed.

(** ** The passes of [latexToHtml] on text they do not touch *)

Lemma rejects_absent ok names s open :
  everyBackslash ok s = true -> rejects ok names ->
  existsb (fun o => eqs (92 :: lit o) open) names = true ->
  includes open s = false.
Proof.
  intros Hs Hr Hin. apply existsb_exists in Hin as (o & Hin & E).
  apply eqs_eq in E. subst open. apply (everyBackslash_absent ok s (lit o) Hs).
  unfold rejects in Hr. rewrite Forall_forall in Hr. apply Hr, Hin.
Qed.

Lemma rejects_sub ok names sub :
  rejects ok names ->
  forallb (fun o => existsb (String.eqb o) names) sub = true ->
  rejects ok sub.
Proof.
  unfold rejects. rewrite !Forall_forall, forallb_forall. intros H Hs o Ho.
  specialize (Hs o Ho). apply existsb_exists in Hs as (o' & Hin & E).
  apply String.eqb_eq in E. subst o'. apply H, Hin.
Qed.

Ltac absent Hs Hr :=
  apply (rejects_absent _ _ _ _ Hs Hr); vm_compute; reflexivity.

(** One protect pass, and one formatting pass, on content in which its
    command does not occur. *)
Lemma bind_replaceM_absent {A B} (p : parser A) (open : list N) (k : parser A)
  (f : A -> M (list N)) s (g : list N -> M B) st :
  p = (str open ;;; k)%parser ->
  includes open s = false ->
  bind (replaceM (anywhere p) f s) g st = g s st.
Proof.
  intros E H. apply bind_Normal, (replaceM_absent p open k f s st E H).
Qed.

Ltac skip_protect Hs Hr :=
  match goal with
  | |- context [bind (replaceM (anywhere ?p) ?f ?s) ?g ?st] =>
      rewrite (bind_replaceM_absent p _ _ f s g st eq_refl) by (absent Hs Hr)
  end.

Ltac skip_display Hd :=
  match goal with
  | |- context [bind (replaceM (anywhere (between (lit "$$") (lit "$$"))) ?f ?s) ?g ?st] =>
      rewrite (bind_replaceM_absent (between (lit "$$") (lit "$$")) _ _ f s g st eq_refl
                 (escaped_dollars_no_display s None Hd))
  end.

Ltac skip_inline Hd :=
  match goal with
  | |- context [bind (replaceM reInlineMath ?f ?s) ?g ?st] =>
      rewrite (bind_Normal _ _ _ _ _
                 (replaceM_untouched reInlineMath f s st
                    (escaped_dollars_no_inline _ None s Hd)))
  end.

Ltac skip_code Hs Hr :=
  match goal with
  | |- replaceM (anywhere ?p) ?f ?s ?st = _ =>
      apply (replaceM_absent p _ _ f s st eq_refl); absent Hs Hr
  end.

Ltac skip_format s Hs Hr :=
  match goal with
  | |- context [replaceWith (anywhere ?p) ?f s] =>
      rewrite (replaceWith_absent p _ _ f s eq_refl) by (absent Hs Hr)
  end.

Lemma protectBlocks_untouched katex ok s st :
  everyBackslash ok s = true -> rejects ok protectNames ->
  precededByBackslash (N.eqb 36) None s = true ->
  protectBlocks katex s st = Normal (s, st).
Proof.
  intros Hs Hr Hd. unfold protectBlocks.
  skip_protect Hs Hr. skip_protect Hs Hr. skip_protect Hs Hr.
  skip_display Hd. skip_inline Hd. skip_code Hs Hr.
Qed.

Lemma formatting_untouched ok s :
  everyBackslash ok s = true -> rejects ok commandNames -> formatting s = s.
Proof.
  intros Hs Hr. unfold formatting, sizeRule.
  repeat skip_format s Hs Hr. reflexivity.
Qed.

Lemma spacingFix_untouched ok s :
  everyBackslash ok s = true -> rejects ok commandNames ->
  spacingFix s = newlinesToSpaces s.
Proof.
  intros Hs Hr. unfold spacingFix.
  rewrite (replaceAll_absent (lit "\\") _ s) by (absent Hs Hr). reflexivity.
Qed.

(** Content in which no pattern finds a place to start only meets the
    last three steps: newlines become spaces, escapes are undone and
    tokens are looked up in the empty store. *)
Lemma latexToHtml_untouched katex ok s :
  everyBackslash ok s = true -> rejects ok commandNames ->
  precededByBackslash (N.eqb 36) None s = true ->
  latexToHtml katex s
  = Normal (replaceWith (anywhere reToken) (block [])
              (unescapeLatex (newlinesToSpaces s))).
Proof.
  intros Hs Hr Hd. unfold latexToHtml. destruct s as [|c s]; [reflexivity|].
  cbn [isEmpty]. unfold between at 1. rewrite search_absent by absent Hs Hr.
  rewrite (bind_Normal _ _ _ _ _
             (protectBlocks_untouched katex ok _ [] Hs (rejects_sub _ _ protectNames Hr eq_refl) Hd)).
  rewrite (formatting_untouched ok _ Hs Hr), (spacingFix_untouched ok _ Hs Hr).
  reflexivity.
Qed.

Lemma forallb_negb (f : N -> bool) s :
  existsb f s = false -> forallb (fun c => negb (f c)) s = true.
Proof.
  induction s as [|c s IH]; intros H; [reflexivity|].
  cbn [existsb] in H. apply orb_false_iff in H as [Hc Hs].
  cbn [forallb]. rewrite Hc, (IH Hs). reflexivity.
Qed.

Lemma existsb_weaken (f g : N -> bool) s :
  (forall c, g c = true -> f c = true) -> existsb f s = false -> existsb g s = false.
Proof.
  intros Hfg. induction s as [|c s IH]; intros H; [reflexivity|].
  cbn [existsb] in *. apply orb_false_iff in H as [Hc Hs]. rewrite (IH Hs), orb_false_r.
  destruct (g c) eqn:E; [|reflexivity]. rewrite (Hfg c E) in Hc. discriminate.
Qed.

Lemma without a s :
  existsb (N.eqb a) s = false -> forallb (fun c => negb (c =? a)) s = true.
Proof.
  induction s as [|c s IH]; intros H; [reflexivity|].
  cbn [existsb] in H. apply orb_false_iff in H as [Hc Hs].
  cbn [forallb]. rewrite (N.eqb_sym c a), Hc, (IH Hs). reflexivity.
Qed.

Lemma unescapeLatex_without_backslash s :
  existsb (N.eqb 92) s = false -> unescapeLatex s = s.
Proof.
  intros H. apply without in H. unfold unescapeLatex. eval_lits.
  repeat rewrite (replaceAll_absent _ _ s) by (apply includes_without_first, H).
  reflexivity.
Qed.

Lemma newlinesToSpaces_map s :
  newlinesToSpaces s = map (fun c => if c =? 10 then 32 else c) s.
Proof.
  unfold newlinesToSpaces. change nl with [10]. change (lit " ") with [32].
  induction s as [|c s IH]; [reflexivity|].
  rewrite replaceAll_cons by discriminate. cbn [stripPrefix map].
  rewrite (N.eqb_sym 10 c). destruct (c =? 10); rewrite IH; reflexivity.
Qed.

(** A literal without newline and space occurs in a text whose newlines
    are turned into spaces where it occurred before. *)
Lemma startsWith_newlinesToSpaces p :
  existsb (fun c => (c =? 10) || (c =? 32)) p = false ->
  forall s, startsWith p (newlinesToSpaces s) = startsWith p s.
Proof.
  intros Hp s. rewrite newlinesToSpaces_map. unfold startsWith.
  revert s. induction p as [|a p IH]; intros s; [reflexivity|].
  cbn [existsb] in Hp. apply orb_false_iff in Hp as [Ha Hp].
  apply orb_false_iff in Ha as [A1 A2].
  destruct s as [|c s]; [reflexivity|]. cbn [map stripPrefix].
  assert (E : (a =? (if c =? 10 then 32 else c)) = (a =? c)).
  { destruct (N.eqb_spec c 10) as [->|]; [|reflexivity].
    rewrite (N.eqb_sym a 10), (N.eqb_sym a 32) in *. rewrite A1, A2. reflexivity. }
  rewrite E. destruct (a =? c); [apply IH, Hp | reflexivity].
Qed.

Lemma includes_newlinesToSpaces p :
  existsb (fun c => (c =? 10) || (c =? 32)) p = false ->
  forall s, includes p (newlinesToSpaces s) = includes p s.
Proof.
  intros Hp s. induction s as [|c s IH].
  - reflexivity.
  - rewrite includes_cons, <- IH, <- (startsWith_newlinesToSpaces p Hp (c :: s)).
    rewrite !newlinesToSpaces_map. cbn [map]. rewrite includes_cons. reflexivity.
Qed.

Lemma existsb_newlinesToSpaces (f : N -> bool) s :
  f 32 = false -> existsb f s = false -> existsb f (newlinesToSpaces s) = false.
Proof.
  intros H32 H. rewrite newlinesToSpaces_map. induction s as [|c s IH]; [reflexivity|].
  cbn [existsb map] in *. apply orb_false_iff in H as [Hc Hs]. rewrite (IH Hs), orb_false_r.
  destruct (c =? 10); assumption.
Qed.

(** The restore pass on text without a token. *)
Lemma restore_without_token st s :
  includes (lit "__PROTECTED_BLOCK_") s = false ->
  replaceWith (anywhere reToken) (block st) s = s.
Proof. intros H. apply (replaceWith_absent reToken _ _ _ s eq_refl H). Qed.

(** X4. Text without backslash, dollar and token is not markup: it comes
    out as it is, its newlines turned into spaces. *)
Theorem text_without_markup_passes_through katex t :
  existsb (fun c => (c =? 92) || (c =? 36)) t = false ->
  includes (lit "__PROTECTED_BLOCK_") t = false ->
  latexToHtml katex t = Normal (newlinesToSpaces t).
Proof.
  intros H Ht.
  assert (Hb : existsb (N.eqb 92) t = false).
  { apply (existsb_weaken (fun c => (c =? 92) || (c =? 36)) _ t); [|exact H].
    intros c E. rewrite N.eqb_sym in E. rewrite E. reflexivity. }
  assert (Hd : existsb (N.eqb 36) t = false).
  { apply (existsb_weaken (fun c => (c =? 92) || (c =? 36)) _ t); [|exact H].
    intros c E. rewrite N.eqb_sym in E. rewrite E. apply orb_true_r. }
  rewrite (latexToHtml_untouched katex (fun _ => false) t).
  - rewrite unescapeLatex_without_backslash
      by (apply existsb_newlinesToSpaces; [reflexivity | exact Hb]).
    rewrite restore_without_token; [reflexivity|].
    rewrite includes_newlinesToSpaces; [exact Ht | reflexivity].
  - apply everyBackslash_without, without, Hb.
  - unfold rejects, commandNames. repeat constructor.
  - apply precededByBackslash_without, (forallb_negb (N.eqb 36)), Hd.
Qed.

Lemma text_without_markup_passes_through_witness :
  latexToHtml None (lit "A_1 & {B}" ++ nl ++ lit "<50%>")
  = Normal (lit "A_1 & {B} <50%>").
Proof.
  apply (text_without_markup_passes_through None (lit "A_1 & {B}" ++ nl ++ lit "<50%>"));
    vm_compute; reflexivity.
Defined.

(** ** Escaped text, compiled forward *)

Lemma everyBackslash_escapeLatex t :
  existsb (N.eqb 92) t = false -> everyBackslash followsEscape (escapeLatex t) = true.
Proof.
  induction t as [|c t IH]; intros H; [reflexivity|].
  cbn [existsb] in H. apply orb_false_iff in H as [Hc Ht]. specialize (IH Ht).
  rewrite escapeLatex_cons.
  by_char c; images; try discriminate; cbn [app everyBackslash]; try exact IH.
  rewrite IH, andb_true_r. apply isSyntax_false in H.
  destruct (N.eqb_spec c 92); [tauto | reflexivity].
Qed.

Lemma escaped_dollars_escapeLatex t :
  precededByBackslash (N.eqb 36) None (escapeLatex t) = true.
Proof.
  apply (precededByBackslash_mono _ isEscapable); [|apply escapeLatex_precededByBackslash].
  intros c E. apply N.eqb_eq in E. subst. reflexivity.
Qed.

Lemma newlinesToSpaces_app a b :
  newlinesToSpaces (a ++ b) = newlinesToSpaces a ++ newlinesToSpaces b.
Proof. rewrite !newlinesToSpaces_map. apply map_app. Qed.

Lemma newlinesToSpaces_escapeLatex t :
  newlinesToSpaces (escapeLatex t) = escapeLatex (newlinesToSpaces t).
Proof.
  induction t as [|c t IH]; [reflexivity|].
  rewrite escapeLatex_cons, newlinesToSpaces_app, IH.
  change (c :: t) with ([c] ++ t). rewrite newlinesToSpaces_app, escapeLatex_app.
  f_equal. by_char c; images; try reflexivity.
  rewrite !newlinesToSpaces_map. cbn [map].
  destruct (c =? 10); [reflexivity|]. symmetry. apply escapeLatex_other, H.
Qed.

(** X5. Escaping is what the forward compiler undoes: the escape of a text
    without backslash and token compiles to the text, its newlines
    turned into spaces; in particular no dollar of the text opens
    math and no brace of it closes a command. *)
Theorem escaped_text_compiles_to_text katex t :
  existsb (N.eqb 92) t = false ->
  includes (lit "__PROTECTED_BLOCK_") t = false ->
  latexToHtml katex (escapeLatex t) = Normal (newlinesToSpaces t).
Proof.
  intros Hb Ht.
  rewrite (latexToHtml_untouched katex followsEscape (escapeLatex t)).
  - rewrite newlinesToSpaces_escapeLatex, escape_round_trip_without_backslash
      by (apply existsb_newlinesToSpaces; [reflexivity | exact Hb]).
    rewrite restore_without_token; [reflexivity|].
    rewrite includes_newlinesToSpaces; [exact Ht | reflexivity].
  - apply everyBackslash_escapeLatex, Hb.
  - unfold rejects, commandNames. repeat constructor.
  - apply escaped_dollars_escapeLatex.
Qed.

Lemma escaped_text_compiles_to_text_witness :
  latexToHtml None (lit "\$5 \& 10\% of \{x\_1\textasciicircum{}2\}")
  = Normal (lit "$5 & 10% of {x_1^2}").
Proof.
  apply (escaped_text_compiles_to_text None (lit "$5 & 10% of {x_1^2}"));
    vm_compute; reflexivity.
Defined.

(** ** The first occurrence of a literal *)

Lemma stripPrefix_app_cases p : forall u v r,
  stripPrefix p (u ++ v) = Some r ->
  (exists r', stripPrefix p u = Some r')
  \/ (exists x, p = u ++ x /\ x <> [] /\ stripPrefix x v = Some r).
Proof.
  induction p as [|a p IH]; intros u v r H.
  - left. exists u. reflexivity.
  - destruct u as [|c u].
    + right. exists (a :: p). repeat split; [discriminate | exact H].
    + cbn [app stripPrefix] in *. destruct (N.eqb_spec a c) as [->|]; [|discriminate].
      destruct (IH u v r H) as [[r' E]|(x & -> & Hx & E)].
      * left. exists r'. exact E.
      * right. exists x. repeat split; assumption.
Qed.

(** A literal whose first code unit does not come back in it cannot
    start inside [u] and run into a copy of itself behind [u]. *)
Lemma stripPrefix_before_copy a cl u rest :
  existsb (N.eqb a) cl = false -> u <> [] -> startsWith (a :: cl) u = false ->
  stripPrefix (a :: cl) (u ++ (a :: cl) ++ rest) = None.
Proof.
  intros Ha Hu Hs.
  destruct (stripPrefix (a :: cl) (u ++ (a :: cl) ++ rest)) as [r|] eqn:E; [|reflexivity].
  apply stripPrefix_app_cases in E as [[r' E]|(x & Hp & Hx & E)].
  - unfold startsWith in Hs. rewrite E in Hs. discriminate.
  - destruct u as [|c u]; [contradiction|]. injection Hp as -> ->.
    destruct x as [|d x]; [contradiction|]. cbn [app stripPrefix] in E.
    destruct (N.eqb_spec d c) as [->|]; [|discriminate].
    rewrite existsb_app in Ha. cbn [existsb] in Ha. rewrite N.eqb_refl in Ha.
    rewrite orb_true_r in Ha. discriminate.
Qed.

Lemma includes_nil_false p : includes p [] = false -> stripPrefix p [] = None.
Proof.
  cbn [includes]. rewrite orb_false_r. unfold startsWith.
  destruct (stripPrefix p []); [discriminate | reflexivity].
Qed.

Lemma stripPrefix_app p rest : stripPrefix p (p ++ rest) = Some rest.
Proof.
  induction p as [|a p IH]; [reflexivity|]. cbn [app stripPrefix].
  rewrite N.eqb_refl. exact IH.
Qed.

(** The lazy capture in front of a literal is all that stands before the
    first occurrence of the literal. *)
Lemma lazyUntil_first a cl m rest :
  existsb (N.eqb a) cl = false -> includes (a :: cl) m = false ->
  lazyUntil (a :: cl) (m ++ (a :: cl) ++ rest) = Some (m, rest).
Proof.
  intros Ha. unfold lazyUntil. induction m as [|c m IH]; intros H.
  - cbn [app]. change (a :: cl ++ rest) with ((a :: cl) ++ rest).
    destruct rest as [|d rest'].
    + rewrite app_nil_r.
      assert (E : stripPrefix (a :: cl) (a :: cl) = Some []).
      { rewrite <- (app_nil_r (a :: cl)) at 2. apply stripPrefix_app. }
      cbn [lazyUntilIn]. rewrite E. reflexivity.
    + change ((a :: cl) ++ d :: rest') with (a :: cl ++ d :: rest').
      cbn [lazyUntilIn]. change (a :: cl ++ d :: rest') with ((a :: cl) ++ d :: rest').
      rewrite stripPrefix_app. reflexivity.
  - apply includes_cons_false in H as [H1 H2].
    change ((c :: m) ++ (a :: cl) ++ rest) with (c :: m ++ (a :: cl) ++ rest).
    cbn [lazyUntilIn].
    change (c :: m ++ (a :: cl) ++ rest) with ((c :: m) ++ (a :: cl) ++ rest).
    rewrite stripPrefix_before_copy; [| exact Ha | discriminate |].
    + change ((c :: m) ++ (a :: cl) ++ rest) with (c :: m ++ (a :: cl) ++ rest).
      cbv iota. rewrite (IH H2). reflexivity.
    + unfold startsWith. rewrite H1. reflexivity.
Qed.

Lemma lazyUntil_absent close : forall s,
  includes close s = false -> lazyUntil close s = None.
Proof.
  unfold lazyUntil. induction s as [|c s IH]; intros H.
  - cbn [lazyUntilIn]. rewrite (includes_nil_false _ H). reflexivity.
  - apply includes_cons_false in H as [H1 H2]. cbn [lazyUntilIn].
    rewrite H1, (IH H2). reflexivity.
Qed.

Lemma includes_suffix p : forall a b, includes p (a ++ b) = false -> includes p b = false.
Proof.
  induction a as [|c a IH]; intros b H; [exact H|].
  change ((c :: a) ++ b) with (c :: a ++ b) in H.
  apply includes_cons_false in H as [_ H]. apply IH, H.
Qed.

Lemma search_here {A} (p : parser A) s x rest :
  p s = Some (x, rest) -> search p s = Some x.
Proof. intros H. destruct s; cbn [search]; rewrite H; reflexivity. Qed.

(** The first match of [open ... close] starts at the first [open]. *)
Lemma search_first {A} (k : parser A) a cl pre rest x rest' :
  existsb (N.eqb a) cl = false -> includes (a :: cl) pre = false ->
  k rest = Some (x, rest') ->
  search (str (a :: cl) ;;; k)%parser (pre ++ (a :: cl) ++ rest) = Some x.
Proof.
  intros Ha Hp Hk.
  assert (Here : (str (a :: cl) ;;; k)%parser ((a :: cl) ++ rest) = Some (x, rest')).
  { unfold pbind, str. rewrite stripPrefix_app. exact Hk. }
  induction pre as [|c pre IH].
  - apply (search_here _ _ _ _ Here).
  - apply includes_cons_false in Hp as [H1 H2].
    change ((c :: pre) ++ (a :: cl) ++ rest) with (c :: pre ++ (a :: cl) ++ rest).
    cbn [search]. unfold pbind at 1, str at 1.
    change (c :: pre ++ (a :: cl) ++ rest) with ((c :: pre) ++ (a :: cl) ++ rest).
    rewrite stripPrefix_before_copy; [apply IH, H2 | exact Ha | discriminate |].
    unfold startsWith. rewrite H1. reflexivity.
Qed.

(** Nothing matches [open ... close] where [close] does not occur. *)
Lemma search_without_close open close : forall s,
  includes close s = false -> search (between open close) s = None.
Proof.
  assert (Here : forall s, includes close s = false -> between open close s = None).
  { intros s H. unfold between, pbind, str.
    destruct (stripPrefix open s) as [rest|] eqn:E; [|reflexivity].
    apply stripPrefix_Some in E. subst s. apply lazyUntil_absent.
    apply (includes_suffix _ _ _ H). }
  induction s as [|c s IH]; intros H.
  - cbn [search]. rewrite (Here _ H). reflexivity.
  - cbn [search]. rewrite (Here _ H). apply includes_cons_false in H as [_ H].
    apply IH, H.
Qed.

(** ** The document environment *)

Lemma search_document pre body post :
  includes (lit "\begin{document}") pre = false ->
  includes (lit "\end{document}") body = false ->
  search (between (lit "\begin{document}") (lit "\end{document}"))
    (pre ++ lit "\begin{document}" ++ body ++ lit "\end{document}" ++ post)
  = Some body.
Proof.
  intros Hp Hb. unfold between.
  apply (search_first _ 92 (lit "begin{document}") pre _ body post eq_refl Hp).
  apply (lazyUntil_first 92 (lit "end{document}") body post eq_refl Hb).
Qed.

Lemma latexToHtml_document katex pre body post :
  includes (lit "\begin{document}") pre = false ->
  includes (lit "\end{document}") body = false ->
  latexToHtml katex
    (pre ++ lit "\begin{document}" ++ body ++ lit "\end{document}" ++ post)
  = latexToHtml katex body.
Proof.
  intros Hp Hb. unfold latexToHtml at 1.
  rewrite (search_document pre body post Hp Hb).
  replace (isEmpty (pre ++ lit "\begin{document}" ++ body ++ lit "\end{document}" ++ post))
    with false by (destruct pre; reflexivity).
  destruct body as [|c body]; [reflexivity|].
  unfold latexToHtml. cbn [isEmpty].
  rewrite (search_without_close _ _ _ Hb). reflexivity.
Qed.

(** X6. What stands before [\begin{document}] and behind [\end{document}]
    never reaches the result: a document compiles to what its body
    compiles to. *)
Theorem document_compiles_as_its_body katex pre body post :
  includes (lit "\begin{document}") pre = false ->
  includes (lit "\end{document}") body = false ->
  latexToHtml katex
    (pre ++ lit "\begin{document}" ++ body ++ lit "\end{document}" ++ post)
  = latexToHtml katex body.
Proof. apply latexToHtml_document. Qed.

Lemma document_compiles_as_its_body_witness :
  latexToHtml None
    (lit "\documentclass{article}\title{T}\begin{document}\section{A}\end{document}% end")
  = latexToHtml None (lit "\section{A}").
Proof.
  apply (document_compiles_as_its_body None (lit "\documentclass{article}\title{T}")
           (lit "\section{A}") (lit "% end")); vm_compute; reflexivity.
Defined.

(** ** The document behind a visual edit *)

Lemma takeWhile_all s : takeWhile (fun _ => true) s = s.
Proof. induction s as [|c s IH]; [reflexivity|]. cbn. rewrite IH. reflexivity. Qed.

Lemma stripPrefix_extend p : forall u v r,
  stripPrefix p u = Some r -> stripPrefix p (u ++ v) = Some (r ++ v).
Proof.
  induction p as [|a p IH]; intros u v r H.
  - cbn in *. injection H as <-. reflexivity.
  - destruct u as [|c u]; [discriminate|]. cbn [app stripPrefix] in *.
    destruct (a =? c); [apply IH, H | discriminate].
Qed.

(** What a lazy capture holds: no occurrence of the literal it stops at. *)
Lemma lazyUntil_Some close : close <> [] -> forall s cap rest,
  lazyUntil close s = Some (cap, rest) ->
  s = cap ++ close ++ rest /\ includes close cap = false.
Proof.
  intros Hc. unfold lazyUntil. induction s as [|c s IH]; intros cap rest H.
  - cbn [lazyUntilIn] in H. destruct (stripPrefix close []) as [r|] eqn:E; [|discriminate].
    apply stripPrefix_Some in E. destruct close; [contradiction | discriminate].
  - cbn [lazyUntilIn] in H. destruct (stripPrefix close (c :: s)) as [r|] eqn:E.
    + injection H as <- <-. apply stripPrefix_Some in E. split; [exact E|].
      destruct close; [contradiction | reflexivity].
    + destruct (lazyUntilIn (fun _ => true) close s) as [[cap' r]|] eqn:L; [|discriminate].
      injection H as <- <-. destruct (IH _ _ eq_refl) as [-> Hi]. split; [reflexivity|].
      rewrite includes_cons, Hi, orb_false_r. unfold startsWith.
      destruct (stripPrefix close (c :: cap')) as [r'|] eqn:E'; [|reflexivity].
      apply (stripPrefix_extend _ _ (close ++ r)) in E'.
      change ((c :: cap') ++ close ++ r) with (c :: cap' ++ close ++ r) in E'.
      congruence.
Qed.

Lemma search_Some {A} (p : parser A) : forall s x,
  search p s = Some x -> exists t rest, p t = Some (x, rest).
Proof.
  induction s as [|c s IH]; intros x H; cbn [search] in H.
  - destruct (p []) as [[y r]|] eqn:E; [|discriminate]. injection H as <-.
    exists [], r. exact E.
  - destruct (p (c :: s)) as [[y r]|] eqn:E.
    + injection H as <-. exists (c :: s), r. exact E.
    + apply IH, H.
Qed.

(** A separator that is not in a literal splits the search for it. *)
Lemma startsWith_separator p d : existsb (N.eqb d) p = false -> p <> [] ->
  forall u v, startsWith p (u ++ d :: v) = startsWith p u.
Proof.
  unfold startsWith. induction p as [|a p IH]; intros Hd Hp u v; [contradiction|].
  cbn [existsb] in Hd. apply orb_false_iff in Hd as [Ha Hd].
  destruct u as [|c u]; cbn [app stripPrefix].
  - rewrite N.eqb_sym, Ha. reflexivity.
  - destruct (a =? c); [|reflexivity]. destruct p as [|b p]; [reflexivity|].
    apply IH; [exact Hd | discriminate].
Qed.

Lemma includes_separator p d : existsb (N.eqb d) p = false -> p <> [] ->
  forall u v, includes p (u ++ d :: v) = includes p u || includes p v.
Proof.
  intros Hd Hp. induction u as [|c u IH]; intros v.
  - pose proof (startsWith_separator p d Hd Hp [] v) as S. cbn [app] in *.
    rewrite includes_cons, S. cbn [includes]. rewrite orb_false_r. reflexivity.
  - change ((c :: u) ++ d :: v) with (c :: u ++ d :: v).
    rewrite !includes_cons, IH.
    change (c :: u ++ d :: v) with ((c :: u) ++ d :: v).
    rewrite (startsWith_separator p d Hd Hp). apply orb_assoc.
Qed.

Lemma includes_between_blank_lines p body :
  existsb (N.eqb 10) p = false -> p <> [] ->
  includes p body = false ->
  includes p (nl ++ nl ++ body ++ nl ++ nl) = false.
Proof.
  intros Hd Hp Hb. change (nl ++ nl ++ body ++ nl ++ nl)
    with ([] ++ 10 :: ([] ++ 10 :: (body ++ 10 :: ([] ++ 10 :: [])))).
  rewrite !(includes_separator p 10 Hd Hp), Hb.
  destruct p; [contradiction | reflexivity].
Qed.

(** The two halves of the new document: a preamble that ends with the
    first [\begin{document}] in it, a trailer that starts with
    [\end{document}]. *)
Lemma preamble_form latexCode :
  exists pre,
    match search rePreamble latexCode with
    | Some p => p
    | None => lit "\documentclass{article}" ++ nl ++ lit "\begin{document}"
    end = pre ++ lit "\begin{document}"
    /\ includes (lit "\begin{document}") pre = false.
Proof.
  destruct (search rePreamble latexCode) as [p|] eqn:E.
  - apply search_Some in E as (t & rest & E). unfold rePreamble, pbind in E.
    destruct (lazyUntil (lit "\begin{document}") t) as [[cap r]|] eqn:L; [|discriminate].
    injection E as <- _. exists cap. split; [reflexivity|].
    assert (N0 : lit "\begin{document}" <> []) by discriminate.
    apply (lazyUntil_Some _ N0 _ _ _ L).
  - exists (lit "\documentclass{article}" ++ nl). split; reflexivity.
Qed.

Lemma end_form latexCode :
  exists post,
    match search reEnd latexCode with
    | Some e => e
    | None => lit "\end{document}"
    end = lit "\end{document}" ++ post.
Proof.
  destruct (search reEnd latexCode) as [e|] eqn:E.
  - apply search_Some in E as (t & rest & E). unfold reEnd, pbind, str, many in E.
    destruct (stripPrefix (lit "\end{document}") t) as [r|]; [|discriminate].
    injection E as <- _. eexists. reflexivity.
  - exists []. reflexivity.
Qed.

(** X7. Whatever the document was before a visual edit, the forward
    compiler reads the new document as the new body between two blank
    lines. *)
Theorem latexToHtml_rebuildDocument katex latexCode bodyContent :
  includes (lit "\end{document}") bodyContent = false ->
  latexToHtml katex (rebuildDocument latexCode bodyContent)
  = latexToHtml katex (nl ++ nl ++ bodyContent ++ nl ++ nl).
Proof.
  intros Hb. unfold rebuildDocument.
  destruct (preamble_form latexCode) as (pre & -> & Hp).
  destruct (end_form latexCode) as (post & ->).
  rewrite <- (latexToHtml_document katex pre (nl ++ nl ++ bodyContent ++ nl ++ nl) post Hp).
  - f_equal. rewrite <- !app_assoc. reflexivity.
  - apply includes_between_blank_lines; [reflexivity | discriminate | exact Hb].
Qed.

Lemma latexToHtml_rebuildDocument_witness :
  latexToHtml None (rebuildDocument (lit "\title{T}\begin{document}old\end{document}") (lit "\section{New}"))
  = latexToHtml None (nl ++ nl ++ lit "\section{New}" ++ nl ++ nl).
Proof.
  apply (latexToHtml_rebuildDocument None); vm_compute; reflexivity.
Defined.

(** X8. A visual edit replaces the body and nothing else: the text up to
    and with the first [\begin{document}] and the text from the first
    [\end{document}] on are kept as they are, and the new body stands
    between them, a blank line on each side. *)
Theorem handleVisualInput_keeps_preamble_and_trailer
  (parseHTML : list N -> list node) maybeClean bodyContent pre old post :
  includes (lit "\begin{document}") pre = false ->
  includes (lit "\end{document}") (pre ++ lit "\begin{document}" ++ old) = false ->
  htmlToLatex parseHTML maybeClean = Normal bodyContent ->
  handleVisualInput parseHTML maybeClean
    (pre ++ lit "\begin{document}" ++ old ++ lit "\end{document}" ++ post)
  = Normal (pre ++ lit "\begin{document}" ++ nl ++ nl ++ bodyContent ++ nl ++ nl
            ++ lit "\end{document}" ++ post).
Proof.
  intros Hp He Hh. unfold handleVisualInput. rewrite Hh. cbn [cmap]. f_equal.
  unfold rebuildDocument.
  assert (P : search rePreamble
                (pre ++ lit "\begin{document}" ++ old ++ lit "\end{document}" ++ post)
              = Some (pre ++ lit "\begin{document}")).
  { apply (search_here _ _ _ (old ++ lit "\end{document}" ++ post)).
    unfold rePreamble, pbind.
    rewrite (lazyUntil_first 92 (lit "begin{document}") pre _ eq_refl Hp). reflexivity. }
  assert (E : search reEnd
                (pre ++ lit "\begin{document}" ++ old ++ lit "\end{document}" ++ post)
              = Some (lit "\end{document}" ++ post)).
  { replace (pre ++ lit "\begin{document}" ++ old ++ lit "\end{document}" ++ post)
      with ((pre ++ lit "\begin{document}" ++ old) ++ lit "\end{document}" ++ post)
      by (rewrite <- !app_assoc; reflexivity).
    unfold reEnd.
    apply (search_first _ 92 (lit "end{document}") _ post _
             (dropWhile (fun _ => true) post) eq_refl He).
    unfold pbind, many. rewrite takeWhile_all. reflexivity. }
  rewrite P, E. rewrite <- !app_assoc. reflexivity.
Qed.

Lemma handleVisualInput_keeps_preamble_and_trailer_witness :
  handleVisualInput twoParagraphs (lit "<div>a</div><div>b</div>")
    (lit "\documentclass{article}\begin{document}old\end{document}% end")
  = Normal (lit "\documentclass{article}\begin{document}" ++ nl ++ nl
            ++ (lit "a" ++ nl ++ nl ++ lit "b") ++ nl ++ nl
            ++ lit "\end{document}% end").
Proof.
  apply (handleVisualInput_keeps_preamble_and_trailer twoParagraphs
           (lit "<div>a</div><div>b</div>") (lit "a" ++ nl ++ nl ++ lit "b")
           (lit "\documentclass{article}") (lit "old") (lit "% end"));
    vm_compute; reflexivity.
Defined.

(** ** The name of an export *)

Lemma many1_first f c s t rest : many1 f (c :: s) = Some (t, rest) -> f c = true.
Proof.
  unfold many1. cbn [takeWhile]. destruct (f c); [reflexivity | discriminate].
Qed.

Lemma many1_None f c s : f c = false -> many1 f (c :: s) = None.
Proof. intros H. unfold many1. cbn [takeWhile]. rewrite H. reflexivity. Qed.

Lemma productive_many1 f : productive (anywhere (many1 f)).
Proof.
  intros prev s t rest H. unfold anywhere, many1 in H.
  destruct (takeWhile f s) as [|c u] eqn:E; [discriminate|].
  inversion H; subst. rewrite <- (takeWhile_dropWhile f s) at 2.
  rewrite E, length_app. simpl. lia.
Qed.

(** Replacing every run of a class by a code unit outside of it leaves
    no code unit of the class. *)
Lemma replace_runs (f g : N -> bool) rep :
  (forall c, f c = false -> g c = true) -> forallb g rep = true ->
  forall n s, (length s <= n)%nat ->
    forallb g (replaceWith (anywhere (many1 f)) (fun _ => rep) s) = true.
Proof.
  intros Hfg Hrep. induction n as [|n IH]; intros s Hn.
  - destruct s; [reflexivity | simpl in Hn; lia].
  - destruct s as [|c s]; [reflexivity|].
    rewrite replaceWith_cons by apply productive_many1.
    destruct (many1 f (c :: s)) as [[t rest]|] eqn:E.
    + rewrite forallb_app, Hrep. apply IH.
      apply (productive_many1 f None) in E. simpl in *. lia.
    + cbn [forallb]. rewrite IH by (simpl in Hn; lia). rewrite andb_true_r.
      apply Hfg. destruct (f c) eqn:F; [|reflexivity].
      unfold many1 in E. cbn [takeWhile] in E. rewrite F in E. discriminate.
Qed.

Lemma forallb_firstn (g : N -> bool) n : forall s,
  forallb g s = true -> forallb g (firstn n s) = true.
Proof.
  induction n as [|n IH]; intros s H; [reflexivity|].
  destruct s as [|c s]; [reflexivity|]. cbn [forallb firstn] in *.
  apply andb_true_iff in H as [Hc Hs]. rewrite Hc, (IH s Hs). reflexivity.
Qed.

(** X9. The name of an exported file is a safe file name whatever the
    document holds: [.pdf] behind a stem of one to sixty code units, each
    of them an ASCII letter, a digit or an underscore. *)
Theorem filename_is_safe latexCode :
  exists stem,
    filename latexCode = stem ++ lit ".pdf" /\
    stem <> [] /\ (length stem <= 60)%nat /\
    forallb (fun c => isAlnum c || (c =? 95)) stem = true.
Proof.
  unfold filename.
  set (title := match search reTitle latexCode with
                | Some (c :: t) => c :: t
                | _ => lit "document"
                end).
  set (clean := replaceWith (anywhere (many1 (fun c => negb (isAlnum c))))
                  (fun _ => lit "_") (trim title)).
  assert (C : forallb (fun c => isAlnum c || (c =? 95)) clean = true).
  { apply (replace_runs _ _ _ ) with (n := length (trim title)); [| reflexivity | lia].
    intros c H. apply negb_false_iff in H. rewrite H. reflexivity. }
  destruct (firstn 60 clean) as [|c stem] eqn:E.
  - exists (lit "document"). split; [reflexivity|]. split; [discriminate|].
    split; [vm_compute; lia | reflexivity].
  - exists (c :: stem). split; [reflexivity|]. split; [discriminate|].
    rewrite <- E. split; [|apply forallb_firstn, C].
    rewrite length_firstn. apply Nat.le_min_l.
Qed.

(** ** The lines of a log *)

Lemma reLineBreak_cons c s :
  reLineBreak (c :: s) =
  if c =? 10 then Some (tt, s)
  else if c =? 13 then
    match s with
    | 10 :: s' => Some (tt, s')
    | _ => None
    end
  else None.
Proof.
  unfold reLineBreak, pbind, optional, str. change nl with [10]. cbn [stripPrefix].
  destruct (N.eqb_spec c 13) as [->|H13].
  - cbn. destruct s as [|d s]; [reflexivity|]. cbn [stripPrefix].
    destruct (N.eqb_spec 10 d) as [<-|Hd]; [reflexivity|].
    destruct d as [|d]; [reflexivity|].
    do 4 (destruct d as [d|d|]; try reflexivity). contradiction.
  - assert (E : (13 =? c) = false) by (apply N.eqb_neq; congruence).
    rewrite E. cbn [stripPrefix]. rewrite (N.eqb_sym 10 c).
    destruct (c =? 10); reflexivity.
Qed.

Lemma productive_reLineBreak : productive (anywhere reLineBreak).
Proof.
  intros prev [|c s] u rest H; [discriminate|]. unfold anywhere in H.
  rewrite reLineBreak_cons in H. destruct (c =? 10).
  - injection H as _ <-. simpl. lia.
  - destruct (c =? 13); [|discriminate].
    destruct s as [|d s]; [discriminate|].
    destruct d as [|d]; [discriminate|].
    do 4 (destruct d as [d|d|]; try discriminate).
    injection H as _ <-. simpl. lia.
Qed.

Lemma splitAcc_cur {A} (segs : list (segment A)) : forall cur,
  splitAcc cur (map (fun seg => match seg with Keep c => Keep c | Hit _ => Hit tt end) segs)
  = match splitAcc [] (map (fun seg => match seg with Keep c => Keep c | Hit _ => Hit tt end) segs) with
    | hd :: tl => (rev cur ++ hd) :: tl
    | [] => []
    end.
Proof.
  induction segs as [|[c|a] segs IH]; intros cur; cbn [map splitAcc].
  - rewrite app_nil_r. reflexivity.
  - rewrite (IH (c :: cur)), (IH [c]).
    destruct (splitAcc [] _) as [|hd tl]; [reflexivity|].
    cbn [rev app]. rewrite <- app_assoc. reflexivity.
  - rewrite app_nil_r. reflexivity.
Qed.

Lemma map_unit_id (segs : list (segment unit)) :
  map (fun seg => match seg with Keep c => Keep c | Hit _ => Hit tt end) segs = segs.
Proof.
  induction segs as [|[c|[]] segs IH]; cbn [map]; rewrite ?IH; reflexivity.
Qed.

Lemma splitAcc_unit_cur (segs : list (segment unit)) cur :
  splitAcc cur segs
  = match splitAcc [] segs with
    | hd :: tl => (rev cur ++ hd) :: tl
    | [] => []
    end.
Proof. rewrite <- (map_unit_id segs). apply splitAcc_cur. Qed.

(** [split] line by line. *)
Lemma splitLines_nil : splitLines [] = [[]].
Proof. reflexivity. Qed.

Lemma splitLines_cons c s :
  splitLines (c :: s) =
  match reLineBreak (c :: s) with
  | Some (_, rest) => [] :: splitLines rest
  | None =>
      match splitLines s with
      | hd :: tl => (c :: hd) :: tl
      | [] => []
      end
  end.
Proof.
  unfold splitLines. cbn [length scan]. unfold anywhere at 1.
  destruct (reLineBreak (c :: s)) as [[u rest]|] eqn:E.
  - cbn [splitAcc rev]. f_equal.
    rewrite (scan_anywhere_prev reLineBreak _ _ _ None). f_equal.
    apply (productive_reLineBreak None) in E. simpl in E.
    apply (scan_fuel _ productive_reLineBreak (length s)); lia.
  - cbn [splitAcc]. rewrite splitAcc_unit_cur.
    rewrite (scan_anywhere_prev reLineBreak _ _ _ None). reflexivity.
Qed.

Lemma lineText_cons c l :
  lineText (c :: l) <-> (c <> 10 /\ c <> 13) /\ lineText l.
Proof.
  unfold lineText. cbn [existsb]. rewrite orb_false_iff, orb_false_iff.
  rewrite !N.eqb_neq. tauto.
Qed.

Lemma reLineBreak_lineText c s : c <> 10 -> c <> 13 -> reLineBreak (c :: s) = None.
Proof.
  intros H1 H2. rewrite reLineBreak_cons.
  apply N.eqb_neq in H1, H2. rewrite H1, H2. reflexivity.
Qed.

(** A line in front of a line feed is the first of the lines. *)
Lemma splitLines_line l rest :
  lineText l -> splitLines (l ++ 10 :: rest) = l :: splitLines rest.
Proof.
  induction l as [|c l IH]; intros H.
  - cbn [app]. rewrite splitLines_cons, reLineBreak_cons. reflexivity.
  - apply lineText_cons in H as [[H1 H2] Hl].
    change ((c :: l) ++ 10 :: rest) with (c :: l ++ 10 :: rest).
    rewrite splitLines_cons, reLineBreak_lineText, (IH Hl) by assumption. reflexivity.
Qed.

Lemma splitLines_last l : lineText l -> splitLines l = [l].
Proof.
  induction l as [|c l IH]; intros H; [reflexivity|].
  apply lineText_cons in H as [[H1 H2] Hl].
  rewrite splitLines_cons, reLineBreak_lineText, (IH Hl) by assumption. reflexivity.
Qed.

(** The first line is where the text starts, every line is in the text,
    and no line holds a line feed. *)
Lemma splitLines_parts : forall n s, (length s <= n)%nat ->
  exists hd tl,
    splitLines s = hd :: tl /\ (exists b, s = hd ++ b) /\
    (forall l, In l tl -> occursIn l s) /\
    (forall l, In l (hd :: tl) -> existsb (N.eqb 10) l = false).
Proof.
  induction n as [|n IH]; intros s Hn.
  - destruct s; [|simpl in Hn; lia]. exists [], []. repeat split.
    + exists []. reflexivity.
    + intros l [].
    + intros l [<-|[]]. reflexivity.
  - destruct s as [|c s].
    { exists [], []. repeat split.
      - exists []. reflexivity.
      - intros l [].
      - intros l [<-|[]]. reflexivity. }
    rewrite splitLines_cons. destruct (reLineBreak (c :: s)) as [[u rest]|] eqn:E.
    + assert (L : (length rest <= n)%nat).
      { apply (productive_reLineBreak None) in E. simpl in *. lia. }
      assert (S : exists a, c :: s = a ++ rest).
      { rewrite reLineBreak_cons in E. destruct (c =? 10).
        - injection E as _ <-. exists [c]. reflexivity.
        - destruct (c =? 13); [|discriminate].
          destruct s as [|d s]; [discriminate|].
          destruct d as [|d]; [discriminate|].
          do 4 (destruct d as [d|d|]; try discriminate).
          injection E as _ <-. exists [c; 10]. reflexivity. }
      destruct S as [a Sa].
      destruct (IH rest L) as (hd & tl & -> & (b & Hb) & Ht & Hnl).
      exists [], (hd :: tl). repeat split.
      * exists (c :: s). reflexivity.
      * intros l [<-|Hl].
        -- exists a, b. rewrite Sa, Hb. reflexivity.
        -- destruct (Ht l Hl) as (x & y & Hxy). exists (a ++ x), y.
           rewrite Sa, Hxy, <- app_assoc. reflexivity.
      * intros l [<-|Hl]; [reflexivity | apply Hnl, Hl].
    + assert (Hc : c <> 10).
      { intros ->. rewrite reLineBreak_cons in E. discriminate. }
      destruct (IH s ltac:(simpl in Hn; lia)) as (hd & tl & -> & (b & Hb) & Ht & Hnl).
      exists (c :: hd), tl. repeat split.
      * exists b. rewrite Hb. reflexivity.
      * intros l Hl. destruct (Ht l Hl) as (x & y & Hxy). exists (c :: x), y.
        rewrite Hxy. reflexivity.
      * intros l [<-|Hl].
        -- cbn [existsb]. rewrite (Hnl hd (or_introl eq_refl)), orb_false_r.
           apply N.eqb_neq. congruence.
        -- apply Hnl. right. exact Hl.
Qed.

Lemma splitLines_occursIn s l : In l (splitLines s) -> occursIn l s.
Proof.
  destruct (splitLines_parts (length s) s (le_n _)) as (hd & tl & -> & (b & Hb) & Ht & _).
  intros [<-|Hl]; [|apply Ht, Hl]. exists [], b. exact Hb.
Qed.

Lemma splitLines_no_newline s l : In l (splitLines s) -> existsb (N.eqb 10) l = false.
Proof.
  destruct (splitLines_parts (length s) s (le_n _)) as (hd & tl & -> & _ & _ & Hnl).
  apply Hnl.
Qed.

(** ** [summarizeLatexLog] *)

Lemma existsb_occursIn (f : N -> bool) s l :
  existsb f s = false -> occursIn l s -> existsb f l = false.
Proof.
  intros H (a & b & ->). rewrite !existsb_app in H.
  apply orb_false_iff in H as [_ H]. apply orb_false_iff in H as [H _]. exact H.
Qed.

Lemma existsb_trim (f : N -> bool) s : existsb f s = false -> existsb f (trim s) = false.
Proof.
  intros H. destruct (trim_substring s) as (a & b & E).
  apply (existsb_occursIn f s); [exact H|]. exists a, b. exact E.
Qed.

Lemma nth_In_or_nil (ls : list (list N)) n : In (nth n ls []) ls \/ nth n ls [] = [].
Proof.
  destruct (Nat.lt_ge_cases n (length ls)) as [H|H].
  - left. apply nth_In, H.
  - right. apply nth_overflow, H.
Qed.

Lemma digits_no_newline n : forallb isDigit n = true -> existsb (N.eqb 10) n = false.
Proof.
  induction n as [|c n IH]; intros H; [reflexivity|].
  cbn [forallb existsb] in *. apply andb_true_iff in H as [Hc Hn].
  rewrite (IH Hn), orb_false_r. apply N.eqb_neq. intros <-. discriminate.
Qed.

Lemma orElse_cases found otherwise :
  (exists c l, found = Some (c :: l) /\ orElse found otherwise = trim (c :: l))
  \/ orElse found otherwise = otherwise.
Proof.
  destruct found as [[|c l]|]; [right; reflexivity | | right; reflexivity].
  left. exists c, l. split; reflexivity.
Qed.

(** X10. The summary of a log is one trimmed line: it neither starts nor
    ends with whitespace and holds no line feed. *)
Theorem summarizeLatexLog_is_one_trimmed_line log :
  firstIs isWhiteSpace (summarizeLatexLog log) = false /\
  lastIs isWhiteSpace (summarizeLatexLog log) = false /\
  existsb (N.eqb 10) (summarizeLatexLog log) = false.
Proof.
  unfold summarizeLatexLog. destruct (isEmpty log); [repeat split|].
  assert (L : forall l, In l (splitLines log) -> existsb (N.eqb 10) l = false)
    by (intros l; apply splitLines_no_newline).
  assert (F : forall f otherwise,
             (firstIs isWhiteSpace otherwise = false /\
              lastIs isWhiteSpace otherwise = false /\
              existsb (N.eqb 10) otherwise = false) ->
             firstIs isWhiteSpace (orElse (find f (splitLines log)) otherwise) = false /\
             lastIs isWhiteSpace (orElse (find f (splitLines log)) otherwise) = false /\
             existsb (N.eqb 10) (orElse (find f (splitLines log)) otherwise) = false).
  { intros f otherwise H.
    destruct (orElse_cases (find f (splitLines log)) otherwise)
      as [(c & l & E & ->)| ->]; [|exact H].
    apply find_some in E as [E _].
    repeat split; [apply trim_first | apply trim_last | apply existsb_trim, L, E]. }
  destruct (findIndex _ (splitLines log)) as [bangIdx|].
  - repeat split; [apply trim_first | apply trim_last |]. apply existsb_trim.
    rewrite existsb_app. apply orb_false_iff. split.
    + assert (B : existsb (N.eqb 10) (nth bangIdx (splitLines log) []) = false).
      { destruct (nth_In_or_nil (splitLines log) bangIdx) as [H| ->];
          [apply L, H | reflexivity]. }
      unfold replaceAtStart.
      destruct ((str (lit "!") ;;; many isWhiteSpace)%parser (nth bangIdx (splitLines log) []))
        as [[a rest]|] eqn:E; [|exact B].
      unfold pbind, str, many in E.
      destruct (stripPrefix (lit "!") (nth bangIdx (splitLines log) [])) as [r|] eqn:S;
        [|discriminate].
      apply stripPrefix_Some in S. injection E as _ <-. cbn [app].
      rewrite S, existsb_app in B. apply orb_false_iff in B as [_ B].
      rewrite <- (takeWhile_dropWhile isWhiteSpace r), existsb_app in B.
      apply orb_false_iff in B as [_ B]. exact B.
    + destruct (search reLineNumber (nth (S bangIdx) (splitLines log) [])) as [n|] eqn:E;
        [|reflexivity].
      rewrite existsb_app. apply orb_false_iff. split; [reflexivity|].
      apply search_Some in E as (t & rest & E). unfold reLineNumber, pbind, str, many1 in E.
      destruct (stripPrefix (lit "l.") t) as [r|]; [|discriminate].
      destruct (takeWhile isDigit r) as [|d ds] eqn:T; [discriminate|].
      injection E as <- _. rewrite <- T. apply digits_no_newline, takeWhile_forallb.
  - apply F, F, F. repeat split.
Qed.

Lemma findIndex_none {A} (f : A -> bool) ls :
  (forall l, In l ls -> f l = false) -> findIndex f ls = None.
Proof.
  induction ls as [|x ls IH]; intros H; [reflexivity|]. cbn [findIndex].
  rewrite (H x (or_introl eq_refl)), IH; [reflexivity|].
  intros l Hl. apply H. right. exact Hl.
Qed.

Lemma find_none_iff {A} (f : A -> bool) ls :
  (forall l, In l ls -> f l = false) -> find f ls = None.
Proof.
  induction ls as [|x ls IH]; intros H; [reflexivity|]. cbn [find].
  rewrite (H x (or_introl eq_refl)). apply IH. intros l Hl. apply H. right. exact Hl.
Qed.

Lemma search_suffix {A} (p : parser A) : forall w v x rest,
  p v = Some (x, rest) -> exists y, search p (w ++ v) = Some y.
Proof.
  induction w as [|c w IH]; intros v x rest H.
  - exists x. apply (search_here _ _ _ _ H).
  - cbn [app search]. destruct (p (c :: w ++ v)) as [[y r]|]; [exists y; reflexivity|].
    apply (IH _ _ _ H).
Qed.

Lemma search_Some_suffix {A} (p : parser A) : forall s x,
  search p s = Some x -> exists w t rest, s = w ++ t /\ p t = Some (x, rest).
Proof.
  induction s as [|c s IH]; intros x H; cbn [search] in H.
  - destruct (p []) as [[y r]|] eqn:E; [|discriminate]. injection H as <-.
    exists [], [], r. split; [reflexivity | exact E].
  - destruct (p (c :: s)) as [[y r]|] eqn:E.
    + injection H as <-. exists [], (c :: s), r. split; [reflexivity | exact E].
    + destruct (IH x H) as (w & t & rest & -> & Ht).
      exists (c :: w), t, rest. split; [reflexivity | exact Ht].
Qed.

Lemma firstn_app_enough {A} n (u b : list A) :
  length (firstn n u) = n -> firstn n (u ++ b) = firstn n u.
Proof.
  intros H. rewrite firstn_app.
  replace (n - length u)%nat with 0%nat; [cbn; apply app_nil_r|].
  rewrite length_firstn in H. lia.
Qed.

Lemma eqs_length a b : eqs a b = true -> length a = length b.
Proof. intros H. apply eqs_eq in H. subst. reflexivity. Qed.

Lemma strIgnoreCase_extend p u b x rest :
  strIgnoreCase p u = Some (x, rest) -> exists rest', strIgnoreCase p (u ++ b) = Some (x, rest').
Proof.
  unfold strIgnoreCase. intros H.
  destruct (eqs (toLowerCase (firstn (length p) u)) p) eqn:E; [|discriminate].
  injection H as <- _.
  rewrite firstn_app_enough, E; [eexists; reflexivity|].
  apply eqs_length in E. rewrite toLowerCase_length in E. exact E.
Qed.

(** A word that a text does not hold is not in a part of the text. *)
Lemma test_occursIn p s l :
  test (strIgnoreCase p) s = false -> occursIn l s -> test (strIgnoreCase p) l = false.
Proof.
  intros H (a & b & ->). unfold test in *.
  destruct (search (strIgnoreCase p) l) as [x|] eqn:E; [|reflexivity].
  apply search_Some_suffix in E as (w & t & rest & -> & Ht).
  destruct (strIgnoreCase_extend p t b x rest Ht) as [rest' Hb].
  destruct (search_suffix (strIgnoreCase p) (a ++ w) (t ++ b) x rest' Hb) as [y Hy].
  rewrite <- !app_assoc in H. rewrite <- app_assoc in Hy. rewrite Hy in H. discriminate.
Qed.

Lemma includes_part p s l : includes p s = false -> occursIn l s -> includes p l = false.
Proof. intros H (a & b & E). apply (includes_substring p s a l b H E). Qed.

Lemma startsWith_without a o s : existsb (N.eqb a) s = false -> startsWith (a :: o) s = false.
Proof.
  intros H. unfold startsWith. destruct s as [|c s]; [reflexivity|]. cbn [stripPrefix].
  cbn [existsb] in H. apply orb_false_iff in H as [H _]. rewrite H. reflexivity.
Qed.

(** X11. A log without exclamation mark, [Overfull], [Underfull] and
    [error] (in any case) has no summary. *)
Theorem summarizeLatexLog_without_signal log :
  existsb (N.eqb 33) log = false ->
  includes (lit "Overfull") log = false ->
  includes (lit "Underfull") log = false ->
  test (strIgnoreCase (lit "error")) log = false ->
  summarizeLatexLog log = [].
Proof.
  intros Hbang Hover Hunder Herr. unfold summarizeLatexLog.
  destruct (isEmpty log); [reflexivity|].
  rewrite findIndex_none.
  - rewrite !find_none_iff; [reflexivity| | |].
    + intros l Hl. apply (test_occursIn _ log l Herr), splitLines_occursIn, Hl.
    + intros l Hl. apply (includes_part _ log l Hunder), splitLines_occursIn, Hl.
    + intros l Hl. apply (includes_part _ log l Hover), splitLines_occursIn, Hl.
  - intros l Hl. change (lit "!") with [33]. apply startsWith_without, existsb_trim.
    apply (existsb_occursIn _ log l Hbang), splitLines_occursIn, Hl.
Qed.

Lemma summarizeLatexLog_without_signal_witness :
  summarizeLatexLog (lit "This is pdfTeX" ++ [13; 10] ++ lit "Output written on a.pdf.") = [].
Proof.
  apply summarizeLatexLog_without_signal; vm_compute; reflexivity.
Defined.

Lemma reLineBreak_in_front c a s u rest :
  reLineBreak (c :: a ++ 10 :: s) = Some (u, rest) ->
  (exists x a2, c :: a = x ++ a2 /\ rest = a2 ++ 10 :: s /\ (length a2 <= length a)%nat)
  \/ rest = s.
Proof.
  rewrite reLineBreak_cons. destruct (c =? 10).
  - intros H. injection H as _ <-. left. exists [c], a. repeat split. apply le_n.
  - destruct (c =? 13); [|discriminate]. destruct a as [|d a]; cbn [app].
    + intros H. injection H as _ <-. right. reflexivity.
    + destruct d as [|d]; [discriminate|].
      do 4 (destruct d as [d|d|]; try discriminate).
      intros H. injection H as _ <-. left. exists [c; 10], a. repeat split.
      simpl. lia.
Qed.

(** The lines in front of a line feed are lines of what stands before
    it. *)
Lemma splitLines_before_newline : forall n a s, (length a <= n)%nat ->
  exists hd tl,
    splitLines (a ++ 10 :: s) = (hd :: tl) ++ splitLines s /\
    (exists b, a = hd ++ b) /\
    (forall l, In l tl -> occursIn l a).
Proof.
  induction n as [|n IH]; intros a s Hn.
  - destruct a; [|simpl in Hn; lia]. exists [], []. split; [|split].
    + cbn [app]. rewrite splitLines_cons, reLineBreak_cons. reflexivity.
    + exists []. reflexivity.
    + intros l [].
  - destruct a as [|c a].
    { exists [], []. split; [|split].
      - cbn [app]. rewrite splitLines_cons, reLineBreak_cons. reflexivity.
      - exists []. reflexivity.
      - intros l []. }
    assert (La : (length a <= n)%nat) by (simpl in Hn; lia).
    change ((c :: a) ++ 10 :: s) with (c :: a ++ 10 :: s).
    rewrite splitLines_cons.
    destruct (reLineBreak (c :: a ++ 10 :: s)) as [[u rest]|] eqn:E.
    + apply reLineBreak_in_front in E as [(x & a2 & Ex & -> & L2)| ->].
      * destruct (IH a2 s ltac:(lia)) as (hd & tl & -> & (b & Hb) & Ht).
        exists [], (hd :: tl). split; [reflexivity|]. split; [exists (c :: a); reflexivity|].
        intros l [<-|Hl].
        -- exists x, b. rewrite Ex, Hb. reflexivity.
        -- destruct (Ht l Hl) as (y & z & Hyz). exists (x ++ y), z.
           rewrite Ex, Hyz, <- app_assoc. reflexivity.
      * exists [], []. split; [reflexivity|]. split; [exists (c :: a); reflexivity|].
        intros l [].
    + destruct (IH a s La) as (hd & tl & -> & (b & Hb) & Ht).
      exists (c :: hd), tl. split; [reflexivity|]. split.
      * exists b. rewrite Hb. reflexivity.
      * intros l Hl. destruct (Ht l Hl) as (y & z & Hyz). exists (c :: y), z.
        rewrite Hyz. reflexivity.
Qed.

Lemma splitLines_before_lines before s :
  exists ls,
    splitLines (concat (map (fun l => l ++ nl) before) ++ s) = ls ++ splitLines s /\
    forall l, In l ls -> exists b, In b before /\ occursIn l b.
Proof.
  induction before as [|b before IH].
  - exists []. split; [reflexivity | intros l []].
  - destruct IH as (ls & E & H). cbn [map concat]. change nl with [10].
    rewrite <- !app_assoc. cbn [app].
    destruct (splitLines_before_newline (length b) b
                (concat (map (fun l => l ++ [10]) before) ++ s) (le_n _))
      as (hd & tl & -> & (x & Hx) & Ht).
    change (map (fun l => l ++ [10]) before) with (map (fun l => l ++ nl) before).
    rewrite E. exists ((hd :: tl) ++ ls). split; [rewrite app_assoc; reflexivity|].
    intros l Hl. apply in_app_or in Hl as [[<-|Hl]|Hl].
    + exists b. split; [left; reflexivity | exists [], x; exact Hx].
    + exists b. split; [left; reflexivity | apply Ht, Hl].
    + destruct (H l Hl) as (b' & Hb' & Ho). exists b'. split; [right; exact Hb' | exact Ho].
Qed.

Lemma findIndex_app {A} (f : A -> bool) ls rest :
  (forall l, In l ls -> f l = false) ->
  findIndex f (ls ++ rest) = option_map (Nat.add (length ls)) (findIndex f rest).
Proof.
  induction ls as [|x ls IH]; intros H.
  - cbn. destruct (findIndex f rest); reflexivity.
  - cbn [app findIndex length]. rewrite (H x (or_introl eq_refl)), IH.
    + destruct (findIndex f rest); reflexivity.
    + intros l Hl. apply H. right. exact Hl.
Qed.

Lemma trim_keeps_first c s : isWhiteSpace c = false -> exists t, trim (c :: s) = c :: t.
Proof.
  intros Hc. unfold trim, trimStart, trimEnd. cbn [dropWhile]. rewrite Hc. cbn [rev].
  assert (D : forall u, exists v, dropWhile isWhiteSpace (u ++ [c]) = v ++ [c]).
  { induction u as [|d u IH]; cbn [app dropWhile].
    - rewrite Hc. exists []. reflexivity.
    - destruct (isWhiteSpace d); [exact IH|]. exists (d :: u). reflexivity. }
  destruct (D (rev s)) as [v ->]. rewrite rev_app_distr. eexists. reflexivity.
Qed.

(** X12. An error wins over every warning, and its line number is read
    from the line behind it: where the first line that starts with an
    exclamation mark is [! msg] and the line behind it starts with [l.]
    and a number, the summary is [msg at line] and that number,
    whatever stands in the lines before and behind. *)
Theorem summarizeLatexLog_error_with_line before msg n tail after :
  Forall (fun l => existsb (N.eqb 33) l = false) before ->
  lineText msg -> msg <> [] -> firstIs isWhiteSpace msg = false ->
  n <> [] -> forallb isDigit n = true ->
  lineText tail -> firstIs isDigit tail = false ->
  summarizeLatexLog
    (concat (map (fun l => l ++ nl) before)
     ++ lit "! " ++ msg ++ nl ++ lit "l." ++ n ++ tail
     ++ concat (map (fun l => nl ++ l) after))
  = msg ++ lit " at line " ++ n.
Proof.
  intros Hbefore Hmsg Hmsg0 Hmsg1 Hn0 Hn Htail Htail1.
  unfold summarizeLatexLog.
  replace (isEmpty _) with false.
  2: { destruct (concat (map (fun l => l ++ nl) before)); reflexivity. }
  destruct (splitLines_before_lines before
              (lit "! " ++ msg ++ nl ++ lit "l." ++ n ++ tail
               ++ concat (map (fun l => nl ++ l) after)))
    as (ls & E & Hls).
  rewrite E. clear E.
  pose (ctx := lit "l." ++ n ++ tail).
  pose (bang := lit "! " ++ msg).
  assert (Lctx : lineText ctx).
  { unfold lineText, ctx. rewrite !existsb_app. unfold lineText in Htail. rewrite Htail.
    rewrite orb_false_r. apply orb_false_iff. split; [reflexivity|].
    clear -Hn. induction n as [|c n IH]; [reflexivity|]. cbn [forallb existsb] in *.
    apply andb_true_iff in Hn as [Hc Hn']. rewrite (IH Hn'), orb_false_r.
    apply orb_false_iff. split; apply N.eqb_neq; intros ->; discriminate. }
  assert (Lbang : lineText bang).
  { unfold lineText, bang. rewrite existsb_app. unfold lineText in Hmsg. rewrite Hmsg.
    reflexivity. }
  assert (S2 : exists tl2,
             splitLines (lit "! " ++ msg ++ nl ++ lit "l." ++ n ++ tail
                         ++ concat (map (fun l => nl ++ l) after))
             = bang :: ctx :: tl2).
  { replace (lit "! " ++ msg ++ nl ++ lit "l." ++ n ++ tail
             ++ concat (map (fun l => nl ++ l) after))
      with (bang ++ 10 :: ctx ++ concat (map (fun l => nl ++ l) after))
      by (unfold bang, ctx; rewrite <- !app_assoc; reflexivity).
    rewrite (splitLines_line bang _ Lbang).
    destruct after as [|a1 after].
    - cbn [map concat]. rewrite app_nil_r, (splitLines_last ctx Lctx).
      exists []. reflexivity.
    - cbn [map concat]. change (nl ++ a1) with (10 :: a1). cbn [app].
      rewrite (splitLines_line ctx _ Lctx). eexists. reflexivity. }
  destruct S2 as [tl2 ->].
  assert (Nobang : forall l, In l ls -> startsWith (lit "!") (trim l) = false).
  { intros l Hl. destruct (Hls l Hl) as (b & Hb & Ho).
    rewrite Forall_forall in Hbefore. change (lit "!") with [33].
    apply startsWith_without, existsb_trim.
    apply (existsb_occursIn _ b l (Hbefore b Hb) Ho). }
  rewrite (findIndex_app _ ls _ Nobang). cbn [findIndex].
  destruct (trim_keeps_first 33 (32 :: msg) eq_refl) as [t Ht].
  change bang with (33 :: 32 :: msg) at 1. rewrite Ht.
  change (startsWith (lit "!") (33 :: t)) with true. cbv iota. cbn [option_map].
  rewrite Nat.add_0_r.
  rewrite app_nth2 by apply le_n. rewrite Nat.sub_diag.
  rewrite (app_nth2 ls _ [] (Nat.le_succ_diag_r _)).
  replace (S (length ls) - length ls)%nat with 1%nat by lia. cbn [nth].
  assert (Eerr : replaceAtStart (str (lit "!") ;;; many isWhiteSpace)%parser
                   (fun _ => []) bang = msg).
  { unfold replaceAtStart, bang, pbind, str, many.
    change (stripPrefix (lit "!") (lit "! " ++ msg)) with (Some (32 :: msg)).
    cbv iota beta. cbn [dropWhile]. change (isWhiteSpace 32) with true. cbv iota.
    rewrite (dropWhile_id _ _ Hmsg1). reflexivity. }
  rewrite Eerr.
  assert (Eln : search reLineNumber ctx = Some n).
  { apply (search_here _ _ _ tail). unfold reLineNumber, ctx.
    rewrite (pbind_Some _ _ _ _ _ (str_app _ _)).
    apply many1_app; assumption. }
  rewrite Eln. apply trim_id.
  - rewrite firstIs_app_cases. destruct msg; [contradiction | exact Hmsg1].
  - destruct (exists_last Hn0) as (n' & d & ->).
    rewrite !app_assoc, lastIs_snoc. rewrite forallb_app in Hn.
    apply andb_true_iff in Hn as [_ Hd]. cbn [forallb] in Hd. rewrite andb_true_r in Hd.
    apply digit_not_space, Hd.
Qed.

Lemma summarizeLatexLog_error_with_line_witness :
  summarizeLatexLog
    (lit "Overfull \hbox in paragraph" ++ nl
     ++ lit "! Undefined control sequence." ++ nl ++ lit "l.23 \foo"
     ++ nl ++ lit "Underfull \vbox")
  = lit "Undefined control sequence. at line 23".
Proof.
  apply (summarizeLatexLog_error_with_line [lit "Overfull \hbox in paragraph"]
           (lit "Undefined control sequence.") (lit "23") (lit " \foo")
           [lit "Underfull \vbox"]);
    try (vm_compute; reflexivity); try discriminate.
  repeat constructor.
Defined.

(** ** One match between text that holds no place to start *)

Lemma lastOr_cons prev c pre : lastOr prev (c :: pre) = lastOr (Some c) pre.
Proof.
  unfold lastOr. cbn [rev]. destruct (rev pre) as [|d r]; reflexivity.
Qed.

Lemma scan_keep_prefix {A} (m : matcher A) a :
  opensWith m a ->
  forall pre fuel prev s,
    forallb (fun c => negb (c =? a)) pre = true ->
    scan (length pre + fuel) m prev (pre ++ s)
    = map Keep pre ++ scan fuel m (lastOr prev pre) s.
Proof.
  intros Hm. induction pre as [|c pre IH]; intros fuel prev s H; [reflexivity|].
  cbn [forallb] in H. apply andb_true_iff in H as [Hc Hp].
  cbn [length Nat.add app scan map]. rewrite (Hm prev c (pre ++ s)).
  - rewrite (IH fuel (Some c) s Hp), lastOr_cons. reflexivity.
  - intros ->. rewrite N.eqb_refl in Hc. discriminate.
Qed.

Lemma scan_one_hit {A} (m : matcher A) a pre mid post x :
  productive m -> opensWith m a ->
  forallb (fun c => negb (c =? a)) pre = true ->
  forallb (fun c => negb (c =? a)) post = true ->
  m (lastOr None pre) (mid ++ post) = Some (x, post) ->
  scan (length (pre ++ mid ++ post)) m None (pre ++ mid ++ post)
  = map Keep pre ++ Hit x :: map Keep post.
Proof.
  intros Hp Hm Hpre Hpost Hx. rewrite length_app.
  rewrite (scan_keep_prefix m a Hm pre _ None _ Hpre). f_equal.
  pose proof (Hp _ _ _ _ Hx) as L.
  destruct (mid ++ post) as [|c s] eqn:E; [simpl in L; lia|].
  cbn [length scan]. rewrite Hx. f_equal. apply (scan_opensWith m a Hm), Hpost.
Qed.

Lemma concat_render_app {A} (f : A -> list N) pre segs :
  concat (map (render f) (map Keep pre ++ segs)) = pre ++ concat (map (render f) segs).
Proof.
  induction pre as [|c pre IH]; [reflexivity|]. cbn [map app concat render].
  rewrite IH. reflexivity.
Qed.

Lemma replaceWith_one_hit {A} (m : matcher A) a (f : A -> list N) pre mid post x :
  productive m -> opensWith m a ->
  forallb (fun c => negb (c =? a)) pre = true ->
  forallb (fun c => negb (c =? a)) post = true ->
  m (lastOr None pre) (mid ++ post) = Some (x, post) ->
  replaceWith m f (pre ++ mid ++ post) = pre ++ f x ++ post.
Proof.
  intros Hp Hm Hpre Hpost Hx. unfold replaceWith.
  rewrite (scan_one_hit m a pre mid post x Hp Hm Hpre Hpost Hx).
  rewrite concat_render_app. cbn [map concat render].
  rewrite concat_render_keep. reflexivity.
Qed.

Lemma renderM_keep_app {A} (f : A -> M (list N)) pre segs st :
  renderM f (map Keep pre ++ segs) st
  = match renderM f segs st with
    | Normal (out, st') => Normal (pre ++ out, st')
    | Throw e => Throw e
    end.
Proof.
  induction pre as [|c pre IH].
  - cbn [map app]. destruct (renderM f segs st) as [[out st']|e]; reflexivity.
  - cbn [map app renderM]. unfold bind at 1. rewrite IH.
    destruct (renderM f segs st) as [[out st']|e]; reflexivity.
Qed.

Lemma replaceM_one_hit {A} (m : matcher A) a (f : A -> M (list N)) pre mid post x st y st' :
  productive m -> opensWith m a ->
  forallb (fun c => negb (c =? a)) pre = true ->
  forallb (fun c => negb (c =? a)) post = true ->
  m (lastOr None pre) (mid ++ post) = Some (x, post) ->
  f x st = Normal (y, st') ->
  replaceM m f (pre ++ mid ++ post) st = Normal (pre ++ y ++ post, st').
Proof.
  intros Hp Hm Hpre Hpost Hx Hf. unfold replaceM.
  rewrite (scan_one_hit m a pre mid post x Hp Hm Hpre Hpost Hx).
  rewrite renderM_keep_app. cbn [renderM]. unfold bind at 1. rewrite Hf.
  unfold bind. rewrite renderM_keep. reflexivity.
Qed.

(** ** One protected block in plain text *)

Lemma plainText_app a b : plainText (a ++ b) <-> plainText a /\ plainText b.
Proof. unfold plainText. rewrite forallb_app. apply andb_true_iff. Qed.

Lemma plainText_without a s :
  plainChar a = false -> plainText s -> forallb (fun c => negb (c =? a)) s = true.
Proof.
  intros Ha H. unfold plainText in H. rewrite forallb_forall in *.
  intros c Hc. apply negb_true_iff, N.eqb_neq. intros ->.
  rewrite (H a Hc) in Ha. discriminate.
Qed.

Lemma without_app a u v :
  forallb (fun c => negb (c =? a)) (u ++ v) = true <->
  forallb (fun c => negb (c =? a)) u = true /\ forallb (fun c => negb (c =? a)) v = true.
Proof. rewrite forallb_app. apply andb_true_iff. Qed.

Lemma plainText_newlinesToSpaces s : plainText s -> plainText (newlinesToSpaces s).
Proof.
  unfold plainText. rewrite newlinesToSpaces_map. induction s as [|c s IH]; [reflexivity|].
  cbn [forallb map]. intros H. apply andb_true_iff in H as [Hc Hs]. rewrite (IH Hs).
  destruct (c =? 10); [reflexivity | rewrite Hc; reflexivity].
Qed.

Lemma lastOr_plain pre : plainText pre -> lastOr None pre <> Some 92.
Proof.
  intros H. unfold lastOr. destruct (rev pre) as [|c r] eqn:E; [discriminate|].
  intros [= ->]. unfold plainText in H. rewrite forallb_forall in H.
  assert (I : In 92 pre) by (apply in_rev; rewrite E; left; reflexivity).
  specialize (H 92 I). discriminate.
Qed.

(** Content that is one token in plain text: no later pass touches it
    and the restore pass puts the block in the place of the token. *)
Lemma content_with_token pre post :
  plainText pre -> plainText post ->
  everyBackslash (fun _ => false) (pre ++ token 0 ++ post) = true /\
  precededByBackslash (N.eqb 36) None (pre ++ token 0 ++ post) = true.
Proof.
  intros Hpre Hpost. split.
  - apply everyBackslash_without. rewrite !without_app. repeat split;
      apply plainText_without; try assumption; reflexivity.
  - apply precededByBackslash_without.
    assert (E : forall s, forallb (fun c => negb (c =? 36)) s = true ->
                          forallb (fun c => negb (36 =? c)) s = true).
    { intros s. induction s as [|c s IH]; [reflexivity|]. cbn [forallb].
      rewrite (N.eqb_sym 36 c). intros H. apply andb_true_iff in H as [-> H].
      apply IH, H. }
    apply E. rewrite !without_app. repeat split;
      apply plainText_without; try assumption; reflexivity.
Qed.

Lemma rejects_nothing names : rejects (fun _ => false) names.
Proof. unfold rejects. apply Forall_forall. intros o _ r. reflexivity. Qed.

Lemma protectBlocks_token katex pre post st :
  plainText pre -> plainText post ->
  protectBlocks katex (pre ++ token 0 ++ post) st = Normal (pre ++ token 0 ++ post, st).
Proof.
  intros Hpre Hpost. destruct (content_with_token pre post Hpre Hpost) as [Hs Hd].
  apply (protectBlocks_untouched katex _ _ st Hs (rejects_nothing _) Hd).
Qed.

Lemma opensWith_reToken : opensWith (anywhere reToken) 95.
Proof. apply (opensWith_literal reToken 95 _ _ eq_refl). Qed.

Lemma restore_token pre post blk :
  plainText pre -> plainText post ->
  restoreAll (unescapeLatex (spacingFix (formatting (pre ++ token 0 ++ post)))) [blk]
  = Normal (newlinesToSpaces pre ++ blk ++ newlinesToSpaces post, [blk]).
Proof.
  intros Hpre Hpost. destruct (content_with_token pre post Hpre Hpost) as [Hs Hd].
  rewrite (formatting_untouched _ _ Hs (rejects_nothing _)).
  rewrite (spacingFix_untouched _ _ Hs (rejects_nothing _)).
  rewrite !newlinesToSpaces_app.
  change (newlinesToSpaces (token 0)) with (token 0).
  apply plainText_newlinesToSpaces in Hpre, Hpost.
  rewrite unescapeLatex_without_backslash.
  2: { assert (F : forallb (fun c => negb (c =? 92))
                     (newlinesToSpaces pre ++ token 0 ++ newlinesToSpaces post) = true).
       { rewrite !without_app. repeat split;
           apply plainText_without; try assumption; reflexivity. }
       clear -F. induction (newlinesToSpaces pre ++ token 0 ++ newlinesToSpaces post)
         as [|c s IH]; [reflexivity|].
       cbn [forallb existsb] in *. apply andb_true_iff in F as [Hc F].
       rewrite (IH F), orb_false_r, N.eqb_sym. apply negb_true_iff, Hc. }
  unfold restoreAll. f_equal. f_equal.
  rewrite (replaceWith_one_hit (anywhere reToken) 95 (block [blk])
             (newlinesToSpaces pre) (token 0) (newlinesToSpaces post) (lit "0"));
    [reflexivity | | | | |].
  - apply productive_reToken.
  - apply opensWith_reToken.
  - apply plainText_without; [reflexivity | exact Hpre].
  - apply plainText_without; [reflexivity | exact Hpost].
  - reflexivity.
Qed.

(** The rest of [latexToHtml] once the protect passes have left one
    token in plain text. *)
Lemma latexToHtml_one_block katex s pre post blk :
  s <> [] ->
  includes (lit "\begin{document}") s = false ->
  plainText pre -> plainText post ->
  protectBlocks katex s [] = Normal (pre ++ token 0 ++ post, [blk]) ->
  latexToHtml katex s
  = Normal (newlinesToSpaces pre ++ blk ++ newlinesToSpaces post).
Proof.
  intros Hs Hdoc Hpre Hpost P. unfold latexToHtml.
  destruct s as [|c s]; [contradiction|]. cbn [isEmpty].
  unfold between at 1. rewrite (search_absent _ _ _ Hdoc).
  rewrite (bind_Normal _ _ _ _ _ P), (restore_token pre post blk Hpre Hpost).
  reflexivity.
Qed.

(** A command can only run over a backslash by starting at it. *)
Lemma startsWith_over a o w v :
  existsb (N.eqb a) o = false -> w <> [] ->
  startsWith (a :: o) (w ++ a :: v) = startsWith (a :: o) w.
Proof.
  intros Ha Hw. unfold startsWith.
  destruct (stripPrefix (a :: o) w) as [r|] eqn:E.
  - rewrite (stripPrefix_extend _ _ (a :: v) _ E). reflexivity.
  - destruct (stripPrefix (a :: o) (w ++ a :: v)) as [r|] eqn:E'; [|reflexivity].
    apply stripPrefix_app_cases in E' as [[r' E']|(x & Hp & Hx & E')]; [congruence|].
    destruct w as [|c w]; [contradiction|]. injection Hp as -> ->.
    destruct x as [|d x]; [contradiction|]. cbn [stripPrefix] in E'.
    destruct (N.eqb_spec d c) as [->|]; [|discriminate].
    rewrite existsb_app in Ha. cbn [existsb] in Ha. rewrite N.eqb_refl in Ha.
    rewrite orb_true_r in Ha. discriminate.
Qed.

Lemma includes_over a o : existsb (N.eqb a) o = false ->
  forall u v, includes (a :: o) (u ++ a :: v) = includes (a :: o) u || includes (a :: o) (a :: v).
Proof.
  intros Ha. induction u as [|c u IH]; intros v.
  - cbn [app includes]. unfold startsWith. cbn [stripPrefix]. reflexivity.
  - change ((c :: u) ++ a :: v) with (c :: u ++ a :: v).
    rewrite (includes_cons _ c (u ++ a :: v)), (includes_cons _ c u), IH.
    change (c :: u ++ a :: v) with ((c :: u) ++ a :: v).
    rewrite (startsWith_over a o (c :: u) v Ha) by discriminate. apply orb_assoc.
Qed.

Lemma includes_skip a o pre s :
  forallb (fun c => negb (c =? a)) pre = true ->
  includes (a :: o) (pre ++ s) = includes (a :: o) s.
Proof.
  induction pre as [|c pre IH]; intros H; [reflexivity|].
  cbn [forallb] in H. apply andb_true_iff in H as [Hc Hp].
  change ((c :: pre) ++ s) with (c :: pre ++ s). rewrite includes_cons, (IH Hp).
  unfold startsWith. cbn [stripPrefix]. rewrite N.eqb_sym.
  apply negb_true_iff in Hc. rewrite Hc. reflexivity.
Qed.

(** A command occurs in [pre \open body \close post], between text
    without backslash, only at [\open], in [body] or at [\close]. *)
Lemma includes_region o pre open body close post :
  existsb (N.eqb 92) o = false ->
  forallb (fun c => negb (c =? 92)) pre = true ->
  forallb (fun c => negb (c =? 92)) open = true ->
  forallb (fun c => negb (c =? 92)) close = true ->
  forallb (fun c => negb (c =? 92)) post = true ->
  includes (92 :: o) (pre ++ (92 :: open) ++ body ++ (92 :: close) ++ post)
  = startsWith (92 :: o) (92 :: open ++ body ++ (92 :: close) ++ post)
    || includes (92 :: o) body
    || startsWith (92 :: o) (92 :: close ++ post).
Proof.
  intros Ho Hpre Hopen Hclose Hpost.
  rewrite (includes_skip 92 o pre _ Hpre).
  change ((92 :: open) ++ body ++ (92 :: close) ++ post)
    with (92 :: open ++ body ++ (92 :: close) ++ post).
  rewrite includes_cons. rewrite <- orb_assoc. f_equal.
  rewrite (includes_skip 92 o open _ Hopen).
  change ((92 :: close) ++ post) with (92 :: close ++ post).
  rewrite (includes_over 92 o Ho body). f_equal.
  rewrite includes_cons.
  assert (F : forallb (fun c => negb (c =? 92)) (close ++ post) = true)
    by (apply without_app; split; assumption).
  rewrite (includes_without_first 92 o _ F). apply orb_false_r.
Qed.

Lemma lazyUntil_here a cl body post :
  existsb (N.eqb a) cl = false -> includes (a :: cl) body = false ->
  lazyUntil (a :: cl) (body ++ (a :: cl) ++ post) = Some (body, post).
Proof. apply lazyUntil_first. Qed.

Lemma between_here open a cl body post :
  existsb (N.eqb a) cl = false -> includes (a :: cl) body = false ->
  between open (a :: cl) (open ++ body ++ (a :: cl) ++ post) = Some (body, post).
Proof.
  intros Ha Hb. unfold between. rewrite (pbind_Some _ _ _ _ _ (str_app _ _)).
  apply lazyUntil_first; assumption.
Qed.

(** X13. What stands in a verbatim environment reaches the markup as it
    is, whatever commands, dollars and tokens it holds: nothing is
    formatted, unescaped or looked up in it.  The text around it is plain
    text here. *)
Theorem verbatim_is_kept katex pre c post :
  plainText pre -> plainText post ->
  includes (lit "\end{verbatim}") c = false ->
  includes (lit "\begin{document}") c = false ->
  latexToHtml katex (pre ++ lit "\begin{verbatim}" ++ c ++ lit "\end{verbatim}" ++ post)
  = Normal (newlinesToSpaces pre
            ++ html "<pre class='bg-slate-100 p-3 rounded font-mono text-sm my-4 border border-slate-200 overflow-x-auto' contenteditable='false'>"
            ++ c ++ lit "</pre>" ++ newlinesToSpaces post).
Proof.
  intros Hpre Hpost Hend Hdoc.
  set (blk := html "<pre class='bg-slate-100 p-3 rounded font-mono text-sm my-4 border border-slate-200 overflow-x-auto' contenteditable='false'>" ++ c ++ lit "</pre>").
  replace (html "<pre class='bg-slate-100 p-3 rounded font-mono text-sm my-4 border border-slate-200 overflow-x-auto' contenteditable='false'>"
            ++ c ++ lit "</pre>" ++ newlinesToSpaces post)
    with (blk ++ newlinesToSpaces post) by (unfold blk; rewrite <- !app_assoc; reflexivity).
  assert (B92 : forall s, plainText s -> forallb (fun c => negb (c =? 92)) s = true)
    by (intros s; apply plainText_without; reflexivity).
  apply (latexToHtml_one_block katex _ pre post blk).
  - destruct pre; discriminate.
  - change (lit "\begin{document}") with (92 :: lit "begin{document}") in *.
    change (lit "\begin{verbatim}") with (92 :: lit "begin{verbatim}").
    change (lit "\end{verbatim}") with (92 :: lit "end{verbatim}").
    rewrite includes_region; [| reflexivity | apply B92, Hpre | reflexivity | reflexivity
                              | apply B92, Hpost].
    rewrite Hdoc. reflexivity.
  - exact Hpre.
  - exact Hpost.
  - assert (P1 : replaceM (anywhere (between (lit "\begin{verbatim}") (lit "\end{verbatim}")))
                   (fun c => protect (html "<pre class='bg-slate-100 p-3 rounded font-mono text-sm my-4 border border-slate-200 overflow-x-auto' contenteditable='false'>" ++ c ++ lit "</pre>"))
                   (pre ++ (lit "\begin{verbatim}" ++ c ++ lit "\end{verbatim}") ++ post) []
                 = Normal (pre ++ token 0 ++ post, [blk])).
    { apply (replaceM_one_hit _ 92 _ _ _ _ c).
      - apply productive_between. discriminate.
      - apply (opensWith_literal _ 92 _ _ eq_refl).
      - apply B92, Hpre.
      - apply B92, Hpost.
      - unfold anywhere. rewrite <- !app_assoc.
        apply (between_here _ 92 (lit "end{verbatim}") c post eq_refl Hend).
      - reflexivity. }
    rewrite <- !app_assoc in P1. unfold protectBlocks.
    rewrite (bind_Normal _ _ _ _ _ P1).
    destruct (content_with_token pre post Hpre Hpost) as [Hs Hd].
    pose proof (rejects_nothing protectNames) as Hr.
    skip_protect Hs Hr. skip_protect Hs Hr. skip_display Hd. skip_inline Hd.
    skip_code Hs Hr.
Qed.

Lemma verbatim_is_kept_witness :
  latexToHtml None
    (lit "See: \begin{verbatim}\textbf{$x_1$} __PROTECTED_BLOCK_0__\end{verbatim}.")
  = Normal (lit "See: "
            ++ html "<pre class='bg-slate-100 p-3 rounded font-mono text-sm my-4 border border-slate-200 overflow-x-auto' contenteditable='false'>"
            ++ lit "\textbf{$x_1$} __PROTECTED_BLOCK_0__" ++ lit "</pre>" ++ lit ".").
Proof.
  apply (verbatim_is_kept None (lit "See: ") (lit "\textbf{$x_1$} __PROTECTED_BLOCK_0__")
           (lit ".")); vm_compute; reflexivity.
Defined.

(** ** Inline math *)

Lemma includes_dollar_region o pre m post :
  existsb (N.eqb 36) (92 :: o) = false ->
  forallb (fun c => negb (c =? 92)) pre = true ->
  forallb (fun c => negb (c =? 92)) post = true ->
  includes (92 :: o) m = false ->
  includes (92 :: o) (pre ++ lit "$" ++ m ++ lit "$" ++ post) = false.
Proof.
  intros Ho Hpre Hpost Hm. change (lit "$") with [36]. cbn [app].
  rewrite (includes_separator _ 36 Ho ltac:(discriminate) pre).
  rewrite (includes_separator _ 36 Ho ltac:(discriminate) m).
  rewrite Hm, (includes_without_first 92 o _ Hpre), (includes_without_first 92 o _ Hpost).
  reflexivity.
Qed.

Lemma no_display_in_inline pre m post :
  forallb (fun c => negb (c =? 36)) pre = true ->
  forallb (fun c => negb (c =? 36)) post = true ->
  m <> [] -> forallb (fun c => negb (c =? 36)) m = true ->
  includes (lit "$$") (pre ++ lit "$" ++ m ++ lit "$" ++ post) = false.
Proof.
  intros Hpre Hpost Hm0 Hm. change (lit "$$") with [36; 36]. change (lit "$") with [36].
  rewrite (includes_skip 36 [36] pre _ Hpre). cbn [app]. rewrite includes_cons.
  rewrite (includes_skip 36 [36] m _ Hm), includes_cons.
  rewrite (includes_without_first 36 [36] _ Hpost).
  destruct m as [|c m]; [contradiction|]. cbn [forallb] in Hm.
  apply andb_true_iff in Hm as [Hc _]. apply negb_true_iff in Hc.
  unfold startsWith. cbn [app stripPrefix]. change (36 =? 36) with true. cbv iota.
  rewrite (N.eqb_sym 36 c), Hc.
  destruct post as [|d post]; [reflexivity|]. cbn [forallb] in Hpost.
  apply andb_true_iff in Hpost as [Hd _]. apply negb_true_iff in Hd.
  rewrite (N.eqb_sym 36 d), Hd. reflexivity.
Qed.

Lemma lazyUntilIn_notDollar m post :
  forallb (fun c => negb (c =? 36)) m = true ->
  lazyUntilIn notDollar (lit "$") (m ++ lit "$" ++ post) = Some (m, post).
Proof.
  change (lit "$") with [36]. induction m as [|c m IH]; intros H.
  - cbn. reflexivity.
  - cbn [forallb] in H. apply andb_true_iff in H as [Hc Hm].
    cbn [app lazyUntilIn stripPrefix]. unfold notDollar at 1. rewrite Hc.
    apply negb_true_iff in Hc. rewrite (N.eqb_sym 36 c), Hc.
    change (m ++ 36 :: post) with (m ++ [36] ++ post). rewrite (IH Hm). reflexivity.
Qed.

Lemma reInlineMath_here prev m post :
  prev <> Some 92 -> m <> [] -> forallb (fun c => negb (c =? 36)) m = true ->
  reInlineMath prev ((lit "$" ++ m ++ lit "$") ++ post) = Some (m, post).
Proof.
  intros Hprev Hm0 Hm.
  assert (K : (str (lit "$") ;;; x <- one notDollar ;;
               t <- lazyUntilIn notDollar (lit "$") ;; pret (x :: t))%parser
                ((lit "$" ++ m ++ lit "$") ++ post) = Some (m, post)).
  { rewrite <- !app_assoc. rewrite (pbind_Some _ _ _ _ _ (str_app _ _)).
    destruct m as [|c m]; [contradiction|]. cbn [forallb] in Hm.
    apply andb_true_iff in Hm as [Hc Hm]. unfold pbind, one. cbn [app].
    unfold notDollar at 1. rewrite Hc.
    rewrite (lazyUntilIn_notDollar m post Hm). reflexivity. }
  unfold reInlineMath. destruct prev as [q|]; [|exact K].
  destruct q as [|q]; [exact K|].
  do 7 (destruct q as [q|q|]; try exact K). contradiction.
Qed.

Lemma latexToHtml_inline_math katex pre m post enc :
  plainText pre -> plainText post ->
  m <> [] -> existsb (N.eqb 36) m = false ->
  includes (lit "\begin{document}") m = false ->
  includes (lit "\begin{verbatim}") m = false ->
  includes (lit "\begin{itemize}") m = false ->
  includes (lit "\[") m = false ->
  encodeURIComponent m = Normal enc ->
  latexToHtml katex (pre ++ lit "$" ++ m ++ lit "$" ++ post)
  = Normal (newlinesToSpaces pre
            ++ (mathInlineOpen ++ enc ++ html "'>" ++ renderMath katex m false ++ lit "</span>")
            ++ newlinesToSpaces post).
Proof.
  intros Hpre Hpost Hm0 Hm Hdoc Hverb Hitem Hdisp Henc.
  set (blk := mathInlineOpen ++ enc ++ html "'>" ++ renderMath katex m false ++ lit "</span>").
  assert (B92 : forall s, plainText s -> forallb (fun c => negb (c =? 92)) s = true)
    by (intros s; apply plainText_without; reflexivity).
  assert (B36 : forall s, plainText s -> forallb (fun c => negb (c =? 36)) s = true)
    by (intros s; apply plainText_without; reflexivity).
  apply without in Hm.
  apply (latexToHtml_one_block katex _ pre post blk).
  - destruct pre; discriminate.
  - apply includes_dollar_region; [reflexivity | apply B92, Hpre | apply B92, Hpost | exact Hdoc].
  - exact Hpre.
  - exact Hpost.
  - unfold protectBlocks.
    rewrite (bind_replaceM_absent (between (lit "\begin{verbatim}") (lit "\end{verbatim}"))
               _ _ _ _ _ _ eq_refl)
      by (apply includes_dollar_region;
          [reflexivity | apply B92, Hpre | apply B92, Hpost | exact Hverb]).
    rewrite (bind_replaceM_absent reCheckboxList _ _ _ _ _ _ eq_refl)
      by (apply includes_dollar_region;
          [reflexivity | apply B92, Hpre | apply B92, Hpost | exact Hitem]).
    rewrite (bind_replaceM_absent (between (lit "\[") (lit "\]")) _ _ _ _ _ _ eq_refl)
      by (apply includes_dollar_region;
          [reflexivity | apply B92, Hpre | apply B92, Hpost | exact Hdisp]).
    rewrite (bind_replaceM_absent (between (lit "$$") (lit "$$")) _ _ _ _ _ _ eq_refl)
      by (apply no_display_in_inline;
          [apply B36, Hpre | apply B36, Hpost | exact Hm0 | exact Hm]).
    assert (P5 : replaceM reInlineMath (protectInlineMath katex)
                   (pre ++ (lit "$" ++ m ++ lit "$") ++ post) []
                 = Normal (pre ++ token 0 ++ post, [blk])).
    { apply (replaceM_one_hit _ 36 _ _ _ _ m).
      - apply productive_reInlineMath.
      - apply opensWith_reInlineMath.
      - apply B36, Hpre.
      - apply B36, Hpost.
      - apply reInlineMath_here; [apply lastOr_plain, Hpre | exact Hm0 | exact Hm].
      - unfold protectInlineMath.
        assert (L : lift (encodeURIComponent m) [] = Normal (enc, []))
          by (unfold lift; rewrite Henc; reflexivity).
        rewrite (bind_Normal _ _ _ _ _ L). reflexivity. }
    rewrite <- !app_assoc in P5. rewrite (bind_Normal _ _ _ _ _ P5).
    destruct (content_with_token pre post Hpre Hpost) as [Hs Hd].
    pose proof (rejects_nothing protectNames) as Hr.
    skip_code Hs Hr.
Qed.

(** X14. Inline math in plain text compiles to one math node: its
    attribute is the encoded source, its preview what [renderMath] gives,
    and nothing in the source is formatted or unescaped. *)
Theorem inline_math_in_text katex pre m post enc :
  plainText pre -> plainText post ->
  m <> [] -> existsb (N.eqb 36) m = false ->
  includes (lit "\begin{document}") m = false ->
  includes (lit "\begin{verbatim}") m = false ->
  includes (lit "\begin{itemize}") m = false ->
  includes (lit "\[") m = false ->
  encodeURIComponent m = Normal enc ->
  latexToHtml katex (pre ++ lit "$" ++ m ++ lit "$" ++ post)
  = Normal (newlinesToSpaces pre
            ++ (mathInlineOpen ++ enc ++ html "'>" ++ renderMath katex m false ++ lit "</span>")
            ++ newlinesToSpaces post).
Proof. apply latexToHtml_inline_math. Qed.

Lemma inline_math_in_text_witness :
  latexToHtml None (lit "Let $\textbf{x}_1$ be.")
  = Normal (lit "Let "
            ++ (mathInlineOpen ++ lit "%5Ctextbf%7Bx%7D_1" ++ html "'>"
                ++ renderMath None (lit "\textbf{x}_1") false ++ lit "</span>")
            ++ lit " be.").
Proof.
  apply (inline_math_in_text None (lit "Let ") (lit "\textbf{x}_1") (lit " be.")
           (lit "%5Ctextbf%7Bx%7D_1"));
    try (vm_compute; reflexivity). discriminate.
Defined.

(** ** An encoded source as an attribute value *)

Lemma percent_safe b : b < 256 -> existsb isMarkup (percent b) = false.
Proof.
  intros H. apply negb_true_iff.
  apply (below_256 (fun b => negb (existsb isMarkup (percent b))));
    [vm_compute; reflexivity | lia].
Qed.

Lemma percentEncode_safe cp : cp <= 1114111 -> existsb isMarkup (percentEncode cp) = false.
Proof.
  intros H. unfold percentEncode, utf8.
  destruct (N.ltb_spec cp 128); [|destruct (N.ltb_spec cp 2048); [|destruct (N.ltb_spec cp 65536)]];
    cbn [map concat]; rewrite ?existsb_app, ?percent_safe; try reflexivity; lia.
Qed.

Lemma unreserved_safe c : isUnreserved c = true -> isMarkup c = false.
Proof.
  intros H. unfold isUnreserved in H. unfold isMarkup.
  destruct (N.eqb_spec c 38) as [->|]; [discriminate|].
  destruct (N.eqb_spec c 34) as [->|]; [discriminate|].
  destruct (N.eqb_spec c 60) as [->|]; [discriminate|].
  destruct (N.eqb_spec c 62) as [->|]; [discriminate|].
  destruct (N.eqb_spec c 160) as [->|]; [discriminate|]. reflexivity.
Qed.

Lemma encodeURIComponent_safe : forall n s e,
  (length s <= n)%nat -> codeUnits s ->
  encodeURIComponent s = Normal e -> existsb isMarkup e = false.
Proof.
  unfold codeUnits. induction n as [|n IH]; intros s e Hn Hu H.
  - destruct s; [|simpl in Hn; lia]. inversion H. reflexivity.
  - destruct s as [|c s]; [inversion H; reflexivity|].
    cbn [forallb] in Hu. apply andb_true_iff in Hu as [Hc Hu]. apply N.ltb_lt in Hc.
    cbn [encodeURIComponent] in H. simpl in Hn.
    destruct (isUnreserved c) eqn:U.
    { destruct (encodeURIComponent s) as [e'|] eqn:E; [|discriminate].
      inversion H; subst. cbn [existsb].
      rewrite (unreserved_safe c U), (IH s e' ltac:(lia) Hu E). reflexivity. }
    destruct (isLowSurrogate c) eqn:L; [discriminate|].
    destruct (isHighSurrogate c) eqn:Hi.
    { destruct s as [|d s]; [discriminate|].
      destruct (isLowSurrogate d) eqn:Ld; [|discriminate].
      cbn [forallb] in Hu. apply andb_true_iff in Hu as [_ Hu]. simpl in Hn.
      destruct (encodeURIComponent s) as [e'|] eqn:E; [|discriminate].
      inversion H; subst. rewrite existsb_app, (IH s e' ltac:(lia) Hu E), orb_false_r.
      apply percentEncode_safe. unfold pairCodePoint, isHighSurrogate, isLowSurrogate in *.
      apply andb_true_iff in Hi as [_ Hi]. apply andb_true_iff in Ld as [_ Ld].
      apply N.leb_le in Hi, Ld. lia. }
    destruct (encodeURIComponent s) as [e'|] eqn:E; [|discriminate].
    inversion H; subst. rewrite existsb_app, (IH s e' ltac:(lia) Hu E), orb_false_r.
    apply percentEncode_safe. lia.
Qed.

Lemma replaceAll_char_absent k rep s :
  existsb (N.eqb k) s = false -> replaceAll [k] rep s = s.
Proof.
  intros H. apply replaceAll_absent, includes_without_first, without, H.
Qed.

Lemma escapeAttribute_safe s : existsb isMarkup s = false -> escapeAttribute s = s.
Proof.
  intros H. unfold escapeAttribute. change (lit "&") with [38].
  repeat rewrite (replaceAll_char_absent _ _ s)
    by (apply (existsb_weaken isMarkup _ s); [|exact H];
        intros c E; apply N.eqb_eq in E; subst; reflexivity).
  reflexivity.
Qed.

Lemma escapeText_safe s : existsb isMarkup s = false -> escapeText s = s.
Proof.
  intros H. unfold escapeText. change (lit "&") with [38]. change (lit "<") with [60].
  change (lit ">") with [62].
  repeat rewrite (replaceAll_char_absent _ _ s)
    by (apply (existsb_weaken isMarkup _ s); [|exact H];
        intros c E; apply N.eqb_eq in E; subst; reflexivity).
  reflexivity.
Qed.

Lemma traverse_math_inline m enc preview :
  codeUnits m -> encodeURIComponent m = Normal enc ->
  querySelector (hasTag (lit "input")) preview = None ->
  traverse (mathInlineElement enc preview) = Normal (lit "$" ++ m ++ lit "$").
Proof.
  intros Hu He Hq. unfold mathInlineElement, plainElement. cbn [traverse].
  change (classListContains _ (lit "math-block")) with false.
  change (classListContains _ (lit "math-inline")) with true. cbv iota.
  unfold mathSource. rewrite Hq. cbn [attributes getAttribute].
  change (eqs (lit "class") (lit "data-latex")) with false.
  change (eqs (lit "contenteditable") (lit "data-latex")) with false.
  change (eqs (lit "data-latex") (lit "data-latex")) with true. cbv iota.
  rewrite (decodeURIComponent_encodeURIComponent m enc Hu He). reflexivity.
Qed.

(** The tree of an inline math node compiles to its source between two
    dollars, whatever its preview is, provided the source holds no run
    of three newlines. *)
Lemma htmlToLatexNodes_math_inline m enc preview :
  codeUnits m -> encodeURIComponent m = Normal enc ->
  querySelector (hasTag (lit "input")) preview = None ->
  includes (nl ++ nl ++ nl) m = false ->
  htmlToLatexNodes [mathInlineElement enc preview] = Normal (lit "$" ++ m ++ lit "$").
Proof.
  intros Hu He Hq Hn. unfold htmlToLatexNodes. cbn [traverseAll].
  rewrite (traverse_math_inline m enc preview Hu He Hq). cbn [cbind cmap].
  rewrite app_nil_r. f_equal. unfold normalize.
  rewrite collapseBlankLines_id.
  - apply trim_id; [reflexivity|]. change (lit "$") with [36].
    rewrite app_assoc. apply lastIs_snoc.
  - assert (N0 : nl ++ nl ++ nl <> []) by discriminate.
    change (lit "$" ++ m ++ lit "$") with ([] ++ 36 :: (m ++ 36 :: [])).
    rewrite (includes_separator (nl ++ nl ++ nl) 36 eq_refl N0 [] (m ++ 36 :: [])).
    rewrite (includes_separator (nl ++ nl ++ nl) 36 eq_refl N0 m []).
    rewrite Hn. reflexivity.
Qed.

(** X15. Inline math, there and back, without [window.katex]: the markup
    that [latexToHtml] returns is the serialisation of a math node with
    its placeholder, and that tree compiles back to the source between
    two dollars, unchanged. *)
Theorem inline_math_round_trip m enc :
  m <> [] -> existsb (N.eqb 36) m = false ->
  includes (lit "\begin{document}") m = false ->
  includes (lit "\begin{verbatim}") m = false ->
  includes (lit "\begin{itemize}") m = false ->
  includes (lit "\[") m = false ->
  includes (nl ++ nl ++ nl) m = false ->
  existsb isMarkup m = false ->
  codeUnits m -> encodeURIComponent m = Normal enc ->
  latexToHtml None (lit "$" ++ m ++ lit "$")
  = Normal (innerHTML [mathInlineElement enc [inlinePlaceholder m]]) /\
  htmlToLatexNodes [mathInlineElement enc [inlinePlaceholder m]]
  = Normal (lit "$" ++ m ++ lit "$").
Proof.
  intros Hm0 Hm Hdoc Hverb Hitem Hdisp Hn Hsafe Hu Henc. split.
  - replace (lit "$" ++ m ++ lit "$") with ([] ++ lit "$" ++ m ++ lit "$" ++ [])
      by (rewrite app_nil_r; reflexivity).
    rewrite (latexToHtml_inline_math None [] m [] enc eq_refl eq_refl Hm0 Hm Hdoc Hverb
               Hitem Hdisp Henc).
    change (newlinesToSpaces []) with (@nil N). rewrite app_nil_r. cbn [app]. f_equal.
    unfold innerHTML, mathInlineElement, inlinePlaceholder, plainElement.
    cbn [map concat outerHTML tagName attributes serializeAttributes].
    rewrite (escapeAttribute_safe enc)
      by (apply (encodeURIComponent_safe (length m) m enc (le_n _) Hu Henc)).
    rewrite (escapeText_safe (lit "$" ++ m ++ lit "$"))
      by (rewrite !existsb_app, Hsafe; reflexivity).
    rewrite !escapeAttribute_safe by (vm_compute; reflexivity).
    change (toLowerCase (lit "SPAN")) with (lit "span").
    change (isVoid (lit "span")) with false. cbv iota.
    unfold renderMath, mathInlineOpen. rewrite <- !app_assoc. reflexivity.
  - apply htmlToLatexNodes_math_inline; try assumption. reflexivity.
Qed.

Lemma inline_math_round_trip_witness :
  latexToHtml None (lit "$a^2+\frac{b}{c}$")
  = Normal (innerHTML [mathInlineElement (lit "a%5E2%2B%5Cfrac%7Bb%7D%7Bc%7D")
                         [inlinePlaceholder (lit "a^2+\frac{b}{c}")]]) /\
  htmlToLatexNodes [mathInlineElement (lit "a%5E2%2B%5Cfrac%7Bb%7D%7Bc%7D")
                      [inlinePlaceholder (lit "a^2+\frac{b}{c}")]]
  = Normal (lit "$a^2+\frac{b}{c}$").
Proof.
  apply (inline_math_round_trip (lit "a^2+\frac{b}{c}") (lit "a%5E2%2B%5Cfrac%7Bb%7D%7Bc%7D"));
    try (vm_compute; reflexivity). discriminate.
Defined.

(** X16. Display math, there and back, without [window.katex]: for a
    source without a markup character, the markup that [latexToHtml]
    returns is the serialisation of a math node with its placeholder, no
    editor field in it, and a parser that reads that tree back from the
    markup makes [htmlToLatex] return the source between the display
    delimiters, a newline on each side of it. *)
Theorem display_math_round_trip m enc :
  includes (lit "\begin{document}") (lit "\[" ++ m ++ lit "\]") = false ->
  includes (lit "\begin{verbatim}") (lit "\[" ++ m ++ lit "\]") = false ->
  includes (lit "\begin{itemize}") (lit "\[" ++ m ++ lit "\]") = false ->
  includes (lit "\]") m = false ->
  includes (nl ++ nl ++ nl) (nl ++ m ++ nl) = false ->
  existsb isMarkup m = false ->
  codeUnits m ->
  encodeURIComponent m = Normal enc ->
  latexToHtml None (lit "\[" ++ m ++ lit "\]")
  = Normal (innerHTML [mathBlockElement enc [displayPlaceholder m]]) /\
  htmlToLatexNodes [mathBlockElement enc [displayPlaceholder m]]
  = Normal (lit "\[" ++ nl ++ m ++ nl ++ lit "\]") /\
  (forall parseHTML : list N -> list node,
      parseHTML (innerHTML [mathBlockElement enc [displayPlaceholder m]])
      = [mathBlockElement enc [displayPlaceholder m]] ->
      cbind (latexToHtml None (lit "\[" ++ m ++ lit "\]")) (htmlToLatex parseHTML)
      = Normal (lit "\[" ++ nl ++ m ++ nl ++ lit "\]")).
Proof.
  intros Hdoc Hverb Hitem Hm Hn Hsafe Hu He.
  assert (F : latexToHtml None (lit "\[" ++ m ++ lit "\]")
              = Normal (innerHTML [mathBlockElement enc [displayPlaceholder m]])).
  { rewrite (latexToHtml_display_math None m enc Hdoc Hverb Hitem Hm He). f_equal.
    unfold innerHTML, mathBlockElement, displayPlaceholder, plainElement.
    cbn [map concat outerHTML tagName attributes serializeAttributes].
    rewrite (escapeAttribute_safe enc)
      by (apply (encodeURIComponent_safe (length m) m enc (le_n _) Hu He)).
    rewrite (escapeText_safe (lit "\[" ++ m ++ lit "\]"))
      by (rewrite !existsb_app, Hsafe; reflexivity).
    rewrite !escapeAttribute_safe by (vm_compute; reflexivity).
    change (toLowerCase (lit "DIV")) with (lit "div").
    change (isVoid (lit "div")) with false. cbv iota.
    unfold renderMath, mathBlockOpen. rewrite <- !app_assoc. reflexivity. }
  assert (B : htmlToLatexNodes [mathBlockElement enc [displayPlaceholder m]]
              = Normal (lit "\[" ++ nl ++ m ++ nl ++ lit "\]")).
  { apply htmlToLatexNodes_math_block; try assumption; [reflexivity|].
    apply collapseBlankLines_id, Hn. }
  split; [exact F|]. split; [exact B|].
  intros parseHTML Hp. rewrite F. cbn [cbind]. unfold htmlToLatex.
  rewrite Hp. exact B.
Qed.

Lemma display_math_round_trip_example :
  latexToHtml None (lit "\[E=mc^2\]")
  = Normal (innerHTML [mathBlockElement (lit "E%3Dmc%5E2")
                         [displayPlaceholder (lit "E=mc^2")]]) /\
  htmlToLatexNodes [mathBlockElement (lit "E%3Dmc%5E2") [displayPlaceholder (lit "E=mc^2")]]
  = Normal (lit "\[" ++ nl ++ lit "E=mc^2" ++ nl ++ lit "\]") /\
  (forall parseHTML : list N -> list node,
      parseHTML (innerHTML [mathBlockElement (lit "E%3Dmc%5E2")
                              [displayPlaceholder (lit "E=mc^2")]])
      = [mathBlockElement (lit "E%3Dmc%5E2") [displayPlaceholder (lit "E=mc^2")]] ->
      cbind (latexToHtml None (lit "\[E=mc^2\]")) (htmlToLatex parseHTML)
      = Normal (lit "\[" ++ nl ++ lit "E=mc^2" ++ nl ++ lit "\]")).
Proof.
  apply (display_math_round_trip (lit "E=mc^2") (lit "E%3Dmc%5E2"));
    vm_compute; reflexivity.
Defined.

(** ** The six commands that put their argument into one element *)

Lemma replaceWith_whole {A} (m : matcher A) (f : A -> list N) s x :
  productive m -> m None s = Some (x, []) -> replaceWith m f s = f x.
Proof.
  intros Hp Hx. unfold replaceWith. pose proof (Hp _ _ _ _ Hx) as L.
  destruct s as [|c s]; [simpl in L; lia|]. cbn [length scan]. rewrite Hx.
  destruct (length s); cbn; apply app_nil_r.
Qed.

Lemma isWordChar_without a t :
  isWordChar a = false -> forallb isWordChar t = true ->
  forallb (fun c => negb (c =? a)) t = true.
Proof.
  intros Ha H. rewrite forallb_forall in *. intros c Hc.
  apply negb_true_iff, N.eqb_neq. intros ->. rewrite (H a Hc) in Ha. discriminate.
Qed.

Lemma isWordChar_none (f : N -> bool) t :
  (forall c, f c = true -> isWordChar c = false) -> forallb isWordChar t = true ->
  existsb f t = false.
Proof.
  intros Hf H. induction t as [|c t IH]; [reflexivity|].
  cbn [forallb existsb] in *. apply andb_true_iff in H as [Hc Ht].
  rewrite (IH Ht), orb_false_r. destruct (f c) eqn:E; [|reflexivity].
  rewrite (Hf c E) in Hc. discriminate.
Qed.

Lemma newlinesToSpaces_id s :
  forallb (fun c => negb (c =? 10)) s = true -> newlinesToSpaces s = s.
Proof.
  intros H. apply replaceAll_absent. change nl with [10].
  apply includes_without_first, H.
Qed.

Lemma existsb_without a s :
  forallb (fun c => negb (c =? a)) s = true -> existsb (N.eqb a) s = false.
Proof.
  induction s as [|c s IH]; intros H; [reflexivity|].
  cbn [forallb existsb] in *. apply andb_true_iff in H as [Hc Hs].
  rewrite (IH Hs), orb_false_r, N.eqb_sym. apply negb_true_iff, Hc.
Qed.

(** The last steps on markup that holds no backslash, newline or
    underscore. *)
Lemma finish_plain_markup c2 :
  forallb (fun c => negb (c =? 92)) c2 = true ->
  forallb (fun c => negb (c =? 10)) c2 = true ->
  forallb (fun c => negb (c =? 95)) c2 = true ->
  replaceWith (anywhere reToken) (block []) (unescapeLatex (spacingFix c2)) = c2.
Proof.
  intros H92 H10 H95.
  rewrite (spacingFix_untouched (fun _ => false) c2
             (everyBackslash_without _ _ H92) (rejects_nothing _)).
  rewrite (newlinesToSpaces_id _ H10).
  rewrite (unescapeLatex_without_backslash _ (existsb_without _ _ H92)).
  apply restore_without_token. change (lit "__PROTECTED_BLOCK_") with (95 :: lit "_PROTECTED_BLOCK_").
  apply includes_without_first, H95.
Qed.

Lemma dollars_without prev s :
  forallb (fun c => negb (c =? 36)) s = true ->
  precededByBackslash (N.eqb 36) prev s = true.
Proof.
  intros H. apply precededByBackslash_without, (forallb_negb (N.eqb 36)).
  apply existsb_without, H.
Qed.

Ltac without_chars H := rewrite ?forallb_app, ?H; reflexivity.

(** One of the six commands, forward: the passes in front of its rule do
    not touch it, its rule makes the element, and the passes behind do
    not touch the element. *)
Ltac forward_core katex ok nm x Hit solveHs solve36 :=
  match goal with
  | |- latexToHtml katex ?s = _ =>
      let Hs := fresh "Hs" in
      let Hr := fresh "Hr" in
      let Hd := fresh "Hd" in
      let P := fresh "P" in
      assert (Hs : everyBackslash ok s = true) by solveHs;
      assert (Hr : rejects ok (commandsBut nm))
        by (unfold rejects; let l := eval vm_compute in (commandsBut nm) in
            change (commandsBut nm) with l;
            repeat (apply Forall_cons; [intros ?; reflexivity|]); apply Forall_nil);
      assert (Hd : precededByBackslash (N.eqb 36) None s = true)
        by (apply dollars_without; solve36);
      assert (P : protectBlocks katex s [] = Normal (s, []))
        by (apply (protectBlocks_untouched katex _ s [] Hs
                     (rejects_sub _ _ protectNames Hr eq_refl) Hd));
      unfold latexToHtml; change (isEmpty s) with false; cbv iota;
      unfold between at 1;
      rewrite search_absent by (absent Hs Hr);
      rewrite (bind_Normal _ _ _ _ _ P); unfold restoreAll; cbv beta iota; f_equal;
      unfold formatting, sizeRule;
      repeat skip_format s Hs Hr;
      match goal with
      | |- context [replaceWith (anywhere ?p) ?f s] =>
          rewrite (replaceWith_whole (anywhere p) f s x);
          [ | first [apply productive_between; discriminate
                     | apply productive_reHeading; discriminate
                     | apply productive_reSize; discriminate
                     | apply productive_reColored; discriminate
                     | apply productive_reHref
                     | apply productive_reGraphicsOpt] | exact Hit ]
      end
  end.

Ltac forward_at katex nm x Hit solve92 solve36 :=
  forward_core katex (startsWith (lit nm)) nm x Hit
    ltac:(apply andb_true_iff; split;
          [reflexivity | apply everyBackslash_without; solve92])
    solve36.

Ltac forward_simple katex nm t T92 T36 Hit :=
  forward_at katex nm t Hit ltac:(without_chars T92) ltac:(without_chars T36).

(** The passes behind a rule, on markup [c2] without backslash, newline
    and underscore. *)
Ltac finish_markup c2 F :=
  let Hs2 := fresh "Hs2" in
  assert (Hs2 : everyBackslash (fun _ => false) c2 = true)
    by (apply everyBackslash_without, F);
  repeat skip_format c2 Hs2 (rejects_nothing commandNames);
  apply finish_plain_markup; apply F.

Lemma words_facts t :
  words t ->
  forallb isWordChar t = true /\
  includes (lit "}") t = false /\
  existsb isMarkup t = false /\
  forallb (fun c => negb (c =? 92)) t = true /\
  forallb (fun c => negb (c =? 10)) t = true /\
  forallb (fun c => negb (c =? 95)) t = true /\
  forallb (fun c => negb (c =? 36)) t = true.
Proof.
  intros [T _]. split; [exact T|]. split; [|split; [|repeat split]].
  - change (lit "}") with [125]. apply includes_without_first.
    apply (isWordChar_without 125 t eq_refl T).
  - apply (isWordChar_none isMarkup t); [|exact T].
    intros c E. unfold isWordChar. rewrite E. rewrite andb_false_r. reflexivity.
  - apply (isWordChar_without 92 t eq_refl T).
  - apply (isWordChar_without 10 t eq_refl T).
  - apply (isWordChar_without 95 t eq_refl T).
  - apply (isWordChar_without 36 t eq_refl T).
Qed.

Lemma reHeading_here name t :
  includes (lit "}") t = false ->
  reHeading name (name ++ lit "{" ++ t ++ lit "}") = Some (t, []).
Proof.
  intros H. unfold reHeading. rewrite (pbind_Some _ _ _ _ _ (str_app _ _)).
  change (lit "{" ++ t ++ lit "}") with (123 :: t ++ lit "}").
  unfold pbind at 1, many. cbn [takeWhile dropWhile].
  change (isWhiteSpace 123) with false. cbv iota.
  change (123 :: t ++ lit "}") with (lit "{" ++ t ++ lit "}").
  rewrite (pbind_Some _ _ _ _ _ (str_app _ _)).
  change (lit "}") with ([125] ++ []). apply (lazyUntil_first 125 [] t [] eq_refl H).
Qed.

Lemma between_simple open t :
  includes (lit "}") t = false ->
  between (open ++ lit "{") (lit "}") (open ++ lit "{" ++ t ++ lit "}") = Some (t, []).
Proof.
  intros H. change (lit "}") with ([125] ++ []).
  replace (open ++ lit "{" ++ t ++ [125] ++ []) with ((open ++ lit "{") ++ t ++ [125] ++ [])
    by (rewrite <- app_assoc; reflexivity).
  apply (between_here _ 125 [] t [] eq_refl H).
Qed.

Ltac finish_simple t T92 T10 T95 :=
  unfold wrap;
  match goal with
  | |- context [replaceWith (anywhere ?p) ?f (?a ++ t ++ ?b)] =>
      let c2 := fresh "c2" in
      let Hs2 := fresh "Hs2" in
      let F := fresh "F" in
      set (c2 := a ++ t ++ b);
      assert (F : forall k, negb (existsb (N.eqb k) (a ++ b)) = true ->
                            forallb (fun c => negb (c =? k)) t = true ->
                            forallb (fun c => negb (c =? k)) c2 = true)
        by (intros k Hk Ht; unfold c2;
            apply negb_true_iff in Hk; rewrite existsb_app in Hk;
            apply orb_false_iff in Hk as [Ha Hb'];
            rewrite (forallb_app _ a), (forallb_app _ t), Ht,
              (without k a Ha), (without k b Hb'); reflexivity);
      assert (Hs2 : everyBackslash (fun _ => false) c2 = true)
        by (apply everyBackslash_without, F; [reflexivity | exact T92]);
      repeat skip_format c2 Hs2 (rejects_nothing commandNames);
      apply finish_plain_markup; apply F; first [reflexivity | assumption]
  end.

Lemma latexToHtml_simple katex cmd o c element t :
  In (cmd, o, c, element) simpleCommands -> words t ->
  latexToHtml katex (cmd ++ lit "{" ++ t ++ lit "}") = Normal (o ++ t ++ c).
Proof.
  intros Hin W. destruct (words_facts t W) as (T & Hb & Hm & T92 & T10 & T95 & T36).
  unfold simpleCommands in Hin. cbn [In] in Hin.
  destruct Hin as [E|[E|[E|[E|[E|[E|[E|[]]]]]]]]; injection E as <- <- <- <-.
  - forward_simple katex "section"%string t T92 T36 (reHeading_here (lit "\section") t Hb).
    finish_simple t T92 T10 T95.
  - forward_simple katex "subsection"%string t T92 T36
      (reHeading_here (lit "\subsection") t Hb).
    finish_simple t T92 T10 T95.
  - forward_simple katex "subsubsection"%string t T92 T36
      (reHeading_here (lit "\subsubsection") t Hb).
    finish_simple t T92 T10 T95.
  - forward_simple katex "textbf{"%string t T92 T36 (between_simple (lit "\textbf") t Hb).
    finish_simple t T92 T10 T95.
  - forward_simple katex "textit{"%string t T92 T36 (between_simple (lit "\textit") t Hb).
    finish_simple t T92 T10 T95.
  - forward_simple katex "underline{"%string t T92 T36
      (between_simple (lit "\underline") t Hb).
    finish_simple t T92 T10 T95.
  - forward_simple katex "textsf{"%string t T92 T36 (between_simple (lit "\textsf") t Hb).
    finish_simple t T92 T10 T95.
Qed.

(** *** Backward *)

Lemma collapse_words : forall n t,
  (length t <= n)%nat -> words t ->
  replaceWith (anywhere (many1 isWhiteSpace)) (fun _ => lit " ") t = t.
Proof.
  induction n as [|n IH]; intros t Hn W.
  - destruct t; [reflexivity | simpl in Hn; lia].
  - destruct t as [|c s]; [reflexivity|]. destruct W as [T D].
    cbn [forallb] in T. apply andb_true_iff in T as [Tc Ts].
    rewrite includes_cons in D. apply orb_false_iff in D as [D1 D2].
    assert (Ws : words s) by (split; assumption).
    rewrite replaceWith_cons by apply productive_many1.
    destruct (isWhiteSpace c) eqn:Ec.
    + assert (c = 32) as ->.
      { unfold isWordChar in Tc. rewrite Ec in Tc. cbn [negb orb] in Tc.
        apply andb_true_iff in Tc as [_ Tc]. apply N.eqb_eq, Tc. }
      assert (F : firstIs isWhiteSpace s = false).
      { destruct s as [|d s']; [reflexivity|]. cbn [firstIs].
        destruct (isWhiteSpace d) eqn:Ed; [|reflexivity].
        cbn [forallb] in Ts. apply andb_true_iff in Ts as [Td _].
        unfold isWordChar in Td. rewrite Ed in Td. cbn [negb orb] in Td.
        apply andb_true_iff in Td as [_ Td]. apply N.eqb_eq in Td. subst d.
        discriminate D1. }
      assert (E : many1 isWhiteSpace (32 :: s) = Some ([32], s)).
      { unfold many1. cbn [takeWhile dropWhile]. rewrite Ec, (dropWhile_id _ _ F).
        destruct s as [|d s']; [reflexivity|]. cbn [firstIs] in F.
        cbn [takeWhile]. rewrite F. reflexivity. }
      rewrite E, (IH s) by (simpl in Hn; try lia; exact Ws). reflexivity.
    + assert (E : many1 isWhiteSpace (c :: s) = None)
        by (unfold many1; cbn [takeWhile]; rewrite Ec; reflexivity).
      rewrite E, (IH s) by (simpl in Hn; try lia; exact Ws). reflexivity.
Qed.

Lemma escapeLatex_words t : forallb isWordChar t = true -> escapeLatex t = t.
Proof.
  induction t as [|c t IH]; intros H; [reflexivity|].
  cbn [forallb] in H. apply andb_true_iff in H as [Hc Ht].
  rewrite escapeLatex_cons, (IH Ht), escapeLatex_other; [reflexivity|].
  unfold isWordChar in Hc. destruct (isSyntax c); [discriminate | reflexivity].
Qed.

Lemma traverse_words t : words t -> traverse (TextNode t) = Normal t.
Proof.
  intros W. cbn [traverse]. rewrite (collapse_words (length t) t (le_n _) W).
  rewrite (escapeLatex_words t (proj1 W)). reflexivity.
Qed.

Lemma no_blank_line_between_newlines y :
  forallb (fun c => negb (c =? 10)) y = true ->
  includes (nl ++ nl ++ nl) (nl ++ y ++ nl) = false.
Proof.
  intros H. change (nl ++ nl ++ nl) with [10; 10; 10].
  assert (G : includes [10; 10; 10] (y ++ nl) = false).
  { induction y as [|c y IH]; [reflexivity|]. cbn [forallb] in H.
    apply andb_true_iff in H as [Hc Hy]. cbn [app]. rewrite includes_cons, (IH Hy).
    unfold startsWith. cbn [stripPrefix]. rewrite N.eqb_sym.
    apply negb_true_iff in Hc. rewrite Hc. reflexivity. }
  change (nl ++ y ++ nl) with (10 :: y ++ nl). rewrite includes_cons, G, orb_false_r.
  destruct y as [|c y]; [reflexivity|]. cbn [forallb] in H.
  apply andb_true_iff in H as [Hc _]. apply negb_true_iff in Hc.
  unfold startsWith. cbn [stripPrefix app]. rewrite N.eqb_refl, (N.eqb_sym 10), Hc.
  reflexivity.
Qed.

Lemma normalize_between_newlines y :
  forallb (fun c => negb (c =? 10)) y = true ->
  firstIs isWhiteSpace y = false -> lastIs isWhiteSpace y = false -> y <> [] ->
  normalize (nl ++ y ++ nl) = y.
Proof.
  intros H Hf Hl Hy. unfold normalize.
  rewrite (collapseBlankLines_id _ (no_blank_line_between_newlines y H)).
  apply trim_between_newlines; assumption.
Qed.

Lemma normalize_line y :
  forallb (fun c => negb (c =? 10)) y = true ->
  firstIs isWhiteSpace y = false -> lastIs isWhiteSpace y = false ->
  normalize y = y.
Proof.
  intros H Hf Hl. unfold normalize. rewrite collapseBlankLines_id.
  - apply trim_id; assumption.
  - change (nl ++ nl ++ nl) with (10 :: [10; 10]). apply includes_without_first, H.
Qed.

Lemma traverseAll_words t : words t -> traverseAll [TextNode t] = Normal t.
Proof.
  intros W. cbn [traverseAll]. rewrite (traverse_words t W). cbn [cbind cmap].
  rewrite app_nil_r. reflexivity.
Qed.

Ltac command_line c t T10 :=
  first [ rewrite !forallb_app, T10; reflexivity
        | reflexivity
        | change (lit "}") with [125]; rewrite !app_assoc; apply lastIs_snoc
        | intros E; apply (f_equal (@length N)) in E; rewrite length_app in E;
          vm_compute in E; discriminate E ].

Ltac backward_heading c t T10 :=
  change (emit _ _ _ _ t) with (nl ++ lit c ++ t ++ lit "}" ++ nl);
  rewrite app_nil_r; f_equal;
  replace (nl ++ lit c ++ t ++ lit "}" ++ nl) with (nl ++ (lit c ++ t ++ lit "}") ++ nl)
    by (rewrite <- !app_assoc; reflexivity);
  apply normalize_between_newlines; command_line c t T10.

Ltac backward_inline c t T10 :=
  change (emit _ _ _ _ t) with (lit c ++ t ++ lit "}");
  rewrite app_nil_r; f_equal;
  apply normalize_line; command_line c t T10.

Lemma htmlToLatexNodes_simple cmd o c element t :
  In (cmd, o, c, element) simpleCommands -> words t ->
  htmlToLatexNodes [element [TextNode t]] = Normal (cmd ++ lit "{" ++ t ++ lit "}").
Proof.
  intros Hin W. destruct (words_facts t W) as (T & Hb & Hm & T92 & T10 & T95 & T36).
  unfold simpleCommands in Hin. cbn [In] in Hin.
  destruct Hin as [E|[E|[E|[E|[E|[E|[E|[]]]]]]]]; injection E as <- <- <- <-;
    unfold htmlToLatexNodes, plainElement; cbn [traverseAll];
    rewrite traverse_element by reflexivity;
    rewrite (traverseAll_words t W); cbn [cmap cbind].
  - backward_heading "\section{"%string t T10.
  - backward_heading "\subsection{"%string t T10.
  - backward_heading "\subsubsection{"%string t T10.
  - backward_inline "\textbf{"%string t T10.
  - backward_inline "\textit{"%string t T10.
  - backward_inline "\underline{"%string t T10.
  - backward_inline "\textsf{"%string t T10.
Qed.

Lemma innerHTML_element TAG tag attrs st t :
  toLowerCase (lit TAG) = lit tag -> isVoid (lit tag) = false ->
  existsb isMarkup t = false ->
  innerHTML [plainElement TAG attrs st [TextNode t]]
  = lit "<" ++ lit tag ++ serializeAttributes attrs ++ lit ">" ++ t
    ++ lit "</" ++ lit tag ++ lit ">".
Proof.
  intros Ht Hv Hm. unfold innerHTML, plainElement. cbn [map concat outerHTML].
  cbn [tagName attributes]. rewrite Ht, Hv, (escapeText_safe t Hm).
  rewrite !app_nil_r, <- ?app_assoc. reflexivity.
Qed.

Lemma innerHTML_simple cmd o c element t :
  In (cmd, o, c, element) simpleCommands -> existsb isMarkup t = false ->
  innerHTML [element [TextNode t]] = o ++ t ++ c.
Proof.
  intros Hin Hm. unfold simpleCommands in Hin. cbn [In] in Hin.
  destruct Hin as [E|[E|[E|[E|[E|[E|[E|[]]]]]]]]; injection E as <- <- <- <-.
  - apply (innerHTML_element "H1" "h1" [] noStyle t eq_refl eq_refl Hm).
  - apply (innerHTML_element "H2" "h2" [] noStyle t eq_refl eq_refl Hm).
  - apply (innerHTML_element "H3" "h3" [] noStyle t eq_refl eq_refl Hm).
  - apply (innerHTML_element "B" "b" [] noStyle t eq_refl eq_refl Hm).
  - apply (innerHTML_element "I" "i" [] noStyle t eq_refl eq_refl Hm).
  - apply (innerHTML_element "U" "u" [] noStyle t eq_refl eq_refl Hm).
  - rewrite (innerHTML_element "SPAN" "span" _ _ t eq_refl eq_refl Hm).
    vm_compute. reflexivity.
Qed.

(** X18. The seven commands that put their argument into one element
    ([\section], [\subsection], [\subsubsection], [\textbf], [\textit],
    [\underline], [\textsf]), there and back: for an argument of words
    (none of the ten code units that [escapeLatex] rewrites, none of the
    five that the serialisation of a text rewrites, no whitespace but
    single spaces) [latexToHtml] gives the markup of one element with
    the argument as its text, and with a parser that reads that markup
    as that tree [htmlToLatex] gives the command back, unchanged. *)
Theorem simple_command_round_trip katex (parseHTML : list N -> list node)
  cmd o c element t :
  In (cmd, o, c, element) simpleCommands -> words t ->
  parseHTML (innerHTML [element [TextNode t]]) = [element [TextNode t]] ->
  innerHTML [element [TextNode t]] = o ++ t ++ c /\
  latexToHtml katex (cmd ++ lit "{" ++ t ++ lit "}")
  = Normal (innerHTML [element [TextNode t]]) /\
  cbind (latexToHtml katex (cmd ++ lit "{" ++ t ++ lit "}")) (htmlToLatex parseHTML)
  = Normal (cmd ++ lit "{" ++ t ++ lit "}").
Proof.
  intros Hin W Hp.
  assert (I := innerHTML_simple cmd o c element t Hin (proj1 (proj2 (proj2 (words_facts t W))))).
  assert (F := latexToHtml_simple katex cmd o c element t Hin W). rewrite <- I in F.
  split; [exact I|]. split; [exact F|].
  rewrite F. cbn [cbind]. unfold htmlToLatex.
  replace (isEmpty (innerHTML [element [TextNode t]])) with false.
  - rewrite Hp. apply (htmlToLatexNodes_simple cmd o c element t Hin W).
  - rewrite I. unfold simpleCommands in Hin. cbn [In] in Hin.
    destruct Hin as [E|[E|[E|[E|[E|[E|[E|[]]]]]]]]; injection E as <- <- <- <-;
      reflexivity.
Qed.

Lemma simple_command_round_trip_witness :
  cbind (latexToHtml None (lit "\textbf" ++ lit "{" ++ lit "two words" ++ lit "}"))
    (htmlToLatex (fun _ => [plainElement "B" [] noStyle [TextNode (lit "two words")]]))
  = Normal (lit "\textbf" ++ lit "{" ++ lit "two words" ++ lit "}").
Proof.
  refine (proj2 (proj2 (simple_command_round_trip None
            (fun _ => [plainElement "B" [] noStyle [TextNode (lit "two words")]])
            (lit "\textbf") (lit "<b>") (lit "</b>") (plainElement "B" [] noStyle)
            (lit "two words") _ _ _))).
  - do 3 right. left. reflexivity.
  - split; vm_compute; reflexivity.
  - reflexivity.
Defined.

(** ** What makes the backward compiler throw *)







(** ** The ten size commands *)

Lemma reSize_here name t :
  firstIs isWhiteSpace t = false -> forallb notBackslashOrNewline t = true ->
  reSize name (name ++ lit " " ++ t) = Some (t, []).
Proof.
  intros Hf Hn. unfold reSize. rewrite (pbind_Some _ _ _ _ _ (str_app _ _)).
  assert (E : many1 isWhiteSpace (lit " " ++ t) = Some ([32], t)).
  { unfold many1. change (lit " " ++ t) with (32 :: t). cbn [takeWhile dropWhile].
    change (isWhiteSpace 32) with true. cbv iota.
    destruct t as [|d t]; [reflexivity|]. cbn [firstIs] in Hf.
    cbn [takeWhile dropWhile]. rewrite Hf. reflexivity. }
  rewrite (pbind_Some _ _ _ _ _ E). unfold many.
  destruct (takeWhile_app_all notBackslashOrNewline t [] Hn eq_refl) as [E1 E2].
  rewrite app_nil_r in E1, E2. rewrite E1, E2. reflexivity.
Qed.

Lemma words_size t : words t -> forallb notBackslashOrNewline t = true.
Proof.
  intros W. destruct (words_facts t W) as (_ & _ & _ & T92 & T10 & _).
  rewrite forallb_forall in *. intros c Hc. unfold notBackslashOrNewline.
  rewrite (T92 c Hc), (T10 c Hc). reflexivity.
Qed.

Lemma latexToHtml_size katex cmd pt t :
  In (cmd, pt) sizeRules -> words t -> trimmed t ->
  latexToHtml katex (lit cmd ++ lit " " ++ t)
  = Normal (html "<span style='font-size: " ++ lit pt ++ html "'>" ++ t ++ lit "</span>").
Proof.
  intros Hin W (Hne & Hf & Hl).
  destruct (words_facts t W) as (T & Hb & Hm & T92 & T10 & T95 & T36).
  pose proof (words_size t W) as Hn.
  unfold sizeRules in Hin. cbn [In] in Hin.
  destruct Hin as [E|[E|[E|[E|[E|[E|[E|[E|[E|[E|[]]]]]]]]]]]; injection E as <- <-.
  - forward_simple katex "tiny"%string t T92 T36 (reSize_here (lit "\tiny") t Hf Hn).
    finish_simple t T92 T10 T95.
  - forward_simple katex "scriptsize"%string t T92 T36
      (reSize_here (lit "\scriptsize") t Hf Hn).
    finish_simple t T92 T10 T95.
  - forward_simple katex "footnotesize"%string t T92 T36
      (reSize_here (lit "\footnotesize") t Hf Hn).
    finish_simple t T92 T10 T95.
  - forward_simple katex "small"%string t T92 T36 (reSize_here (lit "\small") t Hf Hn).
    finish_simple t T92 T10 T95.
  - forward_simple katex "normalsize"%string t T92 T36
      (reSize_here (lit "\normalsize") t Hf Hn).
    finish_simple t T92 T10 T95.
  - forward_simple katex "large"%string t T92 T36 (reSize_here (lit "\large") t Hf Hn).
    finish_simple t T92 T10 T95.
  - forward_simple katex "Large"%string t T92 T36 (reSize_here (lit "\Large") t Hf Hn).
    finish_simple t T92 T10 T95.
  - forward_simple katex "LARGE"%string t T92 T36 (reSize_here (lit "\LARGE") t Hf Hn).
    finish_simple t T92 T10 T95.
  - forward_simple katex "huge"%string t T92 T36 (reSize_here (lit "\huge") t Hf Hn).
    finish_simple t T92 T10 T95.
  - forward_simple katex "Huge"%string t T92 T36 (reSize_here (lit "\Huge") t Hf Hn).
    finish_simple t T92 T10 T95.
Qed.

Lemma lastIs_app f a b : b <> [] -> lastIs f (a ++ b) = lastIs f b.
Proof.
  intros Hb. unfold lastIs. rewrite rev_app_distr. apply firstIs_app.
  intros E. apply (f_equal (@rev N)) in E. rewrite rev_involutive in E. exact (Hb E).
Qed.

Lemma innerHTML_sizedSpan pt t :
  In pt (map snd sizeRules) -> existsb isMarkup t = false ->
  innerHTML (sizedSpan pt t)
  = html "<span style='font-size: " ++ lit pt ++ html "'>" ++ t ++ lit "</span>".
Proof.
  intros Hin Hm. unfold sizedSpan.
  rewrite (innerHTML_element "SPAN" "span" _ _ t eq_refl eq_refl Hm).
  cbn [map snd sizeRules In] in Hin.
  repeat (destruct Hin as [<-|Hin]; [vm_compute; reflexivity|]). destruct Hin.
Qed.

Lemma htmlToLatexNodes_sizedSpan cmd pt t :
  In (cmd, pt) sizeRules -> words t -> trimmed t ->
  htmlToLatexNodes (sizedSpan pt t) = Normal (lit cmd ++ lit " " ++ t).
Proof.
  intros Hin W (Hne & Hf & Hl).
  destruct (words_facts t W) as (T & Hb & Hm & T92 & T10 & T95 & T36).
  unfold sizeRules in Hin. cbn [In] in Hin.
  repeat (destruct Hin as [E|Hin];
    [injection E as <- <-;
     unfold htmlToLatexNodes, sizedSpan, plainElement; cbn [traverseAll];
     rewrite traverse_element by reflexivity;
     rewrite (traverseAll_words t W); cbn [cmap cbind];
     match goal with
     | |- Normal (normalize (emit _ _ _ _ t ++ [])) = Normal (?c ++ ?sp ++ t) =>
         change (emit _ _ _ _ t) with ((c ++ sp) ++ t ++ [])
     end;
     rewrite !app_nil_r, <- app_assoc; f_equal; apply normalize_line;
     [ rewrite !forallb_app, T10; reflexivity
     | reflexivity
     | rewrite app_assoc; rewrite (lastIs_app _ _ t Hne); exact Hl ]
    |]).
  destruct Hin.
Qed.

(** X20. The ten size commands, there and back: [\large words], for words
    that are not empty and neither start nor end with a space, compiles
    to one [span] whose font size is the one of the command, and with a
    parser that reads that markup as that tree [htmlToLatex] finds the
    command back from the font size: what comes back is the source. *)
Theorem size_command_round_trip katex (parseHTML : list N -> list node) cmd pt t :
  In (cmd, pt) sizeRules -> words t -> trimmed t ->
  parseHTML (innerHTML (sizedSpan pt t)) = sizedSpan pt t ->
  innerHTML (sizedSpan pt t)
  = html "<span style='font-size: " ++ lit pt ++ html "'>" ++ t ++ lit "</span>" /\
  latexToHtml katex (lit cmd ++ lit " " ++ t) = Normal (innerHTML (sizedSpan pt t)) /\
  cbind (latexToHtml katex (lit cmd ++ lit " " ++ t)) (htmlToLatex parseHTML)
  = Normal (lit cmd ++ lit " " ++ t).
Proof.
  intros Hin W Ht Hp.
  assert (I : innerHTML (sizedSpan pt t)
              = html "<span style='font-size: " ++ lit pt ++ html "'>" ++ t
                ++ lit "</span>").
  { apply innerHTML_sizedSpan; [|apply (words_facts t W)].
    apply (in_map snd sizeRules (cmd, pt) Hin). }
  assert (F := latexToHtml_size katex cmd pt t Hin W Ht). rewrite <- I in F.
  split; [exact I|]. split; [exact F|].
  rewrite F. cbn [cbind]. unfold htmlToLatex.
  replace (isEmpty (innerHTML (sizedSpan pt t))) with false by (rewrite I; reflexivity).
  rewrite Hp. apply (htmlToLatexNodes_sizedSpan cmd pt t Hin W Ht).
Qed.

Lemma size_command_round_trip_witness :
  cbind (latexToHtml None (lit "\Large two words"))
    (htmlToLatex (fun _ => sizedSpan "14.4pt" (lit "two words")))
  = Normal (lit "\Large two words").
Proof.
  refine (proj2 (proj2 (size_command_round_trip None
            (fun _ => sizedSpan "14.4pt" (lit "two words"))
            "\Large" "14.4pt" (lit "two words") _ _ _ _))).
  - do 6 right. left. reflexivity.
  - split; vm_compute; reflexivity.
  - repeat split; [discriminate | ..]; vm_compute; reflexivity.
  - reflexivity.
Defined.

(** ** Lists *)

Lemma splitAcc_keep (u : list N) : forall cur segs,
  splitAcc cur (map Keep u ++ segs) = splitAcc (rev u ++ cur) segs.
Proof.
  induction u as [|c u IH]; intros cur segs; [reflexivity|].
  cbn [map app splitAcc rev]. rewrite IH, <- app_assoc. reflexivity.
Qed.

(** [split] up to the first separator, for a separator that starts with
    a code unit the text before it does not hold. *)
Lemma split_first a sep u rest :
  forallb (fun c => negb (c =? a)) u = true ->
  split (a :: sep) (u ++ (a :: sep) ++ rest) = u :: split (a :: sep) rest.
Proof.
  intros Hu. unfold split. rewrite length_app.
  rewrite (scan_keep_prefix _ a (opensWith_str a sep) u _ None _ Hu).
  rewrite splitAcc_keep, app_nil_r.
  cbn [app length scan]. unfold anywhere at 1.
  change (a :: sep ++ rest) with ((a :: sep) ++ rest). rewrite str_app.
  cbn [splitAcc]. rewrite rev_involutive. f_equal. f_equal.
  rewrite (scan_anywhere_prev _ _ _ _ None).
  apply (scan_fuel _ (productive_str a sep) (length rest)); rewrite ?length_app; lia.
Qed.

Lemma split_last a sep u :
  forallb (fun c => negb (c =? a)) u = true -> split (a :: sep) u = [u].
Proof.
  intros Hu. unfold split. rewrite (scan_opensWith _ a (opensWith_str a sep) _ None u Hu).
  rewrite <- (app_nil_r (map Keep u)), splitAcc_keep, app_nil_r. cbn [splitAcc].
  rewrite rev_involutive. reflexivity.
Qed.

Lemma join_nil (l : list (list N)) : join [] l = concat l.
Proof.
  induction l as [|x l IH]; [reflexivity|]. cbn [concat]. rewrite <- IH.
  destruct l; [cbn; symmetry; apply app_nil_r | reflexivity].
Qed.

Lemma trimEnd_whitespace u w :
  forallb isWhiteSpace w = true -> trimEnd (u ++ w) = trimEnd u.
Proof.
  intros Hw. unfold trimEnd. rewrite rev_app_distr. f_equal.
  induction w as [|c w IH] using rev_ind; [reflexivity|].
  rewrite forallb_app in Hw. apply andb_true_iff in Hw as [Hw Hc].
  cbn [forallb] in Hc. rewrite andb_true_r in Hc.
  rewrite rev_app_distr. cbn [rev app dropWhile]. rewrite Hc. exact (IH Hw).
Qed.

Lemma trimStart_app u w :
  firstIs isWhiteSpace u = false -> u <> [] -> trimStart (u ++ w) = u ++ w.
Proof.
  intros Hf Hu. unfold trimStart. apply dropWhile_id. rewrite firstIs_app; assumption.
Qed.

Lemma trim_whitespace_after u w :
  forallb isWhiteSpace w = true -> trim (u ++ w) = trim u.
Proof.
  intros Hw. unfold trim.
  destruct (forallb isWhiteSpace u) eqn:Hu.
  - assert (A : forall x, forallb isWhiteSpace x = true -> trimStart x = []).
    { induction x as [|c x IH]; intros H; [reflexivity|]. cbn [forallb] in H.
      apply andb_true_iff in H as [Hc Hx]. unfold trimStart. cbn [dropWhile].
      rewrite Hc. apply (IH Hx). }
    rewrite (A u Hu), (A (u ++ w)); [reflexivity|]. rewrite forallb_app, Hu, Hw. reflexivity.
  - assert (B : forall x, forallb isWhiteSpace x = false ->
                          trimStart (x ++ w) = trimStart x ++ w).
    { induction x as [|c x IH]; intros H; [discriminate|]. cbn [forallb] in H.
      unfold trimStart. cbn [app dropWhile]. destruct (isWhiteSpace c); [|reflexivity].
      apply (IH H). }
    rewrite (B u Hu). apply trimEnd_whitespace, Hw.
Qed.

Lemma trim_item t :
  trimmed t -> trim (lit " " ++ t ++ nl) = t.
Proof.
  intros (Hne & Hf & Hl). rewrite app_assoc, (trim_whitespace_after _ nl eq_refl).
  unfold trim, trimStart. change (lit " " ++ t) with (32 :: t). cbn [dropWhile].
  change (isWhiteSpace 32) with true. cbv iota. rewrite (dropWhile_id _ _ Hf).
  unfold trimEnd. unfold lastIs in Hl. rewrite (dropWhile_id _ _ Hl). apply rev_involutive.
Qed.

Lemma listItems_split i :
  listItems i
  = concat (map (fun t => lit "<li>" ++ trim t ++ lit "</li>")
              (filter (fun t => negb (isEmpty (trim t))) (split (lit "\item") i))).
Proof. unfold listItems. apply join_nil. Qed.

(** The items of a list written one per line, behind any text [u]
    without backslash: the text, if it is not blank, and the items. *)
Lemma listItems_lines : forall items u,
  Forall (fun t => forallb (fun c => negb (c =? 92)) t = true /\ trimmed t) items ->
  forallb (fun c => negb (c =? 92)) u = true ->
  listItems (u ++ itemLines items)
  = (if isEmpty (trim u) then [] else lit "<li>" ++ trim u ++ lit "</li>")
    ++ itemsMarkup items.
Proof.
  induction items as [|t items IH]; intros u Hi Hu.
  - unfold itemLines, itemsMarkup. cbn [map concat]. rewrite !app_nil_r, listItems_split.
    change (lit "\item") with (92 :: lit "item"). rewrite (split_last 92 _ u Hu).
    cbn [filter]. destruct (isEmpty (trim u)); cbn [negb map concat];
      rewrite ?app_nil_r; reflexivity.
  - inversion Hi as [|? ? [Ht Htr] Hrest]; subst.
    assert (E : u ++ itemLines (t :: items)
                = (u ++ lit "  ") ++ (92 :: lit "item")
                  ++ ((lit " " ++ t ++ nl) ++ itemLines items)).
    { unfold itemLines. cbn [map concat]. rewrite <- !app_assoc. reflexivity. }
    rewrite E, listItems_split. change (lit "\item") with (92 :: lit "item").
    rewrite split_first by (rewrite forallb_app, Hu; reflexivity).
    cbn [filter]. rewrite (trim_whitespace_after u (lit "  ") eq_refl).
    assert (R : concat (map (fun t0 => lit "<li>" ++ trim t0 ++ lit "</li>")
                  (filter (fun t0 => negb (isEmpty (trim t0)))
                     (split (92 :: lit "item") ((lit " " ++ t ++ nl) ++ itemLines items))))
                = (lit "<li>" ++ t ++ lit "</li>") ++ itemsMarkup items).
    { change (92 :: lit "item") with (lit "\item"). rewrite <- listItems_split.
      rewrite (IH (lit " " ++ t ++ nl) Hrest)
        by (rewrite !forallb_app, Ht; reflexivity).
      rewrite (trim_item t Htr). destruct Htr as (Hne & _).
      destruct t; [contradiction | reflexivity]. }
    destruct (isEmpty (trim u)); cbn [negb map concat];
      rewrite R, ?(trim_whitespace_after u (lit "  ") eq_refl); reflexivity.
Qed.

Lemma everyBackslash_skip ok u rest :
  forallb (fun c => negb (c =? 92)) u = true ->
  everyBackslash ok (u ++ rest) = everyBackslash ok rest.
Proof.
  induction u as [|c u IH]; intros H; [reflexivity|]. cbn [forallb] in H.
  apply andb_true_iff in H as [Hc Hu]. cbn [app everyBackslash].
  apply negb_true_iff in Hc. rewrite Hc, (IH Hu). reflexivity.
Qed.

Lemma everyBackslash_itemLines ok rest : forall items,
  (forall r, ok (lit "item " ++ r) = true) ->
  Forall (fun t => forallb (fun c => negb (c =? 92)) t = true) items ->
  everyBackslash ok rest = true ->
  everyBackslash ok (itemLines items ++ rest) = true.
Proof.
  intros items Hok Hi Hr. induction Hi as [|t items Ht _ IH]; [exact Hr|].
  unfold itemLines in *. cbn [map concat]. rewrite <- !app_assoc.
  change (lit "  \item " ++ t ++ nl ++ concat (map (fun t0 => lit "  \item " ++ t0 ++ nl) items) ++ rest)
    with (lit "  " ++ 92 :: lit "item " ++ t ++ nl
          ++ concat (map (fun t0 => lit "  \item " ++ t0 ++ nl) items) ++ rest).
  rewrite (everyBackslash_skip ok (lit "  ") _ eq_refl). cbn [everyBackslash].
  rewrite N.eqb_refl, Hok, andb_true_l.
  rewrite (app_assoc t), (app_assoc (lit "item ")).
  rewrite everyBackslash_skip by (rewrite !forallb_app, Ht; reflexivity).
  exact IH.
Qed.

Lemma forallb_itemLines (g : N -> bool) : forall items,
  forallb g (lit "  \item " ++ nl) = true ->
  Forall (fun t => forallb g t = true) items ->
  forallb g (itemLines items) = true.
Proof.
  intros items Hg Hi. induction Hi as [|t items Ht _ IH]; [reflexivity|].
  unfold itemLines in *. cbn [map concat]. rewrite !forallb_app in *.
  apply andb_true_iff in Hg as [G1 G2]. rewrite G1, Ht, G2, IH. reflexivity.
Qed.

Lemma forallb_itemsMarkup (g : N -> bool) : forall items,
  forallb g (lit "<li>" ++ lit "</li>") = true ->
  Forall (fun t => forallb g t = true) items ->
  forallb g (itemsMarkup items) = true.
Proof.
  intros items Hg Hi. induction Hi as [|t items Ht _ IH]; [reflexivity|].
  unfold itemsMarkup in *. cbn [map concat]. rewrite !forallb_app in *.
  apply andb_true_iff in Hg as [G1 G2]. rewrite G1, Ht, G2, IH. reflexivity.
Qed.

(** A pattern that needs a literal somewhere behind the place where it
    starts finds nothing in a text without that literal. *)
Lemma scan_needs {A} (p : parser A) pat :
  (forall s x, p s = Some x -> includes pat s = true) ->
  forall fuel prev s,
    includes pat s = false -> scan fuel (anywhere p) prev s = map Keep s.
Proof.
  intros Hp. induction fuel as [|fuel IH]; intros prev s H; [reflexivity|].
  destruct s as [|c s]; [reflexivity|]. cbn [scan map]. unfold anywhere at 1.
  destruct (p (c :: s)) as [x|] eqn:E.
  - rewrite (Hp _ _ E) in H. discriminate.
  - f_equal. apply IH. rewrite includes_cons in H. apply orb_false_iff in H. apply H.
Qed.

Lemma includes_app_l p : forall a b, includes p a = true -> includes p (a ++ b) = true.
Proof.
  induction a as [|c a IH]; intros b H.
  - unfold includes in H. destruct p; [destruct b; reflexivity | discriminate].
  - rewrite includes_cons in H. cbn [app]. rewrite includes_cons.
    apply orb_true_iff in H as [H|H].
    + unfold startsWith in *. destruct (stripPrefix p (c :: a)) as [r|] eqn:E; [|discriminate].
      change (c :: a ++ b) with ((c :: a) ++ b).
      rewrite (stripPrefix_extend p _ b _ E). reflexivity.
    + rewrite (IH b H). apply orb_true_r.
Qed.

Lemma includes_app_r p : forall a b, includes p b = true -> includes p (a ++ b) = true.
Proof.
  intros a b H. destruct (includes p (a ++ b)) eqn:E; [reflexivity|].
  rewrite (includes_suffix p a b E) in H. discriminate.
Qed.

Lemma reCheckboxList_needs s x :
  reCheckboxList s = Some x -> includes (lit "\item[") s = true.
Proof.
  unfold reCheckboxList, pbind, str, many. intros H.
  destruct (stripPrefix (lit "\begin{itemize}") s) as [r|] eqn:E1; [|discriminate].
  destruct (stripPrefix (lit "\item[$\square$]") (dropWhile isWhiteSpace r)) as [r'|] eqn:E2;
    [|discriminate].
  apply stripPrefix_Some in E1, E2. subst s.
  rewrite <- (takeWhile_dropWhile isWhiteSpace r), E2.
  apply includes_app_r, includes_app_r.
  change (lit "\item[$\square$]" ++ r') with (lit "\item[" ++ lit "$\square$]" ++ r').
  apply includes_app_l. reflexivity.
Qed.

(** The protect passes leave a text alone that holds no verbatim
    environment, no marked item, no display math, no dollar that is not
    escaped and no code span. *)
Lemma protectBlocks_without_marker katex ok s st :
  everyBackslash ok s = true ->
  rejects ok ["begin{verbatim}"; "["; "texttt{"]%string ->
  includes (lit "\item[") s = false ->
  precededByBackslash (N.eqb 36) None s = true ->
  protectBlocks katex s st = Normal (s, st).
Proof.
  intros Hs Hr Hi Hd. unfold protectBlocks.
  skip_protect Hs Hr.
  match goal with
  | |- context [bind (replaceM (anywhere reCheckboxList) ?f ?s) ?g ?st] =>
      rewrite (bind_Normal _ _ _ _ _
                 (replaceM_untouched (anywhere reCheckboxList) f s st
                    (scan_needs reCheckboxList _ reCheckboxList_needs _ None s Hi)))
  end.
  skip_protect Hs Hr. skip_display Hd. skip_inline Hd. skip_code Hs Hr.
Qed.

Lemma items_facts items :
  Forall (fun t => words t /\ trimmed t) items ->
  Forall (fun t => forallb (fun c => negb (c =? 92)) t = true /\ trimmed t) items /\
  (forall k, isWordChar k = false ->
     Forall (fun t => forallb (fun c => negb (c =? k)) t = true) items) /\
  Forall (fun t => existsb isMarkup t = false) items.
Proof.
  intros H. split; [|split].
  - apply (Forall_impl _ (P := fun t => words t /\ trimmed t)); [|exact H].
    intros t [W Ht]. split; [apply (words_facts t W) | exact Ht].
  - intros k Hk. apply (Forall_impl _ (P := fun t => words t /\ trimmed t)); [|exact H].
    intros t [[T _] _]. apply (isWordChar_without k t Hk T).
  - apply (Forall_impl _ (P := fun t => words t /\ trimmed t)); [|exact H].
    intros t [W _]. apply (words_facts t W).
Qed.

Ltac list_forward katex env nm items Hi :=
  let I92 := fresh "I92" in
  let Ik := fresh "Ik" in
  let Im := fresh "Im" in
  destruct (items_facts items Hi) as (I92 & Ik & Im);
  pose (ok := fun r => startsWith (lit nm) r || startsWith (lit "item ") r
                       || startsWith (lit "end{" ++ lit env ++ lit "}") r);
  change (listSource env items)
    with (92 :: (lit nm ++ nl) ++ itemLines items ++ 92 :: lit "end{" ++ lit env ++ lit "}");
  match goal with
  | |- latexToHtml katex ?s = _ =>
      assert (Hs : everyBackslash ok s = true)
        by (cbn [everyBackslash]; rewrite N.eqb_refl; apply andb_true_iff;
            split; [reflexivity|];
            rewrite everyBackslash_skip by reflexivity;
            apply everyBackslash_itemLines;
            [ intros r; reflexivity
            | apply (Ik 92 eq_refl)
            | reflexivity ]);
      assert (Hr : rejects ok (commandsBut nm))
        by (unfold rejects; let l := eval vm_compute in (commandsBut nm) in
            change (commandsBut nm) with l;
            repeat (apply Forall_cons; [intros ?; reflexivity|]); apply Forall_nil);
      assert (Hd : precededByBackslash (N.eqb 36) None s = true)
        by (apply dollars_without;
            change s with ((92 :: lit nm ++ nl) ++ itemLines items
                           ++ 92 :: lit "end{" ++ lit env ++ lit "}");
            rewrite !forallb_app, (forallb_itemLines (fun c => negb (c =? 36)) items eq_refl (Ik 36 eq_refl));
            reflexivity);
      assert (Hm : includes (lit "\item[") s = false)
        by (apply (everyBackslash_absent ok s (lit "item[") Hs); intros r; reflexivity);
      assert (P : protectBlocks katex s [] = Normal (s, []))
        by (apply (protectBlocks_without_marker katex ok s [] Hs
                     (rejects_sub _ _ ["begin{verbatim}"; "["; "texttt{"]%string Hr eq_refl)
                     Hm Hd));
      assert (Hb : includes (92 :: lit "end{" ++ lit env ++ lit "}") (nl ++ itemLines items)
                   = false)
        by (apply (everyBackslash_absent (startsWith (lit "item ")));
            [ rewrite <- (app_nil_r (itemLines items));
              rewrite (everyBackslash_skip _ nl _ eq_refl);
              apply everyBackslash_itemLines;
              [intros r; reflexivity | apply (Ik 92 eq_refl) | reflexivity]
            | intros r; reflexivity ]);
      unfold latexToHtml; change (isEmpty s) with false; cbv iota;
      unfold between at 1;
      rewrite search_absent by (absent Hs Hr);
      rewrite (bind_Normal _ _ _ _ _ P); unfold restoreAll; cbv beta iota; f_equal;
      unfold formatting, sizeRule;
      repeat skip_format s Hs Hr
  end.

Ltac list_markup o cl items Ik :=
  let c2 := fresh "c2" in
  let F := fresh "F" in
  set (c2 := lit o ++ itemsMarkup items ++ lit cl);
  assert (F : forallb (fun x => negb (x =? 92)) c2 = true
              /\ forallb (fun x => negb (x =? 10)) c2 = true
              /\ forallb (fun x => negb (x =? 95)) c2 = true)
    by (unfold c2; rewrite !forallb_app,
          (forallb_itemsMarkup (fun x => negb (x =? 92)) items eq_refl (Ik 92 eq_refl)),
          (forallb_itemsMarkup (fun x => negb (x =? 10)) items eq_refl (Ik 10 eq_refl)),
          (forallb_itemsMarkup (fun x => negb (x =? 95)) items eq_refl (Ik 95 eq_refl));
        repeat split; reflexivity);
  finish_markup c2 F.

Lemma latexToHtml_list katex env tag TAG items :
  In (env, tag, TAG) listRules ->
  Forall (fun t => words t /\ trimmed t) items ->
  latexToHtml katex (listSource env items)
  = Normal (lit "<" ++ lit tag ++ lit ">" ++ itemsMarkup items
            ++ lit "</" ++ lit tag ++ lit ">").
Proof.
  intros Hin Hi. unfold listRules in Hin. cbn [In] in Hin.
  destruct Hin as [E|[E|[]]]; injection E as <- <- <-.
  - list_forward katex "itemize"%string "begin{itemize}"%string items Hi.
    rewrite (replaceWith_whole
               (anywhere (between (lit "\begin{itemize}") (lit "\end{itemize}"))) _ _
               (nl ++ itemLines items));
      [ | apply productive_between; discriminate
        | exact (between_here (lit "\begin{itemize}") 92 (lit "end{itemize}")
                   (nl ++ itemLines items) [] eq_refl Hb) ].
    rewrite (listItems_lines items nl I92 eq_refl).
    change (isEmpty (trim nl)) with true. cbv iota.
    change ([] ++ itemsMarkup items) with (itemsMarkup items).
    list_markup "<ul>"%string "</ul>"%string items Ik.
  - list_forward katex "enumerate"%string "begin{enumerate}"%string items Hi.
    rewrite (replaceWith_whole
               (anywhere (between (lit "\begin{enumerate}") (lit "\end{enumerate}"))) _ _
               (nl ++ itemLines items));
      [ | apply productive_between; discriminate
        | exact (between_here (lit "\begin{enumerate}") 92 (lit "end{enumerate}")
                   (nl ++ itemLines items) [] eq_refl Hb) ].
    rewrite (listItems_lines items nl I92 eq_refl).
    change (isEmpty (trim nl)) with true. cbv iota.
    change ([] ++ itemsMarkup items) with (itemsMarkup items).
    list_markup "<ol>"%string "</ol>"%string items Ik.
Qed.

(** *** Backward *)

Lemma traverse_item t :
  words t -> trimmed t ->
  traverse (plainElement "LI" [] noStyle [TextNode t]) = Normal (lit "  \item " ++ t ++ nl).
Proof.
  intros W (Hne & Hf & Hl). unfold plainElement.
  rewrite traverse_element by reflexivity. rewrite (traverseAll_words t W). cbn [cmap].
  change (emit _ _ _ _ t) with (lit "  \item " ++ trimStart t ++ nl).
  unfold trimStart. rewrite (dropWhile_id _ _ Hf). reflexivity.
Qed.

Lemma traverseAll_items items :
  Forall (fun t => words t /\ trimmed t) items ->
  traverseAll (map (fun t => plainElement "LI" [] noStyle [TextNode t]) items)
  = Normal (itemLines items).
Proof.
  intros H. induction H as [|t items [W Ht] _ IH]; [reflexivity|].
  cbn [map traverseAll]. rewrite (traverse_item t W Ht). cbn [cbind]. rewrite IH.
  cbn [cmap]. unfold itemLines. cbn [map concat]. reflexivity.
Qed.

Lemma noEmptyLine_line l rest :
  l <> [] -> forallb (fun c => negb (c =? 10)) l = true ->
  noEmptyLine rest -> noEmptyLine (l ++ 10 :: rest).
Proof.
  intros Hne Hl [R1 R2]. split.
  - clear Hne. induction l as [|c l IH].
    + cbn [app]. rewrite includes_cons, R1, orb_false_r. unfold startsWith in *.
      change (nl ++ nl ++ nl) with [10; 10; 10]. change (nl ++ nl) with [10; 10] in R2.
      cbn [stripPrefix]. rewrite N.eqb_refl. exact R2.
    + cbn [forallb] in Hl. apply andb_true_iff in Hl as [Hc Hl]. cbn [app].
      rewrite includes_cons, (IH Hl), orb_false_r. unfold startsWith.
      change (nl ++ nl ++ nl) with [10; 10; 10]. cbn [stripPrefix].
      apply negb_true_iff in Hc. rewrite N.eqb_sym, Hc. reflexivity.
  - destruct l as [|c l]; [contradiction|]. cbn [forallb] in Hl.
    apply andb_true_iff in Hl as [Hc _]. unfold startsWith.
    change (nl ++ nl) with [10; 10]. cbn [app stripPrefix].
    apply negb_true_iff in Hc. rewrite N.eqb_sym, Hc. reflexivity.
Qed.

Lemma noEmptyLine_itemLines rest : forall items,
  Forall (fun t => forallb (fun c => negb (c =? 10)) t = true) items ->
  noEmptyLine rest -> noEmptyLine (itemLines items ++ rest).
Proof.
  intros items H Hr. induction H as [|t items Ht _ IH]; [exact Hr|].
  unfold itemLines in *. cbn [map concat]. rewrite <- !app_assoc.
  rewrite (app_assoc (lit "  \item ")). apply noEmptyLine_line; [| |exact IH].
  - discriminate.
  - rewrite forallb_app, Ht. reflexivity.
Qed.

Lemma normalize_list o c items :
  o <> [] -> forallb (fun x => negb (x =? 10)) o = true ->
  c <> [] -> forallb (fun x => negb (x =? 10)) c = true ->
  firstIs isWhiteSpace o = false -> lastIs isWhiteSpace c = false ->
  Forall (fun t => forallb (fun x => negb (x =? 10)) t = true) items ->
  normalize (nl ++ (o ++ nl ++ itemLines items ++ c) ++ nl)
  = o ++ nl ++ itemLines items ++ c.
Proof.
  intros Ho1 Ho2 Hc1 Hc2 Hf Hl Hi. unfold normalize. rewrite collapseBlankLines_id.
  - apply trim_between_newlines.
    + rewrite firstIs_app by exact Ho1. exact Hf.
    + rewrite !app_assoc. rewrite lastIs_app by exact Hc1. exact Hl.
    + destruct o; [contradiction | discriminate].
  - assert (Z : noEmptyLine ((o ++ nl ++ itemLines items ++ c) ++ nl)).
    { rewrite <- !app_assoc. apply (noEmptyLine_line o _ Ho1 Ho2).
      apply noEmptyLine_itemLines; [exact Hi|].
      apply (noEmptyLine_line c [] Hc1 Hc2). split; reflexivity. }
    destruct Z as [Z1 Z2]. change (nl ++ (o ++ nl ++ itemLines items ++ c) ++ nl)
      with (10 :: (o ++ nl ++ itemLines items ++ c) ++ nl).
    rewrite includes_cons, Z1, orb_false_r. unfold startsWith in *.
    change (nl ++ nl ++ nl) with [10; 10; 10]. change (nl ++ nl) with [10; 10] in Z2.
    cbn [stripPrefix]. rewrite N.eqb_refl. exact Z2.
Qed.

Lemma htmlToLatexNodes_list env tag TAG items :
  In (env, tag, TAG) listRules ->
  Forall (fun t => words t /\ trimmed t) items ->
  htmlToLatexNodes (listTree TAG items) = Normal (listSource env items).
Proof.
  intros Hin Hi. destruct (items_facts items Hi) as (_ & Ik & _).
  unfold listRules in Hin. cbn [In] in Hin.
  destruct Hin as [E|[E|[]]]; injection E as <- <- <-;
    unfold htmlToLatexNodes, listTree; cbn [traverseAll];
    unfold plainElement at 1; rewrite traverse_element by reflexivity;
    rewrite (traverseAll_items items Hi); cbn [cmap cbind]; rewrite app_nil_r; f_equal.
  - change (emit _ _ _ _ (itemLines items))
      with (nl ++ lit "\begin{itemize}" ++ nl ++ itemLines items ++ lit "\end{itemize}"
            ++ nl).
    replace (nl ++ lit "\begin{itemize}" ++ nl ++ itemLines items ++ lit "\end{itemize}"
             ++ nl)
      with (nl ++ (lit "\begin{itemize}" ++ nl ++ itemLines items ++ lit "\end{itemize}")
            ++ nl) by (rewrite <- !app_assoc; reflexivity).
    apply normalize_list; try reflexivity; try discriminate. apply (Ik 10 eq_refl).
  - change (emit _ _ _ _ (itemLines items))
      with (nl ++ lit "\begin{enumerate}" ++ nl ++ itemLines items ++ lit "\end{enumerate}"
            ++ nl).
    replace (nl ++ lit "\begin{enumerate}" ++ nl ++ itemLines items
             ++ lit "\end{enumerate}" ++ nl)
      with (nl ++ (lit "\begin{enumerate}" ++ nl ++ itemLines items
                   ++ lit "\end{enumerate}") ++ nl) by (rewrite <- !app_assoc; reflexivity).
    apply normalize_list; try reflexivity; try discriminate. apply (Ik 10 eq_refl).
Qed.

Lemma outerHTML_children : forall kids,
  (fix all (l : list node) : list N :=
     match l with
     | [] => []
     | k :: l' => outerHTML k ++ all l'
     end) kids = innerHTML kids.
Proof.
  induction kids as [|k kids IH]; [reflexivity|]. unfold innerHTML in *.
  cbn [map concat]. rewrite <- IH. reflexivity.
Qed.

Lemma innerHTML_items items :
  Forall (fun t => existsb isMarkup t = false) items ->
  innerHTML (map (fun t => plainElement "LI" [] noStyle [TextNode t]) items)
  = itemsMarkup items.
Proof.
  intros H. induction H as [|t items Ht _ IH]; [reflexivity|].
  unfold innerHTML in *. cbn [map concat]. rewrite IH.
  pose proof (innerHTML_element "LI" "li" [] noStyle t eq_refl eq_refl Ht) as E.
  unfold innerHTML in E. cbn [map concat] in E. rewrite app_nil_r in E. rewrite E.
  unfold itemsMarkup. cbn [map concat serializeAttributes]. rewrite <- !app_assoc.
  reflexivity.
Qed.

Lemma innerHTML_list TAG tag items :
  toLowerCase (lit TAG) = lit tag -> isVoid (lit tag) = false ->
  Forall (fun t => existsb isMarkup t = false) items ->
  innerHTML (listTree TAG items)
  = lit "<" ++ lit tag ++ lit ">" ++ itemsMarkup items ++ lit "</" ++ lit tag ++ lit ">".
Proof.
  intros Ht Hv Hi. unfold innerHTML at 1, listTree. cbn [map concat].
  unfold plainElement at 1. cbn [outerHTML]. rewrite outerHTML_children.
  cbn [tagName attributes serializeAttributes map concat]. rewrite Ht, Hv.
  rewrite (innerHTML_items items Hi), !app_nil_r. cbn [app]. reflexivity.
Qed.

(** X21. A list as the backward compiler writes it (one line per item,
    [\item] two spaces in) is a fixed point of the two compilers, for
    [itemize] and for [enumerate]: with items that are words, not empty
    and without a space at either end, [latexToHtml] gives the list
    element with one [li] per item, and with a parser that reads that
    markup as that tree [htmlToLatex] gives the source back. *)
Theorem list_round_trip katex (parseHTML : list N -> list node) env tag TAG items :
  In (env, tag, TAG) listRules ->
  Forall (fun t => words t /\ trimmed t) items ->
  parseHTML (innerHTML (listTree TAG items)) = listTree TAG items ->
  innerHTML (listTree TAG items)
  = lit "<" ++ lit tag ++ lit ">" ++ itemsMarkup items ++ lit "</" ++ lit tag ++ lit ">" /\
  latexToHtml katex (listSource env items) = Normal (innerHTML (listTree TAG items)) /\
  cbind (latexToHtml katex (listSource env items)) (htmlToLatex parseHTML)
  = Normal (listSource env items).
Proof.
  intros Hin Hi Hp.
  assert (I : innerHTML (listTree TAG items)
              = lit "<" ++ lit tag ++ lit ">" ++ itemsMarkup items
                ++ lit "</" ++ lit tag ++ lit ">").
  { destruct (items_facts items Hi) as (_ & _ & Im).
    unfold listRules in Hin. cbn [In] in Hin.
    destruct Hin as [E|[E|[]]]; injection E as <- <- <-;
      apply innerHTML_list; solve [reflexivity | exact Im]. }
  assert (F := latexToHtml_list katex env tag TAG items Hin Hi). rewrite <- I in F.
  split; [exact I|]. split; [exact F|].
  rewrite F. cbn [cbind]. unfold htmlToLatex.
  replace (isEmpty (innerHTML (listTree TAG items))) with false by (rewrite I; reflexivity).
  rewrite Hp. apply (htmlToLatexNodes_list env tag TAG items Hin Hi).
Qed.

Lemma list_round_trip_witness :
  cbind (latexToHtml None (listSource "enumerate" [lit "first item"; lit "second"]))
    (htmlToLatex (fun _ => listTree "OL" [lit "first item"; lit "second"]))
  = Normal (listSource "enumerate" [lit "first item"; lit "second"]).
Proof.
  refine (proj2 (proj2 (list_round_trip None
            (fun _ => listTree "OL" [lit "first item"; lit "second"])
            "enumerate" "ol" "OL" [lit "first item"; lit "second"] _ _ _))).
  - right. left. reflexivity.
  - repeat constructor; try discriminate; vm_compute; reflexivity.
  - reflexivity.
Defined.

(** ** Links *)

Lemma reHref_here u t :
  includes (lit "}{") u = false -> includes (lit "}") t = false ->
  reHref (lit "\href{" ++ u ++ lit "}{" ++ t ++ lit "}") = Some ((u, t), []).
Proof.
  intros Hu Ht. unfold reHref. rewrite (pbind_Some _ _ _ _ _ (str_app _ _)).
  change (lit "}{") with ([125] ++ [123]) at 2.
  rewrite <- (app_assoc [125] [123]).
  change (u ++ [125] ++ [123] ++ t ++ lit "}") with (u ++ (125 :: [123]) ++ t ++ lit "}").
  rewrite (pbind_Some _ _ _ _ _ (lazyUntil_first 125 [123] u (t ++ lit "}") eq_refl Hu)).
  change (t ++ lit "}") with (t ++ (125 :: []) ++ []).
  rewrite (pbind_Some _ _ _ _ _ (lazyUntil_first 125 [] t [] eq_refl Ht)).
  reflexivity.
Qed.

Lemma latexToHtml_href katex u t :
  words u -> words t ->
  latexToHtml katex (lit "\href{" ++ u ++ lit "}{" ++ t ++ lit "}")
  = Normal (html "<a href='" ++ u ++ html "'>" ++ t ++ lit "</a>").
Proof.
  intros Wu Wt.
  destruct (words_facts u Wu) as (_ & Ub & _ & U92 & U10 & U95 & U36).
  destruct (words_facts t Wt) as (_ & Tb & _ & T92 & T10 & T95 & T36).
  assert (Ub2 : includes (lit "}{") u = false).
  { change (lit "}{") with (125 :: [123]). apply includes_without_first.
    apply (isWordChar_without 125 u eq_refl (proj1 Wu)). }
  forward_at katex "href{"%string (u, t) (reHref_here u t Ub2 Tb)
    ltac:(rewrite ?forallb_app, ?U92, ?T92; reflexivity)
    ltac:(rewrite ?forallb_app, ?U36, ?T36; reflexivity).
  set (c2 := html "<a href='" ++ u ++ html "'>" ++ t ++ lit "</a>").
  assert (F : forallb (fun x => negb (x =? 92)) c2 = true
              /\ forallb (fun x => negb (x =? 10)) c2 = true
              /\ forallb (fun x => negb (x =? 95)) c2 = true)
    by (unfold c2; rewrite !forallb_app, U92, T92, U10, T10, U95, T95;
        repeat split; reflexivity).
  finish_markup c2 F.
Qed.

Lemma htmlToLatexNodes_href u t :
  words u -> words t ->
  htmlToLatexNodes (hrefTree u t)
  = Normal (lit "\href{" ++ u ++ lit "}{" ++ t ++ lit "}").
Proof.
  intros Wu Wt.
  destruct (words_facts u Wu) as (_ & _ & _ & _ & U10 & _).
  destruct (words_facts t Wt) as (_ & _ & _ & _ & T10 & _).
  unfold htmlToLatexNodes, hrefTree, plainElement. cbn [traverseAll].
  rewrite traverse_element by reflexivity.
  rewrite (traverseAll_words t Wt). cbn [cmap cbind].
  change (emit _ _ _ _ t) with (lit "\href{" ++ u ++ lit "}{" ++ t ++ lit "}").
  rewrite app_nil_r. f_equal. apply normalize_line.
  - rewrite !forallb_app, U10, T10. reflexivity.
  - reflexivity.
  - change (lit "}") with [125]. rewrite !app_assoc. apply lastIs_snoc.
Qed.

(** X22. A link, there and back: [\href{u}{t}] with an address and a text
    of words compiles to an anchor with that address and that text, and
    with a parser that reads that markup as that tree [htmlToLatex]
    gives the command back, unchanged. *)
Theorem href_round_trip katex (parseHTML : list N -> list node) u t :
  words u -> words t ->
  parseHTML (innerHTML (hrefTree u t)) = hrefTree u t ->
  innerHTML (hrefTree u t) = html "<a href='" ++ u ++ html "'>" ++ t ++ lit "</a>" /\
  latexToHtml katex (lit "\href{" ++ u ++ lit "}{" ++ t ++ lit "}")
  = Normal (innerHTML (hrefTree u t)) /\
  cbind (latexToHtml katex (lit "\href{" ++ u ++ lit "}{" ++ t ++ lit "}"))
    (htmlToLatex parseHTML)
  = Normal (lit "\href{" ++ u ++ lit "}{" ++ t ++ lit "}").
Proof.
  intros Wu Wt Hp.
  assert (I : innerHTML (hrefTree u t)
              = html "<a href='" ++ u ++ html "'>" ++ t ++ lit "</a>").
  { unfold hrefTree.
    rewrite (innerHTML_element "A" "a" _ _ t eq_refl eq_refl
               (proj1 (proj2 (proj2 (words_facts t Wt))))).
    cbn [serializeAttributes map concat].
    rewrite (escapeAttribute_safe u (proj1 (proj2 (proj2 (words_facts u Wu))))).
    rewrite <- !app_assoc. reflexivity. }
  assert (F := latexToHtml_href katex u t Wu Wt). rewrite <- I in F.
  split; [exact I|]. split; [exact F|].
  rewrite F. cbn [cbind]. unfold htmlToLatex.
  replace (isEmpty (innerHTML (hrefTree u t))) with false by (rewrite I; reflexivity).
  rewrite Hp. apply (htmlToLatexNodes_href u t Wu Wt).
Qed.

Lemma href_round_trip_witness :
  cbind (latexToHtml None (lit "\href{" ++ lit "https://example.org/a" ++ lit "}{"
                           ++ lit "the site" ++ lit "}"))
    (htmlToLatex (fun _ => hrefTree (lit "https://example.org/a") (lit "the site")))
  = Normal (lit "\href{" ++ lit "https://example.org/a" ++ lit "}{"
            ++ lit "the site" ++ lit "}").
Proof.
  refine (proj2 (proj2 (href_round_trip None
            (fun _ => hrefTree (lit "https://example.org/a") (lit "the site"))
            (lit "https://example.org/a") (lit "the site") _ _ _))).
  - split; vm_compute; reflexivity.
  - split; vm_compute; reflexivity.
  - reflexivity.
Defined.

(** ** Colours *)

Lemma existsb_skipn (f : N -> bool) n : forall s,
  existsb f s = false -> existsb f (skipn n s) = false.
Proof.
  induction n as [|n IH]; intros s H; [exact H|]. destruct s as [|c s]; [reflexivity|].
  cbn [existsb skipn] in *. apply orb_false_iff in H as [_ H]. apply (IH s H).
Qed.

Lemma strIgnoreCase_rest (f : N -> bool) p s u r :
  strIgnoreCase p s = Some (u, r) -> existsb f s = false -> existsb f r = false.
Proof.
  unfold strIgnoreCase. destruct (eqs _ _); [|discriminate].
  intros E H. inversion E; subst. apply existsb_skipn, H.
Qed.

Lemma reRgb_needs s x : reRgb s = Some x -> existsb (N.eqb 40) s = true.
Proof.
  unfold reRgb. unfold pbind at 1.
  destruct (strIgnoreCase (lit "rgb") s) as [[[] r1]|] eqn:E1; [|discriminate].
  unfold pbind at 1.
  destruct (optional (strIgnoreCase (lit "a")) r1) as [[[] r2]|] eqn:E2; [|discriminate].
  unfold pbind at 1. unfold str at 1.
  destruct (stripPrefix (lit "(") r2) as [r3|] eqn:E3; [|discriminate].
  intros _. apply stripPrefix_Some in E3.
  destruct (existsb (N.eqb 40) s) eqn:N0; [reflexivity|].
  pose proof (strIgnoreCase_rest _ _ _ _ _ E1 N0) as N1.
  assert (N2 : existsb (N.eqb 40) r2 = false).
  { unfold optional in E2.
    destruct (strIgnoreCase (lit "a") r1) as [[[] r]|] eqn:E4.
    - inversion E2; subst. apply (strIgnoreCase_rest _ _ _ _ _ E4 N1).
    - inversion E2; subst. exact N1. }
  rewrite E3 in N2. discriminate N2.
Qed.

Lemma rgbToHex_without_paren c : existsb (N.eqb 40) c = false -> rgbToHex c = c.
Proof.
  intros H. unfold rgbToHex. destruct (reRgb (trim c)) as [x|] eqn:E; [|reflexivity].
  apply reRgb_needs in E. rewrite (existsb_trim _ _ H) in E. discriminate.
Qed.

Lemma isAlpha_isWordChar c : isAlpha c = true -> isWordChar c = true.
Proof.
  unfold isAlpha. rewrite orb_true_iff, !andb_true_iff, !N.leb_le. intros H.
  assert (E : forall k, (k < 65 \/ (90 < k /\ k < 97) \/ 122 < k) -> (c =? k) = false)
    by (intros k Hk; apply N.eqb_neq; lia).
  assert (L : forall k, k < 65 -> (c <=? k) = false) by (intros; apply N.leb_gt; lia).
  assert (G : forall k, 122 < k -> (k <=? c) = false) by (intros; apply N.leb_gt; lia).
  unfold isWordChar, isSyntax, isMarkup, isWhiteSpace.
  change (lit "\{}$&#%_^~") with [92; 123; 125; 36; 38; 35; 37; 95; 94; 126].
  cbn [existsb]. rewrite ?(N.eqb_sym _ c).
  repeat match goal with
         | |- context [c =? ?k] => rewrite (E k) by lia
         | |- context [c <=? ?k] => rewrite (L k) by lia
         | |- context [?k <=? c] => rewrite (G k) by lia
         end.
  rewrite ?andb_false_r. reflexivity.
Qed.

Lemma letters_words c : forallb isAlpha c = true -> words c.
Proof.
  intros H.
  assert (T : forallb isWordChar c = true).
  { rewrite forallb_forall in *. intros k Hk. apply isAlpha_isWordChar, H, Hk. }
  split; [exact T|]. change (lit "  ") with (32 :: [32]). apply includes_without_first.
  rewrite forallb_forall in *. intros k Hk. apply negb_true_iff, N.eqb_neq. intros ->.
  specialize (H 32 Hk). discriminate H.
Qed.

Lemma includes_needs_char k p s :
  existsb (N.eqb k) p = true -> existsb (N.eqb k) s = false -> includes p s = false.
Proof.
  intros Hp Hs. destruct (includes p s) eqn:E; [|reflexivity].
  apply includes_occursIn in E as (a & b & ->).
  rewrite !existsb_app, Hp in Hs. rewrite orb_true_l, orb_true_r in Hs. discriminate.
Qed.

(** A colour keyword is made of letters, is not [inherit] and holds no
    [black]. *)
Lemma colourName_letters c :
  colourName c ->
  c <> [] /\ forallb isAlpha c = true /\ eqs c (lit "inherit") = false
  /\ includes (lit "black") c = false.
Proof.
  unfold colourName, colourKeywords. cbn [map In]. intros H.
  repeat (destruct H as [<-|H];
          [repeat split; [discriminate | vm_compute; reflexivity ..]|]).
  contradiction.
Qed.

Lemma colourName_facts c :
  colourName c ->
  words c /\ existsb (N.eqb 40) c = false /\ isEmpty c = false.
Proof.
  intros Hc. destruct (colourName_letters c Hc) as (Hne & Ha & _ & _). clear Hc.
  split; [apply letters_words, Ha|]. split.
  - clear Hne. induction c as [|k c IH]; [reflexivity|]. cbn [forallb existsb] in *.
    apply andb_true_iff in Ha as [Hk Ha]. rewrite (IH Ha), orb_false_r.
    apply N.eqb_neq. intros <-. discriminate Hk.
  - destruct c; [contradiction | reflexivity].
Qed.

Lemma styleWrapper_color c :
  colourName c ->
  styleWrapper (mkStyle c [] [] [] []) = (lit "\textcolor{" ++ c ++ lit "}{", lit "}").
Proof.
  intros Hc. destruct (colourName_facts c Hc) as (_ & Hp & He).
  destruct (colourName_letters c Hc) as (_ & _ & Hi & Hb).
  unfold styleWrapper, addColor, addBackground, addAlign, addFamily, addSize.
  cbn [color backgroundColor textAlign fontSize fontFamily].
  rewrite He, Hi, Hb, (rgbToHex_without_paren c Hp). reflexivity.
Qed.

Lemma styleWrapper_background c :
  colourName c ->
  styleWrapper (mkStyle [] c [] [] []) = (lit "\colorbox{" ++ c ++ lit "}{", lit "}").
Proof.
  intros Hc. destruct (colourName_facts c Hc) as (_ & Hp & He).
  destruct (colourName_letters c Hc) as (_ & _ & Hi & _).
  unfold styleWrapper, addColor, addBackground, addAlign, addFamily, addSize.
  cbn [color backgroundColor textAlign fontSize fontFamily].
  rewrite He, Hi, (includes_needs_char 40 (lit "rgba(0, 0, 0, 0)") c eq_refl Hp),
    (rgbToHex_without_paren c Hp).
  reflexivity.
Qed.

Lemma reColored_here name c t :
  c <> [] -> forallb isAlpha c = true -> includes (lit "}") t = false ->
  reColored name (name ++ lit "{" ++ c ++ lit "}{" ++ t ++ lit "}") = Some ((c, t), []).
Proof.
  intros Hne Hc Ht. unfold reColored.
  rewrite (pbind_Some _ _ _ _ _ (str_app _ _)).
  rewrite (pbind_Some _ _ _ _ _ (str_app _ _)).
  assert (E : reColorArg (c ++ lit "}{" ++ t ++ lit "}")
              = Some (c, lit "}{" ++ t ++ lit "}")).
  { unfold reColorArg, many1.
    destruct (takeWhile_app_all isAlpha c (lit "}{" ++ t ++ lit "}") Hc eq_refl) as [E1 E2].
    rewrite E1, E2. destruct c; [contradiction | reflexivity]. }
  rewrite (pbind_Some _ _ _ _ _ E).
  rewrite (pbind_Some _ _ _ _ _ (str_app _ _)).
  change (t ++ lit "}") with (t ++ (125 :: []) ++ []).
  rewrite (pbind_Some _ _ _ _ _ (lazyUntil_first 125 [] t [] eq_refl Ht)).
  reflexivity.
Qed.

Lemma latexToHtml_colour katex cmd prop st c t :
  In (cmd, prop, st) colourRules -> colourName c -> words t ->
  latexToHtml katex (cmd ++ lit "{" ++ c ++ lit "}{" ++ t ++ lit "}")
  = Normal (html "<span style='" ++ prop ++ lit ": " ++ c ++ html "'>" ++ t
            ++ lit "</span>").
Proof.
  intros Hin Hc Wt. destruct (colourName_facts c Hc) as (Wc & _ & _).
  destruct (words_facts c Wc) as (_ & _ & _ & C92 & C10 & C95 & C36).
  destruct (words_facts t Wt) as (_ & Tb & _ & T92 & T10 & T95 & T36).
  destruct (colourName_letters c Hc) as (Hne & Ha & _ & _).
  unfold colourRules in Hin. cbn [In] in Hin.
  destruct Hin as [E|[E|[]]]; injection E as <- <- <-.
  - forward_at katex "textcolor"%string (c, t)
      (reColored_here (lit "\textcolor") c t Hne Ha Tb)
      ltac:(rewrite ?forallb_app, ?C92, ?T92; reflexivity)
      ltac:(rewrite ?forallb_app, ?C36, ?T36; reflexivity).
    set (c2 := html "<span style='color: " ++ c ++ html "'>" ++ t ++ lit "</span>").
    assert (F : forallb (fun x => negb (x =? 92)) c2 = true
                /\ forallb (fun x => negb (x =? 10)) c2 = true
                /\ forallb (fun x => negb (x =? 95)) c2 = true)
      by (unfold c2; rewrite !forallb_app, C92, T92, C10, T10, C95, T95;
          repeat split; reflexivity).
    finish_markup c2 F.
  - forward_at katex "colorbox"%string (c, t)
      (reColored_here (lit "\colorbox") c t Hne Ha Tb)
      ltac:(rewrite ?forallb_app, ?C92, ?T92; reflexivity)
      ltac:(rewrite ?forallb_app, ?C36, ?T36; reflexivity).
    set (c2 := html "<span style='background-color: " ++ c ++ html "'>" ++ t
               ++ lit "</span>").
    assert (F : forallb (fun x => negb (x =? 92)) c2 = true
                /\ forallb (fun x => negb (x =? 10)) c2 = true
                /\ forallb (fun x => negb (x =? 95)) c2 = true)
      by (unfold c2; rewrite !forallb_app, C92, T92, C10, T10, C95, T95;
          repeat split; reflexivity).
    finish_markup c2 F.
Qed.

Lemma htmlToLatexNodes_colour cmd prop st c t :
  In (cmd, prop, st) colourRules -> colourName c -> words t ->
  htmlToLatexNodes (colouredSpan prop (st c) c t)
  = Normal (cmd ++ lit "{" ++ c ++ lit "}{" ++ t ++ lit "}").
Proof.
  intros Hin Hc Wt. destruct (colourName_facts c Hc) as (Wc & _ & _).
  destruct (words_facts c Wc) as (_ & _ & _ & _ & C10 & _).
  destruct (words_facts t Wt) as (_ & _ & _ & _ & T10 & _).
  unfold colourRules in Hin. cbn [In] in Hin.
  destruct Hin as [E|[E|[]]]; injection E as <- <- <-;
    unfold htmlToLatexNodes, colouredSpan, plainElement; cbn [traverseAll];
    rewrite traverse_element by reflexivity;
    rewrite (traverseAll_words t Wt); cbn [cmap cbind style].
  - rewrite (styleWrapper_color c Hc).
    change (emit _ _ _ _ t) with ((lit "\textcolor{" ++ c ++ lit "}{") ++ t ++ lit "}").
    rewrite app_nil_r, <- !app_assoc. f_equal. apply normalize_line.
    + rewrite !forallb_app, C10, T10. reflexivity.
    + reflexivity.
    + change (lit "}") with [125]. rewrite !app_assoc. apply lastIs_snoc.
  - rewrite (styleWrapper_background c Hc).
    change (emit _ _ _ _ t) with ((lit "\colorbox{" ++ c ++ lit "}{") ++ t ++ lit "}").
    rewrite app_nil_r, <- !app_assoc. f_equal. apply normalize_line.
    + rewrite !forallb_app, C10, T10. reflexivity.
    + reflexivity.
    + change (lit "}") with [125]. rewrite !app_assoc. apply lastIs_snoc.
Qed.

Lemma innerHTML_colouredSpan prop st c t :
  existsb isMarkup prop = false -> existsb isMarkup c = false ->
  existsb isMarkup t = false ->
  innerHTML (colouredSpan prop st c t)
  = html "<span style='" ++ prop ++ lit ": " ++ c ++ html "'>" ++ t ++ lit "</span>".
Proof.
  intros Hp Hc Ht. unfold colouredSpan.
  rewrite (innerHTML_element "SPAN" "span" _ _ t eq_refl eq_refl Ht).
  cbn [serializeAttributes map concat].
  rewrite escapeAttribute_safe
    by (rewrite !existsb_app, Hp, Hc; reflexivity).
  rewrite <- !app_assoc. reflexivity.
Qed.

(** X23. Coloured text and text on a coloured ground, there and back:
    [\textcolor{c}{t}] and [\colorbox{c}{t}], for a colour keyword [c] of
    the table and a text of words, compile to one [span] with that colour,
    and with a parser that reads that markup as that tree, the keyword in
    its style, [htmlToLatex] gives the command back, unchanged. *)
Theorem colour_command_round_trip katex (parseHTML : list N -> list node)
  cmd prop st c t :
  In (cmd, prop, st) colourRules -> colourName c -> words t ->
  parseHTML (innerHTML (colouredSpan prop (st c) c t)) = colouredSpan prop (st c) c t ->
  innerHTML (colouredSpan prop (st c) c t)
  = html "<span style='" ++ prop ++ lit ": " ++ c ++ html "'>" ++ t ++ lit "</span>" /\
  latexToHtml katex (cmd ++ lit "{" ++ c ++ lit "}{" ++ t ++ lit "}")
  = Normal (innerHTML (colouredSpan prop (st c) c t)) /\
  cbind (latexToHtml katex (cmd ++ lit "{" ++ c ++ lit "}{" ++ t ++ lit "}"))
    (htmlToLatex parseHTML)
  = Normal (cmd ++ lit "{" ++ c ++ lit "}{" ++ t ++ lit "}").
Proof.
  intros Hin Hc Wt Hp.
  assert (I : innerHTML (colouredSpan prop (st c) c t)
              = html "<span style='" ++ prop ++ lit ": " ++ c ++ html "'>" ++ t
                ++ lit "</span>").
  { apply innerHTML_colouredSpan.
    - unfold colourRules in Hin. cbn [In] in Hin.
      destruct Hin as [E|[E|[]]]; injection E as <- <- <-; reflexivity.
    - apply (words_facts c), (colourName_facts c Hc).
    - apply (words_facts t Wt). }
  assert (F := latexToHtml_colour katex cmd prop st c t Hin Hc Wt). rewrite <- I in F.
  split; [exact I|]. split; [exact F|].
  rewrite F. cbn [cbind]. unfold htmlToLatex.
  replace (isEmpty (innerHTML (colouredSpan prop (st c) c t))) with false
    by (rewrite I; reflexivity).
  rewrite Hp. apply (htmlToLatexNodes_colour cmd prop st c t Hin Hc Wt).
Qed.

Lemma colour_command_round_trip_witness :
  cbind (latexToHtml None (lit "\textcolor" ++ lit "{" ++ lit "red" ++ lit "}{"
                           ++ lit "a warning" ++ lit "}"))
    (htmlToLatex (fun _ => colouredSpan (lit "color") (mkStyle (lit "red") [] [] [] [])
                             (lit "red") (lit "a warning")))
  = Normal (lit "\textcolor" ++ lit "{" ++ lit "red" ++ lit "}{" ++ lit "a warning"
            ++ lit "}").
Proof.
  refine (proj2 (proj2 (colour_command_round_trip None
            (fun _ => colouredSpan (lit "color") (mkStyle (lit "red") [] [] [] [])
                        (lit "red") (lit "a warning"))
            (lit "\textcolor") (lit "color") (fun c => mkStyle c [] [] [] [])
            (lit "red") (lit "a warning") _ _ _ _))).
  - left. reflexivity.
  - unfold colourName, colourKeywords. cbn [map In]. do 11 right. left. reflexivity.
  - split; vm_compute; reflexivity.
  - reflexivity.
Defined.

(** ** Images *)

Lemma reGraphicsOpt_here src :
  includes (lit "}") src = false ->
  reGraphicsOpt (lit "\includegraphics[width=\linewidth]{" ++ src ++ lit "}")
  = Some (src, []).
Proof.
  intros H. unfold reGraphicsOpt.
  change (lit "\includegraphics[width=\linewidth]{" ++ src ++ lit "}")
    with (lit "\includegraphics[" ++ lit "width=\linewidth]{" ++ src ++ lit "}").
  rewrite (pbind_Some _ _ _ _ _ (str_app _ _)).
  assert (E : lazyUntilIn (fun c => negb (isLineTerminator c)) (lit "]{")
                (lit "width=\linewidth]{" ++ src ++ lit "}")
              = Some (lit "width=\linewidth", src ++ lit "}")) by reflexivity.
  rewrite (pbind_Some _ _ _ _ _ E).
  change (src ++ lit "}") with (src ++ (125 :: []) ++ []).
  apply (lazyUntil_first 125 [] src [] eq_refl H).
Qed.

Ltac image_markup src S92 S10 S95 :=
  let c2 := fresh "c2" in
  let F := fresh "F" in
  unfold wrap;
  set (c2 := html "<img src='" ++ src ++ html "' style='max-width:100%' />");
  assert (F : forallb (fun x => negb (x =? 92)) c2 = true
              /\ forallb (fun x => negb (x =? 10)) c2 = true
              /\ forallb (fun x => negb (x =? 95)) c2 = true)
    by (unfold c2; rewrite !forallb_app, S92, S10, S95; repeat split; reflexivity);
  finish_markup c2 F.

Lemma latexToHtml_image katex src :
  words src ->
  latexToHtml katex (lit "\includegraphics{" ++ src ++ lit "}") = Normal (imgMarkup src).
Proof.
  intros W. destruct (words_facts src W) as (_ & Sb & _ & S92 & S10 & S95 & S36).
  forward_at katex "includegraphics{"%string src
    (between_simple (lit "\includegraphics") src Sb)
    ltac:(rewrite ?forallb_app, ?S92; reflexivity)
    ltac:(rewrite ?forallb_app, ?S36; reflexivity).
  image_markup src S92 S10 S95.
Qed.

Lemma latexToHtml_image_width katex src :
  words src ->
  latexToHtml katex (lit "\includegraphics[width=\linewidth]{" ++ src ++ lit "}")
  = Normal (imgMarkup src).
Proof.
  intros W. destruct (words_facts src W) as (_ & Sb & _ & S92 & S10 & S95 & S36).
  forward_core katex
    (fun r => startsWith (lit "includegraphics[") r || startsWith (lit "linewidth]") r)
    "includegraphics["%string src (reGraphicsOpt_here src Sb)
    ltac:(change (everyBackslash
                    (fun r => startsWith (lit "includegraphics[") r
                              || startsWith (lit "linewidth]") r)
                    (92 :: lit "includegraphics[width="
                     ++ 92 :: lit "linewidth]{" ++ src ++ lit "}") = true);
          apply andb_true_iff; split; [reflexivity|];
          rewrite (everyBackslash_skip _ (lit "includegraphics[width=") _ eq_refl);
          apply andb_true_iff; split; [reflexivity|];
          apply everyBackslash_without; rewrite ?forallb_app, ?S92; reflexivity)
    ltac:(rewrite ?forallb_app, ?S36; reflexivity).
  image_markup src S92 S10 S95.
Qed.

Lemma htmlToLatexNodes_image src :
  words src ->
  htmlToLatexNodes (imgTree src)
  = Normal (lit "\includegraphics[width=\linewidth]{" ++ src ++ lit "}").
Proof.
  intros W. destruct (words_facts src W) as (_ & _ & _ & _ & S10 & _).
  unfold htmlToLatexNodes, imgTree, plainElement. cbn [traverseAll].
  rewrite traverse_element by reflexivity. cbn [traverseAll cmap cbind].
  change (emit _ _ _ _ [])
    with (lit "\includegraphics[width=\linewidth]{" ++ src ++ lit "}").
  rewrite app_nil_r. f_equal. apply normalize_line.
  - rewrite !forallb_app, S10. reflexivity.
  - reflexivity.
  - change (lit "}") with [125]. rewrite !app_assoc. apply lastIs_snoc.
Qed.

(** X24. An image comes back with the width option: [\includegraphics{src}]
    and [\includegraphics[width=\linewidth]{src}], for a path of words,
    compile to the same [img], and with a parser that reads that markup
    as the tree of an [img] with that [src], [htmlToLatex] writes the
    second spelling, whichever one was compiled. *)
Theorem image_comes_back_with_width katex (parseHTML : list N -> list node) src :
  words src ->
  parseHTML (imgMarkup src) = imgTree src ->
  latexToHtml katex (lit "\includegraphics{" ++ src ++ lit "}") = Normal (imgMarkup src) /\
  latexToHtml katex (lit "\includegraphics[width=\linewidth]{" ++ src ++ lit "}")
  = Normal (imgMarkup src) /\
  cbind (latexToHtml katex (lit "\includegraphics{" ++ src ++ lit "}"))
    (htmlToLatex parseHTML)
  = Normal (lit "\includegraphics[width=\linewidth]{" ++ src ++ lit "}").
Proof.
  intros W Hp. pose proof (latexToHtml_image katex src W) as F.
  split; [exact F|]. split; [apply (latexToHtml_image_width katex src W)|].
  rewrite F. cbn [cbind]. unfold htmlToLatex.
  change (isEmpty (imgMarkup src)) with false. cbv iota.
  rewrite Hp. apply (htmlToLatexNodes_image src W).
Qed.

Lemma image_comes_back_with_width_witness :
  cbind (latexToHtml None (lit "\includegraphics{" ++ lit "figures/plot.png" ++ lit "}"))
    (htmlToLatex (fun _ => imgTree (lit "figures/plot.png")))
  = Normal (lit "\includegraphics[width=\linewidth]{" ++ lit "figures/plot.png" ++ lit "}").
Proof.
  refine (proj2 (proj2 (image_comes_back_with_width None
            (fun _ => imgTree (lit "figures/plot.png")) (lit "figures/plot.png") _ _))).
  - split; vm_compute; reflexivity.
  - reflexivity.
Defined.

(** ** Line breaks *)

Lemma latexToHtml_line_break katex a b :
  words a -> words b -> a <> [] ->
  existsb (fun o => startsWith (lit o) b) commandNames = false ->
  latexToHtml katex (a ++ lit "\\" ++ b) = Normal (a ++ lit "<br/>" ++ b).
Proof.
  intros Wa Wb Hne Hb.
  destruct (words_facts a Wa) as (_ & _ & _ & A92 & A10 & A95 & A36).
  destruct (words_facts b Wb) as (_ & _ & _ & B92 & B10 & B95 & B36).
  pose (ok := fun r => startsWith [92] r
                       || negb (existsb (fun o => startsWith (lit o) r) commandNames)).
  set (s := a ++ lit "\\" ++ b).
  assert (Hs : everyBackslash ok s = true).
  { unfold s. rewrite (everyBackslash_skip ok a _ A92).
    change (lit "\\" ++ b) with (92 :: 92 :: b). cbn [everyBackslash].
    rewrite N.eqb_refl. apply andb_true_iff. split; [reflexivity|].
    apply andb_true_iff. split.
    - unfold ok. rewrite Hb. apply orb_true_r.
    - apply everyBackslash_without, B92. }
  assert (Hr : rejects ok (commandsBut "\"))
    by (unfold rejects; let l := eval vm_compute in (commandsBut "\") in
        change (commandsBut "\") with l;
        repeat (apply Forall_cons; [intros ?; reflexivity|]); apply Forall_nil).
  assert (Hd : precededByBackslash (N.eqb 36) None s = true)
    by (apply dollars_without; unfold s; rewrite !forallb_app, A36, B36; reflexivity).
  assert (P : protectBlocks katex s [] = Normal (s, []))
    by (apply (protectBlocks_untouched katex _ s [] Hs
                 (rejects_sub _ _ protectNames Hr eq_refl) Hd)).
  assert (S1 : replaceAll (lit "\\") (lit "<br/>") s = a ++ lit "<br/>" ++ b).
  { unfold replaceAll, s.
    apply (replaceWith_one_hit (anywhere (str (92 :: [92]))) 92
             (fun _ : unit => lit "<br/>") a (lit "\\") b tt).
    - apply productive_str.
    - apply opensWith_str.
    - exact A92.
    - exact B92.
    - apply str_app. }
  unfold latexToHtml.
  replace (isEmpty s) with false by (unfold s; destruct a; [contradiction | reflexivity]).
  unfold between at 1.
  rewrite search_absent by (absent Hs Hr).
  rewrite (bind_Normal _ _ _ _ _ P). unfold restoreAll. cbv beta iota. f_equal.
  unfold formatting, sizeRule.
  repeat skip_format s Hs Hr.
  unfold spacingFix. rewrite S1.
  set (c2 := a ++ lit "<br/>" ++ b).
  assert (F : forall k, forallb (fun x => negb (x =? k)) a = true ->
                        forallb (fun x => negb (x =? k)) b = true ->
                        forallb (fun x => negb (x =? k)) (lit "<br/>") = true ->
                        forallb (fun x => negb (x =? k)) c2 = true)
    by (intros k Ka Kb Kl; unfold c2; rewrite !forallb_app, Ka, Kb, Kl; reflexivity).
  fold (newlinesToSpaces c2). rewrite (newlinesToSpaces_id c2 (F 10 A10 B10 eq_refl)).
  rewrite (unescapeLatex_without_backslash c2 (existsb_without _ _ (F 92 A92 B92 eq_refl))).
  apply restore_without_token.
  change (lit "__PROTECTED_BLOCK_") with (95 :: lit "_PROTECTED_BLOCK_").
  apply includes_without_first, (F 95 A95 B95 eq_refl).
Qed.

Lemma htmlToLatexNodes_line_break a b :
  words a -> words b -> trimmed a -> trimmed b ->
  htmlToLatexNodes (lineBreakTree a b) = Normal (a ++ b).
Proof.
  intros Wa Wb (Ha & Hfa & _) (Hb & _ & Hlb).
  destruct (words_facts a Wa) as (_ & _ & _ & _ & A10 & _).
  destruct (words_facts b Wb) as (_ & _ & _ & _ & B10 & _).
  unfold htmlToLatexNodes, lineBreakTree. cbn [traverseAll].
  rewrite (traverse_words a Wa), (traverse_words b Wb). cbn [cbind].
  unfold plainElement. rewrite traverse_element by reflexivity.
  cbn [traverseAll cmap cbind]. change (emit _ _ _ _ []) with (@nil N).
  rewrite app_nil_r. cbn [app]. f_equal. apply normalize_line.
  - rewrite forallb_app, A10, B10. reflexivity.
  - rewrite firstIs_app by exact Ha. exact Hfa.
  - rewrite lastIs_app by exact Hb. exact Hlb.
Qed.

(** X25. A line break does not come back from the visual editor: [a\\b],
    for two texts of words that are not empty and have no space at
    either end, the second one not starting with the name of a command,
    compiles to the two texts with a [br] between them, and with a
    parser that reads that markup as that tree [htmlToLatex] gives the
    two texts with nothing between them. *)
Theorem line_break_does_not_come_back katex (parseHTML : list N -> list node) a b :
  words a -> words b -> trimmed a -> trimmed b ->
  existsb (fun o => startsWith (lit o) b) commandNames = false ->
  parseHTML (a ++ lit "<br/>" ++ b) = lineBreakTree a b ->
  latexToHtml katex (a ++ lit "\\" ++ b) = Normal (a ++ lit "<br/>" ++ b) /\
  cbind (latexToHtml katex (a ++ lit "\\" ++ b)) (htmlToLatex parseHTML)
  = Normal (a ++ b).
Proof.
  intros Wa Wb Ta Tb Hb Hp.
  pose proof (latexToHtml_line_break katex a b Wa Wb (proj1 Ta) Hb) as F.
  split; [exact F|]. rewrite F. cbn [cbind]. unfold htmlToLatex.
  replace (isEmpty (a ++ lit "<br/>" ++ b)) with false
    by (destruct a; [destruct Ta as [Ta _]; contradiction | reflexivity]).
  rewrite Hp. apply (htmlToLatexNodes_line_break a b Wa Wb Ta Tb).
Qed.

Lemma line_break_does_not_come_back_witness :
  cbind (latexToHtml None (lit "first line" ++ lit "\\" ++ lit "second line"))
    (htmlToLatex (fun _ => lineBreakTree (lit "first line") (lit "second line")))
  = Normal (lit "first line" ++ lit "second line").
Proof.
  refine (proj2 (line_break_does_not_come_back None
            (fun _ => lineBreakTree (lit "first line") (lit "second line"))
            (lit "first line") (lit "second line") _ _ _ _ _ _)).
  - split; vm_compute; reflexivity.
  - split; vm_compute; reflexivity.
  - repeat split; [discriminate | ..]; vm_compute; reflexivity.
  - repeat split; [discriminate | ..]; vm_compute; reflexivity.
  - vm_compute. reflexivity.
  - reflexivity.
Defined.

(** ** Texts without surrogates *)

Lemma latexToHtml_returns_witness :
  exists out,
    latexToHtml None (lit "\section{A} $x_1$ \begin{itemize}\item a\end{itemize}")
    = Normal out.
Proof.
  apply (latexToHtml_returns None
           (lit "\section{A} $x_1$ \begin{itemize}\item a\end{itemize}")).
  vm_compute. reflexivity.
Defined.
